(* ===== verification/_CoqProject ===== *)
-Q . S2P
Prelude.v
JsString.v
JsNumber.v
JsValue.v
Json.v
NumberText.v
JsRegex.v
StatusRules.v
AuthSync.v
AuthStore.v
AuthRefresh.v
AuthProps.v
AuthSpec.v
PgMessage.v
PgMessageProps.v
PgStream.v
PgStreamProps.v
PgChat.v
PgChatProps.v
PgStorage.v
BillingExpr.v
BillingProps.v
BillingSplit.v
BillingCombine.v
CustomRoutes.v
CustomRoutesProps.v
JsArray.v
Flow.v
FlowProps.v
FlowConserve.v
FlowSelect.v
RatioSync.v
RatioSyncProps.v
Sidebar.v
SidebarProps.v
TableState.v
TableStateProps.v
Payment.v
TierExpr.v
RegexPass.v
TierProps.v
ParamOverride.v
ParamOverrideProps.v
ParamOverrideTrip.v
Programs.v
Uri.v
SyncMerge.v
Gossip.v
CanvasSync.v
CanvasStore.v
Webdav.v
WebdavProps.v
Pool.v
CanvasSyncProps.v
CanvasMedia.v
CanvasConverge.v
CanvasStoreProps.v
CanvasTheorems.v
CanvasGraph.v
CanvasPrompt.v
CanvasPromptProps.v
CanvasGraphProps.v
CanvasEditor.v
CanvasHistory.v
CanvasSound.v
CanvasFiles.v
CanvasGenerate.v
CanvasLoading.v
CanvasFlights.v
CanvasGenerateProps.v
