(* ===== verification/Prelude.v ===== *)
(** * Verification of the web console

    The repository is an API gateway: a server in Go and a web console in
    TypeScript under [web/].  This development models the parts of the console
    that carry logic of their own (file names below are under [web/src/]) and
    proves them correct, or states what is wrong with them.

    ** Foundations

    - [Prelude] (this file): tactics, hints, lists without duplicates
      ([new Set]), objects as insertion-ordered association lists ([omap]).
    - [JsString]: strings as lists of UTF-16 units, with the methods the sources
      use; literals [js] decode UTF-8.
    - [JsNumber]: numbers as IEEE doubles ([SpecFloat]), exact decimal reading.
    - [JsArray]: stable [sort] with a comparator, and the order of numbers.
    - [JsValue]: JSON values, [JSON.parse] and quoting, property access.
    - [Json], [NumberText]: [JSON.stringify], and that plain values and safe
      integers are read back as they were written.
    - [Uri]: UTF-8, [encodeURIComponent] and [btoa].
    - [Programs]: asynchronous code that returns or throws, on a state.
    - [JsRegex]: regular expressions with captures, back references and greedy
      backtracking, as [String.match] and [matchAll] run them, and the lemmas
      that step through a match.

    ** Components

    - [StatusRules]: [lib/http-status-code-rules.ts].  Shown: the parsed ranges
      are sorted, apart and cover exactly the codes written; errors are the
      offending tokens; the normalised text parses to the same ranges.
    - [AuthSync], [AuthStore], [AuthRefresh], [AuthProps], [AuthSpec]:
      [lib/auth-session-sync.ts], [stores/auth-store.ts], [lib/auth-session.ts].
      A refresh is a program suspended at its requests and waits ([Runner]),
      run over the store ([Tab.runRefresh]) or interleaved with every other
      operation of the tab and with further callers ([Tab.step]).  Shown: it
      ends after a bounded number of requests, its outcome is what the store
      shows, token and session are stored and removed together in every
      interleaving, a superseded refresh changes nothing, a sign-out is final,
      callers share one flight, are all answered together, and the flight ends
      whatever the responses, rotation keeps its contract, failures of the lock are survived, headers handed out carry a
      live token, and events reach exactly the other tabs.  All of it
      together refines an abstract session ([AuthSpec]) that knows only who is
      signed in and whether a renewal still counts.
    - [PgMessage], [PgMessageProps]: [features/playground/lib/message/].
      Shown: the split of a text at its think tags, the accumulation of
      streamed chunks, the chunk that is wrongly dropped, and the repair of
      interrupted replies.
    - [PgStream], [PgStreamProps]: [features/playground/hooks/use-stream-request.ts]
      and [lib/streaming/].  The controller of one stream as a step function
      with its effects.  Shown: the protocol of its callbacks, and silence
      after a stop.
    - [PgChat], [PgChatProps]: [hooks/use-chat-handler.ts] and
      [hooks/use-playground-conversation.ts].  React's deferred updates are a
      queue run at the next render.  Shown: a stop freezes the messages,
      completion shows the last chunks, a stop loses them, and what a request
      carries.
    - [PgStorage]: [lib/storage/].  Shown: what is kept when a stored
      conversation is trimmed, and that what is loaded respects the limits.
    - [BillingExpr], [BillingProps], [BillingSplit], [BillingCombine]:
      [features/pricing/lib/billing-expr.ts].  Shown: request rules over plain
      names are read back exactly, except comparisons of a parameter with a number
      and a parameter that contains a text; base and rules are separated again.
    - [TierExpr], [RegexPass], [TierProps]: [features/pricing/lib/tier-expr.ts];
      [RegexPass] holds the lemmas on matches that succeed along the text an
      expression was written for.  Shown: what the editor of tiers writes, it
      reads back.  Compiling an expression for the cost preview is a parameter.
    - [CustomRoutes], [CustomRoutesProps]:
      [features/channels/lib/advanced-custom.ts].  Shown: what the validation
      of a route table accepts, which route it blames, that normalising settles,
      and that what the editor suggests is accepted.
    - [ParamOverride], [ParamOverrideProps], [ParamOverrideTrip]: the editor of
      parameter overrides,
      [features/channels/components/dialogs/param-override-editor-dialog.tsx],
      as a state with its events ([handle]).  Shown: whatever the user does, the
      rules and the selection stay sound; what is saved is complete; rules in
      normal form are read back, and what is not in normal form is changed; rules
      of the form for pruning cannot be edited.
    - [Flow], [FlowProps], [FlowConserve], [FlowSelect]:
      [features/dashboard/lib/flow.ts] from the rows to the graph and the filter
      options.  Shown: a node shows the sum of the rows through it, what enters
      an inner node leaves it, the limit on nodes bounds every stage, the view is
      built from exactly the rows that the selections keep, and every link joins
      nodes of neighbouring stages.
    - [RatioSync], [RatioSyncProps]: [features/system-settings/models/], the
      helpers, table and page of the synchronisation of prices with upstream
      channels.  The page is a state with its handlers ([page_step]).  Shown: in
      every reachable page no model mixes two kinds of billing, applying sends
      exactly the choices and keeps every model billed in one way, a batch of
      selections is their sequence, and the box of a source tells the truth.
    - [Sidebar], [SidebarProps]: [hooks/use-sidebar-config.ts].  Shown: exactly
      the enabled entries are shown (links, with or without [configUrls],
      sub-items and chat presets), users can only hide, and what a stored setting
      of any shape resolves to.
    - [TableState], [TableStateProps]: [hooks/use-table-url-state.ts].  Shown:
      every handler leaves a state that reloading the page restores, and filters
      are shown as asked for by columns that can read what they write, as those of
      the usage logs and of the channels, whose parameters are modelled too.
    - [Payment]: [features/wallet/lib/payment.ts].  Shown: the discount of an
      amount is that of the highest threshold it reaches.
    - The infinite canvas, under [web/infinite-canvas/src/]:
      [SyncMerge], [CanvasSync], [CanvasSyncProps], [CanvasMedia],
      [CanvasConverge], [CanvasTheorems]: [services/app-sync.ts], a domain
      synchronised with a WebDAV server.  A program runs on a [World] (server,
      stored media, local data, and what the user does during each request) and
      relies on the class [Webdav].  [Gossip] is the abstract specification:
      replicas of a last-writer-wins map that join with a hub.  Shown: the code
      refines it and devices converge that synchronise one at a time, without
      edits meanwhile and, for projects and assets, with failing attempts in
      between; an attempt that fails loses no version; media follow the items and the
      manifest lists only what is stored; what the code does lose is shown by
      examples ([CanvasTheorems.Findings]).
      [Pool]: [runWithConcurrency] as a step machine; every task runs once, at
      most so many at a time, and all results are there at the end.
      [Webdav], [WebdavProps]: [services/webdav-sync.ts] against the class
      [HttpServer] of servers that keep the protocol; the client provides
      [Webdav], and a server in memory shows that the class is inhabited.
      [CanvasStore], [CanvasStoreProps]: the stores of projects and assets, the
      delayed saving, and the media with their clean-up.  Shown: saved projects
      are read back, actions keep what the synchronisation needs, and exactly
      what is referred to survives the clean-up.
      [CanvasGraph], [CanvasGraphProps], [CanvasPrompt], [CanvasPromptProps]:
      nodes, connections and groups, what feeds a generation and the prompt that
      is composed of it ([lib/canvas/], [canvas-node-generation.ts]).  Shown: the
      composed prompt is numbering the mentioned resources and substituting their
      names, and the search for the source of a retry ends and is exact.
      [CanvasEditor]: the page of a project ([pages/canvas/project.tsx]) as a
      machine over the events of the user and the timers; arrays carry an
      identity, as the effects of the page compare identities.
      [CanvasHistory]: edits, drags, undo and redo refine a list with a place in
      it, as long as the timers run between actions and drags end with the mouse
      released after more than three pixels; what goes wrong otherwise is shown
      too.  [CanvasSound]: in every order of events the document, the saved one and
      those in the history are sound graphs, if references are picked only while
      the node that picks them is there.  [CanvasFiles]: what a deletion
      makes the stores clean up, and that undo still finds its files.
      [CanvasGenerate], [CanvasLoading], [CanvasFlights], [CanvasGenerateProps]:
      [handleGenerateNode] as flights beside the page, which answers of the
      services reach in any order.  Shown: a node that is loading has a flight
      that will settle it and a request that stopping finds, unless nodes that
      load are copied or brought back or are generated for twice, and what images
      end as whatever the order of their answers, in a new node or in the node
      itself; the examples show where a node is left loading.

    ** Modelling choices

    Effects are explicit: state is passed, errors are sums or options, awaits
    are constructors of a continuation, and events of the environment (answers
    of the server, timers, locks, other tabs) arrive in any order as arguments
    of a step function.  Clocks, fresh identifiers, the network, the lock
    manager and the URL parser are arguments, and so are [localeCompare], [toLowerCase], the
    number formats of [Intl] and the colour schemes of the charts.

    Some things that the platform may interleave are one step: the microtasks
    between the last answer of a refresh and its [finally], the updates of one
    message of a stream, and the synchronisation of one device, so that two
    devices that write the manifest at once are not covered.  Of a file in a
    manifest the four fields that the code uses are kept.

    Fuel occurs where recursion is not structural: [Runner.run] allows 15
    awaits, and [refresh_terminates] shows that a refresh never needs more and sends at most 8
    requests; [think_loop] gets one more turn than the text has units, and every
    turn consumes a tag; [unwrap_loop] gets the length of the text, and every
    turn removes two units; the star of [JsRegex] iterates at most as often as
    units remain, as an iteration that consumes nothing is refused; [digits_go]
    gets the number of bits; [retry_loop] gets twice the number of connections,
    and [retry_source] shows that it never needs more.

    ** Not modelled

    The server (Go), React components, API wrappers, translations and generated
    routes, number and currency formatting through [Intl], form schemas of the
    third-party validator, and the JSON text that the playground stores.  Next in the
    plan: the validation of model mappings, the old addresses of routes and the
    families of plans.  Of [flow.ts] the chart specification
    and the reading of chart events are left out.  Of the infinite canvas what
    is drawn, the view and its shortcuts, uploads of files, retrying and the
    requests to generation services are left out, and the four domains are synchronised one
    at a time: in [CanvasSync] a task that throws ends the program, while the
    tasks already under way go on in [Pool]. *)

From Stdlib Require Export ZArith Lia.
From stdpp Require Export prelude.

(** * Automation *)

Create HintDb gate.

(** Case analysis on every [match], [if] and [decide] of the goal, closing the
    branches that congruence or linear arithmetic refutes. *)
Ltac cases :=
  repeat (case_match || case_decide || case_bool_decide);
  simplify_eq/=; try done; try lia.

(** Turn boolean connectives in the hypotheses and the goal into propositions. *)
Ltac breflect :=
  repeat match goal with
  | H : (_ && _)%bool = true |- _ => apply andb_true_iff in H as [? ?]
  | H : (_ || _)%bool = false |- _ => apply orb_false_iff in H as [? ?]
  | H : negb _ = true |- _ => apply negb_true_iff in H
  | H : negb _ = false |- _ => apply negb_false_iff in H
  | H : bool_decide _ = true |- _ => apply bool_decide_eq_true in H
  | H : bool_decide _ = false |- _ => apply bool_decide_eq_false in H
  end.

(** * Filters *)

Lemma filter_id {A} (P : A → Prop) `{!∀ x, Decision (P x)} (l : list A) :
  Forall P l → filter P l = l.
Proof. induction 1; [done|]. rewrite filter_cons, decide_True by done. by f_equal. Qed.

Lemma filter_none {A} (P : A → Prop) `{!∀ x, Decision (P x)} (l : list A) :
  Forall (λ x, ¬ P x) l → filter P l = [].
Proof. induction 1; [done|]. by rewrite filter_cons, decide_False by done. Qed.

Lemma filter_nil_iff {A} (P : A → Prop) `{!∀ x, Decision (P x)} (l : list A) :
  filter P l = [] ↔ Forall (λ x, ¬ P x) l.
Proof.
  split; [|apply filter_none]. induction l as [|x l IH]; [done|].
  rewrite filter_cons. case_decide; [done|]. by constructor; [|apply IH].
Qed.

(** * Lists without duplicates, in order of first occurrence

    [new Set(xs)] iterates the first occurrences of [xs] in order. *)

Section uniq.
Context {A : Type} `{EqDecision A}.
Implicit Types (x y : A) (l acc : list A).

(** [set.add(x)] *)
Definition set_add (acc : list A) (x : A) : list A :=
  if decide (x ∈ acc) then acc else acc ++ [x].

(** [new Set(l)] and [Array.from(new Set(l))] *)
Definition uniq (l : list A) : list A := foldl set_add [] l.

Lemma elem_of_set_add acc x y : y ∈ set_add acc x ↔ y ∈ acc ∨ y = x.
Proof.
  unfold set_add. case_decide; [naive_solver|].
  rewrite elem_of_app, list_elem_of_singleton. naive_solver.
Qed.

Lemma NoDup_set_add acc x : NoDup acc → NoDup (set_add acc x).
Proof.
  unfold set_add. case_decide; [done|]. intros.
  apply NoDup_app. split_and!; [done| |apply NoDup_singleton].
  intros z ? ->%list_elem_of_singleton. done.
Qed.

Lemma elem_of_foldl_set_add l acc y : y ∈ foldl set_add acc l ↔ y ∈ acc ∨ y ∈ l.
Proof.
  revert acc. induction l as [|x l IH]; intros acc; simpl; [set_solver|].
  rewrite IH, elem_of_set_add, elem_of_cons. naive_solver.
Qed.

Lemma NoDup_foldl_set_add l acc : NoDup acc → NoDup (foldl set_add acc l).
Proof.
  revert acc. induction l as [|x l IH]; intros acc ?; simpl; [done|].
  by apply IH, NoDup_set_add.
Qed.

Lemma elem_of_uniq l y : y ∈ uniq l ↔ y ∈ l.
Proof. unfold uniq. rewrite elem_of_foldl_set_add. set_solver. Qed.

Lemma NoDup_uniq l : NoDup (uniq l).
Proof. apply NoDup_foldl_set_add, NoDup_nil_2. Qed.

Lemma foldl_set_add_NoDup l acc :
  NoDup (acc ++ l) → foldl set_add acc l = acc ++ l.
Proof.
  revert acc. induction l as [|x l IH]; intros acc Hnd; simpl.
  { by rewrite app_nil_r. }
  assert (x ∉ acc) as Hx.
  { apply NoDup_app in Hnd as (_ & Hd & _). intros ?. by eapply Hd; [|left]. }
  unfold set_add. rewrite decide_False by done.
  rewrite IH; rewrite <- app_assoc; done.
Qed.

Lemma uniq_NoDup l : NoDup l → uniq l = l.
Proof. intros. by apply (foldl_set_add_NoDup l []). Qed.

Lemma uniq_idemp l : uniq (uniq l) = uniq l.
Proof. apply uniq_NoDup, NoDup_uniq. Qed.

Lemma foldl_set_add_sublist l acc : acc `prefix_of` foldl set_add acc l.
Proof.
  revert acc. induction l as [|x l IH]; intros acc; simpl; [done|].
  etrans; [|apply IH]. unfold set_add. case_decide; [done|].
  by apply prefix_app_r.
Qed.
End uniq.

#[export] Hint Resolve NoDup_uniq NoDup_set_add : gate.

(** * Insertion-ordered maps

    A JavaScript [Map] iterates its entries in insertion order; [set] on a
    present key keeps the entry's place. *)

Module omap.
Section omap.
Context {K V : Type} `{EqDecision K}.
Implicit Types (k : K) (v : V) (m : list (K * V)).

Fixpoint get (m : list (K * V)) (k : K) : option V :=
  match m with
  | [] => None
  | (k', v) :: m => if decide (k = k') then Some v else get m k
  end.

Fixpoint set (m : list (K * V)) (k : K) (v : V) : list (K * V) :=
  match m with
  | [] => [(k, v)]
  | (k', v') :: m => if decide (k = k') then (k, v) :: m else (k', v') :: set m k v
  end.

Definition has (m : list (K * V)) (k : K) : bool :=
  match get m k with Some _ => true | None => false end.

Lemma get_set_eq m k v : get (set m k v) k = Some v.
Proof.
  induction m as [|[k' v'] m IH]; simpl; [by rewrite decide_True|].
  case_decide; simpl; [by rewrite decide_True|]. by rewrite decide_False.
Qed.

Lemma get_set_ne m k k' v : k ≠ k' → get (set m k v) k' = get m k'.
Proof.
  intros. induction m as [|[k'' v'] m IH]; simpl; [by rewrite decide_False|].
  case_decide; simpl; repeat case_decide; congruence.
Qed.

Lemma get_None m k : get m k = None ↔ k ∉ m.*1.
Proof.
  induction m as [|[k' v] m IH]; simpl; [set_solver|].
  rewrite not_elem_of_cons. case_decide; naive_solver.
Qed.

Lemma get_Some_elem m k v : get m k = Some v → (k, v) ∈ m.
Proof.
  induction m as [|[k' v'] m IH]; simpl; [done|].
  case_decide; intros; simplify_eq; [left|right; auto].
Qed.

Lemma set_fresh m k v : get m k = None → set m k v = m ++ [(k, v)].
Proof.
  induction m as [|[k' v'] m IH]; simpl; [done|].
  case_decide; [done|]. intros. by rewrite IH.
Qed.

Lemma set_keys m k v :
  (set m k v).*1 = if decide (k ∈ m.*1) then m.*1 else m.*1 ++ [k].
Proof.
  induction m as [|[k' v'] m IH]; [by rewrite decide_False by apply not_elem_of_nil|].
  change ((set ((k', v') :: m) k v).*1) with
    ((if decide (k = k') then (k, v) :: m else (k', v') :: set m k v).*1).
  destruct (decide (k = k')) as [Hk|Hk]; rewrite !fmap_cons; cbn [fst].
  - subst. rewrite decide_True by (rewrite elem_of_cons; by left). done.
  - rewrite IH. destruct (decide (k ∈ m.*1)).
    + by rewrite decide_True by (rewrite elem_of_cons; by right).
    + rewrite decide_False; [done|]. by rewrite not_elem_of_cons.
Qed.

Lemma NoDup_set m k v : NoDup m.*1 → NoDup (set m k v).*1.
Proof.
  intros. rewrite set_keys. case_decide; [done|].
  apply NoDup_app. split_and!; [done| |apply NoDup_singleton].
  intros x ? ->%list_elem_of_singleton. done.
Qed.

Lemma elem_get m k v : NoDup m.*1 → (k, v) ∈ m → get m k = Some v.
Proof.
  induction m as [|[k' v'] m IH]; simpl; [set_solver|].
  intros [Hk Hnd]%NoDup_cons [?|?]%elem_of_cons; simplify_eq.
  - by rewrite decide_True.
  - rewrite decide_False; [by apply IH|]. intros ->. apply Hk.
    apply list_elem_of_fmap. by exists (k', v).
Qed.

(** Updating an entry in place splits the map around it. *)
Lemma set_present m k v w :
  get m k = Some w →
  ∃ m1 m2, m = (m1 ++ ((k, w) :: m2)) ∧ (k ∉ m1.*1) ∧ set m k v = (m1 ++ ((k, v) :: m2)).
Proof.
  induction m as [|[k' v'] m IH]; simpl; [done|].
  case_decide as Hk; intros Hg; simplify_eq.
  - exists [], m. set_solver.
  - destruct (IH Hg) as (m1 & m2 & -> & ? & ->).
    exists ((k', v') :: m1), m2. split_and!; [done|set_solver|done].
Qed.
End omap.
End omap.

#[export] Hint Resolve omap.NoDup_set : gate.
