(* ===== verification/JsString.v ===== *)
(** JavaScript strings as sequences of UTF-16 code units, with the methods of
    [String.prototype] and [Array.prototype] that the modelled code calls.

    A string is a [list N] of code units; a Rocq literal is read as UTF-8 and
    turned into UTF-16 by [js], so [js "，"] is the one unit 65292. *)

From Stdlib Require Import NArith.
From stdpp Require Export strings.
From S2P Require Import Prelude.

Abbreviation jstr := (list N).

(** * Literals *)

Definition utf16_units (c : N) : jstr :=
  if (c <? 65536)%N then [c]
  else let d := (c - 65536)%N in
       [(55296 + d / 1024)%N; (56320 + d mod 1024)%N].

Fixpoint utf16_of_bytes (bs : list N) : jstr :=
  match bs with
  | [] => []
  | b0 :: r0 =>
      if (b0 <? 128)%N then b0 :: utf16_of_bytes r0
      else match r0 with
      | [] => []
      | b1 :: r1 =>
          if (b0 <? 224)%N
          then utf16_units ((b0 - 192) * 64 + (b1 - 128)) ++ utf16_of_bytes r1
          else match r1 with
          | [] => []
          | b2 :: r2 =>
              if (b0 <? 240)%N
              then utf16_units ((b0 - 224) * 4096 + (b1 - 128) * 64 + (b2 - 128))
                     ++ utf16_of_bytes r2
              else match r2 with
              | [] => []
              | b3 :: r3 =>
                  utf16_units ((b0 - 240) * 262144 + (b1 - 128) * 4096
                                 + (b2 - 128) * 64 + (b3 - 128))
                    ++ utf16_of_bytes r3
              end
          end
      end
  end.

Definition js (s : string) : jstr :=
  utf16_of_bytes (Ascii.N_of_ascii <$> String.list_ascii_of_string s).

(** Literals stay folded in proofs; [vm_compute] and conversion still see them. *)
#[global] Arguments js _ : simpl never.

(** The code unit of the double quote, which no literal of this development
    contains. *)
Definition QUOTE : N := 34.

(** A literal with double quotes, written as apostrophes *)
Definition jq (s : string) : jstr := (λ c, if (c =? 39)%N then QUOTE else c) <$> js s.

#[global] Arguments jq : simpl never.

(** * Truthiness and white space *)

(** [Boolean(s)] *)
Definition truthy (s : jstr) : bool :=
  match s with [] => false | _ :: _ => true end.

(** WhiteSpace and LineTerminator of ECMA-262: what [trim] removes and what
    [\s] matches. *)
Definition is_ws (c : N) : bool :=
  ((9 <=? c) && (c <=? 13))%N || (c =? 32)%N || (c =? 160)%N || (c =? 5760)%N
  || ((8192 <=? c) && (c <=? 8202))%N || (c =? 8232)%N || (c =? 8233)%N
  || (c =? 8239)%N || (c =? 8287)%N || (c =? 12288)%N || (c =? 65279)%N.

(** [\d] *)
Definition is_digit (c : N) : bool := ((48 <=? c) && (c <=? 57))%N.

Fixpoint trimStart (s : jstr) : jstr :=
  match s with
  | [] => []
  | c :: r => if is_ws c then trimStart r else s
  end.

Definition trimEnd (s : jstr) : jstr := reverse (trimStart (reverse s)).

Definition trim (s : jstr) : jstr := trimEnd (trimStart s).

(** * Searching *)

Definition startsWith (s p : jstr) : bool := bool_decide (p `prefix_of` s).
Definition endsWith (s p : jstr) : bool := bool_decide (p `suffix_of` s).

(** [s.indexOf(p)], [None] for -1 *)
Fixpoint indexOf (s p : jstr) : option nat :=
  if startsWith s p then Some 0
  else match s with
       | [] => None
       | _ :: r => S <$> indexOf r p
       end.

(** [s.indexOf(p, from)] *)
Definition indexOf_from (s p : jstr) (from : nat) : option nat :=
  (λ i, from + i) <$> indexOf (drop from s) p.

Definition includes (s p : jstr) : bool :=
  match indexOf s p with Some _ => true | None => false end.

(** [s.slice(a, b)] and [s.slice(a)] for indices counted from the start *)
Definition slice {A} (s : list A) (a b : nat) : list A := take (b - a) (drop a s).
Definition slice_from {A} (s : list A) (a : nat) : list A := drop a s.

(** * Splitting and joining *)

(** [s.split(c)] for a separator of one code unit *)
Fixpoint split_unit (c : N) (s : jstr) : list jstr :=
  match s with
  | [] => [[]]
  | x :: r =>
      if (x =? c)%N then [] :: split_unit c r
      else match split_unit c r with
           | [] => [[x]]
           | w :: ws => (x :: w) :: ws
           end
  end.

(** [parts.join(sep)] *)
Fixpoint join (sep : jstr) (parts : list jstr) : jstr :=
  match parts with
  | [] => []
  | [p] => p
  | p :: rest => p ++ sep ++ join sep rest
  end.

(** [s.replace(/[chars]/g, by)] and its special case of deletion *)
Definition replace_units (f : N → bool) (by_ : jstr) (s : jstr) : jstr :=
  s ≫= λ c, if f c then by_ else [c].

(** * Order: [Array.prototype.sort] without a comparator compares code units *)

Fixpoint units_compare (s t : jstr) : comparison :=
  match s, t with
  | [], [] => Eq
  | [], _ :: _ => Lt
  | _ :: _, [] => Gt
  | a :: s, b :: t =>
      match (a ?= b)%N with Eq => units_compare s t | c => c end
  end.

(** * Numerals *)

(** The digits of a non-negative integer in base ten, most significant first *)
Fixpoint digits_go (fuel : nat) (n : N) (acc : jstr) : jstr :=
  match fuel with
  | O => acc
  | S fuel =>
      let acc := (48 + n mod 10)%N :: acc in
      if (n <? 10)%N then acc else digits_go fuel (n / 10)%N acc
  end.
Definition digits (n : N) : jstr := digits_go (S (N.to_nat (N.log2 n))) n [].

(** [`${z}`] for an integer *)
Definition string_of_Z (z : Z) : jstr :=
  if (z <? 0)%Z then 45%N :: digits (Z.to_N (- z)) else digits (Z.to_N z).

(** The value of a string of decimal digits *)
Definition digits_value (s : jstr) : N :=
  foldl (λ a c, (10 * a + (c - 48))%N) 0%N s.

Definition all_digits (s : jstr) : bool := truthy s && forallb is_digit s.

(** * Facts about trimming *)

Definition no_lead (s : jstr) : Prop :=
  match s with [] => True | c :: _ => is_ws c = false end.

(** [s] neither starts nor ends with white space *)
Definition trimmed (s : jstr) : Prop := no_lead s ∧ no_lead (reverse s).

Lemma no_lead_trimStart s : no_lead (trimStart s).
Proof. induction s as [|c s IH]; simpl; [done|]. case_match; simpl; done. Qed.

Lemma trimStart_id s : no_lead s → trimStart s = s.
Proof. destruct s; simpl; [done|]. by intros ->. Qed.

Lemma trimStart_suffix s : trimStart s `suffix_of` s.
Proof.
  induction s as [|c s IH]; simpl; [done|].
  case_match; [by apply suffix_cons_r|done].
Qed.

Lemma trimStart_split s : ∃ w, s = w ++ trimStart s ∧ Forall is_ws w.
Proof.
  induction s as [|c s (w & E & Hw)]; simpl; [by exists []|].
  destruct (is_ws c) eqn:Hc; [|by exists []].
  exists (c :: w). split; [by rewrite E at 1|]. constructor; [by rewrite Hc|done].
Qed.

(** Removing trailing white space never uncovers leading white space. *)
Lemma no_lead_trimEnd s : no_lead s → no_lead (trimEnd s).
Proof.
  unfold trimEnd. intros Hs.
  destruct (trimStart_split (reverse s)) as (w & E & Hw).
  assert (s = reverse (trimStart (reverse s)) ++ reverse w) as E'.
  { rewrite <- reverse_app, <- E. by rewrite reverse_involutive. }
  destruct (reverse (trimStart (reverse s))) as [|c r] eqn:Er; [done|].
  rewrite E' in Hs. done.
Qed.

Lemma trim_trimmed s : trimmed (trim s).
Proof.
  split.
  - apply no_lead_trimEnd, no_lead_trimStart.
  - unfold trim, trimEnd. rewrite reverse_involutive. apply no_lead_trimStart.
Qed.

Lemma trim_id s : trimmed s → trim s = s.
Proof.
  intros [H1 H2]. unfold trim, trimEnd.
  rewrite (trimStart_id s H1), (trimStart_id _ H2). apply reverse_involutive.
Qed.

Lemma trim_idemp s : trim (trim s) = trim s.
Proof. apply trim_id, trim_trimmed. Qed.

Lemma trim_infix s : ∃ a b, s = a ++ trim s ++ b.
Proof.
  destruct (trimStart_split s) as (w & E & _).
  destruct (trimStart_split (reverse (trimStart s))) as (w' & E' & _).
  exists w, (reverse w'). rewrite E at 1. f_equal.
  unfold trim, trimEnd. rewrite <- reverse_app, <- E'. by rewrite reverse_involutive.
Qed.

Lemma elem_of_trim c s : c ∈ trim s → c ∈ s.
Proof. destruct (trim_infix s) as (a & b & E). rewrite E at 2. set_solver. Qed.

Lemma elem_of_trimStart_no_ws c s : is_ws c = false → c ∈ s → c ∈ trimStart s.
Proof.
  intros Hc. destruct (trimStart_split s) as (w & E & Hw). rewrite E at 1.
  intros [H|H]%elem_of_app; [|done]. rewrite Forall_forall in Hw. apply Hw in H. by rewrite Hc in H.
Qed.

Lemma elem_of_trim_no_ws c s : is_ws c = false → c ∈ s → c ∈ trim s.
Proof.
  intros Hc H. unfold trim, trimEnd.
  apply elem_of_reverse, elem_of_trimStart_no_ws; [done|].
  by apply elem_of_reverse, elem_of_trimStart_no_ws.
Qed.

(** * Facts about searching *)

Lemma indexOf_Some_drop s p i : indexOf s p = Some i → p `prefix_of` drop i s.
Proof.
  revert i. induction s as [|c s IH]; intros i; cbn [indexOf];
    unfold startsWith; case_bool_decide; intros; simplify_eq; try done.
  apply fmap_Some in H0 as (j & Hj & ->). apply IH, Hj.
Qed.

(** [indexOf] finds the first occurrence. *)
Lemma indexOf_first s p i j :
  indexOf s p = Some i → j < i → ¬ p `prefix_of` drop j s.
Proof.
  revert i j. induction s as [|c s IH]; intros i j; cbn [indexOf];
    unfold startsWith; case_bool_decide; intros Hi Hj; simplify_eq; try lia.
  apply fmap_Some in Hi as (i' & Hi & ->). destruct j; [done|].
  apply (IH i' j Hi). lia.
Qed.

Lemma indexOf_None s p j : indexOf s p = None → ¬ p `prefix_of` drop j s.
Proof.
  revert j. induction s as [|c s IH]; intros j; cbn [indexOf];
    unfold startsWith; case_bool_decide; intros Hi; simplify_eq.
  - by rewrite drop_nil.
  - apply fmap_None in Hi. destruct j; [done|]. by apply IH.
Qed.

Lemma indexOf_Some_bound s p i : indexOf s p = Some i → i + length p ≤ length s.
Proof.
  intros H. pose proof (indexOf_Some_drop _ _ _ H) as [k E].
  apply (f_equal length) in E. rewrite length_drop, length_app in E.
  destruct (decide (i ≤ length s)); [lia|].
  exfalso. destruct p as [|c p]; [|simpl in E; lia].
  assert (i = 0); [|lia].
  destruct s; cbn [indexOf] in H; unfold startsWith in H;
    rewrite bool_decide_true in H by apply prefix_nil; congruence.
Qed.

Lemma startsWith_app s p : startsWith (p ++ s) p = true.
Proof. unfold startsWith. apply bool_decide_true. by apply prefix_app_r. Qed.

Lemma startsWith_drop s p :
  startsWith s p = true → s = p ++ slice_from s (length p).
Proof.
  unfold startsWith, slice_from. rewrite bool_decide_eq_true. intros [k ->].
  by rewrite drop_app_length.
Qed.

(** * Facts about splitting and joining *)

Lemma split_unit_nonempty c s : split_unit c s ≠ [].
Proof. destruct s; simpl; [done|]. repeat case_match; done. Qed.

Lemma join_split_unit c s : join [c] (split_unit c s) = s.
Proof.
  induction s as [|x s IH]; simpl; [done|].
  destruct (N.eqb_spec x c) as [->|Hx].
  - destruct (split_unit c s) eqn:E; [by apply split_unit_nonempty in E|].
    change (c :: join [c] (l :: l0) = c :: s). by rewrite IH.
  - destruct (split_unit c s) as [|w ws] eqn:E; [by apply split_unit_nonempty in E|].
    rewrite <- IH. destruct ws; done.
Qed.

Lemma split_unit_app c w s :
  c ∉ w → split_unit c (w ++ [c] ++ s) = w :: split_unit c s.
Proof.
  induction w as [|x w IH]; intros Hw; simpl; [by rewrite N.eqb_refl|].
  apply not_elem_of_cons in Hw as [Hx Hw]. cbn in IH.
  rewrite (proj2 (N.eqb_neq x c)) by done. by rewrite IH.
Qed.

Lemma split_unit_single c w : c ∉ w → split_unit c w = [w].
Proof.
  induction w as [|x w IH]; intros Hw; simpl; [done|].
  apply not_elem_of_cons in Hw as [Hx Hw].
  rewrite (proj2 (N.eqb_neq x c)) by done. by rewrite IH.
Qed.

Lemma split_unit_join c ws :
  ws ≠ [] → Forall (λ w, c ∉ w) ws → split_unit c (join [c] ws) = ws.
Proof.
  induction ws as [|w ws IH]; intros Hne Hall; [done|].
  inversion Hall as [|? ? Hw Hws]; subst. destruct ws as [|w' ws].
  - by apply split_unit_single.
  - change (join [c] (w :: w' :: ws)) with (w ++ [c] ++ join [c] (w' :: ws)).
    rewrite split_unit_app by done. by rewrite IH.
Qed.

Lemma split_unit_free c s w : w ∈ split_unit c s → c ∉ w.
Proof.
  revert w. induction s as [|x s IH]; intros w; simpl.
  { intros ->%list_elem_of_singleton. set_solver. }
  destruct (N.eqb_spec x c) as [->|Hx].
  - intros [->|?]%elem_of_cons; [set_solver|]. by apply IH.
  - destruct (split_unit c s) as [|w' ws].
    { intros ->%list_elem_of_singleton. apply not_elem_of_cons.
      split; [done|apply not_elem_of_nil]. }
    intros [->|?]%elem_of_cons.
    + apply not_elem_of_cons. split; [done|]. apply IH. left.
    + apply IH. by right.
Qed.

(** * Facts about numerals *)

Lemma digits_go_app fuel n acc : digits_go fuel n acc = digits_go fuel n [] ++ acc.
Proof.
  revert n acc. induction fuel as [|fuel IH]; intros n acc; cbn [digits_go]; [done|].
  case_match; [done|]. rewrite IH. rewrite (IH _ [_]). by rewrite <- app_assoc.
Qed.

Lemma is_digit_mod n : is_digit (48 + n mod 10) = true.
Proof.
  pose proof (N.mod_lt n 10 ltac:(lia)). unfold is_digit.
  apply andb_true_iff. rewrite !N.leb_le. generalize dependent (n mod 10)%N. lia.
Qed.

Lemma digits_go_digits fuel n acc :
  forallb is_digit acc = true → forallb is_digit (digits_go fuel n acc) = true.
Proof.
  revert n acc. induction fuel as [|fuel IH]; intros n acc Hacc; cbn [digits_go]; [done|].
  case_match; [|apply IH]; cbn [forallb]; rewrite is_digit_mod; done.
Qed.

Lemma digits_value_app s c : digits_value (s ++ [c]) = (10 * digits_value s + (c - 48))%N.
Proof. unfold digits_value. by rewrite foldl_app. Qed.

Lemma digits_go_value fuel n :
  (n < 10 ^ N.of_nat fuel)%N → digits_value (digits_go fuel n []) = n.
Proof.
  revert n. induction fuel as [|fuel IH]; intros n Hn; cbn [digits_go].
  { cbn in *. lia. }
  pose proof (N.mod_lt n 10 ltac:(lia)). destruct (N.ltb_spec n 10) as [Hlt|Hge].
  - rewrite N.mod_small by done. unfold digits_value. cbn [foldl]. lia.
  - rewrite digits_go_app, digits_value_app, IH.
    + pose proof (N.div_mod n 10 ltac:(lia)) as E.
      generalize dependent (n mod 10)%N. generalize dependent (n / 10)%N. lia.
    + rewrite Nat2N.inj_succ, N.pow_succ_r' in Hn. apply N.Div0.div_lt_upper_bound. lia.
Qed.

Lemma digits_value_digits n : digits_value (digits n) = n.
Proof.
  unfold digits. apply digits_go_value. rewrite Nat2N.inj_succ, N2Nat.id.
  destruct (decide (n = 0%N)) as [->|Hn]; [done|].
  pose proof (N.log2_spec n ltac:(lia)) as [_ H].
  eapply N.lt_le_trans; [exact H|]. apply N.pow_le_mono_l. lia.
Qed.

Lemma digits_all_digits n : all_digits (digits n) = true.
Proof.
  unfold all_digits. apply andb_true_iff. split; [|by apply digits_go_digits].
  unfold digits. cbn [digits_go]. case_match; [done|].
  rewrite digits_go_app. by destruct (digits_go _ _ []).
Qed.

#[export] Instance digits_inj : Inj (=) (=) digits.
Proof. intros a b E. by rewrite <- (digits_value_digits a), E, digits_value_digits. Qed.

#[export] Hint Resolve trim_trimmed no_lead_trimStart digits_all_digits : gate.

(** * Strings without white space *)

Lemma trimmed_no_ws s : Forall (λ c, is_ws c = false) s → trimmed s.
Proof.
  intros H. split.
  - destruct H; simpl; done.
  - apply Forall_reverse in H. destruct H; simpl; done.
Qed.

Lemma replace_units_id f b s :
  Forall (λ c, f c = false) s → replace_units f b s = s.
Proof.
  unfold replace_units. induction 1 as [|c s Hc Hs IH]; [done|].
  cbn. rewrite Hc. cbn. f_equal. exact IH.
Qed.

Lemma is_digit_range c : is_digit c = true ↔ (48 ≤ c ≤ 57)%N.
Proof. unfold is_digit. by rewrite andb_true_iff, !N.leb_le. Qed.

Lemma digit_not_ws c : is_digit c = true → is_ws c = false.
Proof.
  rewrite is_digit_range. intros Hc.
  assert (c = 48 ∨ c = 49 ∨ c = 50 ∨ c = 51 ∨ c = 52 ∨ c = 53 ∨ c = 54 ∨ c = 55
          ∨ c = 56 ∨ c = 57)%N as H by lia.
  by destruct_or! H; subst.
Qed.

Lemma Forall_digits n : Forall (λ c, is_digit c = true) (digits n).
Proof.
  apply Forall_forall. intros c Hc.
  pose proof (digits_all_digits n) as H. unfold all_digits in H.
  apply andb_true_iff in H as [_ H]. rewrite forallb_forall in H.
  apply H. by apply list_elem_of_In.
Qed.

(** [s.includes(c)] for a one-unit string is membership. *)
Lemma includes_unit s c : includes s [c] = bool_decide (c ∈ s).
Proof.
  unfold includes. induction s as [|x s IH]; cbn [indexOf]; unfold startsWith.
  - rewrite !bool_decide_false; [done|apply not_elem_of_nil|].
    intros ?%prefix_nil_inv. done.
  - destruct (decide ([c] `prefix_of` x :: s)) as [Hp|Hp].
    + rewrite (bool_decide_true (_ `prefix_of` _)) by done. destruct Hp as [k E].
      simplify_eq/=. rewrite bool_decide_true; [done|left].
    + rewrite (bool_decide_false (_ `prefix_of` _)) by done.
      assert (x ≠ c) as Hx by (intros ->; apply Hp; by exists s).
      rewrite (bool_decide_ext _ (c ∈ s)) by (rewrite elem_of_cons; naive_solver).
      rewrite <- IH. by destruct (indexOf s [c]).
Qed.

Lemma join_no_ws sep ws :
  Forall (λ c, is_ws c = false) sep → Forall (Forall (λ c, is_ws c = false)) ws →
  Forall (λ c, is_ws c = false) (join sep ws).
Proof.
  intros Hsep. induction 1 as [|w ws Hw Hws IH]; [constructor|].
  destruct ws as [|w' ws]; [done|].
  change (join sep (w :: w' :: ws)) with (w ++ sep ++ join sep (w' :: ws)).
  rewrite !Forall_app. split_and!; done.
Qed.
