(* ===== verification/JsNumber.v ===== *)
(** JavaScript numbers: IEEE-754 binary64 values with the operations of the
    language and of [Math] and [Number] that the modelled code calls.

    [num] is the Standard Library's specification float at precision 53 and
    exponent bound 1024, whose operations are executable functions on [Z].  The
    second half shows that arithmetic on safe integers is exact, which is what
    turns sums of counters into sums over [Z]. *)

From Stdlib Require Import ZArith Lia.
From Stdlib Require Import SpecFloat.
From S2P Require Import Prelude JsString.

Local Open Scope Z_scope.

Abbreviation num := spec_float.

(** * Operators *)

Definition num_of_Z (z : Z) : num := binary_normalize 53 1024 z 0 false.
Definition num_add : num → num → num := SFadd 53 1024.
Definition num_sub : num → num → num := SFsub 53 1024.
Definition num_mul : num → num → num := SFmul 53 1024.
Definition num_div : num → num → num := SFdiv 53 1024.

(** [a === b], [a < b], [a <= b] *)
Definition num_eqb : num → num → bool := SFeqb.
Definition num_ltb : num → num → bool := SFltb.
Definition num_leb : num → num → bool := SFleb.

Definition NaN : num := S754_nan.
Definition Infinity : num := S754_infinity false.
Definition num_0 : num := S754_zero false.

(** [Boolean(n)]: every number but 0, -0 and NaN *)
Definition num_truthy (n : num) : bool :=
  match n with S754_nan | S754_zero _ => false | _ => true end.

(** [Number.isFinite] *)
Definition isFinite (n : num) : bool :=
  match n with S754_nan | S754_infinity _ => false | _ => true end.

(** [Number.isInteger] *)
Definition isInteger (n : num) : bool :=
  match n with
  | S754_zero _ => true
  | S754_finite _ m e => (0 <=? e) || (Z.pos m mod 2 ^ (- e) =? 0)
  | _ => false
  end.

Definition num_is_neg_zero (n : num) : bool :=
  match n with S754_zero true => true | _ => false end.

(** [Math.max(a, b)] and [Math.min(a, b)] *)
Definition num_max (a b : num) : num :=
  match SFcompare a b with
  | None => NaN
  | Some Lt => b
  | Some Gt => a
  | Some Eq => if num_is_neg_zero a then b else a
  end.
Definition num_min (a b : num) : num :=
  match SFcompare a b with
  | None => NaN
  | Some Lt => a
  | Some Gt => b
  | Some Eq => if num_is_neg_zero a then a else b
  end.

(** [Math.floor] and [Math.ceil] *)
Definition num_floor (n : num) : num :=
  match n with
  | S754_finite s m e =>
      if 0 <=? e then n
      else binary_normalize 53 1024 (Z.shiftr (cond_Zopp s (Z.pos m)) (- e)) 0 s
  | _ => n
  end.
Definition num_ceil (n : num) : num := SFopp (num_floor (SFopp n)).

(** * Decimal conversions *)

(** The number nearest to [s * 10 ^ e], for [0 <= s] *)
Definition num_of_decimal (s e : Z) : num :=
  if 0 <=? e then binary_normalize 53 1024 (s * 10 ^ e) 0 false
  else if s =? 0 then num_0
  else let '(q, e', l) := SFdiv_core_binary 53 1024 s 0 (10 ^ (- e)) 0 in
       binary_round_aux 53 1024 false q e' l.

(** [Number::toString] for a positive finite number [m * 2 ^ e]: the shortest
    digit string that reads back as the number, the nearest one on a tie of
    lengths. *)
Definition frac_of (m : positive) (e : Z) : Z * Z :=
  if 0 <=? e then (Z.pos m * 2 ^ e, 1) else (Z.pos m, 2 ^ (- e)).

Fixpoint dec_exp_small (fuel : nat) (n d j : Z) : Z :=
  match fuel with
  | O => - j
  | S fuel => if d <=? n * 10 ^ (j + 1) then - j else dec_exp_small fuel n d (j + 1)
  end.

(** The exponent [x] with [10 ^ (x - 1) <= n / d < 10 ^ x] *)
Definition dec_exp (n d : Z) : Z :=
  if d <=? n then Z.of_nat (length (digits (Z.to_N (n / d))))
  else dec_exp_small 330 n d 0.

Definition shortest_at (x : num) (n d p k : Z) : option Z :=
  let c := k - p in
  let '(a, b) := if 0 <=? c then (n * 10 ^ c, d) else (n, d * 10 ^ (- c)) in
  let q := a / b in
  let ok s := num_eqb (num_of_decimal s (p - k)) x in
  let low := ok q && (10 ^ (k - 1) <=? q) in
  let high := ok (q + 1) in
  let nearer_low := 2 * (a - q * b) <? b in
  let tie := 2 * (a - q * b) =? b in
  if low && (negb high || nearer_low || (tie && Z.even q)) then Some q
  else if high then Some (q + 1)
  else None.

Fixpoint shortest (fuel : nat) (x : num) (n d p k : Z) : Z * Z :=
  match fuel with
  | O => (0, k)
  | S fuel =>
      match shortest_at x n d p k with
      | Some s => (s, k)
      | None => shortest fuel x n d p (k + 1)
      end
  end.

Definition zeros (n : Z) : jstr := replicate (Z.to_nat n) 48%N.

Definition layout_digits (ds : jstr) (k p : Z) : jstr :=
  if (k <=? p) && (p <=? 21) then ds ++ zeros (p - k)
  else if (0 <? p) && (p <=? 21) then
    take (Z.to_nat p) ds ++ js "." ++ drop (Z.to_nat p) ds
  else if (-6 <? p) && (p <=? 0) then js "0." ++ zeros (- p) ++ ds
  else
    let ex := (if 0 <? p - 1 then js "+" else []) ++ string_of_Z (p - 1) in
    take 1 ds ++ (if k =? 1 then [] else js "." ++ drop 1 ds) ++ js "e" ++ ex.

Definition string_of_pos_num (m : positive) (e : Z) : jstr :=
  let '(n, d) := frac_of m e in
  let p := dec_exp n d in
  let '(s, k) := shortest 17 (S754_finite false m e) n d p 1 in
  layout_digits (digits (Z.to_N s)) k p.

(** [String(n)] and [`${n}`] *)
Definition string_of_num (n : num) : jstr :=
  match n with
  | S754_nan => js "NaN"
  | S754_zero _ => js "0"
  | S754_infinity false => js "Infinity"
  | S754_infinity true => js "-Infinity"
  | S754_finite false m e => string_of_pos_num m e
  | S754_finite true m e => js "-" ++ string_of_pos_num m e
  end.

(** [n.toFixed(f)] for a finite number below [10 ^ 21]: the integer nearest to
    [n * 10 ^ f], upwards on a tie *)
Definition fixed_digits (f : Z) (m : positive) (e : Z) : jstr :=
  let '(n, d) := frac_of m e in
  let r := (2 * n * 10 ^ f + d) / (2 * d) in
  let ds := digits (Z.to_N r) in
  let ds := zeros (f + 1 - Z.of_nat (length ds)) ++ ds in
  let i := (length ds - Z.to_nat f)%nat in
  if f =? 0 then ds else take i ds ++ js "." ++ drop i ds.

Definition toFixed (f : Z) (n : num) : jstr :=
  match n with
  | S754_zero _ => if f =? 0 then js "0" else js "0." ++ zeros f
  | S754_finite s m e =>
      if num_leb (num_of_Z (10 ^ 21)) (SFabs n) then string_of_num n
      else (if s then js "-" else []) ++ fixed_digits f m e
  | _ => string_of_num n
  end.

Example num_literals :
  string_of_num (num_of_decimal 1 (-1)) = js "0.1" ∧
  string_of_num (num_add (num_of_decimal 1 (-1)) (num_of_decimal 2 (-1)))
    = js "0.30000000000000004" ∧
  string_of_num (num_of_Z (-1500)) = js "-1500" ∧
  string_of_num (num_of_decimal 15 20) = js "1.5e+21" ∧
  string_of_num (num_of_decimal 25 (-9)) = js "2.5e-8" ∧
  toFixed 2 (num_of_decimal 24 (-2)) = js "0.24" ∧
  toFixed 2 (num_of_decimal 1005 (-3)) = js "1.00" ∧
  num_ceil (SFopp (num_of_decimal 5 (-1))) = S754_zero true.
Proof. vm_compute. repeat split. Qed.

(** * Safe integers are exact *)

Definition MAX_SAFE_INTEGER : Z := 2 ^ 53 - 1.
Definition safe (z : Z) : Prop := Z.abs z ≤ MAX_SAFE_INTEGER.

Lemma digits2_log2 p : Z.pos (digits2_pos p) = Z.log2 (Z.pos p) + 1.
Proof.
  induction p as [p IH|p IH|]; cbn [digits2_pos]; [| |done];
    rewrite Pos2Z.inj_succ, IH.
  - change (Z.pos p~1) with (2 * Z.pos p + 1). rewrite Z.log2_succ_double by lia. lia.
  - change (Z.pos p~0) with (2 * Z.pos p). rewrite Z.log2_double by lia. lia.
Qed.

Lemma iter_xO p d : Z.pos (Pos.iter xO p d) = Z.pos p * 2 ^ Z.pos d.
Proof.
  rewrite <- (positive_nat_Z d), Pos2Nat.inj_iter.
  induction (Pos.to_nat d) as [|n IH]; cbn [Nat.iter nat_rect]; [lia|].
  rewrite Pos2Z.inj_xO, IH, Nat2Z.inj_succ, Z.pow_succ_r by lia. lia.
Qed.

Lemma iter_pos_nat {A} (f : A → A) n x : SpecFloat.iter_pos f n x = Nat.iter (Pos.to_nat n) f x.
Proof.
  revert x. induction n as [n IH|n IH|]; intros x; cbn [SpecFloat.iter_pos].
  - rewrite !IH, Pos2Nat.inj_xI, <- !Nat.iter_succ_r, <- Nat.iter_add. f_equal. lia.
  - rewrite !IH, Pos2Nat.inj_xO, <- Nat.iter_add. f_equal. lia.
  - done.
Qed.

Lemma shr_exact m e p :
  0 < m →
  shr {| shr_m := m * 2 ^ Z.pos p; shr_r := false; shr_s := false |} e (Z.pos p)
  = ({| shr_m := m; shr_r := false; shr_s := false |}, e + Z.pos p).
Proof.
  intros Hm. unfold shr. f_equal. rewrite iter_pos_nat, <- (positive_nat_Z p).
  induction (Pos.to_nat p) as [|n IH]; [by rewrite Z.mul_1_r|].
  rewrite Nat.iter_succ_r, <- IH. f_equal.
  rewrite Nat2Z.inj_succ, Z.pow_succ_r by lia.
  destruct (m * 2 ^ Z.of_nat n) as [|q|q] eqn:E; [lia| |lia].
  replace (m * (2 * 2 ^ Z.of_nat n)) with (2 * Z.pos q) by lia. done.
Qed.

(** The canonical binary64 representation of the integer [m], [0 < m < 2^53] *)
Definition canon (s : bool) (m : Z) : num :=
  S754_finite s (Z.to_pos (m * 2 ^ (52 - Z.log2 m))) (Z.log2 m - 52).

Lemma log2_bound m : 0 < m ≤ MAX_SAFE_INTEGER → 0 ≤ Z.log2 m ≤ 52.
Proof.
  intros [Hm Hm']. split; [apply Z.log2_nonneg|].
  apply Z.lt_succ_r. apply Z.log2_lt_pow2; [done|]. unfold MAX_SAFE_INTEGER in *. lia.
Qed.

Lemma log2_mul_pow2' m k : 0 < m → 0 ≤ k → Z.log2 (m * 2 ^ k) = k + Z.log2 m.
Proof. intros. by apply Z.log2_mul_pow2. Qed.

Lemma pow_split a b : 0 ≤ a → 0 ≤ b → 2 ^ (a + b) = 2 ^ a * 2 ^ b.
Proof. intros. by apply Z.pow_add_r. Qed.

Lemma fexp_int l : 0 ≤ l → fexp 53 1024 (l + 1) = l - 52.
Proof. intros. unfold fexp, emin. lia. Qed.

(** Rounding a canonical mantissa, or one that carries [j] extra zero bits. *)
Lemma round_aux_canon s m j :
  0 < m ≤ MAX_SAFE_INTEGER → 0 ≤ j →
  binary_round_aux 53 1024 s (m * 2 ^ (52 - Z.log2 m) * 2 ^ j) (Z.log2 m - 52 - j) loc_Exact
  = canon s m.
Proof.
  intros Hm Hj. pose proof (log2_bound m Hm) as Hl.
  set (c := m * 2 ^ (52 - Z.log2 m)).
  assert (0 < c) as Hc by (unfold c; apply Z.mul_pos_pos; [lia|apply Z.pow_pos_nonneg; lia]).
  assert (Z.log2 c = 52) as Hlc by (unfold c; rewrite log2_mul_pow2' by lia; lia).
  assert (Hfix : shr_fexp 53 1024 c (Z.log2 m - 52) loc_Exact
    = ({| shr_m := c; shr_r := false; shr_s := false |}, Z.log2 m - 52)).
  { unfold shr_fexp. destruct c as [|q|q] eqn:Eq; [lia| |lia]. cbn [Zdigits2].
    rewrite digits2_log2, Hlc.
    replace (52 + 1 + (Z.log2 m - 52)) with (Z.log2 m + 1) by lia.
    rewrite fexp_int by lia. by rewrite Z.sub_diag. }
  assert (Hsh : shr_fexp 53 1024 (c * 2 ^ j) (Z.log2 m - 52 - j) loc_Exact
    = ({| shr_m := c; shr_r := false; shr_s := false |}, Z.log2 m - 52)).
  { destruct (decide (j = 0)) as [->|Hj0].
    { rewrite Z.mul_1_r, Z.sub_0_r. apply Hfix. }
    unfold shr_fexp. destruct (c * 2 ^ j) as [|q|q] eqn:Eq; [nia| |nia]. cbn [Zdigits2].
    rewrite digits2_log2, <- Eq, log2_mul_pow2', Hlc by lia.
    replace (j + 52 + 1 + (Z.log2 m - 52 - j)) with (Z.log2 m + 1) by lia.
    rewrite fexp_int by lia.
    destruct j as [|j|j]; [lia| |lia].
    replace (Z.log2 m - 52 - (Z.log2 m - 52 - Z.pos j)) with (Z.pos j) by lia.
    cbn [shr_record_of_loc]. rewrite shr_exact by done. f_equal. lia. }
  unfold binary_round_aux. rewrite Hsh. cbn [shr_m loc_of_shr_record round_nearest_even].
  rewrite Hfix. cbn [shr_m]. unfold canon. fold c.
  destruct c as [|q|q]; [lia| |lia]. rewrite (proj2 (Z.leb_le _ _)) by lia. done.
Qed.

Lemma binary_round_int s m k :
  0 < m ≤ MAX_SAFE_INTEGER → 0 ≤ k →
  binary_round 53 1024 s (Z.to_pos (m * 2 ^ k)) (- k) = canon s m.
Proof.
  intros Hm Hk. pose proof (log2_bound m Hm) as Hl.
  assert (0 < m * 2 ^ k) as Hpos by (apply Z.mul_pos_pos; [lia|apply Z.pow_pos_nonneg; lia]).
  unfold binary_round. rewrite digits2_log2, Z2Pos.id, log2_mul_pow2' by lia.
  replace (k + Z.log2 m + 1 + - k) with (Z.log2 m + 1) by lia. rewrite fexp_int by lia.
  unfold shl_align. destruct (Z.log2 m - 52 - - k) as [|d|d] eqn:Ed.
  - rewrite Z2Pos.id by done.
    replace (m * 2 ^ k) with (m * 2 ^ (52 - Z.log2 m) * 2 ^ 0) by (rewrite Z.mul_1_r; do 2 f_equal; lia).
    replace (- k) with (Z.log2 m - 52 - 0) by lia. by apply round_aux_canon.
  - rewrite Z2Pos.id by done.
    replace (m * 2 ^ k) with (m * 2 ^ (52 - Z.log2 m) * 2 ^ Z.pos d).
    2: { rewrite <- Z.mul_assoc, <- pow_split by lia. do 2 f_equal. lia. }
    replace (- k) with (Z.log2 m - 52 - Z.pos d) by lia. by apply round_aux_canon.
  - rewrite iter_xO, Z2Pos.id by done.
    replace (m * 2 ^ k * 2 ^ Z.pos d) with (m * 2 ^ (52 - Z.log2 m) * 2 ^ 0).
    2: { rewrite Z.mul_1_r, <- Z.mul_assoc, <- pow_split by lia. do 2 f_equal. lia. }
    pose proof (round_aux_canon s m 0 Hm) as R. rewrite Z.sub_0_r in R. by apply R.
Qed.

Lemma normalize_int z k :
  safe z → 0 ≤ k →
  binary_normalize 53 1024 (z * 2 ^ k) (- k) false = num_of_Z z.
Proof.
  unfold safe. intros Hz Hk. assert (0 < 2 ^ k) by (apply Z.pow_pos_nonneg; lia).
  unfold num_of_Z. destruct z as [|p|p]; [done| |].
  - destruct (Z.pos p * 2 ^ k) as [|q|q] eqn:E; [lia| |lia]. cbn [binary_normalize].
    replace q with (Z.to_pos (Z.pos p * 2 ^ k)) by (by rewrite E).
    rewrite binary_round_int by lia.
    pose proof (binary_round_int false (Z.pos p) 0 ltac:(lia) ltac:(lia)) as R.
    rewrite Z.mul_1_r in R. symmetry. exact R.
  - destruct (Z.neg p * 2 ^ k) as [|q|q] eqn:E; [lia|lia|]. cbn [binary_normalize].
    replace q with (Z.to_pos (Z.pos p * 2 ^ k)) by (replace (Z.pos p * 2 ^ k) with (Z.pos q) by lia; done).
    rewrite binary_round_int by lia.
    pose proof (binary_round_int true (Z.pos p) 0 ltac:(lia) ltac:(lia)) as R.
    rewrite Z.mul_1_r in R. symmetry. exact R.
Qed.

Lemma num_of_Z_canon z :
  safe z → z ≠ 0 → num_of_Z z = canon (z <? 0) (Z.abs z).
Proof.
  unfold safe. intros Hz H0. unfold num_of_Z.
  destruct z as [|p|p]; [done| |]; cbn [binary_normalize Z.abs].
  - pose proof (binary_round_int false (Z.pos p) 0 ltac:(lia) ltac:(lia)) as R.
    rewrite Z.mul_1_r in R. exact R.
  - pose proof (binary_round_int true (Z.pos p) 0 ltac:(lia) ltac:(lia)) as R.
    rewrite Z.mul_1_r in R. exact R.
Qed.

(** A canonical mantissa aligned to a smaller exponent carries the integer itself. *)
Lemma align_canon s m k :
  0 < m ≤ MAX_SAFE_INTEGER → 52 - Z.log2 m ≤ k →
  cond_Zopp s (Z.pos (fst (shl_align (Z.to_pos (m * 2 ^ (52 - Z.log2 m))) (Z.log2 m - 52) (- k))))
  = cond_Zopp s m * 2 ^ k.
Proof.
  intros Hm Hk. pose proof (log2_bound m Hm) as Hl.
  assert (0 < m * 2 ^ (52 - Z.log2 m)) by (apply Z.mul_pos_pos; [lia|apply Z.pow_pos_nonneg; lia]).
  enough (Z.pos (fst (shl_align (Z.to_pos (m * 2 ^ (52 - Z.log2 m))) (Z.log2 m - 52) (- k)))
    = m * 2 ^ k) as -> by (destruct s; cbn [cond_Zopp]; lia).
  unfold shl_align. destruct (- k - (Z.log2 m - 52)) as [|d|d] eqn:Ed; [|lia|]; cbn [fst].
  - rewrite Z2Pos.id by done. do 2 f_equal. lia.
  - rewrite iter_xO, Z2Pos.id by done. rewrite <- Z.mul_assoc, <- pow_split by lia.
    do 2 f_equal. lia.
Qed.

Lemma cond_Zopp_abs z : cond_Zopp (z <? 0) (Z.abs z) = z.
Proof. unfold cond_Zopp. destruct (Z.ltb_spec z 0); lia. Qed.

Section two_safe.
Context (a b : Z) (Ha : safe a) (Hb : safe b).

Let k := 52 - Z.min (Z.log2 (Z.abs a)) (Z.log2 (Z.abs b)).

(** The two aligned mantissas that [SFadd] and [SFsub] combine. *)
Lemma align_two :
  a ≠ 0 → b ≠ 0 →
  let ez := Z.min (Z.log2 (Z.abs a) - 52) (Z.log2 (Z.abs b) - 52) in
  let al z := cond_Zopp (z <? 0) (Z.pos (fst (shl_align
    (Z.to_pos (Z.abs z * 2 ^ (52 - Z.log2 (Z.abs z)))) (Z.log2 (Z.abs z) - 52) ez))) in
  al a = a * 2 ^ k ∧ al b = b * 2 ^ k ∧ ez = - k ∧ 0 ≤ k.
Proof.
  intros Ha0 Hb0 ez al. unfold safe in Ha, Hb.
  pose proof (log2_bound (Z.abs a) ltac:(lia)). pose proof (log2_bound (Z.abs b) ltac:(lia)).
  assert (ez = - k) as Ez by (unfold ez, k; lia).
  unfold al. rewrite Ez, !align_canon, !cond_Zopp_abs by (unfold k; lia).
  split_and!; [done..|unfold k; lia].
Qed.

Lemma num_add_of_Z : safe (a + b) → num_add (num_of_Z a) (num_of_Z b) = num_of_Z (a + b).
Proof.
  intros Hab. destruct (decide (a = 0)) as [->|Ha0].
  { rewrite Z.add_0_l. unfold num_add. destruct (decide (b = 0)) as [->|Hb0]; [done|].
    by rewrite (num_of_Z_canon b). }
  destruct (decide (b = 0)) as [->|Hb0].
  { rewrite Z.add_0_r. unfold num_add. by rewrite (num_of_Z_canon a). }
  rewrite (num_of_Z_canon a), (num_of_Z_canon b) by done.
  destruct (align_two Ha0 Hb0) as (Ea & Eb & Ez & Hk).
  unfold num_add, canon, SFadd. rewrite Ea, Eb, Ez, <- Z.mul_add_distr_r.
  by apply normalize_int.
Qed.

Lemma num_sub_of_Z : safe (a - b) → num_sub (num_of_Z a) (num_of_Z b) = num_of_Z (a - b).
Proof.
  intros Hab. destruct (decide (b = 0)) as [->|Hb0].
  { rewrite Z.sub_0_r. unfold num_sub.
    destruct (decide (a = 0)) as [->|Ha0]; [done|]. by rewrite (num_of_Z_canon a). }
  destruct (decide (a = 0)) as [->|Ha0].
  { unfold num_sub. rewrite (num_of_Z_canon b), (num_of_Z_canon (0 - b)) by (done || lia).
    unfold canon. cbn [SFsub num_of_Z binary_normalize]. rewrite Z.sub_0_l, Z.abs_opp.
    f_equal. destruct (Z.ltb_spec b 0), (Z.ltb_spec (- b) 0); done || lia. }
  rewrite (num_of_Z_canon a), (num_of_Z_canon b) by done.
  destruct (align_two Ha0 Hb0) as (Ea & Eb & Ez & Hk).
  unfold num_sub, canon, SFsub. rewrite Ea, Eb, Ez, <- Z.mul_sub_distr_r.
  by apply normalize_int.
Qed.
End two_safe.

Lemma compare_canon x y :
  0 < x ≤ MAX_SAFE_INTEGER → 0 < y ≤ MAX_SAFE_INTEGER →
  match Z.log2 x - 52 ?= Z.log2 y - 52 with
  | Eq => Pos.compare_cont Eq (Z.to_pos (x * 2 ^ (52 - Z.log2 x)))
                              (Z.to_pos (y * 2 ^ (52 - Z.log2 y)))
  | c => c
  end = (x ?= y).
Proof.
  intros Hx Hy. destruct (Z.compare_spec (Z.log2 x - 52) (Z.log2 y - 52)) as [E|L|G].
  - replace (Z.log2 y) with (Z.log2 x) by lia.
    pose proof (log2_bound x Hx).
    assert (0 < 2 ^ (52 - Z.log2 x)) by (apply Z.pow_pos_nonneg; lia).
    change (Pos.compare_cont Eq ?p ?q) with (Pos.compare p q).
    rewrite Pos2Z.inj_compare, !Z2Pos.id by nia.
    symmetry. apply Zmult_compare_compat_r. lia.
  - symmetry. apply Z.compare_lt_iff, Z.log2_lt_cancel. lia.
  - symmetry. apply Z.compare_gt_iff, Z.log2_lt_cancel. lia.
Qed.

Lemma compare_of_Z a b :
  safe a → safe b → SFcompare (num_of_Z a) (num_of_Z b) = Some (a ?= b).
Proof.
  intros Ha Hb.
  destruct (decide (a = 0)) as [->|Ha0]; destruct (decide (b = 0)) as [->|Hb0]; [done|..].
  - rewrite (num_of_Z_canon b) by done. cbn. f_equal. destruct b; done.
  - rewrite (num_of_Z_canon a) by done. unfold canon. cbn. f_equal. destruct a; done.
  - rewrite (num_of_Z_canon a), (num_of_Z_canon b) by done. unfold safe in *.
    unfold canon, SFcompare. f_equal.
    pose proof (compare_canon (Z.abs a) (Z.abs b) ltac:(lia) ltac:(lia)) as C.
    destruct a as [|a|a], b as [|b|b]; try done.
    change (Z.neg a ?= Z.neg b) with (CompOpp (Z.abs (Z.neg a) ?= Z.abs (Z.neg b))).
    rewrite <- C.
    by destruct (Z.log2 (Z.abs (Z.neg a)) - 52 ?= Z.log2 (Z.abs (Z.neg b)) - 52).
Qed.

Lemma num_ltb_of_Z a b : safe a → safe b → num_ltb (num_of_Z a) (num_of_Z b) = (a <? b).
Proof. intros. unfold num_ltb, SFltb. rewrite compare_of_Z by done. by destruct (a ?= b) eqn:E; unfold Z.ltb; rewrite E. Qed.

Lemma num_leb_of_Z a b : safe a → safe b → num_leb (num_of_Z a) (num_of_Z b) = (a <=? b).
Proof. intros. unfold num_leb, SFleb. rewrite compare_of_Z by done. by destruct (a ?= b) eqn:E; unfold Z.leb; rewrite E. Qed.

Lemma num_eqb_of_Z a b : safe a → safe b → num_eqb (num_of_Z a) (num_of_Z b) = (a =? b).
Proof.
  intros. unfold num_eqb, SFeqb. rewrite compare_of_Z by done.
  destruct (Z.compare_spec a b); symmetry; [by apply Z.eqb_eq|apply Z.eqb_neq; lia..].
Qed.

Lemma isFinite_of_Z z : safe z → isFinite (num_of_Z z) = true.
Proof.
  intros. destruct (decide (z = 0)) as [->|]; [done|]. by rewrite num_of_Z_canon.
Qed.

Lemma num_of_Z_inj a b : safe a → safe b → num_of_Z a = num_of_Z b → a = b.
Proof.
  intros Ha Hb E. pose proof (compare_of_Z a b Ha Hb) as C. rewrite E in C.
  rewrite compare_of_Z in C by done. rewrite Z.compare_refl in C.
  symmetry in C. injection C. apply Z.compare_eq.
Qed.

(** [Math.abs] of an exact integer *)
Lemma num_abs_of_Z z : safe z → SFabs (num_of_Z z) = num_of_Z (Z.abs z).
Proof.
  intros Hz. destruct (decide (z = 0)) as [->|H0]; [done|].
  rewrite (num_of_Z_canon z), (num_of_Z_canon (Z.abs z)) by (unfold safe in *; lia).
  unfold canon. cbn [SFabs]. rewrite Z.abs_idemp. f_equal.
  destruct (Z.abs z <? 0) eqn:E; [lia|done].
Qed.

(** The integer a number stands for *)
Definition the_Z (n : num) : Z :=
  match n with S754_finite s m e => cond_Zopp s (Z.shiftl (Z.pos m) e) | _ => 0%Z end.

Lemma the_Z_of_Z z : safe z → the_Z (num_of_Z z) = z.
Proof.
  intros Hz. destruct (decide (z = 0%Z)) as [->|Hne]; [done|].
  rewrite num_of_Z_canon by done. unfold canon, the_Z. unfold safe in Hz.
  destruct (log2_bound (Z.abs z) ltac:(lia)) as [H1 H2].
  pose proof (Z.pow_pos_nonneg 2 (52 - Z.log2 (Z.abs z)) ltac:(lia) ltac:(lia)) as Hp.
  rewrite Z2Pos.id by (apply Z.mul_pos_pos; lia).
  replace (Z.log2 (Z.abs z) - 52)%Z with (- (52 - Z.log2 (Z.abs z)))%Z by lia.
  rewrite Z.shiftl_opp_r, Z.shiftr_div_pow2, Z.div_mul by lia.
  destruct (Z.ltb_spec z 0); cbn; lia.
Qed.
