(* ===== verification/JsValue.v ===== *)
(** JavaScript values of unknown type, objects as ordered property lists, and
    [JSON.parse].

    [jsval] is what a TypeScript [unknown] can hold once it came out of JSON or
    of an HTTP response: no functions, symbols or cycles. *)

From Stdlib Require Import ZArith NArith Lia SpecFloat.
From S2P Require Import Prelude JsString JsNumber.

Inductive jsval :=
  | VUndef
  | VNull
  | VBool (b : bool)
  | VNum (n : num)
  | VStr (s : jstr)
  | VArr (l : list jsval)
  | VObj (o : list (jstr * jsval)).

(** Equality of values is decidable; [===] on strings, booleans, [null] and
    [undefined] is this equality. *)
#[export] Instance spec_float_eq_dec : EqDecision spec_float.
Proof. solve_decision. Defined.

Fixpoint jsval_eq_dec (v w : jsval) {struct v} : {v = w} + {v ≠ w}.
Proof.
  refine (
    match v, w with
    | VUndef, VUndef => left eq_refl
    | VNull, VNull => left eq_refl
    | VBool a, VBool b => cast_if (decide (a = b))
    | VNum a, VNum b => cast_if (decide (a = b))
    | VStr a, VStr b => cast_if (decide (a = b))
    | VArr a, VArr b => cast_if (@list_eq_dec _ jsval_eq_dec a b)
    | VObj a, VObj b =>
        cast_if (@list_eq_dec _ (@prod_eq_dec _ _ _ jsval_eq_dec) a b)
    | _, _ => right _
    end); abstract congruence.
Defined.

#[export] Instance jsval_eq_decision : EqDecision jsval := jsval_eq_dec.

(** * Tests on values *)

(** [Boolean(v)] *)
Definition truthy_val (v : jsval) : bool :=
  match v with
  | VUndef | VNull => false
  | VBool b => b
  | VNum n => num_truthy n
  | VStr s => truthy s
  | VArr _ | VObj _ => true
  end.

Definition is_string (v : jsval) : bool := match v with VStr _ => true | _ => false end.
Definition is_number (v : jsval) : bool := match v with VNum _ => true | _ => false end.
Definition is_boolean (v : jsval) : bool := match v with VBool _ => true | _ => false end.

(** [typeof v === 'object'], [null] included *)
Definition typeof_object (v : jsval) : bool :=
  match v with VNull | VArr _ | VObj _ => true | _ => false end.

(** [Array.isArray(v)] *)
Definition isArray (v : jsval) : bool := match v with VArr _ => true | _ => false end.

(** [v.k] where [v] is an object; the names read by the modelled code are no
    properties of arrays, strings, numbers or booleans, for which the result is
    [undefined]. *)
Definition prop (v : jsval) (k : jstr) : jsval :=
  match v with
  | VObj o => default VUndef (omap.get o k)
  | _ => VUndef
  end.

(** [String(v)] and [v.toString()]; an array joins its elements with commas,
    [null] and [undefined] elements as the empty string. *)
Fixpoint string_of_val (v : jsval) : jstr :=
  match v with
  | VUndef => js "undefined"
  | VNull => js "null"
  | VBool true => js "true"
  | VBool false => js "false"
  | VNum n => string_of_num n
  | VStr s => s
  | VArr l =>
      join (js ",") (map (λ x, match x with
                               | VUndef | VNull => []
                               | _ => string_of_val x
                               end) l)
  | VObj _ => js "[object Object]"
  end.

(** * Own keys

    An object lists its array-index keys in ascending order, then the others in
    the order of insertion. *)

(** A canonical array index: the decimal numeral of an integer below [2^32 - 1] *)
Definition is_array_index (k : jstr) : bool :=
  all_digits k && bool_decide (k = digits (digits_value k))
  && (digits_value k <? 4294967295)%N.

Fixpoint insert_by_index {A} (e : jstr * A) (l : list (jstr * A)) : list (jstr * A) :=
  match l with
  | [] => [e]
  | e' :: l' =>
      if (digits_value e.1 <=? digits_value e'.1)%N then e :: l
      else e' :: insert_by_index e l'
  end.

Definition sort_by_index {A} (l : list (jstr * A)) : list (jstr * A) :=
  foldr insert_by_index [] l.

(** [Object.entries(o)], [Object.keys(o)], [Object.values(o)] *)
Definition entries {A} (o : list (jstr * A)) : list (jstr * A) :=
  sort_by_index (filter (λ e, is_array_index e.1 = true) o)
  ++ filter (λ e, is_array_index e.1 = false) o.
Definition keys {A} (o : list (jstr * A)) : list jstr := (entries o).*1.
Definition values {A} (o : list (jstr * A)) : list A := (entries o).*2.

Lemma insert_by_index_perm {A} (e : jstr * A) l : insert_by_index e l ≡ₚ e :: l.
Proof.
  induction l as [|e' l IH]; simpl; [done|]. case_match; [done|].
  rewrite IH. apply Permutation_swap.
Qed.

Lemma sort_by_index_perm {A} (l : list (jstr * A)) : sort_by_index l ≡ₚ l.
Proof.
  induction l as [|e l IH]; simpl; [done|]. by rewrite insert_by_index_perm, IH.
Qed.

Lemma filter_split_perm {A} (f : A → bool) (l : list A) :
  filter (λ x, f x = true) l ++ filter (λ x, f x = false) l ≡ₚ l.
Proof.
  induction l as [|x l IH]; [done|]. rewrite !filter_cons.
  destruct (f x); repeat (case_decide; [|try done]); try done.
  - by rewrite <- app_comm_cons, IH.
  - by rewrite <- Permutation_middle, IH.
Qed.

(** Enumerating an object lists each of its properties once. *)
Lemma entries_perm {A} (o : list (jstr * A)) : entries o ≡ₚ o.
Proof.
  unfold entries. rewrite sort_by_index_perm.
  apply (filter_split_perm (λ e, is_array_index e.1)).
Qed.

Lemma elem_of_entries {A} (o : list (jstr * A)) e : e ∈ entries o ↔ e ∈ o.
Proof. by rewrite entries_perm. Qed.

(** * [JSON.parse] *)

Definition json_ws (c : N) : bool := (c =? 9)%N || (c =? 10)%N || (c =? 13)%N || (c =? 32)%N.

Fixpoint skip_ws (s : jstr) : jstr :=
  match s with
  | [] => []
  | c :: r => if json_ws c then skip_ws r else s
  end.

Definition hex_value (c : N) : option N :=
  if is_digit c then Some (c - 48)%N
  else if ((97 <=? c) && (c <=? 102))%N then Some (c - 87)%N
  else if ((65 <=? c) && (c <=? 70))%N then Some (c - 55)%N
  else None.

(** The character of a one-letter escape *)
Definition escape_value (c : N) : option N :=
  if (c =? 34)%N || (c =? 92)%N || (c =? 47)%N then Some c
  else if (c =? 98)%N then Some 8%N
  else if (c =? 102)%N then Some 12%N
  else if (c =? 110)%N then Some 10%N
  else if (c =? 114)%N then Some 13%N
  else if (c =? 116)%N then Some 9%N
  else None.

(** The rest of a string literal after its opening quote *)
Fixpoint parse_string (s : jstr) : option (jstr * jstr) :=
  match s with
  | [] => None
  | c :: r =>
      if (c =? QUOTE)%N then Some ([], r)
      else if (c =? 92)%N then
        match r with
        | 117%N :: h1 :: h2 :: h3 :: h4 :: r' =>
            a ← hex_value h1; b ← hex_value h2; c ← hex_value h3; d ← hex_value h4;
            '(t, rest) ← parse_string r';
            Some ((((a * 16 + b) * 16 + c) * 16 + d)%N :: t, rest)
        | e :: r' =>
            x ← escape_value e; '(t, rest) ← parse_string r'; Some (x :: t, rest)
        | [] => None
        end
      else if (c <? 32)%N then None
      else '(t, rest) ← parse_string r; Some (c :: t, rest)
  end.

(** The longest run of digits at the start of a string *)
Fixpoint span_digits (s : jstr) : jstr * jstr :=
  match s with
  | [] => ([], [])
  | c :: r =>
      if is_digit c then let '(ds, rest) := span_digits r in (c :: ds, rest)
      else ([], s)
  end.

Definition parse_exponent (s : jstr) : option (Z * jstr) :=
  match s with
  | c :: r =>
      if (c =? 101)%N || (c =? 69)%N then
        let '(sg, r) := match r with
                        | 43%N :: r' => (1%Z, r')
                        | 45%N :: r' => ((-1)%Z, r')
                        | _ => (1%Z, r)
                        end in
        let '(ds, rest) := span_digits r in
        if truthy ds then Some ((sg * Z.of_N (digits_value ds))%Z, rest) else None
      else Some (0%Z, s)
  | [] => Some (0%Z, s)
  end.

Definition parse_number (s : jstr) : option (num * jstr) :=
  let '(neg, s) := match s with 45%N :: r => (true, r) | _ => (false, s) end in
  let '(ip, r) := span_digits s in
  if negb (truthy ip) then None
  else if bool_decide (head ip = Some 48%N) && (1 <? length ip)%nat then None
  else
    '(fp, r) ← match r with
               | 46%N :: r' =>
                   let '(ds, rest) := span_digits r' in
                   if truthy ds then Some (ds, rest) else None
               | _ => Some ([], r)
               end;
    '(e, rest) ← parse_exponent r;
    let n := num_of_decimal (Z.of_N (digits_value (ip ++ fp))) (e - Z.of_nat (length fp)) in
    Some ((if neg then SFopp n else n), rest).

(** A keyword at the start of [s] *)
Definition keyword (w s : jstr) : option jstr :=
  if startsWith s w then Some (slice_from s (length w)) else None.

(** Values, with the depth of the recursion as fuel: each call consumes a code
    unit or is followed by one that does. *)
Fixpoint parse_value (fuel : nat) (s : jstr) : option (jsval * jstr) :=
  match fuel with
  | O => None
  | S fuel =>
      match skip_ws s with
      | [] => None
      | c :: r =>
          if (c =? QUOTE)%N then '(t, rest) ← parse_string r; Some (VStr t, rest)
          else if (c =? 91)%N then
            match skip_ws r with
            | 93%N :: rest => Some (VArr [], rest)
            | _ => '(l, rest) ← parse_elements fuel r; Some (VArr l, rest)
            end
          else if (c =? 123)%N then
            match skip_ws r with
            | 125%N :: rest => Some (VObj [], rest)
            | _ => '(o, rest) ← parse_members fuel [] r; Some (VObj o, rest)
            end
          else if (c =? 116)%N then rest ← keyword (js "true") (c :: r); Some (VBool true, rest)
          else if (c =? 102)%N then rest ← keyword (js "false") (c :: r); Some (VBool false, rest)
          else if (c =? 110)%N then rest ← keyword (js "null") (c :: r); Some (VNull, rest)
          else '(n, rest) ← parse_number (c :: r); Some (VNum n, rest)
      end
  end
with parse_elements (fuel : nat) (s : jstr) : option (list jsval * jstr) :=
  match fuel with
  | O => None
  | S fuel =>
      '(v, r) ← parse_value fuel s;
      match skip_ws r with
      | 44%N :: r' => '(l, rest) ← parse_elements fuel r'; Some (v :: l, rest)
      | 93%N :: rest => Some ([v], rest)
      | _ => None
      end
  end
with parse_members (fuel : nat) (o : list (jstr * jsval)) (s : jstr)
    : option (list (jstr * jsval) * jstr) :=
  match fuel with
  | O => None
  | S fuel =>
      match skip_ws s with
      | 34%N :: r =>
          '(k, r) ← parse_string r;
          match skip_ws r with
          | 58%N :: r =>
              '(v, r) ← parse_value fuel r;
              let o := omap.set o k v in
              match skip_ws r with
              | 44%N :: r' => parse_members fuel o r'
              | 125%N :: rest => Some (o, rest)
              | _ => None
              end
          | _ => None
          end
      | _ => None
      end
  end.

(** [JSON.parse(s)]; [None] stands for the [SyntaxError]. *)
Definition JSON_parse (s : jstr) : option jsval :=
  '(v, rest) ← parse_value (2 * length s + 2) s;
  if truthy (skip_ws rest) then None else Some v.

(** * Text of a string and number of a text *)

Definition hex_digit (n : N) : N := if (n <? 10)%N then (48 + n)%N else (87 + n)%N.

(** A four-digit escape *)
Definition unicode_escape (c : N) : jstr :=
  [92; 117; hex_digit (N.shiftr c 12); hex_digit (N.land (N.shiftr c 8) 15);
   hex_digit (N.land (N.shiftr c 4) 15); hex_digit (N.land c 15)]%N.

Definition escape_unit (c : N) : jstr :=
  match c with
  | 8 => [92; 98] | 9 => [92; 116] | 10 => [92; 110] | 12 => [92; 102] | 13 => [92; 114]
  | 34 => [92; 34] | 92 => [92; 92]
  | _ => if (c <? 32)%N then unicode_escape c else [c]
  end%N.

Definition high_surrogate (c : N) : bool := (55296 <=? c)%N && (c <=? 56319)%N.
Definition low_surrogate (c : N) : bool := (56320 <=? c)%N && (c <=? 57343)%N.

(** Surrogates are escaped unless they form a pair. *)
Fixpoint escape_text (s : jstr) : jstr :=
  match s with
  | [] => []
  | c :: r =>
      if high_surrogate c then
        match r with
        | d :: r' =>
            if low_surrogate d then c :: d :: escape_text r'
            else unicode_escape c ++ escape_text r
        | [] => unicode_escape c
        end
      else if low_surrogate c then unicode_escape c ++ escape_text r
      else escape_unit c ++ escape_text r
  end.

(** [JSON.stringify(s)] for a string *)
Definition JSON_quote (s : jstr) : jstr := QUOTE :: escape_text s ++ [QUOTE].

(** [Number(s)] for a text without the prefixes of other radices *)
Definition Number_of_text (s : jstr) : num :=
  let s := trim s in
  if negb (truthy s) then num_0
  else
    let '(neg, s) := match s with
                     | 45%N :: r => (true, r)
                     | 43%N :: r => (false, r)
                     | _ => (false, s)
                     end in
    let signed (n : num) : num := if neg then SFopp n else n in
    if bool_decide (s = js "Infinity") then signed Infinity
    else
      let '(ip, r) := span_digits s in
      let '(fp, r) := match r with 46%N :: r' => span_digits r' | _ => ([], r) end in
      if negb (truthy (ip ++ fp)) then NaN
      else
        match parse_exponent r with
        | Some (e, []) =>
            signed (num_of_decimal (Z.of_N (digits_value (ip ++ fp))) (e - Z.of_nat (length fp)))
        | _ => NaN
        end.

(** The digits of a numeral in another radix; [None] on any other unit *)
Fixpoint radix_value (base : N) (acc : N) (s : jstr) : option N :=
  match s with
  | [] => Some acc
  | c :: r =>
      d ← hex_value c; if (d <? base)%N then radix_value base (acc * base + d)%N r else None
  end.

(** [Number(s)] *)
Definition Number_of_string (s : jstr) : num :=
  let in_radix (base : N) (ds : jstr) : num :=
    if truthy ds then
      match radix_value base 0 ds with Some n => num_of_Z (Z.of_N n) | None => NaN end
    else NaN in
  match trim s with
  | 48%N :: c :: ds =>
      if (c =? 120)%N || (c =? 88)%N then in_radix 16%N ds
      else if (c =? 111)%N || (c =? 79)%N then in_radix 8%N ds
      else if (c =? 98)%N || (c =? 66)%N then in_radix 2%N ds
      else Number_of_text s
  | _ => Number_of_text s
  end.

Example text_examples :
  JSON_quote [34; 92; 10; 1; 55296; 97]%N
    = QUOTE :: js "\" ++ [34%N] ++ js "\\\n\u0001\ud800a" ++ [QUOTE]
  ∧ Number_of_text (js "-1.5e2") = num_of_Z (-150)
  ∧ Number_of_text (js "1.2.3") = NaN ∧ Number_of_text (js ".") = NaN
  ∧ Number_of_text (js "5.") = num_of_Z 5
  ∧ Number_of_string (js " 0x1F ") = num_of_Z 31 ∧ Number_of_string (js "0b12") = NaN
  ∧ Number_of_string (js "012") = num_of_Z 12 ∧ Number_of_string (js "0x") = NaN.
Proof. by vm_compute. Qed.

Definition quoted (s : string) : jstr := QUOTE :: js s ++ [QUOTE].

Example JSON_parse_object :
  JSON_parse (js "{" ++ quoted "504" ++ js ": " ++ quoted "200" ++ js ", " ++ quoted "a" ++ js ":[1.5, -2e1,null]}")
  = Some (VObj [(js "504", VStr (js "200"));
                (js "a", VArr [VNum (num_of_decimal 15 (-1)); VNum (num_of_Z (-20)); VNull])]).
Proof. vm_compute. reflexivity. Qed.

Example JSON_parse_errors :
  JSON_parse (js "{a:1}") = None ∧ JSON_parse (js "01") = None ∧ JSON_parse (js "[1,]") = None
  ∧ JSON_parse [] = None ∧ JSON_parse (js "1 2") = None.
Proof. vm_compute. repeat split. Qed.
