(* ===== verification/Json.v ===== *)
(** [JSON.stringify], and that [JSON.parse] reads back what it writes. *)

From Stdlib Require Import ZArith NArith Lia SpecFloat.
From S2P Require Import Prelude JsString JsNumber JsValue.

(** * [JSON.stringify] *)

Definition NL : jstr := [10%N].

(** The parts of an array or object between its brackets; [gap] is the
    indentation of one level *)
Definition json_wrap (gap indent open close : jstr) (parts : list jstr) : jstr :=
  match parts with
  | [] => open ++ close
  | _ =>
      if truthy gap then
        open ++ NL ++ (indent ++ gap) ++ join (js "," ++ NL ++ (indent ++ gap)) parts ++ NL ++ indent ++ close
      else open ++ join (js ",") parts ++ close
  end.

Definition colon_of (gap : jstr) : jstr := if truthy gap then js ": " else js ":".

(** The text of a value; [undefined] has none *)
Fixpoint stringify_at (gap indent : jstr) (v : jsval) : option jstr :=
  match v with
  | VUndef => None
  | VNull => Some (js "null")
  | VBool true => Some (js "true")
  | VBool false => Some (js "false")
  | VNum n => Some (if isFinite n then string_of_num n else js "null")
  | VStr s => Some (JSON_quote s)
  | VArr l =>
      Some (json_wrap gap indent (js "[") (js "]")
        (map (λ x, default (js "null") (stringify_at gap (indent ++ gap) x)) l))
  | VObj o =>
      Some (json_wrap gap indent (js "{") (js "}")
        (base.omap (λ '((k, t) : jstr * option jstr), t ← t; Some (JSON_quote k ++ colon_of gap ++ t))
           (entries (map (λ e, (e.1, stringify_at gap (indent ++ gap) e.2)) o))))
  end.

(** [JSON.stringify(v)] and [JSON.stringify(v, null, n)] *)
Definition JSON_stringify (v : jsval) : option jstr := stringify_at [] [] v.
Definition JSON_stringify_indented (n : nat) (v : jsval) : option jstr := stringify_at (replicate n 32%N) [] v.

(** * Values that survive *)

Definition units_ok (s : jstr) : Prop := Forall (λ c, (c < 65536)%N) s.

Fixpoint json_plain (v : jsval) : Prop :=
  match v with
  | VUndef => False
  | VNull | VBool _ => True
  | VNum n => isFinite n = true ∧ parse_number (string_of_num n) = Some (n, [])
  | VStr s => units_ok s
  | VArr l => foldr (λ x P, json_plain x ∧ P) True l
  | VObj o =>
      NoDup o.*1 ∧ entries o = o ∧ Forall units_ok o.*1 ∧ foldr (λ e P, json_plain e.2 ∧ P) True o
  end.

#[export] Instance units_ok_dec s : Decision (units_ok s).
Proof. apply _. Defined.

Fixpoint json_plain_decide (v : jsval) : Decision (json_plain v) :=
  match v return Decision (json_plain v) with
  | VUndef => False_dec
  | VNull => True_dec
  | VBool _ => True_dec
  | VNum n => decide (isFinite n = true ∧ parse_number (string_of_num n) = Some (n, []))
  | VStr s => decide (units_ok s)
  | VArr l => (fix go l : Decision (foldr (λ x P, json_plain x ∧ P) True l) :=
      match l with [] => True_dec | x :: l => @and_dec _ (json_plain_decide x) _ (go l) end) l
  | VObj o =>
      @and_dec _ (decide (NoDup o.*1)) _ (@and_dec _ (decide (entries o = o)) _
        (@and_dec _ (decide (Forall units_ok o.*1)) _
        ((fix go (o : list (jstr * jsval)) : Decision (foldr (λ e P, json_plain e.2 ∧ P) True o) :=
          match o with [] => True_dec | e :: o => @and_dec _ (json_plain_decide e.2) _ (go o) end) o)))
  end.

#[export] Instance json_plain_dec v : Decision (json_plain v) := json_plain_decide v.

(** Induction over values and the lists in them *)
Section induction.
Context (P : jsval → Prop).
Context (Hundef : P VUndef) (Hnull : P VNull) (Hbool : ∀ b, P (VBool b)) (Hnum : ∀ n, P (VNum n)).
Context (Hstr : ∀ s, P (VStr s)) (Harr : ∀ l, Forall P l → P (VArr l)).
Context (Hobj : ∀ o, Forall (λ e, P e.2) o → P (VObj o)).

Fixpoint jsval_rec' (v : jsval) : P v :=
  match v with
  | VUndef => Hundef
  | VNull => Hnull
  | VBool b => Hbool b
  | VNum n => Hnum n
  | VStr s => Hstr s
  | VArr l => Harr l ((fix go l : Forall P l :=
      match l with [] => List.Forall_nil P | x :: l => List.Forall_cons P x l (jsval_rec' x) (go l) end) l)
  | VObj o => Hobj o ((fix go (o : list (jstr * jsval)) : Forall (λ e, P e.2) o :=
      match o with
      | [] => List.Forall_nil _
      | e :: o => List.Forall_cons _ e o (jsval_rec' e.2) (go o)
      end) o)
  end.
End induction.

(** * Strings *)

Lemma hex_value_digit n : (n < 16)%N → hex_value (hex_digit n) = Some n.
Proof.
  intros Hn. unfold hex_value, hex_digit, is_digit. destruct (N.ltb_spec n 10) as [H|H].
  - rewrite (proj2 (N.leb_le _ _)), (proj2 (N.leb_le _ _)) by lia. cbn [andb]. f_equal. lia.
  - rewrite (proj2 (N.leb_gt (87 + n) 57)) by lia. rewrite andb_false_r.
    rewrite !(proj2 (N.leb_le _ _)) by lia. cbn [andb]. f_equal. lia.
Qed.

Lemma nibbles c :
  (c < 65536)%N →
  ((((N.shiftr c 12 * 16 + N.land (N.shiftr c 8) 15) * 16 + N.land (N.shiftr c 4) 15) * 16 + N.land c 15)%N = c
  ∧ N.shiftr c 12 < 16 ∧ N.land (N.shiftr c 8) 15 < 16 ∧ N.land (N.shiftr c 4) 15 < 16 ∧ N.land c 15 < 16)%N.
Proof.
  intros Hc. change 15%N with (N.ones 4). rewrite !N.land_ones, !N.shiftr_div_pow2.
  change (2 ^ 12)%N with 4096%N. change (2 ^ 8)%N with 256%N. change (2 ^ 4)%N with 16%N.
  zify. Z.to_euclidean_division_equations. lia.
Qed.

Lemma parse_unicode c t :
  (c < 65536)%N →
  parse_string (unicode_escape c ++ t) = ('(u, rest) ← parse_string t; Some (c :: u, rest)).
Proof.
  intros Hc. destruct (nibbles c Hc) as (E & H1 & H2 & H3 & H4). unfold unicode_escape. cbn [app].
  cbn [parse_string]. change (92 =? QUOTE)%N with false. change (92 =? 92)%N with true. cbn iota.
  rewrite !hex_value_digit by done. cbn [mbind option_bind]. by rewrite E.
Qed.

Lemma parse_plain_unit c t :
  (32 ≤ c)%N → c ≠ QUOTE → c ≠ 92%N →
  parse_string (c :: t) = ('(u, rest) ← parse_string t; Some (c :: u, rest)).
Proof.
  intros Hc Hq Hb. cbn [parse_string].
  by rewrite (proj2 (N.eqb_neq _ _) Hq), (proj2 (N.eqb_neq _ _) Hb), (proj2 (N.ltb_ge c 32)).
Qed.

Lemma parse_escaped c t :
  (c < 65536)%N →
  parse_string (escape_unit c ++ t) = ('(u, rest) ← parse_string t; Some (c :: u, rest)).
Proof.
  intros Hc.
  destruct (decide (c ∈ [8; 9; 10; 12; 13; 34; 92]%N)) as [Hin|Hin].
  { repeat (apply elem_of_cons in Hin as [->|Hin]; [done|]). by apply elem_of_nil in Hin. }
  assert (escape_unit c = if (c <? 32)%N then unicode_escape c else [c]) as ->.
  { destruct c as [|p]; [done|]. unfold escape_unit.
    repeat (destruct p as [p|p|]; try done; try (by exfalso; apply Hin; set_solver)). }
  destruct (N.ltb_spec c 32) as [H|H]; [by apply parse_unicode|].
  apply parse_plain_unit; [done|unfold QUOTE; set_solver..].
Qed.

Lemma high_range c : high_surrogate c = true → (55296 ≤ c ≤ 56319)%N.
Proof. unfold high_surrogate. rewrite andb_true_iff, !N.leb_le. done. Qed.
Lemma low_range c : low_surrogate c = true → (56320 ≤ c ≤ 57343)%N.
Proof. unfold low_surrogate. rewrite andb_true_iff, !N.leb_le. done. Qed.

Lemma parse_escape_text s t :
  units_ok s → parse_string (escape_text s ++ QUOTE :: t) = Some (s, t).
Proof.
  remember (length s) as n eqn:Hn. revert s Hn. induction n as [n IH] using lt_wf_ind. intros s -> Hs.
  destruct Hs as [|c s Hc Hs]; [done|]. cbn [escape_text].
  assert (parse_string (escape_text s ++ QUOTE :: t) = Some (s, t)) as IHs by (eapply IH; [|done|done]; cbn; lia).
  destruct (high_surrogate c) eqn:Eh; [apply high_range in Eh|].
  - destruct Hs as [|d s Hd Hs].
    { rewrite parse_unicode by done. done. }
    destruct (low_surrogate d) eqn:El; [apply low_range in El|].
    + cbn [app]. rewrite !parse_plain_unit by (unfold QUOTE; lia).
      rewrite (IH (length s)); [done|cbn; lia|done|done].
    + rewrite <- app_assoc, parse_unicode by done. cbn [app] in IHs. by rewrite IHs.
  - destruct (low_surrogate c).
    + rewrite <- app_assoc, parse_unicode by done. by rewrite IHs.
    + rewrite <- app_assoc, parse_escaped by done. by rewrite IHs.
Qed.

(** * Numbers *)

(** What may follow a number *)
Definition after_number (t : jstr) : Prop :=
  match t with [] => True | c :: _ => is_digit c = false ∧ (c ∉ js ".eE") end.

Lemma span_digits_app s ds r t :
  span_digits s = (ds, r) → (r = [] → match t with [] => True | c :: _ => is_digit c = false end) →
  span_digits (s ++ t) = (ds, r ++ t).
Proof.
  revert ds r. induction s as [|c s IH]; intros ds r E Hr; cbn [span_digits app] in *.
  - injection E as <- <-. specialize (Hr eq_refl). destruct t as [|c t]; [done|]. cbn. by rewrite Hr.
  - destruct (is_digit c) eqn:Hd.
    + destruct (span_digits s) as [ds' r'] eqn:Es. injection E as <- <-. by rewrite (IH ds' r').
    + by injection E as <- <-.
Qed.

Lemma after_digit t : after_number t → match t with [] => True | c :: _ => is_digit c = false end.
Proof. destruct t; [done|]. by intros [? _]. Qed.

Lemma parse_exponent_app s e t :
  parse_exponent s = Some (e, []) → after_number t → parse_exponent (s ++ t) = Some (e, t).
Proof.
  intros E Ht. destruct s as [|c s].
  - injection E as <-. destruct t as [|c t]; [done|]. cbn [app parse_exponent].
    destruct Ht as [_ Ht]. change (js ".eE") with [46; 101; 69]%N in Ht.
    rewrite (proj2 (N.eqb_neq c 101)), (proj2 (N.eqb_neq c 69)) by set_solver. done.
  - cbn [app parse_exponent] in *. destruct (_ || _); [|by destruct s].
    assert (∀ r sg, (let '(ds, rest) := span_digits r in
        if truthy ds then Some ((sg * Z.of_N (digits_value ds))%Z, rest) else None) = Some (e, []) →
      (let '(ds, rest) := span_digits (r ++ t) in
        if truthy ds then Some ((sg * Z.of_N (digits_value ds))%Z, rest) else None) = Some (e, t)) as H.
    { intros r sg Hr. destruct (span_digits r) as [ds rest] eqn:Es. destruct (truthy ds) eqn:Ed; [|done].
      injection Hr as <- ->. rewrite (span_digits_app _ _ _ t Es) by (intros; by apply after_digit). by rewrite Ed. }
    destruct s as [|d s].
    { cbn in E. done. }
    cbn [app]. destruct d as [|p]; [by apply (H (0%N :: s))|].
    repeat (destruct p as [p|p|]; try (by apply (H (_ :: s))); try (by apply (H s))).
Qed.

(** [parse_number] after the sign, after the integer part, and after the
    fraction *)
Definition number_end (neg : bool) (ip fp r : jstr) : option (num * jstr) :=
  '(e, rest) ← parse_exponent r;
  let n := num_of_decimal (Z.of_N (digits_value (ip ++ fp))) (e - Z.of_nat (length fp)) in
  Some ((if neg then SFopp n else n), rest).

Definition number_fraction (neg : bool) (ip r : jstr) : option (num * jstr) :=
  match r with
  | c :: r' =>
      if (c =? 46)%N then
        let '(ds, rest) := span_digits r' in if truthy ds then number_end neg ip ds rest else None
      else number_end neg ip [] r
  | [] => number_end neg ip [] r
  end.

Definition number_unsigned (neg : bool) (s : jstr) : option (num * jstr) :=
  let '(ip, r) := span_digits s in
  if negb (truthy ip) then None
  else if bool_decide (head ip = Some 48%N) && (1 <? length ip)%nat then None
  else number_fraction neg ip r.

Lemma parse_number_eq s :
  parse_number s = match s with
                   | c :: r => if (c =? 45)%N then number_unsigned true r else number_unsigned false s
                   | [] => None
                   end.
Proof.
  assert (∀ (neg : bool) (s : jstr), (let '(ip, r) := span_digits s in
    if negb (truthy ip) then None
    else if bool_decide (head ip = Some 48%N) && (1 <? length ip)%nat then None
    else
      '(fp, r) ← match r with
                 | 46%N :: r' =>
                     let '(ds, rest) := span_digits r' in
                     if truthy ds then Some (ds, rest) else None
                 | _ => Some ([] : jstr, r)
                 end;
      '(e, rest) ← parse_exponent r;
      let n := num_of_decimal (Z.of_N (digits_value (ip ++ fp))) (e - Z.of_nat (length fp)) in
      Some ((if neg then SFopp n else n), rest)) = number_unsigned neg s) as H.
  { intros neg s'. unfold number_unsigned. destruct (span_digits s') as [ip r].
    destruct (negb _); [done|]. destruct (_ && _); [done|]. unfold number_fraction, number_end.
    destruct r as [|c r]; [done|]. destruct (N.eqb_spec c 46) as [->|Hc].
    - destruct (span_digits r) as [ds rest]. by destruct (truthy ds).
    - destruct c as [|p]; [done|]. repeat (destruct p as [p|p|]; try done). }
  destruct s as [|c s]; [done|]. destruct (N.eqb_spec c 45) as [->|Hc].
  - apply (H true s).
  - rewrite <- (H false (c :: s)). unfold parse_number. destruct c as [|p]; [done|].
    repeat (destruct p as [p|p|]; try done).
Qed.

Lemma number_end_app neg ip fp r n t :
  number_end neg ip fp r = Some (n, []) → after_number t → number_end neg ip fp (r ++ t) = Some (n, t).
Proof.
  unfold number_end. intros E Ht. destruct (parse_exponent r) as [[e rest]|] eqn:Ee; [|done].
  cbn in E. injection E as <- ->. by rewrite (parse_exponent_app _ _ _ Ee Ht).
Qed.

Lemma number_unsigned_app neg s n t :
  number_unsigned neg s = Some (n, []) → after_number t → number_unsigned neg (s ++ t) = Some (n, t).
Proof.
  unfold number_unsigned. intros E Ht. destruct (span_digits s) as [ip r] eqn:Es.
  rewrite (span_digits_app _ _ _ t Es) by (intros; by apply after_digit).
  destruct (negb _); [done|]. destruct (_ && _); [done|]. unfold number_fraction in *.
  destruct r as [|c r].
  - cbn [app]. destruct t as [|c t].
    + done.
    + destruct Ht as [Hd Hc] eqn:Heq. rewrite (proj2 (N.eqb_neq c 46)).
      * apply (number_end_app neg ip [] [] n (c :: t) E Ht).
      * intros ->. apply Hc. change (js ".eE") with [46; 101; 69]%N. set_solver.
  - cbn [app]. destruct (N.eqb_spec c 46).
    + destruct (span_digits r) as [ds rest] eqn:Er.
      rewrite (span_digits_app _ _ _ t Er) by (intros; by apply after_digit).
      destruct (truthy ds); [|done]. by apply number_end_app.
    + by apply (number_end_app neg ip [] (c :: r) n t).
Qed.

Lemma parse_number_app s n t :
  parse_number s = Some (n, []) → after_number t → parse_number (s ++ t) = Some (n, t).
Proof.
  rewrite !parse_number_eq. intros E Ht. destruct s as [|c s]; [done|]. cbn [app].
  destruct (c =? 45)%N; [by apply number_unsigned_app|]. by apply (number_unsigned_app false (c :: s)).
Qed.

(** A number starts with a digit or a minus sign. *)
Lemma parse_number_head s n r :
  parse_number s = Some (n, r) → ∃ c s', s = c :: s' ∧ (is_digit c = true ∨ c = 45%N).
Proof.
  rewrite parse_number_eq. destruct s as [|c s]; [done|]. intros E. exists c, s. split; [done|].
  destruct (N.eqb_spec c 45); [by right|]. left. unfold number_unsigned in E. cbn [span_digits] in E.
  by destruct (is_digit c).
Qed.

(** * White space and brackets *)

Definition blank (w : jstr) : Prop := Forall (λ c, json_ws c = true) w.

Lemma skip_blank w s : blank w → skip_ws (w ++ s) = skip_ws s.
Proof. induction 1 as [|c w Hc Hw IH]; [done|]. cbn [app skip_ws]. by rewrite Hc. Qed.

Lemma skip_start c s : json_ws c = false → skip_ws (c :: s) = c :: s.
Proof. intros Hc. cbn [skip_ws]. by rewrite Hc. Qed.

Lemma blank_after w c s :
  blank w → is_digit c = false → (c ∉ js ".eE") → after_number (w ++ c :: s).
Proof.
  intros Hw Hd Hc. destruct Hw as [|d w Hw _]; [done|]. cbn [app after_number]. unfold json_ws in Hw.
  change (js ".eE") with [46; 101; 69]%N.
  rewrite !orb_true_iff, !N.eqb_eq in Hw. destruct Hw as [[[->| ->]| ->]| ->]; (split; [done|set_solver]).
Qed.

(** * Reading back *)

(** [t] is a text of [v] *)
Definition reads (v : jsval) (t : jstr) : Prop :=
  (∃ c s, t = c :: s ∧ json_ws c = false ∧ c ≠ 93%N) ∧
  ∀ fuel tail, 2 * length t < fuel → after_number tail → parse_value fuel (t ++ tail) = Some (v, tail).

Lemma parse_value_blank fuel w s : blank w → parse_value fuel (w ++ s) = parse_value fuel s.
Proof. intros Hw. destruct fuel as [|fuel]; [done|]. cbn [parse_value]. by rewrite skip_blank. Qed.

Lemma parse_elements_blank fuel w s : blank w → parse_elements fuel (w ++ s) = parse_elements fuel s.
Proof. intros Hw. destruct fuel as [|fuel]; [done|]. cbn [parse_elements]. by rewrite parse_value_blank. Qed.

Lemma parse_members_blank fuel o w s : blank w → parse_members fuel o (w ++ s) = parse_members fuel o s.
Proof. intros Hw. destruct fuel as [|fuel]; [done|]. cbn [parse_members]. by rewrite skip_blank. Qed.

Section lists.
Context (w post tail : jstr) (Hw : blank w) (Hpost : blank post).

Definition comma : jstr := 44%N :: w.

Lemma after_comma s : after_number (44%N :: s).
Proof. split; [done|]. change (js ".eE") with [46; 101; 69]%N. set_solver. Qed.

Lemma after_post c s : c ∈ [93; 125]%N → after_number (post ++ c :: s).
Proof.
  intros Hc. apply blank_after; [done|..]; change (js ".eE") with [46; 101; 69]%N;
    repeat (apply elem_of_cons in Hc as [->|Hc]; [first [done|set_solver]|]); by apply elem_of_nil in Hc.
Qed.

Lemma parse_elements_reads l parts fuel :
  Forall2 reads l parts → parts ≠ [] → 2 * length (join comma parts) + 1 < fuel →
  parse_elements fuel (join comma parts ++ post ++ 93%N :: tail) = Some (l, tail).
Proof.
  intros Hl. revert fuel. induction Hl as [|v t l parts [_ Ht] Hl IH]; intros fuel Hne Hf; [done|].
  destruct fuel as [|fuel]; [lia|]. cbn [parse_elements]. destruct parts as [|t' parts].
  - inversion Hl; subst. cbn [join] in *. rewrite Ht; [|lia|apply after_post; set_solver].
    cbn [mbind option_bind]. rewrite skip_blank by done. done.
  - change (join comma (t :: t' :: parts)) with (t ++ comma ++ join comma (t' :: parts)) in *.
    rewrite !length_app in Hf. rewrite <- !app_assoc, Ht; [|lia|apply after_comma].
    cbn [mbind option_bind]. unfold comma at 1. cbn [app]. rewrite skip_start by done.
    rewrite parse_elements_blank by done. rewrite IH; [done|done|]. unfold comma in Hf at 1. cbn [length] in Hf. lia.
Qed.

(** A member of an object *)
Definition member_text (gap k t : jstr) : jstr := JSON_quote k ++ colon_of gap ++ t.

Lemma parse_members_reads gap o es parts fuel :
  Forall2 (λ e t, reads e.2 t) es parts → Forall units_ok es.*1 → NoDup (o.*1 ++ es.*1) → es ≠ [] →
  2 * length (join comma (zip_with (member_text gap) es.*1 parts)) + 1 < fuel →
  parse_members fuel o (join comma (zip_with (member_text gap) es.*1 parts) ++ post ++ 125%N :: tail)
  = Some (o ++ es, tail).
Proof.
  intros Hl. revert o fuel. induction Hl as [|[k v] t es parts [_ Ht] Hl IH]; intros o fuel Hk Hnd Hne Hf; [done|].
  cbn [fmap list_fmap fst snd] in *. inversion Hk as [|? ? Hku Hk']; subst.
  assert (omap.set o k v = o ++ [(k, v)]) as Hset.
  { apply omap.set_fresh, omap.get_None. apply NoDup_app in Hnd as (_ & Hdis & _). intros Hin. apply (Hdis k Hin). set_solver. }
  assert (∀ fuel rest, 2 * length (member_text gap k t) < fuel → after_number rest →
    parse_members (S fuel) o (member_text gap k t ++ rest)
    = match skip_ws rest with
      | 44%N :: r' => parse_members fuel (o ++ [(k, v)]) r'
      | 125%N :: rest => Some (o ++ [(k, v)], rest)
      | _ => None
      end) as Hmember.
  { intros f rest Hlen Hrest. unfold member_text in *. rewrite !length_app in Hlen. unfold JSON_quote.
    cbn [parse_members app]. rewrite skip_start by done. rewrite <- !app_assoc. cbn [app].
    rewrite parse_escape_text by done. cbn [mbind option_bind].
    assert (∃ b, blank b ∧ colon_of gap = 58%N :: b) as (b & Hb & ->).
    { unfold colon_of. destruct (truthy gap); [exists [32%N]|exists []]; (split; [by repeat constructor|done]). }
    cbn [app]. rewrite skip_start by done. rewrite parse_value_blank by done.
    rewrite Ht; [|lia|done]. cbn [mbind option_bind]. by rewrite Hset. }
  destruct fuel as [|fuel]; [lia|]. destruct Hl as [|[k' v'] t' es parts Ht' Hl].
  - cbn [fmap list_fmap zip_with join] in *. rewrite Hmember; [|lia|apply after_post; set_solver].
    by rewrite skip_blank by done.
  - cbn [fmap list_fmap fst snd zip_with] in *.
    change (join comma (?a :: ?b :: ?p)) with (a ++ comma ++ join comma (b :: p)) in *.
    rewrite !length_app in Hf. rewrite <- !app_assoc, Hmember; [|lia|apply after_comma].
    unfold comma at 1. cbn [app]. rewrite skip_start by done. rewrite parse_members_blank by done.
    rewrite IH; [by rewrite <- app_assoc|done| |done|].
    + rewrite fmap_app, <- app_assoc. exact Hnd.
    + unfold comma in Hf at 1. cbn [length] in Hf. lia.
Qed.
End lists.

(** * Values *)

Section fmap.
Context {A B : Type} (g : A → B).
#[local] Abbreviation on_value := (λ e : jstr * A, (e.1, g e.2)).

Lemma insert_by_index_fmap e l :
  insert_by_index (on_value e) (on_value <$> l) = on_value <$> insert_by_index e l.
Proof.
  induction l as [|e' l IH]; [done|]. rewrite fmap_cons. cbn [insert_by_index fst].
  destruct (_ <=? _)%N; [done|]. by rewrite fmap_cons, <- IH.
Qed.

Lemma sort_by_index_fmap l : sort_by_index (on_value <$> l) = on_value <$> sort_by_index l.
Proof.
  induction l as [|e l IH]; [done|]. rewrite fmap_cons. unfold sort_by_index in *. cbn [foldr].
  by rewrite IH, insert_by_index_fmap.
Qed.

Lemma filter_on_value b (o : list (jstr * A)) :
  filter (λ e : jstr * B, is_array_index e.1 = b) (on_value <$> o)
  = on_value <$> filter (λ e : jstr * A, is_array_index e.1 = b) o.
Proof.
  induction o as [|e o IH]; [done|]. rewrite fmap_cons, !filter_cons, IH. cbn [fst]. by case_decide.
Qed.

Lemma entries_fmap (o : list (jstr * A)) : entries (on_value <$> o) = on_value <$> entries o.
Proof. unfold entries. by rewrite fmap_app, <- sort_by_index_fmap, !filter_on_value. Qed.
End fmap.

Lemma json_plain_arr l : json_plain (VArr l) ↔ Forall json_plain l.
Proof. cbn [json_plain]. induction l as [|x l IH]; cbn [foldr]; [done|]. by rewrite Forall_cons, IH. Qed.

Lemma json_plain_obj o :
  json_plain (VObj o)
  ↔ NoDup o.*1 ∧ entries o = o ∧ Forall units_ok o.*1 ∧ Forall (λ e, json_plain e.2) o.
Proof.
  cbn [json_plain]. assert (foldr (λ e P, json_plain e.2 ∧ P) True o ↔ Forall (λ e, json_plain e.2) o) as ->; [|done].
  induction o as [|x o IH]; cbn [foldr]; [done|]. by rewrite Forall_cons, IH.
Qed.

Lemma reads_keyword v w :
  (v, w) ∈ [(VNull, js "null"); (VBool true, js "true"); (VBool false, js "false")] → reads v w.
Proof.
  intros Hin. split.
  { repeat (apply elem_of_cons in Hin as [[= -> ->]|Hin]; [eexists _, _; by vm_compute|]). by apply elem_of_nil in Hin. }
  intros [|fuel] tail Hf Ht; [lia|].
  assert (keyword w (w ++ tail) = Some tail) as Hk.
  { unfold keyword. rewrite startsWith_app. unfold slice_from. by rewrite drop_app_length. }
  assert (parse_value (S fuel) (w ++ tail) = (rest ← keyword w (w ++ tail); Some (v, rest))) as ->; [|by rewrite Hk].
  repeat (apply elem_of_cons in Hin as [[= -> ->]|Hin]; [reflexivity|]). by apply elem_of_nil in Hin.
Qed.

Lemma reads_num n :
  isFinite n = true → parse_number (string_of_num n) = Some (n, []) → reads (VNum n) (string_of_num n).
Proof.
  intros Hf Hn. destruct (parse_number_head _ _ _ Hn) as (c & s & E & Hc). rewrite E in *.
  assert (c ∉ [QUOTE; 91; 123; 116; 102; 110; 93; 9; 10; 13; 32]%N) as Hnot.
  { destruct Hc as [Hc| ->]; [|apply (bool_decide_unpack _); by vm_compute].
    apply is_digit_range in Hc. unfold QUOTE. rewrite !not_elem_of_cons. repeat split; try lia. by apply not_elem_of_nil. }
  assert (∀ x, x ∈ [QUOTE; 91; 123; 116; 102; 110; 93; 9; 10; 13; 32]%N → (c =? x)%N = false) as Heq.
  { intros x Hx. apply N.eqb_neq. by intros ->. }
  assert (json_ws c = false) as Hws. { unfold json_ws. by rewrite !Heq by set_solver. }
  split; [exists c, s; split_and!; [done..|]; set_solver|].
  intros [|fuel] tail Hlen Ht; [lia|]. cbn [parse_value app]. rewrite skip_start by done.
  rewrite !Heq by (unfold QUOTE; set_solver). change (c :: s ++ tail) with ((c :: s) ++ tail).
  by rewrite (parse_number_app (c :: s) n tail).
Qed.

Lemma reads_str s : units_ok s → reads (VStr s) (JSON_quote s).
Proof.
  intros Hs. split; [by eexists _, _|]. intros [|fuel] tail Hlen Ht; [lia|]. unfold JSON_quote.
  cbn [parse_value app]. rewrite skip_start by done. cbn [N.eqb]. change (QUOTE =? QUOTE)%N with true. cbn iota.
  rewrite <- app_assoc. cbn [app]. by rewrite parse_escape_text.
Qed.

Lemma json_wrap_text gap indent open close parts :
  blank gap → blank indent → parts ≠ [] →
  ∃ w post, blank w ∧ blank post
    ∧ json_wrap gap indent open close parts = open ++ w ++ join (comma w) parts ++ post ++ close.
Proof.
  intros Hg Hi Hne. unfold json_wrap. destruct parts as [|p parts]; [done|]. destruct (truthy gap).
  - exists (NL ++ (indent ++ gap)), (NL ++ indent).
    assert (blank NL) as Hnl by (by repeat constructor).
    split_and!; [apply Forall_app; split; [done|by apply Forall_app]|by apply Forall_app|].
    change (js "," ++ NL ++ (indent ++ gap)) with (comma (NL ++ (indent ++ gap))). by rewrite <- !app_assoc.
  - exists [], []. split_and!; [constructor|constructor|done].
Qed.

Lemma parse_value_arr fuel w c s :
  blank w → json_ws c = false → c ≠ 93%N →
  parse_value (S fuel) (91%N :: w ++ c :: s)
  = ('(l, rest) ← parse_elements fuel (w ++ c :: s); Some (VArr l, rest)).
Proof.
  intros Hw Hc Hne. cbn [parse_value]. rewrite skip_start by done. cbn iota. cbn [N.eqb Pos.eqb QUOTE].
  rewrite skip_blank, skip_start by done. destruct c as [|p]; [done|]. repeat (destruct p as [p|p|]; try done).
Qed.

Lemma parse_value_obj fuel w c s :
  blank w → json_ws c = false → c ≠ 125%N →
  parse_value (S fuel) (123%N :: w ++ c :: s)
  = ('(o, rest) ← parse_members fuel [] (w ++ c :: s); Some (VObj o, rest)).
Proof.
  intros Hw Hc Hne. cbn [parse_value]. rewrite skip_start by done. cbn iota. cbn [N.eqb Pos.eqb QUOTE].
  rewrite skip_blank, skip_start by done. destruct c as [|p]; [done|]. repeat (destruct p as [p|p|]; try done).
Qed.

Lemma reads_arr gap indent l parts :
  blank gap → blank indent → Forall2 reads l parts →
  reads (VArr l) (json_wrap gap indent (js "[") (js "]") parts).
Proof.
  intros Hg Hi Hl. destruct parts as [|p parts].
  { inversion Hl; subst. split; [by eexists _, _|]. intros [|fuel] tail Hf Ht; [lia|]. done. }
  destruct (json_wrap_text gap indent (js "[") (js "]") (p :: parts) Hg Hi) as (w & post & Hw & Hpost & ->); [done|].
  split; [by eexists _, _|]. intros [|fuel] tail Hf Ht; [lia|].
  rewrite !length_app in Hf. change (length (js "[")) with 1 in Hf. change (length (js "]")) with 1 in Hf.
  rewrite <- !app_assoc. change (js "]" ++ tail) with (93%N :: tail). change (js "[" ++ ?s) with (91%N :: s).
  pose proof Hl as Hl2. inversion Hl2 as [|v ? ? ? [(c & s & -> & Hc & Hne) _] _]; subst.
  assert (∃ r, join (comma w) ((c :: s) :: parts) ++ post ++ 93%N :: tail = c :: r) as [r Er].
  { destruct parts; by eexists. }
  rewrite Er, parse_value_arr by done. rewrite <- Er, parse_elements_blank by done.
  rewrite (parse_elements_reads w post tail Hw Hpost _ _ fuel Hl); [done|done|lia].
Qed.

Lemma reads_obj gap indent o parts :
  blank gap → blank indent → Forall2 (λ e t, reads e.2 t) o parts → Forall units_ok o.*1 → NoDup o.*1 →
  reads (VObj o) (json_wrap gap indent (js "{") (js "}") (zip_with (member_text gap) o.*1 parts)).
Proof.
  intros Hg Hi Hl Hk Hnd. destruct Hl as [|[k v] t o parts Ht Hl].
  { split; [by eexists _, _|]. intros [|fuel] tail Hf Hta; [lia|]. done. }
  set (es := (k, v) :: o). assert (Forall2 (λ e t, reads e.2 t) es (t :: parts)) as Hes by (by constructor).
  destruct (json_wrap_text gap indent (js "{") (js "}") (zip_with (member_text gap) es.*1 (t :: parts)) Hg Hi)
    as (w & post & Hw & Hpost & ->); [done|].
  split; [by eexists _, _|]. intros [|fuel] tail Hf Hta; [lia|].
  rewrite !length_app in Hf. change (length (js "{")) with 1 in Hf. change (length (js "}")) with 1 in Hf.
  rewrite <- !app_assoc. change (js "}" ++ tail) with (125%N :: tail). change (js "{" ++ ?s) with (123%N :: s).
  assert (∃ r, join (comma w) (zip_with (member_text gap) es.*1 (t :: parts)) ++ post ++ 125%N :: tail = QUOTE :: r)
    as [r Er]. { subst es. destruct Hl; by eexists. }
  rewrite Er, parse_value_obj by done. rewrite <- Er, parse_members_blank by done.
  rewrite (parse_members_reads w post tail Hw Hpost gap [] es (t :: parts) fuel Hes); [done|done|done|done|lia].
Qed.

(** Every plain value has a text, and [parse_value] reads it back. *)
Lemma stringify_reads gap v :
  blank gap → json_plain v → ∀ indent, blank indent → ∃ t, stringify_at gap indent v = Some t ∧ reads v t.
Proof.
  intros Hg. induction v as [| |b|n|s|l IH|o IH] using jsval_rec'; intros Hv indent Hi; [done|..].
  - eexists. split; [done|]. apply reads_keyword. set_solver.
  - destruct b; (eexists; split; [done|]; apply reads_keyword; set_solver).
  - destruct Hv as [Hf Hn]. cbn [stringify_at]. rewrite Hf. eexists. split; [done|]. by apply reads_num.
  - eexists. split; [done|]. by apply reads_str.
  - rewrite json_plain_arr in Hv. cbn [stringify_at]. eexists. split; [done|]. apply reads_arr; [done..|].
    assert (blank (indent ++ gap)) as Hi' by (by apply Forall_app).
    induction IH as [|x l Hx Hl IHl]; [constructor|]. apply Forall_cons_1 in Hv as [Hvx Hvl].
    constructor; [|by apply IHl]. destruct (Hx Hvx _ Hi') as (t & Et & Ht). cbn beta. by rewrite Et.
  - apply json_plain_obj in Hv as (Hnd & Hent & Hk & Hv). cbn [stringify_at].
    change (map ?f o) with (f <$> o).
    rewrite (entries_fmap (stringify_at gap (indent ++ gap))), Hent.
    assert (blank (indent ++ gap)) as Hi' by (by apply Forall_app).
    assert (∃ parts, Forall2 (λ e t, reads e.2 t) o parts
      ∧ base.omap (λ '((k, t) : jstr * option jstr), t ← t; Some (JSON_quote k ++ colon_of gap ++ t))
          ((λ e, (e.1, stringify_at gap (indent ++ gap) e.2)) <$> o)
        = zip_with (member_text gap) o.*1 parts) as (parts & Hp & ->).
    { clear Hent Hnd Hk. induction IH as [|[k x] o Hx Ho IHo]; [by exists []|].
      apply Forall_cons_1 in Hv as [Hvx Hvo]. destruct (IHo Hvo) as (parts & Hp & E).
      destruct (Hx Hvx _ Hi') as (t & Et & Ht). exists (t :: parts). split; [by constructor|].
      rewrite !fmap_cons. cbn [base.omap list_omap fst snd zip_with]. cbn [snd] in Et. rewrite Et. cbn [mbind option_bind].
      unfold member_text at 1. f_equal. exact E. }
    eexists. split; [done|]. by apply reads_obj.
Qed.

(** [JSON.parse(JSON.stringify(v, null, n))] is [v] for plain values. *)
Lemma JSON_parse_stringify n v :
  json_plain v → ∃ t, JSON_stringify_indented n v = Some t ∧ t ≠ [] ∧ JSON_parse t = Some v.
Proof.
  intros Hv. assert (blank (replicate n 32%N)) as Hb by (by apply Forall_replicate).
  destruct (stringify_reads (replicate n 32%N) v Hb Hv []) as (t & Ht & (c & s & -> & _) & Hr); [constructor|].
  exists (c :: s). split_and!; [done..|]. unfold JSON_parse.
  specialize (Hr (2 * length (c :: s) + 2) []). rewrite app_nil_r in Hr. rewrite Hr; [done|lia|done].
Qed.

Example stringify_examples :
  JSON_stringify_indented 2 (VObj [(js "a", VArr [VNum (num_of_Z 1); VStr (js "x")]); (js "u", VUndef); (js "b", VObj [])])
  = Some (jq "{" ++ NL ++ jq "  'a': [" ++ NL ++ js "    1," ++ NL ++ jq "    'x'" ++ NL ++ js "  ]," ++ NL ++ jq "  'b': {}" ++ NL ++ js "}")
  ∧ JSON_stringify (VObj [(js "b", VNull); (js "1", VArr [VUndef])]) = Some (jq "{'1':[null],'b':null}").
Proof. by vm_compute. Qed.

(** * Objects with a property set stay plain *)

Lemma omap_set_elem (m : list (jstr * jsval)) k v (k' : jstr) (v' : jsval) :
  (k', v') ∈ omap.set m k v → (k', v') = (k, v) ∨ (k', v') ∈ m.
Proof.
  induction m as [|[k0 v0] m IH]; cbn [omap.set]; [set_solver|]. case_decide; set_solver.
Qed.

(** The order in which the entries are listed depends on the keys only. *)
Lemma entries_same_keys (o o' : list (jstr * jsval)) :
  NoDup o.*1 → o'.*1 = o.*1 → entries o = o → entries o' = o'.
Proof.
  intros Hnd Hk Ho. set (kk := (λ k : jstr, (k, k)) <$> o.*1).
  set (g := λ (p : list (jstr * jsval)) (k : jstr), default VNull (omap.get p k)).
  assert (∀ p : list (jstr * jsval), p.*1 = o.*1 → p = (λ e : jstr * jstr, (e.1, g p e.2)) <$> kk) as Hp.
  { intros p Hpk. subst kk. rewrite <- list_fmap_compose, <- Hpk, <- list_fmap_compose.
    rewrite <- (list_fmap_id p) at 1. apply list_fmap_ext. intros i [k v] Hi%list_elem_of_lookup_2. cbn. unfold g.
    rewrite (omap.elem_get p k v); [done|by rewrite Hpk|done]. }
  assert (entries kk = kk) as Hkk.
  { assert (∀ l : list (jstr * jstr), (∀ e, e ∈ l → e.1 = e.2) → l = (λ k : jstr, (k, k)) <$> l.*1) as Hdiag.
    { intros l Hl. rewrite <- list_fmap_compose. rewrite <- (list_fmap_id l) at 1. apply list_fmap_ext.
      intros i [k k'] Hi%list_elem_of_lookup_2. cbn. by specialize (Hl _ Hi); cbn in Hl; subst. }
    rewrite (Hdiag (entries kk)).
    - subst kk. f_equal. rewrite (Hp o eq_refl), (entries_fmap (g o)) in Ho. apply (f_equal (fmap fst)) in Ho.
      rewrite <- list_fmap_compose in Ho. change (fst ∘ _) with (@fst jstr jstr) in Ho. rewrite Ho.
      by rewrite <- (Hp o eq_refl).
    - intros e. rewrite elem_of_entries. intros (k & -> & _)%list_elem_of_fmap. done. }
  rewrite (Hp o' Hk) at 1. rewrite (entries_fmap (g o')), Hkk. by rewrite <- (Hp o' Hk).
Qed.

Lemma plain_set o k x :
  json_plain (VObj o) → json_plain x → units_ok k → is_array_index k = false → json_plain (VObj (omap.set o k x)).
Proof.
  intros (Hnd & Hent & Hku & Hvs)%json_plain_obj Hx Hk Hi. apply json_plain_obj. split_and!.
  - by apply omap.NoDup_set.
  - destruct (omap.get o k) as [y|] eqn:E.
    + apply (entries_same_keys o); [done| |done]. rewrite omap.set_keys, decide_True; [done|].
      apply omap.get_Some_elem in E. apply list_elem_of_fmap. by exists (k, y).
    + rewrite omap.set_fresh by done. unfold entries in *. rewrite !filter_app, !filter_cons, !filter_nil.
      cbn [fst]. rewrite Hi. rewrite (decide_False (P := false = true)), (decide_True (P := false = false)) by done.
      rewrite app_nil_r, app_assoc, Hent. done.
  - rewrite omap.set_keys. case_decide; [done|]. apply Forall_app. by split; [|constructor].
  - apply Forall_forall. intros [k' v'] [[= -> ->]|H]%omap_set_elem; [done|]. by eapply Forall_forall in Hvs.
Qed.

(** The text of an object has no white space around it. *)
Lemma object_text_trimmed n o t : JSON_stringify_indented n (VObj o) = Some t → truthy t = true ∧ trim t = t.
Proof.
  intros [= <-]. set (parts := base.omap _ _). assert (∃ m, json_wrap (replicate n 32%N) [] (js "{") (js "}") parts = js "{" ++ m ++ js "}") as [m ->].
  { unfold json_wrap. destruct parts as [|p l]; [by exists []|]. generalize (p :: l), (replicate n 32%N). intros ps gap.
    destruct (truthy gap); [|by eexists].
    exists (NL ++ ([] ++ gap) ++ join (js "," ++ NL ++ [] ++ gap) ps ++ NL ++ []). by rewrite <- !app_assoc. }
  split; [done|]. apply trim_id. split; [done|]. rewrite !reverse_app. done.
Qed.
