(* ===== verification/NumberText.v ===== *)
(** The text of a safe integer reads back as the integer. *)

From Stdlib Require Import ZArith NArith Lia SpecFloat.
From S2P Require Import Prelude JsString JsNumber JsValue Json.

(** * Numerals *)

Lemma digits_go_head fuel n :
  (0 < n < 10 ^ N.of_nat fuel)%N → ∃ c s, digits_go fuel n [] = c :: s ∧ (49 ≤ c ≤ 57)%N.
Proof.
  revert n. induction fuel as [|fuel IH]; intros n [Hn Hlt]; cbn [digits_go]; [cbn in Hlt; lia|].
  destruct (N.ltb_spec n 10) as [H|H].
  - eexists _, _. split; [done|]. rewrite N.mod_small by done. lia.
  - destruct (IH (n / 10)%N) as (c & s & E & Hc).
    { split; [apply N.div_str_pos; lia|]. rewrite Nat2N.inj_succ, N.pow_succ_r' in Hlt.
      apply N.Div0.div_lt_upper_bound. lia. }
    rewrite digits_go_app, E. by eexists _, _.
Qed.

Lemma digits_head n : (0 < n)%N → ∃ c s, digits n = c :: s ∧ (49 ≤ c ≤ 57)%N.
Proof.
  intros Hn. apply digits_go_head. split; [done|]. rewrite Nat2N.inj_succ, N2Nat.id.
  pose proof (N.log2_spec n Hn) as [_ H]. eapply N.lt_le_trans; [exact H|]. apply N.pow_le_mono_l. lia.
Qed.

Lemma digits_value_fold s a :
  foldl (λ a c, (10 * a + (c - 48))%N) a s = (a * 10 ^ N.of_nat (length s) + digits_value s)%N.
Proof.
  revert a. induction s as [|c s IH]; intros a; [cbn; lia|]. unfold digits_value. cbn [foldl length].
  rewrite !IH. rewrite Nat2N.inj_succ, N.pow_succ_r'. lia.
Qed.

Lemma digits_value_bound s : Forall (λ c, is_digit c = true) s → (digits_value s < 10 ^ N.of_nat (length s))%N.
Proof.
  induction 1 as [|c s Hc Hs IH]; [done|]. unfold digits_value in *. cbn [foldl length].
  rewrite digits_value_fold. apply is_digit_range in Hc. rewrite Nat2N.inj_succ, N.pow_succ_r'.
  unfold digits_value at 1. nia.
Qed.

(** The length of the numeral of [n] *)
Lemma digits_length n :
  (0 < n)%N → (10 ^ N.of_nat (length (digits n) - 1) ≤ n < 10 ^ N.of_nat (length (digits n)))%N.
Proof.
  intros Hn. pose proof (digits_value_digits n) as Ev. destruct (digits_head n Hn) as (c & s & E & Hc).
  pose proof (digits_value_bound (digits n) (Forall_digits n)) as Hb. rewrite Ev in Hb. split; [|done].
  rewrite E in Ev |- *. cbn [length]. replace (S (length s) - 1) with (length s) by lia. rewrite <- Ev.
  unfold digits_value. cbn [foldl]. rewrite digits_value_fold. nia.
Qed.

Lemma digits_value_zeros s k : digits_value (s ++ replicate k 48%N) = (digits_value s * 10 ^ N.of_nat k)%N.
Proof.
  induction k as [|k IH]; [cbn; rewrite app_nil_r; lia|].
  rewrite replicate_S_end, app_assoc, digits_value_app, IH, Nat2N.inj_succ, N.pow_succ_r'. lia.
Qed.

(** * Reading a run of digits *)

Lemma span_all_digits s : Forall (λ c, is_digit c = true) s → span_digits s = (s, []).
Proof. induction 1 as [|c s Hc Hs IH]; [done|]. cbn [span_digits]. by rewrite Hc, IH. Qed.

Lemma parse_number_digits c s :
  (49 ≤ c ≤ 57)%N → Forall (λ c, is_digit c = true) s →
  parse_number (c :: s) = Some (num_of_Z (Z.of_N (digits_value (c :: s))), []).
Proof.
  intros Hc Hs. assert (Forall (λ c, is_digit c = true) (c :: s)) as Hall.
  { constructor; [apply is_digit_range; lia|done]. }
  rewrite parse_number_eq. rewrite (proj2 (N.eqb_neq c 45)) by lia. unfold number_unsigned.
  rewrite (span_all_digits _ Hall). cbn [truthy negb head].
  rewrite bool_decide_false by (intros [= ->]; lia). cbn [andb number_fraction number_end parse_exponent mbind option_bind].
  rewrite app_nil_r. cbn [length Z.of_nat]. unfold num_of_decimal. cbn [Z.sub Z.add Z.opp Z.leb Z.compare].
  by rewrite Z.mul_1_r.
Qed.

(** * The shortest digits of an integer *)

Lemma num_eqb_finite_refl n : isFinite n = true → num_eqb n n = true.
Proof.
  destruct n as [s|s| |s m e]; try done. intros _. unfold num_eqb, SFeqb. cbn [SFcompare].
  by destruct s; rewrite Z.compare_refl, Pos.compare_cont_refl.
Qed.

Lemma num_eqb_eq x m e : num_eqb x (S754_finite false m e) = true → x = S754_finite false m e.
Proof.
  unfold num_eqb, SFeqb. destruct x as [[]|[]| |[] m' e']; cbn [SFcompare]; try done.
  destruct (Z.compare_spec e' e) as [->|H|H]; try done.
  change (Pos.compare_cont Eq m' m) with (Pos.compare m' m). by destruct (Pos.compare_spec m' m) as [->|H|H].
Qed.

Section integer.
Context (z : Z) (Hz : (0 < z ≤ MAX_SAFE_INTEGER)%Z).

Lemma integer_frac :
  ∃ m e d, num_of_Z z = S754_finite false m e ∧ frac_of m e = (z * d, d)%Z ∧ (0 < d)%Z.
Proof.
  rewrite num_of_Z_canon by (unfold safe; lia). rewrite (proj2 (Z.ltb_ge z 0)), Z.abs_eq by lia. unfold canon.
  destruct (log2_bound z Hz) as [H1 H2].
  pose proof (Z.pow_pos_nonneg 2 (52 - Z.log2 z) ltac:(lia) ltac:(lia)) as Hp.
  eexists _, _, (2 ^ (52 - Z.log2 z))%Z. split; [done|]. split; [|done].
  unfold frac_of. rewrite Z2Pos.id by (apply Z.mul_pos_pos; lia). destruct (Z.leb_spec 0 (Z.log2 z - 52)) as [H|H].
  - replace (Z.log2 z) with 52%Z by lia. by rewrite !Z.mul_1_r.
  - f_equal. f_equal. lia.
Qed.

Context (x : num) (d : Z) (Hx : x = num_of_Z z) (Hd : (0 < d)%Z).

Definition places : Z := Z.of_nat (length (digits (Z.to_N z))).

Lemma places_bounds : (10 ^ (places - 1) ≤ z < 10 ^ places ∧ 1 ≤ places ≤ 16)%Z.
Proof.
  destruct (digits_length (Z.to_N z)) as [H1 H2]; [lia|]. unfold places.
  destruct (digits_head (Z.to_N z)) as (c & s & E & _); [lia|].
  assert (1 ≤ length (digits (Z.to_N z))) as Hl by (rewrite E; cbn; lia). clear E.
  apply N2Z.inj_le in H1. apply N2Z.inj_lt in H2. rewrite N2Z.inj_pow in H1, H2. rewrite Z2N.id in H1, H2 by lia.
  change (Z.of_N 10) with 10%Z in H1, H2. rewrite nat_N_Z in H1, H2. rewrite Nat2Z.inj_sub in H1 by lia.
  split; [split; lia|]. split; [lia|].
  destruct (decide (Z.of_nat (length (digits (Z.to_N z))) ≤ 16)%Z) as [|H]; [done|]. exfalso.
  assert (10 ^ 16 ≤ 10 ^ (Z.of_nat (length (digits (Z.to_N z))) - Z.of_nat 1))%Z as Hpow by (apply Z.pow_le_mono_r; lia).
  unfold MAX_SAFE_INTEGER in *. lia.
Qed.

Lemma dec_exp_integer : dec_exp (z * d) d = places.
Proof.
  unfold dec_exp. rewrite (proj2 (Z.leb_le d (z * d))) by nia. by rewrite Z.div_mul by lia.
Qed.

Lemma shortest_at_places : shortest_at x (z * d) d places places = Some z.
Proof.
  unfold shortest_at. rewrite Z.sub_diag. cbn [Z.leb Z.compare]. rewrite Z.pow_0_r, Z.mul_1_r, Z.div_mul by lia.
  unfold num_of_decimal at 1. cbn [Z.leb Z.compare]. rewrite Z.pow_0_r, Z.mul_1_r.
  change (binary_normalize 53 1024 z 0 false) with (num_of_Z z). rewrite <- Hx.
  rewrite num_eqb_finite_refl by (subst; apply isFinite_of_Z; unfold safe; lia).
  destruct places_bounds as [[H1 _] _]. rewrite (proj2 (Z.leb_le _ _) H1). rewrite Z.sub_diag, Z.mul_0_r.
  rewrite (proj2 (Z.ltb_lt 0 d)) by done. cbn [andb orb]. by rewrite orb_true_r.
Qed.

Lemma shortest_at_ok k s :
  (1 ≤ k)%Z → shortest_at x (z * d) d places k = Some s → num_eqb (num_of_decimal s (places - k)) x = true ∧ (0 < s)%Z.
Proof.
  intros Hk. unfold shortest_at. set (ab := if (0 <=? k - places)%Z then _ else _).
  assert (0 ≤ ab.1 ∧ 0 < ab.2)%Z as [Ha Hb].
  { subst ab. destruct (Z.leb_spec 0 (k - places)); cbn; (split; [|]); try (apply Z.mul_nonneg_nonneg); try nia;
      try (apply Z.mul_pos_pos; [done|]); apply Z.pow_nonneg || apply Z.pow_pos_nonneg; lia. }
  destruct ab as [a b]. cbn [fst snd] in *. pose proof (Z.div_pos a b Ha Hb) as Hq.
  pose proof (Z.pow_pos_nonneg 10 (k - 1) ltac:(lia) ltac:(lia)).
  destruct (_ && _ && _) eqn:E1.
  - intros [= <-]. apply andb_true_iff in E1 as [[E1 E2]%andb_true_iff _]. split; [done|]. apply Z.leb_le in E2. lia.
  - destruct (num_eqb (num_of_decimal (a / b + 1) _) x) eqn:E2; [|done]. intros [= <-]. split; [done|lia].
Qed.

Lemma shortest_integer fuel k :
  (1 ≤ k ≤ places)%Z → (places - k < Z.of_nat fuel)%Z →
  ∃ s k', shortest fuel x (z * d) d places k = (s, k') ∧ (k ≤ k' ≤ places)%Z
          ∧ num_eqb (num_of_decimal s (places - k')) x = true ∧ (0 < s)%Z.
Proof.
  revert k. induction fuel as [|fuel IH]; intros k Hk Hf; [lia|]. cbn [shortest].
  destruct (shortest_at x (z * d) d places k) as [s|] eqn:E.
  - exists s, k. split; [done|]. split; [lia|]. apply shortest_at_ok; [lia|done].
  - destruct (decide (k = places)) as [->|Hne]; [by rewrite shortest_at_places in E|].
    destruct (IH (k + 1)%Z) as (s & k' & Es & Hk' & Hs); [lia|lia|]. exists s, k'. split; [done|]. split; [lia|done].
Qed.
End integer.

(** The text of a safe integer is a number of JSON and reads back. *)
Lemma integer_text z :
  (0 ≤ z ≤ MAX_SAFE_INTEGER)%Z → parse_number (string_of_num (num_of_Z z)) = Some (num_of_Z z, []).
Proof.
  intros Hz. destruct (decide (z = 0%Z)) as [->|Hne]; [done|].
  assert (0 < z ≤ MAX_SAFE_INTEGER)%Z as Hz' by lia.
  destruct (integer_frac z Hz') as (m & e & d & Ex & Ef & Hd). rewrite Ex. cbn [string_of_num].
  unfold string_of_pos_num. rewrite Ef, (dec_exp_integer z Hz' d Hd).
  destruct (places_bounds z Hz') as [_ Hp].
  destruct (shortest_integer z Hz' (S754_finite false m e) d (eq_sym Ex) Hd 17 1) as (s & k & Es & Hk & Heq & Hs); [lia..|].
  rewrite Es. unfold layout_digits. rewrite (proj2 (Z.leb_le k (places z))), (proj2 (Z.leb_le (places z) 21)) by lia.
  cbn [andb]. unfold zeros. destruct (digits_head (Z.to_N s)) as (c & t & Ed & Hc); [lia|].
  pose proof (Forall_digits (Z.to_N s)) as Hall. rewrite Ed in *. cbn [app].
  rewrite parse_number_digits; [|done|].
  - f_equal. f_equal. apply num_eqb_eq in Heq. rewrite <- Heq. unfold num_of_decimal.
    rewrite (proj2 (Z.leb_le 0 (places z - k))) by lia. unfold num_of_Z. f_equal.
    change (c :: t ++ replicate (Z.to_nat (places z - k)) 48%N) with ((c :: t) ++ replicate (Z.to_nat (places z - k)) 48%N).
    rewrite digits_value_zeros, <- Ed, digits_value_digits, N2Z.inj_mul, N2Z.inj_pow, Z2N.id by lia.
    by rewrite nat_N_Z, Z2Nat.id by lia.
  - apply Forall_app. split; [by apply Forall_cons_1 in Hall as [_ Hall]|]. by apply Forall_replicate.
Qed.

Lemma json_plain_integer z : (0 ≤ z ≤ MAX_SAFE_INTEGER)%Z → json_plain (VNum (num_of_Z z)).
Proof. intros Hz. split; [apply isFinite_of_Z; unfold safe; lia|by apply integer_text]. Qed.
