(* ===== verification/JsRegex.v ===== *)
(** Regular expressions, as far as the sources use them: the backtracking
    matcher of the language definition over UTF-16 code units, with greedy
    quantifiers, captures, back references and anchors.

    A matcher runs in continuation-passing style: it tries its alternatives in
    order and gives up only when the continuation fails after each of them. *)

From Stdlib Require Import ZArith NArith Lia.
From S2P Require Import Prelude JsString.

Inductive re :=
  | REps
  | RClass (p : N → bool)
  | RSeq (a b : re)
  | RAlt (a b : re)
  | RStar (r : re)
  | RGroup (n : nat) (r : re)
  | RBackref (n : nat)
  | RBegin
  | REnd
  | RLineBegin
  | RLineEnd
  | RWordBoundary.

(** The unit before the position, the text after it, and the captures *)
Record mstate := mkM {
  before : option N;
  rest : jstr;
  caps : list (nat * jstr);
}.

Definition is_line_end (c : N) : bool :=
  (c =? 10)%N || (c =? 13)%N || (c =? 8232)%N || (c =? 8233)%N.

(** The class [\w] *)
Definition is_word (c : N) : bool :=
  is_digit c || ((65 <=? c) && (c <=? 90))%N || ((97 <=? c) && (c <=? 122))%N || (c =? 95)%N.

Definition opt_is (p : N → bool) (c : option N) : bool :=
  match c with Some c => p c | None => false end.

(** Moving over the first [n] units *)
Definition advance (n : nat) (m : mstate) : mstate :=
  mkM (match last (take n (rest m)) with Some c => Some c | None => before m end)
    (drop n (rest m)) (caps m).

Definition capture (n : nat) (s : jstr) (m : mstate) : mstate :=
  mkM (before m) (rest m) ((n, s) :: caps m).

(** [r*]: another turn that makes progress, or on with [k].  Every turn that
    counts consumes a unit, so the length of the text bounds their number. *)
Fixpoint star_loop {A} (body : (mstate → option A) → mstate → option A) (k : mstate → option A)
    (n : nat) (m : mstate) : option A :=
  match n with
  | 0 => k m
  | S n =>
      match body (λ m', if (length (rest m') <? length (rest m))%nat
                        then star_loop body k n m' else None) m with
      | Some x => Some x
      | None => k m
      end
  end.

Fixpoint rmatch {A} (r : re) (k : mstate → option A) (m : mstate) : option A :=
  match r with
  | REps => k m
  | RClass p =>
      match rest m with
      | c :: s => if p c then k (mkM (Some c) s (caps m)) else None
      | [] => None
      end
  | RSeq a b => rmatch a (rmatch b k) m
  | RAlt a b => match rmatch a k m with Some x => Some x | None => rmatch b k m end
  | RStar r => star_loop (rmatch r) k (length (rest m)) m
  | RGroup n r =>
      rmatch r (λ m', k (capture n (take (length (rest m) - length (rest m')) (rest m)) m')) m
  | RBackref n =>
      let s := default [] (omap.get (caps m) n) in
      if startsWith (rest m) s then k (advance (length s) m) else None
  | RBegin => match before m with None => k m | Some _ => None end
  | REnd => match rest m with [] => k m | _ => None end
  | RLineBegin =>
      match before m with
      | None => k m
      | Some c => if is_line_end c then k m else None
      end
  | RLineEnd =>
      match rest m with [] => k m | c :: _ => if is_line_end c then k m else None end
  | RWordBoundary =>
      if xorb (opt_is is_word (before m)) (opt_is is_word (head (rest m))) then k m else None
  end.

(** ** Building expressions *)

Definition unit (c : N) : re := RClass (λ x, (x =? c)%N).

(** A literal text *)
Fixpoint lit (s : jstr) : re :=
  match s with [] => REps | c :: s => RSeq (unit c) (lit s) end.

Definition plus (r : re) : re := RSeq r (RStar r).
Definition opt (r : re) : re := RAlt r REps.

Fixpoint seq (l : list re) : re :=
  match l with [] => REps | [r] => r | r :: l => RSeq r (seq l) end.

Fixpoint alt (l : list re) : re :=
  match l with [] => RClass (λ _, false) | [r] => r | r :: l => RAlt r (alt l) end.

(** [r{lo,lo+more}], greedy *)
Fixpoint upto (more : nat) (r : re) : re :=
  match more with 0 => REps | S n => opt (RSeq r (upto n r)) end.
Definition between (lo more : nat) (r : re) : re := RSeq (seq (replicate lo r)) (upto more r).

(** Character classes: [\s], [\d], [.], [[^c]] *)
Definition ws : re := RClass is_ws.
Definition digit : re := RClass is_digit.
Definition dot : re := RClass (λ c, negb (is_line_end c)).
Definition any : re := RClass (λ _, true).
Definition not_unit (c : N) : re := RClass (λ x, negb (x =? c)%N).
Definition one_of (s : jstr) : re := RClass (λ x, bool_decide (x ∈ s)).

(** ** Running them *)

(** A match: the text matched, the captures, and the state after it *)
Record rresult := mkResult { r_text : jstr; r_caps : list (nat * jstr); r_after : mstate }.

Definition group (res : rresult) (n : nat) : option jstr := omap.get (r_caps res) n.

Definition match_at (r : re) (m : mstate) : option rresult :=
  rmatch r (λ m', Some (mkResult (take (length (rest m) - length (rest m')) (rest m))
                          (caps m') (mkM (before m') (rest m') []))) (mkM (before m) (rest m) []).

(** The first match at or after the position, with the units skipped *)
Fixpoint find_match (r : re) (n : nat) (skipped : nat) (m : mstate) : option (nat * rresult) :=
  match match_at r m with
  | Some res => Some (skipped, res)
  | None =>
      match n with
      | 0 => None
      | S n => find_match r n (S skipped) (advance 1 m)
      end
  end.

Definition start_state (s : jstr) : mstate := mkM None s [].

(** [s.match(r)] without the global flag *)
Definition exec (r : re) (s : jstr) : option (nat * rresult) :=
  find_match r (length s) 0 (start_state s).

(** [r.test(s)] *)
Definition test (r : re) (s : jstr) : bool :=
  match exec r s with Some _ => true | None => false end.

(** All matches in order, with their positions, as a global [exec] loop or
    [matchAll] finds them.  The expressions searched for in this way never match
    the empty text, so each turn makes progress. *)
Fixpoint exec_all (n : nat) (r : re) (pos : nat) (m : mstate) : list (nat * rresult) :=
  match n with
  | 0 => []
  | S n =>
      match find_match r (length (rest m)) 0 m with
      | Some (skipped, res) =>
          (pos + skipped, res)
          :: exec_all n r (pos + skipped + length (r_text res)) (r_after res)
      | None => []
      end
  end.

Definition match_all (r : re) (s : jstr) : list (nat * rresult) :=
  exec_all (S (length s)) r 0 (start_state s).

Example regex_examples :
  (λ x, (x.1, r_text x.2, r_caps x.2)) <$>
    exec (seq [RGroup 1 (plus digit); lit (js "-"); RBackref 1; REnd]) (js "a12-2") = Some (2, js "2-2", [(1, js "2")])
  ∧ (λ x, (x.1, r_text x.2)) <$> match_all (plus digit) (js "1 23 a456") = [(0, js "1"); (2, js "23"); (6, js "456")]
  ∧ test (seq [RLineBegin; between 2 4 (lit (js "#")); plus ws]) (js "x
### y") = true.
Proof. by vm_compute. Qed.

(** * Stepping through a match *)

(** The unit before the position once [l] has been passed *)
Definition passed (l : jstr) (b : option N) : option N :=
  match last l with Some c => Some c | None => b end.

Lemma passed_cons c l b : passed (c :: l) b = passed l (Some c).
Proof. unfold passed. rewrite last_cons. by destruct (last l). Qed.

Lemma rmatch_lit {A} s (k : mstate → option A) b t c :
  rmatch (lit s) k (mkM b (s ++ t) c) = k (mkM (passed s b) t c).
Proof.
  revert b. induction s as [|x s IH]; intros b; [done|].
  cbn [lit rmatch unit rest app]. rewrite N.eqb_refl. cbn [caps]. by rewrite IH, passed_cons.
Qed.

(** A literal fails where its first unit does not match. *)
Lemma rmatch_lit_ne {A} x s (k : mstate → option A) b d t c :
  d ≠ x → rmatch (lit (x :: s)) k (mkM b (d :: t) c) = None.
Proof. intros Hd. cbn. by destruct (N.eqb_spec d x). Qed.

Lemma rmatch_lit_nil {A} x s (k : mstate → option A) b c :
  rmatch (lit (x :: s)) k (mkM b [] c) = None.
Proof. done. Qed.

(** A turn over one unit makes progress. *)
Lemma ltb_succ n : (n <? S n)%nat = true.
Proof. apply Nat.ltb_lt. lia. Qed.

(** A repetition that can only stop at the end of the run: each unit of the run
    takes one turn, no turn starts at the tail, and what follows fails on the
    units of the run. *)
Lemma star_det {A} (body : (mstate → option A) → mstate → option A) k run tail n b c :
  (∀ d K b t c, d ∈ run → body K (mkM b (d :: t) c) = K (mkM (Some d) t c)) →
  (∀ K b c, body K (mkM b tail c) = None) →
  (∀ d b t c, d ∈ run → k (mkM b (d :: t) c) = None) →
  length (run ++ tail) ≤ n →
  star_loop body k n (mkM b (run ++ tail) c) = k (mkM (passed run b) tail c).
Proof.
  intros Hrun Htail Hk. revert n b. induction run as [|d run IH]; intros n b Hn.
  { destruct n as [|n]; [done|]. cbn [star_loop app]. by rewrite Htail. }
  destruct n as [|n]; [cbn in Hn; lia|]. cbn [star_loop app].
  rewrite Hrun by set_solver. cbn [rest length].
  rewrite ltb_succ.
  rewrite IH; [|set_solver..|cbn in Hn; lia].
  rewrite passed_cons. destruct (k _) eqn:E; [done|]. rewrite Hk by set_solver. done.
Qed.

Lemma rmatch_class {A} p (k : mstate → option A) b d t c :
  p d = true → rmatch (RClass p) k (mkM b (d :: t) c) = k (mkM (Some d) t c).
Proof. intros Hp. cbn. by rewrite Hp. Qed.

(** A greedy run of any units: what follows is tried from the end backwards, so
    the last place where it succeeds decides. *)
Lemma star_last {A} (k : mstate → option A) r1 r2 n b c x :
  k (mkM (passed r1 b) r2 c) = Some x →
  (∀ q q', r2 = q ++ q' → q ≠ [] → k (mkM (passed (r1 ++ q) b) q' c) = None) →
  length (r1 ++ r2) ≤ n →
  star_loop (rmatch any) k n (mkM b (r1 ++ r2) c) = Some x.
Proof.
  assert (∀ s n b, (∀ q q', s = q ++ q' → k (mkM (passed q b) q' c) = None) → length s ≤ n →
            star_loop (rmatch any) k n (mkM b s c) = None) as Hfail.
  { clear. induction s as [|d s IH]; intros n b Hk Hn; (destruct n as [|n]; [|cbn [star_loop]]).
    - by apply (Hk [] []).
    - cbn. by apply (Hk [] []).
    - cbn in Hn. lia.
    - unfold any at 1. rewrite rmatch_class by done. cbn [rest length]. rewrite ltb_succ.
      rewrite IH; [by apply (Hk [] (d :: s))| |cbn in Hn; lia].
      intros q q' ->. rewrite <- (passed_cons d q b). by apply (Hk (d :: q) q'). }
  revert n b. induction r1 as [|d r1 IH]; intros n b Hk Hq Hn.
  - cbn [app] in *. destruct n as [|n]; [done|]. cbn [star_loop].
    destruct r2 as [|d r2]; [done|].
    unfold any at 1. rewrite rmatch_class by done. cbn [rest length]. rewrite ltb_succ.
    rewrite Hfail; [done| |cbn in Hn; lia].
    intros q q' ->. rewrite <- (passed_cons d q b). by apply (Hq (d :: q) q').
  - destruct n as [|n]; [cbn in Hn; lia|]. cbn [star_loop app].
    unfold any at 1. rewrite rmatch_class by done. cbn [rest length]. rewrite ltb_succ.
    rewrite (IH n (Some d)); [done| | |cbn in Hn; lia].
    + by rewrite <- (passed_cons d r1 b).
    + intros q q' E Hne. rewrite <- (passed_cons d (r1 ++ q) b). by apply (Hq q q').
Qed.

(** A captured run of units of a class, with nothing to give back *)
Lemma rmatch_group_plus {A} n p (k : mstate → option A) run tail b c :
  run ≠ [] → Forall (λ d, p d = true) run →
  match tail with d :: _ => p d = false | [] => True end →
  (∀ d b t c, p d = true → k (mkM b (d :: t) c) = None) →
  rmatch (RGroup n (plus (RClass p))) k (mkM b (run ++ tail) c)
  = k (mkM (passed run b) tail ((n, run) :: c)).
Proof.
  intros Hne Hrun Htail Hk. destruct Hrun as [|d run Hd Hrun]; [done|].
  rewrite Forall_forall in Hrun.
  change (rmatch (RGroup n (plus (RClass p))) k (mkM b ((d :: run) ++ tail) c))
    with (rmatch (RClass p) (λ m1, star_loop (rmatch (RClass p))
            (λ m', k (capture n (take (length ((d :: run) ++ tail) - length (rest m'))
                                   ((d :: run) ++ tail)) m')) (length (rest m1)) m1)
            (mkM b (d :: (run ++ tail)) c)).
  rewrite rmatch_class by done. cbn [rest].
  rewrite (star_det (rmatch (RClass p)) _ run tail).
  - rewrite passed_cons. f_equal. unfold capture. cbn [before rest caps]. do 3 f_equal.
    rewrite length_app.
    replace (length (d :: run) + length tail - length tail) with (length (d :: run)) by lia.
    apply (take_app_length (d :: run)).
  - intros e K b' t c' He. by apply rmatch_class, Hrun.
  - intros K b' c'. destruct tail as [|e t]; [done|]. cbn. by rewrite Htail.
  - intros e b' t c' He. unfold capture. cbn [before rest caps]. by apply Hk, Hrun.
  - done.
Qed.

(** An expression that starts with [^] only matches at the start. *)
Lemma find_match_begin r n i m c :
  before m = Some c → find_match (RSeq RBegin r) n i m = None.
Proof.
  revert i m c. induction n as [|n IH]; intros i m c Hm; cbn [find_match];
    unfold match_at; cbn [rmatch before]; rewrite Hm; [done|].
  unfold advance. destruct (last (take 1 (rest m))) eqn:E; by eapply IH.
Qed.

Lemma exec_begin r s :
  exec (RSeq RBegin r) s = (λ res, (0, res)) <$> match_at r (start_state s).
Proof.
  unfold exec.
  assert (match_at (RSeq RBegin r) (start_state s) = match_at r (start_state s)) as E by done.
  destruct s as [|c s]; cbn [find_match length]; rewrite E.
  - by destruct (match_at r _).
  - destruct (match_at r (start_state (c :: s))); [done|].
    by eapply (find_match_begin r (length s) 1 (advance 1 (start_state (c :: s))) c).
Qed.

(** ** The units a match consumes *)

(** Every unit the expression can consume satisfies [p]. *)
Fixpoint over (p : N → bool) (r : re) : Prop :=
  match r with
  | RClass q => ∀ c, q c = true → p c = true
  | RSeq a b | RAlt a b => over p a ∧ over p b
  | RStar r | RGroup _ r => over p r
  | RBackref _ => False
  | _ => True
  end.

Lemma rmatch_over {A} p r (k : mstate → option A) m x :
  over p r → rmatch r k m = Some x →
  ∃ l m', rest m = l ++ rest m' ∧ Forall (λ c, p c = true) l ∧ k m' = Some x.
Proof.
  revert k m. induction r as [|q|a IHa b IHb|a IHa b IHb|r IH|n r IH|n| | | | |];
    intros k m Hov Hm; cbn [rmatch over] in *; try done.
  - by exists [], m.
  - destruct (rest m) as [|c s] eqn:E; [done|]. destruct (q c) eqn:Hq; [|done].
    exists [c], (mkM (Some c) s (caps m)). split_and!; [done| |done]. constructor; auto.
  - destruct Hov as [Ha Hb]. apply IHa in Hm as (l1 & m1 & E1 & Hl1 & Hm); [|done].
    apply IHb in Hm as (l2 & m2 & E2 & Hl2 & Hm); [|done].
    exists (l1 ++ l2), m2. rewrite E1, E2, app_assoc. split_and!; [done| |done].
    by apply Forall_app.
  - destruct Hov as [Ha Hb]. destruct (rmatch a k m) eqn:E; [|by apply IHb].
    injection Hm as ->. by apply IHa.
  - revert Hm. generalize (length (rest m)) at 1. intros n. revert m.
    induction n as [|n IHn]; intros m Hm; cbn [star_loop] in Hm.
    { by exists [], m. }
    destruct (rmatch r _ m) as [y|] eqn:E; [|by exists [], m]. injection Hm as ->.
    apply IH in E as (l1 & m1 & E1 & Hl1 & Hm1); [|done].
    destruct (_ <? _)%nat; [|done]. apply IHn in Hm1 as (l2 & m2 & E2 & Hl2 & Hm2).
    exists (l1 ++ l2), m2. rewrite E1, E2, app_assoc. split_and!; [done| |done].
    by apply Forall_app.
  - apply IH in Hm as (l & m' & E & Hl & Hm); [|done].
    by exists l, (capture n (take (length (rest m) - length (rest m')) (rest m)) m').
  - destruct (before m); [done|]. by exists [], m.
  - destruct (rest m) eqn:E; [|done]. exists [], m. by rewrite E.
  - exists [], m. destruct (before m); [destruct (is_line_end _)|]; done.
  - exists [], m. destruct (rest m) eqn:E; [done|]. by destruct (is_line_end _).
  - exists [], m. by destruct (xorb _ _).
Qed.

(** ** Sequences *)

Lemma rmatch_seq {A} a r l (k : mstate → option A) m :
  rmatch (seq (a :: r :: l)) k m = rmatch a (rmatch (seq (r :: l)) k) m.
Proof. done. Qed.

Lemma rmatch_backref {A} n s (k : mstate → option A) b t c :
  omap.get c n = Some s → rmatch (RBackref n) k (mkM b (s ++ t) c) = k (mkM (passed s b) t c).
Proof.
  intros Hs. cbn [rmatch caps rest]. rewrite Hs. cbn [default from_option id].
  rewrite startsWith_app. unfold advance. cbn [rest before caps].
  by rewrite take_app_length, drop_app_length.
Qed.

(** What follows fails on the units of a class. *)
Definition stops {A} (p : N → bool) (k : mstate → option A) : Prop :=
  ∀ d b t c, p d = true → k (mkM b (d :: t) c) = None.

Lemma stops_lit {A} p x s r l (k : mstate → option A) :
  p x = false → stops p (rmatch (seq (lit (x :: s) :: r :: l)) k).
Proof.
  intros Hx d b t c Hd. rewrite rmatch_seq. apply rmatch_lit_ne. intros ->. by rewrite Hx in Hd.
Qed.

Lemma stops_end {A} p (k : mstate → option A) : stops p (rmatch REnd k).
Proof. done. Qed.
