(* ===== verification/StatusRules.v ===== *)
(** HTTP status code rules: [web/src/lib/http-status-code-rules.ts].

    The administrator types a list such as [200, 400-499]; the parser turns it
    into merged, ordered ranges and a normal form of the text. *)

From Stdlib Require Import ZArith NArith Lia SpecFloat.
From stdpp Require Import sorting.
From S2P Require Import Prelude JsString JsNumber JsValue.

Local Open Scope Z_scope.

Record StatusCodeRange := mkRange { start : Z; end_ : Z }.

#[export] Instance StatusCodeRange_eq_dec : EqDecision StatusCodeRange.
Proof. solve_decision. Defined.

Record ParsedHttpStatusCodeRules := mkParsed {
  ok : bool;
  ranges : list StatusCodeRange;
  tokens : list jstr;
  normalized : jstr;
  invalidTokens : list jstr;
}.

(** * One token *)

(** [/^\d+$/.test(s)] *)
Definition isNumber (s : jstr) : bool := all_digits s.

(** [Number.parseInt(s, 10)] of a string of digits; the range test that follows
    decides alike on the integer and on its rounding to a double. *)
Definition parseInt10 (s : jstr) : Z := Z.of_N (digits_value s).

Definition isValidCode (code : Z) : bool := (100 <=? code) && (code <=? 599).

Definition parseToken (token : jstr) : option StatusCodeRange :=
  let cleaned := replace_units is_ws [] (trim token) in
  if negb (truthy cleaned) then None
  else if includes cleaned (js "-") then
    match split_unit 45%N cleaned with
    | a :: b :: _ =>
        if negb (isNumber a) || negb (isNumber b) then None
        else
          let start := parseInt10 a in
          let end_ := parseInt10 b in
          if negb (isValidCode start) || negb (isValidCode end_) || (end_ <? start) then None
          else Some (mkRange start end_)
    | _ => None
    end
  else if negb (isNumber cleaned) then None
  else
    let code := parseInt10 cleaned in
    if negb (isValidCode code) then None else Some (mkRange code code).

(** * Merging *)

(** The comparator of the sort *)
Definition range_le (a b : StatusCodeRange) : bool :=
  if start a =? start b then end_ a <=? end_ b else start a <=? start b.

Fixpoint insert_range (r : StatusCodeRange) (l : list StatusCodeRange) : list StatusCodeRange :=
  match l with
  | [] => [r]
  | x :: l' => if range_le r x then r :: l else x :: insert_range r l'
  end.

Definition sort_ranges (l : list StatusCodeRange) : list StatusCodeRange :=
  foldr insert_range [] l.

(** The reducer: extends the last merged range or starts a new one. *)
Definition merge_step (merged : list StatusCodeRange) (current : StatusCodeRange)
    : list StatusCodeRange :=
  match last merged with
  | None => merged ++ [current]
  | Some l =>
      if end_ l + 1 <? start current then merged ++ [current]
      else <[pred (length merged) := mkRange (start l) (Z.max (end_ l) (end_ current))]> merged
  end.

Definition mergeRanges (ranges : list StatusCodeRange) : list StatusCodeRange :=
  match ranges with
  | [] => []
  | _ => foldl merge_step [] (sort_ranges ranges)
  end.

(** * The whole input *)

Definition range_token (r : StatusCodeRange) : jstr :=
  if start r =? end_ r then string_of_Z (start r)
  else string_of_Z (start r) ++ js "-" ++ string_of_Z (end_ r).

Definition comma : N := 44.
Definition fullwidth_comma (c : N) : bool := (c =? 65292)%N.

(** The loop over the segments *)
Fixpoint parse_segments (segments : list jstr) (rs : list StatusCodeRange) (inv : list jstr)
    : list StatusCodeRange * list jstr :=
  match segments with
  | [] => (rs, inv)
  | segment :: rest =>
      match parseToken segment with
      | None => parse_segments rest rs (inv ++ [segment])
      | Some r => parse_segments rest (rs ++ [r]) inv
      end
  end.

Definition rule_segments (raw : jstr) : list jstr :=
  filter (λ s, truthy s = true)
    (trim <$> split_unit comma (replace_units fullwidth_comma [comma] raw)).

(** [(input ?? '').toString().trim()] *)
Definition raw_text (input : jsval) : jstr :=
  trim (match input with VUndef | VNull => [] | v => string_of_val v end).

Definition parseHttpStatusCodeRules (input : jsval) : ParsedHttpStatusCodeRules :=
  let raw := raw_text input in
  match raw with
  | [] => mkParsed true [] [] [] []
  | _ =>
      let '(rs, inv) := parse_segments (rule_segments raw) [] [] in
      match inv with
      | _ :: _ => mkParsed false [] [] raw inv
      | [] =>
          let merged := mergeRanges rs in
          let toks := range_token <$> merged in
          mkParsed true merged toks (join (js ",") toks) []
      end
  end.

Example parse_rules :
  parseHttpStatusCodeRules (VStr (js " 401, 500-503，504, 402 "))
  = mkParsed true [mkRange 401 402; mkRange 500 504] [js "401-402"; js "500-504"]
      (js "401-402,500-504") [].
Proof. vm_compute. reflexivity. Qed.

(** * What the ranges promise *)

Definition in_range (c : Z) (r : StatusCodeRange) : Prop := start r ≤ c ≤ end_ r.
Definition covers (c : Z) (l : list StatusCodeRange) : Prop := Exists (in_range c) l.
Definition valid_range (r : StatusCodeRange) : Prop :=
  100 ≤ start r ∧ start r ≤ end_ r ∧ end_ r ≤ 599.

(** Ordered, and with a gap of at least one code between neighbours *)
Definition separated : list StatusCodeRange → Prop :=
  Sorted (λ a b, end_ a + 1 < start b).

Lemma isValidCode_true c : isValidCode c = true ↔ 100 ≤ c ≤ 599.
Proof. unfold isValidCode. by rewrite andb_true_iff, !Z.leb_le. Qed.

Lemma parseToken_valid t r : parseToken t = Some r → valid_range r.
Proof.
  unfold parseToken. repeat (case_match; try done); intros; simplify_eq;
    unfold valid_range; cbn;
    repeat match goal with
    | H : (_ || _)%bool = false |- _ => apply orb_false_iff in H as [? ?]
    | H : negb (isValidCode _) = false |- _ =>
        apply negb_false_iff, isValidCode_true in H
    | H : (_ <? _) = false |- _ => apply Z.ltb_ge in H
    end; lia.
Qed.

(** ** Sorting *)

Lemma insert_range_perm r l : insert_range r l ≡ₚ r :: l.
Proof.
  induction l as [|x l IH]; simpl; [done|]. case_match; [done|].
  rewrite IH. apply Permutation_swap.
Qed.

Lemma sort_ranges_perm l : sort_ranges l ≡ₚ l.
Proof. induction l as [|x l IH]; simpl; [done|]. by rewrite insert_range_perm, IH. Qed.

Lemma range_le_start a b : range_le a b = true → start a ≤ start b.
Proof.
  unfold range_le. destruct (Z.eqb_spec (start a) (start b)); [lia|]. by intros ?%Z.leb_le.
Qed.

Lemma range_le_false a b : range_le a b = false → start b ≤ start a.
Proof.
  unfold range_le. destruct (Z.eqb_spec (start a) (start b)); [lia|]. intros ?%Z.leb_gt. lia.
Qed.

Definition by_start : list StatusCodeRange → Prop := StronglySorted (λ a b, start a ≤ start b).

Lemma insert_range_sorted r l : by_start l → by_start (insert_range r l).
Proof.
  induction 1 as [|x l Hl IH Hx]; simpl.
  { constructor; [constructor|done]. }
  destruct (range_le r x) eqn:E.
  - apply range_le_start in E. constructor; [by constructor|].
    constructor; [done|]. eapply Forall_impl; [exact Hx|]. simpl. lia.
  - apply range_le_false in E. constructor; [done|].
    rewrite insert_range_perm. by constructor.
Qed.

Lemma sort_ranges_sorted l : by_start (sort_ranges l).
Proof. induction l; simpl; [constructor|]. by apply insert_range_sorted. Qed.

(** ** Merging as a structural recursion *)

Fixpoint merge_from (l : StatusCodeRange) (xs : list StatusCodeRange) : list StatusCodeRange :=
  match xs with
  | [] => [l]
  | x :: xs =>
      if end_ l + 1 <? start x then l :: merge_from x xs
      else merge_from (mkRange (start l) (Z.max (end_ l) (end_ x))) xs
  end.

Lemma foldl_merge_step acc l xs :
  foldl merge_step (acc ++ [l]) xs = acc ++ merge_from l xs.
Proof.
  revert acc l. induction xs as [|x xs IH]; intros acc l; [done|].
  cbn [foldl merge_from]. unfold merge_step at 2. rewrite last_snoc.
  case_match.
  - rewrite (IH (acc ++ [l]) x). by rewrite <- app_assoc.
  - rewrite length_app, Nat.add_comm. cbn [length pred Nat.add].
    rewrite insert_app_r_alt, Nat.sub_diag by done. cbn. apply IH.
Qed.

Lemma mergeRanges_cons r rs x xs :
  sort_ranges (r :: rs) = x :: xs → mergeRanges (r :: rs) = merge_from x xs.
Proof. intros E. unfold mergeRanges. rewrite E. exact (foldl_merge_step [] x xs). Qed.

Section merge.
Implicit Types (l x : StatusCodeRange) (xs : list StatusCodeRange).

Definition widened l x := mkRange (start l) (Z.max (end_ l) (end_ x)).

Lemma merge_from_covers c l xs :
  by_start (l :: xs) → Forall valid_range (l :: xs) →
  covers c (merge_from l xs) ↔ covers c (l :: xs).
Proof.
  revert l. induction xs as [|x xs IH]; intros l Hs Hv; [done|].
  apply StronglySorted_inv in Hs as [Hs Hl]. apply Forall_cons in Hv as [Hvl Hv].
  pose proof Hl as [Hlx Hlxs]%Forall_cons. apply Forall_cons in Hv as [Hvx Hvxs].
  unfold valid_range in *. cbn [merge_from]. unfold covers in *.
  destruct (Z.ltb_spec (end_ l + 1) (start x)) as [Hgap|Hgap].
  - rewrite Exists_cons, IH; [by rewrite !Exists_cons|done|by constructor].
  - rewrite IH; cycle 1.
    { apply StronglySorted_inv in Hs as [Hs _]. by constructor. }
    { constructor; [unfold valid_range; cbn; lia|done]. }
    rewrite !Exists_cons. unfold in_range. cbn. intuition lia.
Qed.

Lemma merge_from_head l xs : ∃ e ys, merge_from l xs = mkRange (start l) e :: ys.
Proof.
  revert l. induction xs as [|x xs IH]; intros l; cbn [merge_from].
  { destruct l. by eexists _, _. }
  case_match; [destruct l; by eexists _, _|].
  exact (IH (mkRange (start l) _)).
Qed.

Lemma merge_from_separated l xs : separated (merge_from l xs).
Proof.
  revert l. induction xs as [|x xs IH]; intros l; cbn [merge_from].
  { constructor; constructor. }
  destruct (Z.ltb_spec (end_ l + 1) (start x)) as [Hgap|Hgap]; [|apply IH].
  pose proof (IH x) as Hx. destruct (merge_from_head x xs) as (e & ys & E).
  rewrite E in *. constructor; [done|]. by constructor.
Qed.

Lemma merge_from_valid l xs :
  Forall valid_range (l :: xs) → Forall valid_range (merge_from l xs).
Proof.
  revert l. induction xs as [|x xs IH]; intros l [Hl Hx]%Forall_cons; cbn [merge_from].
  { by constructor. }
  case_match; [constructor; [done|by apply IH]|]. apply IH.
  apply Forall_cons in Hx as [Hx Hxs]. constructor; [|done].
  unfold valid_range in *. cbn. lia.
Qed.

Lemma merge_from_id l xs : separated (l :: xs) → merge_from l xs = l :: xs.
Proof.
  revert l. induction xs as [|x xs IH]; intros l Hs; cbn [merge_from]; [done|].
  inversion Hs as [|? ? Hs' Hd]; subst. inversion Hd; subst.
  rewrite (proj2 (Z.ltb_lt _ _)) by done. by rewrite IH.
Qed.
End merge.

Lemma separated_sort_id l : Forall valid_range l → separated l → sort_ranges l = l.
Proof.
  intros Hv. induction Hv as [|r l Hr Hv IH]; intros Hs; [done|].
  inversion Hs as [|? ? Hs' Hd]; subst. change (sort_ranges (r :: l)) with (insert_range r (sort_ranges l)).
  rewrite IH by done. destruct l as [|x l]; [done|]. inversion Hd; subst.
  apply Forall_cons in Hv as [Hx _]. unfold valid_range in *. cbn [insert_range].
  assert (range_le r x = true) as ->; [|done].
  unfold range_le. rewrite (proj2 (Z.eqb_neq _ _)), (proj2 (Z.leb_le _ _)) by lia. done.
Qed.

(** Any list of valid ranges becomes separated valid ranges for the same codes. *)
Lemma mergeRanges_spec rs :
  Forall valid_range rs →
  separated (mergeRanges rs) ∧ Forall valid_range (mergeRanges rs)
  ∧ ∀ c, covers c (mergeRanges rs) ↔ covers c rs.
Proof.
  intros Hv. destruct rs as [|r rs]; [split_and!; [constructor|done|done]|].
  pose proof (sort_ranges_perm (r :: rs)) as Hp.
  destruct (sort_ranges (r :: rs)) as [|x xs] eqn:E.
  { by apply Permutation_nil_l in Hp. }
  rewrite (mergeRanges_cons _ _ _ _ E).
  assert (Forall valid_range (x :: xs)) by (by rewrite Hp).
  split_and!.
  - apply merge_from_separated.
  - by apply merge_from_valid.
  - intros c. rewrite merge_from_covers; [|by rewrite <- E; apply sort_ranges_sorted|done].
    unfold covers. by rewrite Hp.
Qed.

Lemma mergeRanges_id rs : Forall valid_range rs → separated rs → mergeRanges rs = rs.
Proof.
  intros Hv Hs. destruct rs as [|r rs]; [done|].
  rewrite (mergeRanges_cons r rs r rs) by (by apply separated_sort_id).
  by apply merge_from_id.
Qed.

(** ** Tokens read back *)

Lemma string_of_Z_nonneg z : 0 ≤ z → string_of_Z z = digits (Z.to_N z).
Proof. intros. unfold string_of_Z. by rewrite (proj2 (Z.ltb_ge z 0)). Qed.

Lemma parseInt10_digits z : 0 ≤ z → parseInt10 (digits (Z.to_N z)) = z.
Proof. intros. unfold parseInt10. rewrite digits_value_digits. lia. Qed.

(** Codes and hyphens: no white space, no comma *)
Definition token_unit (c : N) : Prop := is_digit c = true ∨ c = 45%N.

Lemma token_unit_not_ws c : token_unit c → is_ws c = false.
Proof. intros [?| ->]; [by apply digit_not_ws|done]. Qed.

Lemma token_unit_not_comma c : token_unit c → c ≠ comma ∧ fullwidth_comma c = false.
Proof.
  unfold fullwidth_comma, comma. intros [H%is_digit_range| ->]; [|done].
  split; [lia|]. apply N.eqb_neq. lia.
Qed.

Lemma range_token_units r : valid_range r → Forall token_unit (range_token r).
Proof.
  unfold valid_range. intros Hr. unfold range_token. rewrite !string_of_Z_nonneg by lia.
  assert (∀ n, Forall token_unit (digits n)) as Hd.
  { intros n. eapply Forall_impl; [apply Forall_digits|]. by left. }
  case_match; [done|]. rewrite !Forall_app. split_and!; [done| |done].
  constructor; [by right|constructor].
Qed.

Lemma range_token_truthy r : valid_range r → truthy (range_token r) = true.
Proof.
  unfold valid_range. intros Hr. unfold range_token. rewrite !string_of_Z_nonneg by lia.
  pose proof (digits_all_digits (Z.to_N (start r))) as H. unfold all_digits in H.
  apply andb_true_iff in H as [H _].
  case_match; [done|]. by destruct (digits (Z.to_N (start r))).
Qed.

Lemma units_trim s : Forall token_unit s → trim s = s.
Proof.
  intros H. apply trim_id, trimmed_no_ws. eapply Forall_impl; [exact H|].
  exact token_unit_not_ws.
Qed.

Lemma hyphen_not_digits n : 45%N ∉ digits n.
Proof.
  intros Hin. pose proof (Forall_digits n) as H. rewrite Forall_forall in H.
  apply H, is_digit_range in Hin. lia.
Qed.

Lemma parseToken_range_token r : valid_range r → parseToken (range_token r) = Some r.
Proof.
  intros Hr. pose proof (range_token_units r Hr) as Hu. unfold parseToken.
  rewrite units_trim by done.
  rewrite replace_units_id by (eapply Forall_impl; [exact Hu|exact token_unit_not_ws]).
  rewrite range_token_truthy by done. cbn [negb]. change (js "-") with [45%N].
  rewrite includes_unit. destruct r as [s e]. unfold valid_range in Hr. cbn in Hr.
  unfold range_token. cbn [start end_]. rewrite !string_of_Z_nonneg by lia.
  destruct (Z.eqb_spec s e) as [->|Hne].
  - rewrite bool_decide_false by apply hyphen_not_digits. unfold isNumber.
    rewrite digits_all_digits, parseInt10_digits by lia. cbn [negb].
    by rewrite (proj2 (isValidCode_true e)) by lia.
  - rewrite bool_decide_true by (rewrite !elem_of_app; right; left; left).
    rewrite split_unit_app by apply hyphen_not_digits.
    rewrite split_unit_single by apply hyphen_not_digits. unfold isNumber.
    rewrite !digits_all_digits, !parseInt10_digits by lia. cbn [negb orb].
    rewrite !(proj2 (isValidCode_true _)) by lia. cbn [negb orb].
    by rewrite (proj2 (Z.ltb_ge e s)) by lia.
Qed.

Lemma parse_segments_spec segs rs inv :
  parse_segments segs rs inv
  = (rs ++ omap parseToken segs, inv ++ filter (λ s, parseToken s = None) segs).
Proof.
  revert rs inv. induction segs as [|s segs IH]; intros rs inv; simpl.
  { by rewrite !app_nil_r. }
  rewrite filter_cons. destruct (parseToken s) eqn:E; rewrite IH.
  - rewrite decide_False by done. by rewrite <- app_assoc.
  - rewrite decide_True by done. by rewrite <- app_assoc.
Qed.

Lemma omap_parseToken_valid segs : Forall valid_range (omap parseToken segs).
Proof.
  apply Forall_forall. intros r (s & _ & Hr)%list_elem_of_omap. by eapply parseToken_valid.
Qed.

(** The result of a parse in closed form *)
Lemma parse_rules_eq input :
  let segs := rule_segments (raw_text input) in
  let bad := filter (λ s, parseToken s = None) segs in
  let merged := mergeRanges (omap parseToken segs) in
  parseHttpStatusCodeRules input =
    match bad with
    | [] => mkParsed true merged (range_token <$> merged)
              (join (js ",") (range_token <$> merged)) []
    | _ => mkParsed false [] [] (raw_text input) bad
    end.
Proof.
  intros segs bad merged. unfold parseHttpStatusCodeRules.
  rewrite parse_segments_spec. cbn [app].
  destruct (raw_text input) eqn:E; [|fold segs bad merged; by destruct bad].
  unfold merged, bad, segs. cbn. done.
Qed.

Lemma segments_of_tokens rs :
  Forall valid_range rs →
  rule_segments (join (js ",") (range_token <$> rs)) = range_token <$> rs.
Proof.
  intros Hv. unfold rule_segments. change (js ",") with [comma].
  assert (Forall (Forall token_unit) (range_token <$> rs)) as Hu.
  { apply Forall_fmap. eapply Forall_impl; [exact Hv|]. apply range_token_units. }
  rewrite replace_units_id; cycle 1.
  { clear Hv. induction Hu as [|t ts Ht Hts IH]; [constructor|].
    assert (Forall (λ c, fullwidth_comma c = false) t) as Ht'.
    { eapply Forall_impl; [exact Ht|]. intros c. apply token_unit_not_comma. }
    destruct ts as [|t' ts]; [done|]. cbn [join].
    rewrite !Forall_app. split_and!; [done|by constructor|exact IH]. }
  destruct rs as [|r rs]; [done|].
  rewrite split_unit_join; [|done|].
  2: { eapply Forall_impl; [exact Hu|]. intros t Ht Hin.
       rewrite Forall_forall in Ht. by apply Ht, token_unit_not_comma in Hin as []. }
  rewrite (Forall_fmap_ext_1 trim id), list_fmap_id.
  2: { eapply Forall_impl; [exact Hu|]. intros t. apply units_trim. }
  apply filter_id.
  apply Forall_fmap. eapply Forall_impl; [exact Hv|]. apply range_token_truthy.
Qed.

(** * Properties *)

(** C1: whatever the input, the parsed ranges lie between 100 and 599, are in
    ascending order, do not overlap and do not touch; and the accepted input
    covers exactly the codes that one of its tokens names. *)
Theorem parsed_ranges_canonical input :
  let p := parseHttpStatusCodeRules input in
  separated (ranges p) ∧ Forall valid_range (ranges p)
  ∧ (ok p = true → ∀ c, covers c (ranges p) ↔
       ∃ seg r, seg ∈ rule_segments (raw_text input) ∧ parseToken seg = Some r ∧ in_range c r).
Proof.
  intros p. unfold p. rewrite parse_rules_eq.
  pose proof (mergeRanges_spec _ (omap_parseToken_valid (rule_segments (raw_text input))))
    as (Hs & Hv & Hc).
  case_match; cbn; [|split_and!; [constructor|done|done]].
  split_and!; [done..|]. intros _ c. rewrite Hc. unfold covers. rewrite Exists_exists.
  setoid_rewrite list_elem_of_omap. naive_solver.
Qed.

Lemma parsed_ranges_canonical_witness :
  let p := parseHttpStatusCodeRules (VStr (js "500-503,504")) in
  covers 502 (ranges p).
Proof.
  intros p. destruct (parsed_ranges_canonical (VStr (js "500-503,504"))) as (_ & _ & H).
  apply H; [reflexivity|].
  exists (js "500-503"), (mkRange 500 503). split_and!; [|reflexivity|split; cbn; lia].
  vm_compute. apply list_elem_of_here.
Defined.

(** the input is rejected exactly when some token is malformed, out of
    range or inverted, and then every such token is reported, in order, and no
    range is returned. *)
Theorem parse_rules_errors input :
  let p := parseHttpStatusCodeRules input in
  let bad := filter (λ s, parseToken s = None) (rule_segments (raw_text input)) in
  invalidTokens p = bad ∧ (ok p = false ↔ bad ≠ [])
  ∧ (ok p = false → ranges p = [] ∧ tokens p = [] ∧ normalized p = raw_text input).
Proof.
  intros p bad. unfold p. rewrite parse_rules_eq. fold bad.
  destruct bad; cbn; naive_solver.
Qed.

Lemma parse_rules_errors_witness :
  ranges (parseHttpStatusCodeRules (VStr (js "200, 99"))) = [].
Proof. apply (parse_rules_errors (VStr (js "200, 99"))). reflexivity. Defined.

(** the normal form of an accepted input is accepted again and parses to
    the same result, so saving and reloading the setting is stable. *)
Theorem normalized_reparses input :
  ok (parseHttpStatusCodeRules input) = true →
  let p := parseHttpStatusCodeRules input in
  parseHttpStatusCodeRules (VStr (normalized p)) = p.
Proof.
  intros Hok p. unfold p in *. rewrite (parse_rules_eq input) in *.
  pose proof (mergeRanges_spec _ (omap_parseToken_valid (rule_segments (raw_text input))))
    as (Hs & Hv & _).
  set (merged := mergeRanges (omap parseToken (rule_segments (raw_text input)))) in *.
  case_match; [|done]. cbn [normalized].
  rewrite parse_rules_eq.
  assert (raw_text (VStr (join (js ",") (range_token <$> merged)))
          = join (js ",") (range_token <$> merged)) as Hraw.
  { apply trim_id, trimmed_no_ws. apply join_no_ws; [by apply (Forall_cons_2 _ 44%N)|].
    apply Forall_fmap. eapply Forall_impl; [exact Hv|]. intros r Hr.
    eapply Forall_impl; [by apply range_token_units|]. exact token_unit_not_ws. }
  rewrite Hraw, segments_of_tokens by done.
  assert (omap parseToken (range_token <$> merged) = merged) as ->.
  { clear Hs Hraw Hok. induction Hv as [|r l Hr Hl IH]; [done|].
    cbn. rewrite parseToken_range_token by done. f_equal. exact IH. }
  rewrite (filter_none _ (range_token <$> merged)), mergeRanges_id by
    (done || (apply Forall_fmap; eapply Forall_impl; [exact Hv|]; intros r Hr; cbn;
              by rewrite parseToken_range_token)).
  done.
Qed.

Lemma normalized_reparses_witness :
  parseHttpStatusCodeRules (VStr (js "401-402,500-504"))
  = mkParsed true [mkRange 401 402; mkRange 500 504] [js "401-402"; js "500-504"]
      (js "401-402,500-504") [].
Proof. apply (normalized_reparses (VStr (js " 401, 500-503, 504, 402 "))). reflexivity. Defined.
