(* ===== verification/AuthSync.v ===== *)
(** Cross-tab session events: [web/src/lib/auth-session-sync.ts].

    A tab announces a sign-in or sign-out to the other tabs of the browser over
    a [BroadcastChannel], or through [localStorage] where there is none. *)

From Stdlib Require Import ZArith NArith Lia SpecFloat.
From S2P Require Import Prelude JsString JsNumber JsValue.

Inductive SyncKind := Authenticated | SignedOut.

#[export] Instance SyncKind_eq_dec : EqDecision SyncKind.
Proof. solve_decision. Defined.

Definition kind_string (k : SyncKind) : jstr :=
  match k with Authenticated => js "authenticated" | SignedOut => js "signed_out" end.

Record AuthSessionSyncEvent := mkSyncEvent {
  ev_kind : SyncKind;
  ev_sid : jstr;
  ev_source : jstr;
  ev_nonce : jstr;
  ev_timestamp : num;
}.

(** What the module reads of the browser: whether there is a window, whether it
    has [BroadcastChannel], whether [localStorage] throws, the identifier drawn
    when the module was loaded, the one drawn for the event, and the clock. *)
Record SyncEnv := mkSyncEnv {
  has_window : bool;
  has_broadcast : bool;
  storage_throws : bool;
  authSyncSource : jstr;
  next_nonce : jstr;
  date_now : num;
}.

(** What leaves the tab: a message on the channel, or a pair of storage writes
    of which the other tabs see the first. *)
Inductive SyncOutput :=
  | PostMessage (e : AuthSessionSyncEvent)
  | StorageEvent (e : AuthSessionSyncEvent).

Definition output_event (o : SyncOutput) : AuthSessionSyncEvent :=
  match o with PostMessage e | StorageEvent e => e end.

Definition publishAuthSessionEvent (env : SyncEnv) (kind : SyncKind) (sid : jstr)
    : list SyncOutput :=
  if negb (has_window env) || negb (truthy sid) then []
  else
    let event := mkSyncEvent kind sid (authSyncSource env) (next_nonce env) (date_now env) in
    if has_broadcast env then [PostMessage event]
    else if storage_throws env then []
    else [StorageEvent event].

(** The event as the receiving tab sees it: a structured clone, or the result
    of [JSON.parse] on the stored text. *)
Definition event_val (e : AuthSessionSyncEvent) : jsval :=
  VObj [(js "kind", VStr (kind_string (ev_kind e))); (js "sid", VStr (ev_sid e));
        (js "source", VStr (ev_source e)); (js "nonce", VStr (ev_nonce e));
        (js "timestamp", VNum (ev_timestamp e))].

Definition isAuthSessionSyncEvent (value : jsval) : bool :=
  if negb (truthy_val value) || negb (typeof_object value) then false
  else
    (bool_decide (prop value (js "kind") = VStr (js "authenticated"))
     || bool_decide (prop value (js "kind") = VStr (js "signed_out")))
    && match prop value (js "sid") with VStr s => (0 <? length s)%nat | _ => false end
    && is_string (prop value (js "source"))
    && is_string (prop value (js "nonce"))
    && is_number (prop value (js "timestamp")).

(** [deliver]: the value is handed to the listener when it is an event of
    another tab less than a minute away from this tab's clock. *)
Definition deliver (env : SyncEnv) (value : jsval) : bool :=
  isAuthSessionSyncEvent value
  && negb (bool_decide (prop value (js "source") = VStr (authSyncSource env)))
  && match prop value (js "timestamp") with
     | VNum t => num_ltb (SFabs (num_sub (date_now env) t)) (num_of_Z 60000)
     | _ => false
     end.

(** The storage listener: only this module's key, only a write, only JSON. *)
Definition AUTH_SYNC_STORAGE_KEY : jstr := js "new-api:auth-session:event".

Definition handleStorage (env : SyncEnv) (key : jstr) (newValue : option jstr) : option jsval :=
  match newValue with
  | Some text =>
      if negb (bool_decide (key = AUTH_SYNC_STORAGE_KEY)) || negb (truthy text) then None
      else match JSON_parse text with
           | Some v => if deliver env v then Some v else None
           | None => None
           end
  | None => None
  end.
