(* ===== verification/AuthStore.v ===== *)
(** The authentication store and the operations that change it:
    [web/src/stores/auth-store.ts] and the first half of
    [web/src/lib/auth-session.ts].

    The zustand store, the module variable [authEpoch] and the events published
    to other tabs form one [World] that the operations thread. *)

From Stdlib Require Import ZArith NArith Lia SpecFloat.
From S2P Require Import Prelude JsString JsNumber JsValue AuthSync.

(** * Data *)

(** The named fields are the ones this code reads; [user_value] and
    [session_value] are the whole objects as received, which the store keeps. *)
Record AuthUser := mkUser {
  user_id : num;
  username : jstr;
  role : num;
  user_value : jsval;
}.

Record LoginSession := mkSession {
  sid : jstr;
  current : bool;
  login_method : jstr;
  ip : jstr;
  user_agent : jstr;
  created_at : num;
  last_active_at : num;
  expires_at : num;
  session_value : jsval;
}.

Record AuthBundle := mkBundle {
  access_token : jstr;
  token_type : jstr;
  access_expires_at : num;
  b_user : AuthUser;
  b_session : LoginSession;
}.

Inductive AuthBootstrapState := BsIdle | BsChecking | BsComplete.

#[export] Instance AuthBootstrapState_eq_dec : EqDecision AuthBootstrapState.
Proof. solve_decision. Defined.

Record AuthState := mkAuth {
  user : option AuthUser;
  accessToken : option jstr;
  accessExpiresAt : option num;
  session : option LoginSession;
  pending2FAFlowToken : option jstr;
  bootstrapState : AuthBootstrapState;
}.

(** * Store actions *)

Definition initial_auth : AuthState := mkAuth None None None None None BsIdle.

Definition setBundle (bundle : AuthBundle) (a : AuthState) : AuthState :=
  mkAuth (Some (b_user bundle)) (Some (access_token bundle))
    (Some (access_expires_at bundle)) (Some (b_session bundle)) None BsComplete.

Definition setUser (u : option AuthUser) (a : AuthState) : AuthState :=
  mkAuth u (accessToken a) (accessExpiresAt a) (session a) (pending2FAFlowToken a)
    (bootstrapState a).

Definition setPending2FAFlowToken (t : option jstr) (a : AuthState) : AuthState :=
  mkAuth (user a) (accessToken a) (accessExpiresAt a) (session a) t (bootstrapState a).

Definition setBootstrapState (b : AuthBootstrapState) (a : AuthState) : AuthState :=
  mkAuth (user a) (accessToken a) (accessExpiresAt a) (session a) (pending2FAFlowToken a) b.

Definition reset (b : AuthBootstrapState) (a : AuthState) : AuthState :=
  mkAuth None None None None None b.

(** * The tab *)

Record World := mkWorld {
  auth : AuthState;
  authEpoch : Z;
  sync_env : SyncEnv;
  published : list SyncOutput;
}.

Definition now (w : World) : num := date_now (sync_env w).

Definition update_auth (f : AuthState → AuthState) (w : World) : World :=
  mkWorld (f (auth w)) (authEpoch w) (sync_env w) (published w).

Definition bump_epoch (w : World) : World :=
  mkWorld (auth w) (authEpoch w + 1) (sync_env w) (published w).

Definition publish (kind : SyncKind) (s : jstr) (w : World) : World :=
  mkWorld (auth w) (authEpoch w) (sync_env w)
    (published w ++ publishAuthSessionEvent (sync_env w) kind s).

(** * Guards on values from the network *)

Definition isRecord (v : jsval) : bool := truthy_val v && typeof_object v.

Definition isAuthUser (v : jsval) : bool :=
  isRecord v
  && match prop v (js "id") with
     | VNum n => isInteger n && num_ltb num_0 n
     | _ => false
     end
  && is_string (prop v (js "username"))
  && is_number (prop v (js "role")).

Definition isLoginSession (v : jsval) : bool :=
  isRecord v
  && match prop v (js "sid") with VStr s => (0 <? length s)%nat | _ => false end
  && is_boolean (prop v (js "current"))
  && is_string (prop v (js "login_method"))
  && is_string (prop v (js "ip"))
  && is_string (prop v (js "user_agent"))
  && is_number (prop v (js "created_at"))
  && is_number (prop v (js "last_active_at"))
  && is_number (prop v (js "expires_at")).

Definition hasValidTokenFields (v : jsval) : bool :=
  match prop v (js "access_token") with VStr s => (0 <? length s)%nat | _ => false end
  && match prop v (js "token_type") with VStr s => (0 <? length s)%nat | _ => false end
  && match prop v (js "access_expires_at") with
     | VNum n => isFinite n && num_ltb num_0 n
     | _ => false
     end.

Definition isAuthBundle (v : jsval) : bool :=
  isRecord v && hasValidTokenFields v && isAuthUser (prop v (js "user"))
  && isLoginSession (prop v (js "session")).

Definition isAuthTokenRotation (v : jsval) : bool :=
  isRecord v && hasValidTokenFields v
  && bool_decide (prop v (js "token_type") = VStr (js "Bearer"))
  && isLoginSession (prop v (js "session"))
  && truthy_val (prop (prop v (js "session")) (js "current")).

(** Reading a value at the type its guard established *)
Definition str_of (v : jsval) : jstr := match v with VStr s => s | _ => [] end.
Definition num_of (v : jsval) : num := match v with VNum n => n | _ => NaN end.
Definition bool_of (v : jsval) : bool := match v with VBool b => b | _ => false end.

Definition as_AuthUser (v : jsval) : AuthUser :=
  mkUser (num_of (prop v (js "id"))) (str_of (prop v (js "username")))
    (num_of (prop v (js "role"))) v.

Definition as_LoginSession (v : jsval) : LoginSession :=
  mkSession (str_of (prop v (js "sid"))) (bool_of (prop v (js "current")))
    (str_of (prop v (js "login_method"))) (str_of (prop v (js "ip")))
    (str_of (prop v (js "user_agent"))) (num_of (prop v (js "created_at")))
    (num_of (prop v (js "last_active_at"))) (num_of (prop v (js "expires_at"))) v.

Definition as_AuthBundle (v : jsval) : AuthBundle :=
  mkBundle (str_of (prop v (js "access_token"))) (str_of (prop v (js "token_type")))
    (num_of (prop v (js "access_expires_at"))) (as_AuthUser (prop v (js "user")))
    (as_LoginSession (prop v (js "session"))).

(** * Session operations *)

Definition session_sid (a : AuthState) : option jstr := sid <$> session a.

Definition applyAuthBundle (bundle : AuthBundle) (synchronizeTabs : bool) (w : World) : World :=
  let previousSID := session_sid (auth w) in
  let w := update_auth (setBundle bundle) (bump_epoch w) in
  if synchronizeTabs && negb (bool_decide (previousSID = Some (sid (b_session bundle))))
  then publish Authenticated (sid (b_session bundle)) w
  else w.

Inductive AuthRotationError :=
  | InvalidRotationResponse
  | RotationWithoutSession
  | RotationSessionMismatch.

Definition applyAuthRotation (value : jsval) (w : World) : AuthRotationError + World :=
  if negb (isAuthTokenRotation value) then inl InvalidRotationResponse
  else
    match user (auth w), session (auth w) with
    | Some u, Some s =>
        let next := as_LoginSession (prop value (js "session")) in
        if negb (bool_decide (sid next = sid s)) then inl RotationSessionMismatch
        else
          inr (applyAuthBundle
                 (mkBundle (str_of (prop value (js "access_token")))
                    (str_of (prop value (js "token_type")))
                    (num_of (prop value (js "access_expires_at"))) u next)
                 false w)
    | _, _ => inl RotationWithoutSession
    end.

Definition clearAuthentication (synchronizeTabs : bool) (b : AuthBootstrapState) (w : World)
    : World :=
  let s := session_sid (auth w) in
  let w := update_auth (reset b) (bump_epoch w) in
  match s with
  | Some s => if synchronizeTabs && truthy s then publish SignedOut s w else w
  | None => w
  end.

(** [Math.floor(Date.now() / 1000)] *)
Definition now_seconds (w : World) : num := num_floor (num_div (now w) (num_of_Z 1000)).

Definition currentValidAuthBundle (w : World) : option AuthBundle :=
  let a := auth w in
  match user a, accessToken a, accessExpiresAt a, session a with
  | Some u, Some t, Some e, Some s =>
      if negb (truthy t) || negb (num_truthy e) || num_leb e (now_seconds w) then None
      else Some (mkBundle t (js "Bearer") e u s)
  | _, _, _, _ => None
  end.

(** [getCommonHeaders]: the headers as an ordered list *)
Definition getCommonHeaders (w : World) : list (jstr * jstr) :=
  (js "Content-Type", js "application/json")
  :: match accessToken (auth w) with
     | Some t => if truthy t then [(js "Authorization", js "Bearer " ++ t)] else []
     | None => []
     end.
