(* ===== verification/AuthRefresh.v ===== *)
(** Refreshing the session: the refresh runner, the single-flight promise, the
    bootstrap and the request headers of [web/src/lib/auth-session.ts].

    An [async] function is split at its [await]s: each segment is a function on
    the state, and [Cont] says what the function waits for.  Module [Runner] is
    [createRefreshRunner] over any runtime; module [Tab] runs it against the
    store, with the operations of other tasks interleaved at every [await]. *)

From Stdlib Require Import ZArith NArith Lia SpecFloat.
From S2P Require Import Prelude JsString JsNumber JsValue AuthSync AuthStore.

Inductive RefreshError :=
  | Superseded                      (* AuthRefreshSupersededError *)
  | HttpError (error data : jsval). (* response.error ?? response.data *)

Inductive RefreshOutcome :=
  | OutAuthenticated (bundle : AuthBundle)
  | OutAnonymous
  | OutTransientError (error : RefreshError)
  | OutOfSync (code : option jstr).

Record AuthRefreshHTTPResponse := mkResponse {
  status : Z;
  data : jsval;
  error : jsval;
}.

(** What a suspended refresh waits for *)
Inductive Cont :=
  | CRequest (raceAttempt : nat) (allowMismatchRetry : bool)
  | CWait (delay : Z) (raceAttempt : nat) (allowMismatchRetry : bool)
  | CDone (o : RefreshOutcome).

(** * The runner *)

Module Runner.

(** The dependencies [createRefreshRunner] is given *)
Record AuthRefreshRuntime (W : Type) := mkRuntime {
  request : option jstr → W → W * AuthRefreshHTTPResponse;
  getExpectedSID : W → option jstr;
  parseBundle : jsval → option AuthBundle;
  acceptBundle : AuthBundle → W → W;
  clear : bool → option AuthBootstrapState → W → W;
  markTransient : W → W;
  wait : Z → W → W;
  isCurrent : option (W → bool);
}.
Arguments mkRuntime {W}.
Arguments request {W}.
Arguments getExpectedSID {W}.
Arguments parseBundle {W}.
Arguments acceptBundle {W}.
Arguments clear {W}.
Arguments markTransient {W}.
Arguments wait {W}.
Arguments isCurrent {W}.

Definition refreshRaceDelays : list Z := [80%Z; 200%Z; 500%Z].

Section runner.
Context {W : Type} (rt : AuthRefreshRuntime W).

Definition superseded (w : W) : bool :=
  match isCurrent rt with Some cur => negb (cur w) | None => false end.

(** [run] from its entry to [await runtime.request] *)
Definition enter (raceAttempt : nat) (allowMismatchRetry : bool) (w : W) : W * Cont :=
  if superseded w then (w, CDone (OutTransientError Superseded))
  else (w, CRequest raceAttempt allowMismatchRetry).

(** [run] from the response to its next [await] or its [return] *)
Definition after_response (raceAttempt : nat) (allowMismatchRetry : bool)
    (response : AuthRefreshHTTPResponse) (w : W) : W * Cont :=
  if superseded w then (w, CDone (OutTransientError Superseded))
  else
    let responseData := if isRecord (data response) then data response else VUndef in
    let code := match prop responseData (js "code") with VStr c => Some c | _ => None end in
    let bundle := parseBundle rt (prop responseData (js "data")) in
    match bool_decide (prop responseData (js "success") = VBool true), bundle with
    | true, Some b => (acceptBundle rt b w, CDone (OutAuthenticated b))
    | _, _ =>
        if (status response =? 409)%Z && bool_decide (code = Some (js "AUTH_REFRESH_RACE")) then
          match refreshRaceDelays !! raceAttempt with
          | Some delay => (w, CWait delay raceAttempt allowMismatchRetry)
          | None => (clear rt false None w, CDone (OutOfSync code))
          end
        else if (status response =? 409)%Z
                && bool_decide (code = Some (js "AUTH_SESSION_MISMATCH")) then
          if allowMismatchRetry then enter 0 false (clear rt false (Some BsIdle) w)
          else (clear rt false None w, CDone (OutOfSync code))
        else if (status response =? 401)%Z then (clear rt true None w, CDone OutAnonymous)
        else if (status response =? 0)%Z || (500 <=? status response)%Z
                || (status response =? 429)%Z then
          (markTransient rt w, CDone (OutTransientError (HttpError (error response) (data response))))
        else
          (clear rt false None w,
           CDone (OutOfSync (Some (default (js "AUTH_INVALID_REFRESH_RESPONSE") code))))
    end.

(** [run] after the wait of a lost race *)
Definition after_wait (raceAttempt : nat) (allowMismatchRetry : bool) (w : W) : W * Cont :=
  enter (S raceAttempt) allowMismatchRetry w.

(** The function run to its end, with the number of requests it sent; the fuel
    bounds its [await]s. *)
Fixpoint drive (fuel : nat) (sent : nat) (wc : W * Cont) : option (W * RefreshOutcome * nat) :=
  match fuel with
  | O => None
  | S fuel =>
      let '(w, c) := wc in
      match c with
      | CDone o => Some (w, o, sent)
      | CRequest race allow =>
          let '(w, response) := request rt (getExpectedSID rt w) w in
          drive fuel (S sent) (after_response race allow response w)
      | CWait delay race allow => drive fuel sent (after_wait race allow (wait rt delay w))
      end
  end.

(** [createRefreshRunner(runtime)()] *)
Definition run (w : W) : option (W * RefreshOutcome * nat) := drive 15 0 (enter 0 true w).
End runner.
End Runner.

(** * Against the store *)

Module Tab.
Import Runner.

(** What other tasks of the tab may do while a refresh is suspended *)
Inductive Op :=
  | OpApplyBundle (b : AuthBundle) (synchronizeTabs : bool)
  | OpRotate (v : jsval)
  | OpClear (synchronizeTabs : bool) (b : AuthBootstrapState)
  | OpSetUser (u : option AuthUser)
  | OpSetPending (t : option jstr)
  | OpTick (env : SyncEnv).

Definition apply_op (op : Op) (w : World) : World :=
  match op with
  | OpApplyBundle b s => applyAuthBundle b s w
  | OpRotate v => match applyAuthRotation v w with inl _ => w | inr w => w end
  | OpClear s b => clearAuthentication s b w
  | OpSetUser u => update_auth (setUser u) w
  | OpSetPending t => update_auth (setPending2FAFlowToken t) w
  | OpTick env => mkWorld (auth w) (authEpoch w) env (published w)
  end.

Definition apply_ops (ops : list Op) (w : World) : World := foldl (λ w op, apply_op op w) w ops.

(** The tab with the script of its environment: for each request, what happens
    while it is in flight and its response; for each wait, what happens during
    it.  With the script used up, requests fail without a response. *)
Record T := mkTab {
  world : World;
  responses : list (list Op * AuthRefreshHTTPResponse);
  waits : list (list Op);
}.

Definition on_world (f : World → World) (t : T) : T :=
  mkTab (f (world t)) (responses t) (waits t).

Definition do_request (_ : option jstr) (t : T) : T * AuthRefreshHTTPResponse :=
  match responses t with
  | (ops, r) :: rest => (mkTab (apply_ops ops (world t)) rest (waits t), r)
  | [] => (t, mkResponse 0 VUndef VUndef)
  end.

Definition do_wait (_ : Z) (t : T) : T :=
  match waits t with
  | ops :: rest => mkTab (apply_ops ops (world t)) (responses t) rest
  | [] => t
  end.

(** The [clear] that [runRefresh] passes: a retry resets the store without
    ending the refresh's own epoch. *)
Definition clear_world (synchronizeTabs : bool) (b : option AuthBootstrapState) (w : World) : World :=
  if negb synchronizeTabs && bool_decide (b = Some BsIdle) then update_auth (reset BsIdle) w
  else clearAuthentication synchronizeTabs (default BsComplete b) w.

Definition parse_bundle (v : jsval) : option AuthBundle :=
  if isAuthBundle v then Some (as_AuthBundle v) else None.

(** The runtime of [runRefresh(refreshEpoch)] over a state that contains the
    [World] *)
Definition runtime (refreshEpoch : Z) : AuthRefreshRuntime T :=
  mkRuntime do_request
    (λ t, session_sid (auth (world t)))
    parse_bundle
    (λ b, on_world (applyAuthBundle b false))
    (λ s b, on_world (clear_world s b))
    (on_world (update_auth (setBootstrapState BsIdle)))
    do_wait
    (Some (λ t, bool_decide (authEpoch (world t) = refreshEpoch))).

Definition runRefresh (refreshEpoch : Z) (t : T) : option (T * RefreshOutcome * nat) :=
  run (runtime refreshEpoch) t.

(** ** The shared promise *)

(** How the browser's lock manager answers *)
Inductive Locks := NoLocks | LocksAsync | LocksThrow (e : jsval).

(** Where a flight is: before its lock is granted, suspended in the runner, or
    fulfilled by the [catch], with its [finally] still to run *)
Inductive FlightAt := AtLock | AtCont (c : Cont) | AtCaught (e : jsval).

Record Flight := mkFlight {
  fl_epoch : Z;
  fl_at : FlightAt;
  fl_waiters : list nat;
}.

(** How a promise settles: rejected, or fulfilled with an outcome *)
Definition Settled : Type := jsval + RefreshOutcome.

Record Machine := mkMachine {
  m_world : World;
  refreshPromise : option Flight;
  settled : list (nat * Settled);
}.

(** The segments of the runner on the machine's world: requests and waits are
    answered by events, so the script is empty. *)
Definition seg (f : T → T * Cont) (w : World) : World * Cont :=
  let '(t, c) := f (mkTab w [] []) in (world t, c).

(** The promise of the flight has moved to [c]: suspended again, or settled,
    which clears [refreshPromise] and then resumes the callers. *)
Definition advance (m : Machine) (fl : Flight) (wc : World * Cont) : Machine :=
  let '(w, c) := wc in
  match c with
  | CDone o => mkMachine w None (settled m ++ ((λ n, (n, inr o)) <$> fl_waiters fl))
  | _ => mkMachine w (Some (mkFlight (fl_epoch fl) (AtCont c) (fl_waiters fl))) (settled m)
  end.

Definition settle (m : Machine) (fl : Flight) (w : World) (r : Settled) : Machine :=
  mkMachine w None (settled m ++ ((λ n, (n, r)) <$> fl_waiters fl)).

(** [refreshAuthentication()] called by [caller], with
    [performRefreshWithBrowserLock] inlined up to its first suspension *)
Definition refreshAuthentication (caller : nat) (locks : Locks) (m : Machine) : Machine :=
  match refreshPromise m with
  | Some fl =>
      mkMachine (m_world m)
        (Some (mkFlight (fl_epoch fl) (fl_at fl) (fl_waiters fl ++ [caller]))) (settled m)
  | None =>
      let refreshEpoch := authEpoch (m_world m) in
      let fl := mkFlight refreshEpoch AtLock [caller] in
      match locks with
      | NoLocks => advance m fl (seg (enter (runtime refreshEpoch) 0 true) (m_world m))
      | LocksAsync => mkMachine (m_world m) (Some fl) (settled m)
      | LocksThrow e =>
          mkMachine (update_auth (setBootstrapState BsIdle) (m_world m))
            (Some (mkFlight refreshEpoch (AtCaught e) [caller])) (settled m)
      end
  end.

(** What moves a flight, and what the other tasks do; [EFinally] is the microtask
    that clears [refreshPromise] after the [catch] has returned.  A call made
    before it, in the same turn of the event loop, still joins the flight. *)
Inductive Event :=
  | ECall (caller : nat) (locks : Locks)
  | ELockGranted
  | ELockRejected (e : jsval)
  | EResponse (r : AuthRefreshHTTPResponse)
  | EWaitDone
  | EFinally
  | EOp (op : Op).

Definition step (ev : Event) (m : Machine) : option Machine :=
  match ev, refreshPromise m with
  | ECall caller locks, _ => Some (refreshAuthentication caller locks m)
  | EOp op, _ => Some (mkMachine (apply_op op (m_world m)) (refreshPromise m) (settled m))
  | ELockGranted, Some (mkFlight e AtLock ws as fl) =>
      Some (advance m fl (seg (enter (runtime e) 0 true) (m_world m)))
  | ELockRejected x, Some (mkFlight e AtLock ws as fl) => Some (settle m fl (m_world m) (inl x))
  | EResponse r, Some (mkFlight e (AtCont (CRequest race allow)) ws as fl) =>
      Some (advance m fl (seg (after_response (runtime e) race allow r) (m_world m)))
  | EWaitDone, Some (mkFlight e (AtCont (CWait d race allow)) ws as fl) =>
      Some (advance m fl (seg (after_wait (runtime e) race allow) (m_world m)))
  | EFinally, Some (mkFlight e (AtCaught x) ws as fl) =>
      Some (settle m fl (m_world m) (inr (OutTransientError (HttpError x VUndef))))
  | _, _ => None
  end.

Inductive steps : Machine → list Event → Machine → Prop :=
  | steps_nil m : steps m [] m
  | steps_cons m ev m' evs m'' :
      step ev m = Some m' → steps m' evs m'' → steps m (ev :: evs) m''.

(** ** Bootstrap and headers *)

Inductive Bootstrap :=
  | BootDone (o : RefreshOutcome)
  | BootRefresh.    (* the result is that of [refreshAuthentication()] *)

Definition bootstrapAuthentication (w : World) : World * Bootstrap :=
  match currentValidAuthBundle w with
  | Some bundle =>
      (update_auth (setBootstrapState BsComplete) w, BootDone (OutAuthenticated bundle))
  | None =>
      let hasStaleSession :=
        match user (auth w), session (auth w) with Some _, Some _ => true | _, _ => false end in
      if bool_decide (bootstrapState (auth w) = BsComplete) && negb hasStaleSession
      then (w, BootDone OutAnonymous)
      else (update_auth (setBootstrapState BsChecking) w, BootRefresh)
  end.

(** The token is kept when it outlives [bound] seconds. *)
Definition token_outlives (bound : num) (w : World) : bool :=
  match accessToken (auth w), accessExpiresAt (auth w) with
  | Some t, Some e => truthy t && num_truthy e && num_ltb bound e
  | _, _ => false
  end.

(** [getFreshAuthHeaders] up to the refresh: [None] awaits it *)
Definition freshHeaders_start (w : World) : option (list (jstr * jstr)) :=
  if token_outlives (num_add (now_seconds w) (num_of_Z 60)) w then Some (getCommonHeaders w)
  else None.

Inductive HeadersError := RequestFailed (cause : RefreshError) | SessionExpired.

(** and from its outcome to the end *)
Definition freshHeaders_resume (o : RefreshOutcome) (w : World)
    : HeadersError + list (jstr * jstr) :=
  match o with
  | OutAuthenticated _ => inr (getCommonHeaders w)
  | _ =>
      if token_outlives (now_seconds w) w then inr (getCommonHeaders w)
      else match o with
           | OutTransientError e => inl (RequestFailed e)
           | _ => inl SessionExpired
           end
  end.
End Tab.
