(* ===== verification/AuthProps.v ===== *)
(** What the authentication session guarantees: termination of the refresh,
    agreement of outcome and store, safety under interleaving, the single
    flight, and the contract of the rotation, the headers and the cross-tab
    events. *)

From Stdlib Require Import ZArith NArith Lia SpecFloat.
From S2P Require Import Prelude JsString JsNumber JsValue AuthSync AuthStore AuthRefresh.
Import Runner Tab.

(** * The runner terminates *)

(** [await]s and requests still possible from a continuation *)
Definition awaits_left (c : Cont) : nat :=
  match c with
  | CDone _ => 0
  | CRequest race allow => (if allow then 7 else 0) + 2 * (3 - race) + 1
  | CWait _ race allow => (if allow then 7 else 0) + 2 * (3 - race)
  end.

Definition requests_left (c : Cont) : nat :=
  match c with
  | CDone _ => 0
  | CRequest race allow => (if allow then 4 else 0) + (4 - race)
  | CWait _ race allow => (if allow then 4 else 0) + (3 - race)
  end.

(** The race counter stays within the table of delays. *)
Definition race_ok (c : Cont) : Prop :=
  match c with CDone _ => True | CRequest race _ => race ≤ 3 | CWait _ race _ => race ≤ 2 end.

Lemma enter_cases {W} (rt : AuthRefreshRuntime W) race allow w :
  enter rt race allow w = (w, CDone (OutTransientError Superseded))
  ∨ enter rt race allow w = (w, CRequest race allow).
Proof. unfold enter. case_match; auto. Qed.

Ltac rank :=
  intros; simplify_eq; cbn [race_ok awaits_left requests_left];
  repeat match goal with |- context [if ?b then _ else _] => destruct b end; lia.

Lemma after_response_decreases {W} (rt : AuthRefreshRuntime W) race allow r w c w' :
  race ≤ 3 → after_response rt race allow r w = (w', c) →
  race_ok c ∧ awaits_left c < awaits_left (CRequest race allow)
  ∧ S (requests_left c) ≤ requests_left (CRequest race allow).
Proof.
  intros Hr. unfold after_response. destruct (superseded rt w); [rank|].
  assert (refreshRaceDelays !! race = None ∨ race ≤ 2) as Hd.
  { destruct (refreshRaceDelays !! race) eqn:E; [right|by left].
    apply lookup_lt_Some in E. cbn in E. lia. }
  repeat match goal with
  | |- enter rt 0 false ?x = _ → _ =>
      destruct (enter_cases rt 0 false x) as [-> | ->]; rank
  | |- _ → race_ok _ ∧ _ => (by rank) || case_match
  end; destruct Hd; try congruence; rank.
Qed.

Lemma after_wait_decreases {W} (rt : AuthRefreshRuntime W) d race allow w c w' :
  race ≤ 2 → after_wait rt race allow w = (w', c) →
  race_ok c ∧ awaits_left c < awaits_left (CWait d race allow)
  ∧ requests_left c ≤ requests_left (CWait d race allow).
Proof.
  intros Hr. unfold after_wait.
  destruct (enter_cases rt (S race) allow w) as [-> | ->]; rank.
Qed.

Lemma drive_total {W} (rt : AuthRefreshRuntime W) fuel sent w c :
  race_ok c → awaits_left c < fuel →
  ∃ w' o n, drive rt fuel sent (w, c) = Some (w', o, n) ∧ n ≤ sent + requests_left c.
Proof.
  revert sent w c. induction fuel as [|fuel IH]; intros sent w c Hok Hfuel; [lia|].
  destruct c as [race allow|d race allow|o]; cbn [drive].
  - destruct (request rt _ w) as [w1 r].
    destruct (after_response rt race allow r w1) as [w2 c2] eqn:E.
    apply after_response_decreases in E as (Hok2 & Ha & Hq); [|done].
    destruct (IH (S sent) w2 c2 Hok2 ltac:(lia)) as (w' & o & n & Hd & Hn).
    exists w', o, n. split; [done|]. lia.
  - destruct (after_wait rt race allow (wait rt d w)) as [w2 c2] eqn:E.
    apply (after_wait_decreases _ d) in E as (Hok2 & Ha & Hq); [|done].
    destruct (IH sent w2 c2 Hok2 ltac:(lia)) as (w' & o & n & Hd & Hn).
    exists w', o, n. split; [done|]. lia.
  - exists w, o, sent. split; [done|]. cbn. lia.
Qed.

Lemma run_total {W} (rt : AuthRefreshRuntime W) (w : W) :
  ∃ w' o n, run rt w = Some (w', o, n) ∧ n ≤ 8.
Proof.
  unfold run. destruct (enter_cases rt 0 true w) as [-> | ->].
  - by exists w, (OutTransientError Superseded), 0; split; [|lia].
  - apply (drive_total rt 15 0 w (CRequest 0 true)); cbn; lia.
Qed.

(** C2: whatever the runtime answers, a refresh ends, and it has sent at most
    eight requests: four attempts, and four more after one session mismatch. *)
Theorem refresh_terminates {W} (rt : AuthRefreshRuntime W) (w : W) :
  ∃ w' o n, run rt w = Some (w', o, n) ∧ n ≤ 8.
Proof. apply run_total. Qed.

(** * Outcome and store agree *)

(** What each outcome promises of the store the refresh leaves behind *)
Definition outcome_matches (refreshEpoch : Z) (o : RefreshOutcome) (w : World) : Prop :=
  match o with
  | OutAuthenticated b => auth w = setBundle b (auth w) ∧ truthy (access_token b) = true
  | OutAnonymous | OutOfSync _ => auth w = reset BsComplete (auth w)
  | OutTransientError (HttpError _ _) => bootstrapState (auth w) = BsIdle
  | OutTransientError Superseded => authEpoch w ≠ refreshEpoch
  end.

Lemma auth_applyAuthBundle b s w : auth (applyAuthBundle b s w) = setBundle b (auth w).
Proof. unfold applyAuthBundle. by case_match. Qed.

Lemma auth_clearAuthentication s b w : auth (clearAuthentication s b w) = reset b (auth w).
Proof. unfold clearAuthentication. by repeat case_match. Qed.

Lemma parse_bundle_token v b : parse_bundle v = Some b → truthy (access_token b) = true.
Proof.
  unfold parse_bundle, isAuthBundle, hasValidTokenFields. intros Hb.
  destruct (isRecord v); [|done].
  destruct (prop v (js "access_token")) as [| | | |[|u s]| |] eqn:E; try done.
  destruct (_ && _); [|done]. simplify_eq. unfold as_AuthBundle. cbn [access_token].
  by rewrite E.
Qed.

Lemma enter_outcome e race allow t t' o :
  enter (runtime e) race allow t = (t', CDone o) → outcome_matches e o (world t').
Proof.
  unfold enter, superseded. cbn [isCurrent runtime].
  destruct (negb _) eqn:E; [|intros; simplify_eq].
  intros; simplify_eq. cbn [outcome_matches]. by breflect.
Qed.

Lemma after_response_outcome e race allow r t t' o :
  after_response (runtime e) race allow r t = (t', CDone o) → outcome_matches e o (world t').
Proof.
  unfold after_response, superseded.
  cbn [isCurrent runtime parseBundle acceptBundle clear markTransient].
  destruct (negb (bool_decide _)) eqn:E; [intros; simplify_eq; cbn [outcome_matches]; by breflect|].
  assert (∀ s b, b ≠ Some BsIdle → auth (clear_world s b (world t))
            = reset (default BsComplete b) (auth (world t))) as Hclear.
  { intros s b Hb. unfold clear_world. rewrite bool_decide_false, andb_false_r by done.
    apply auth_clearAuthentication. }
  cbv zeta. generalize (if isRecord (data r) then data r else VUndef). intros rd.
  generalize (match prop rd (js "code") with VStr c => Some c | _ => None end). intros code.
  pose proof (parse_bundle_token (prop rd (js "data"))) as Htok. revert Htok.
  generalize (parse_bundle (prop rd (js "data"))). intros bundle Htok.
  repeat match goal with
  | |- enter _ _ _ _ = _ → _ => apply enter_outcome
  | |- (_, CDone (OutAuthenticated _)) = _ → _ =>
      intros; simplify_eq; cbn [outcome_matches on_world world];
      rewrite auth_applyAuthBundle; auto
  | |- (_, CDone _) = _ → _ =>
      intros; simplify_eq; cbn [outcome_matches on_world world auth update_auth setBootstrapState bootstrapState];
      rewrite ?auth_applyAuthBundle, ?Hclear by done; reflexivity
  | |- (_, CWait _ _ _) = _ → _ => intros; simplify_eq
  | _ => case_match
  end.
Qed.

Lemma drive_outcome e fuel sent t c t' o n :
  (∀ o', c = CDone o' → outcome_matches e o' (world t)) →
  drive (runtime e) fuel sent (t, c) = Some (t', o, n) → outcome_matches e o (world t').
Proof.
  revert sent t c. induction fuel as [|fuel IH]; intros sent t c Hc; [done|].
  destruct c as [race allow|d race allow|o']; cbn [drive].
  - destruct (request _ _ t) as [t1 r].
    destruct (after_response (runtime e) race allow r t1) as [t2 c2] eqn:E.
    apply IH. intros o' ->. by eapply after_response_outcome.
  - destruct (after_wait (runtime e) race allow _) as [t2 c2] eqn:E.
    apply IH. intros o' ->. by eapply enter_outcome.
  - intros; simplify_eq. by apply Hc.
Qed.

Lemma run_outcome e t t' o n :
  runRefresh e t = Some (t', o, n) → outcome_matches e o (world t').
Proof.
  unfold runRefresh, run. destruct (enter _ _ _ t) as [t1 c] eqn:E. apply drive_outcome.
  intros o' ->. by eapply enter_outcome.
Qed.

(** C3: for every sequence of responses and every interleaving of other
    operations of the tab, the refresh reports an outcome that the store
    reflects: the accepted bundle is installed, a rejected or inconsistent
    session is cleared, a transient failure leaves the bootstrap to be tried
    again, and a refresh reports being superseded only if another operation
    ended its epoch. *)
Theorem refresh_outcome_reflected e t :
  ∃ t' o n, runRefresh e t = Some (t', o, n) ∧ outcome_matches e o (world t').
Proof.
  destruct (run_total (runtime e) t) as (t' & o & n & Hrun & _).
  exists t', o, n. split; [done|]. by eapply run_outcome.
Qed.

(** * Interleavings *)

(** Token, expiry and session are present together or absent together. *)
Definition auth_wf (a : AuthState) : Prop :=
  (is_Some (accessToken a) ↔ is_Some (session a))
  ∧ (is_Some (accessExpiresAt a) ↔ is_Some (session a)).

Create HintDb auth.

Lemma auth_wf_setBundle b a : auth_wf (setBundle b a).
Proof. by repeat split. Qed.

Lemma auth_wf_reset b a : auth_wf (reset b a).
Proof. by repeat split; intros []. Qed.

Lemma auth_wf_setBootstrapState b a : auth_wf a → auth_wf (setBootstrapState b a).
Proof. done. Qed.

#[export] Hint Resolve auth_wf_setBundle auth_wf_reset auth_wf_setBootstrapState : auth.

Lemma clear_world_wf s b w : auth_wf (auth (clear_world s b w)).
Proof.
  unfold clear_world. case_match; [apply auth_wf_reset|].
  rewrite auth_clearAuthentication. apply auth_wf_reset.
Qed.

Lemma apply_op_wf op w : auth_wf (auth w) → auth_wf (auth (apply_op op w)).
Proof.
  intros Hw. destruct op; cbn [apply_op]; try done.
  - rewrite auth_applyAuthBundle. auto with auth.
  - unfold applyAuthRotation. by repeat case_match; simplify_eq.
  - rewrite auth_clearAuthentication. auto with auth.
Qed.

(** The ways the runner's segments write to the store *)
Inductive written (w : World) : World → Prop :=
  | written_same : written w w
  | written_clear s b : written w (clear_world s b w)
  | written_idle : written w (update_auth (setBootstrapState BsIdle) w)
  | written_bundle b : written w (applyAuthBundle b false w).

Lemma after_response_written e race allow r t t' c :
  after_response (runtime e) race allow r t = (t', c) → written (world t) (world t').
Proof.
  unfold after_response.
  cbn [isCurrent runtime parseBundle acceptBundle clear markTransient].
  cbv zeta. generalize (if isRecord (data r) then data r else VUndef). intros rd.
  generalize (match prop rd (js "code") with VStr c => Some c | _ => None end). intros code.
  generalize (parse_bundle (prop rd (js "data"))). intros bundle.
  repeat match goal with
  | |- enter ?a ?b ?c ?t = _ → _ =>
      destruct (enter_cases a b c t) as [-> | ->]; intros; simplify_eq; apply written_clear
  | |- (_, _) = _ → _ => intros; simplify_eq; cbn [on_world world]; constructor
  | _ => case_match
  end.
Qed.

Lemma after_response_wf e race allow r t t' c :
  auth_wf (auth (world t)) → after_response (runtime e) race allow r t = (t', c) →
  auth_wf (auth (world t')).
Proof.
  intros Hw Hr. apply after_response_written in Hr. destruct Hr; [done|apply clear_world_wf| |].
  - by apply auth_wf_setBootstrapState.
  - rewrite auth_applyAuthBundle. apply auth_wf_setBundle.
Qed.

Lemma enter_world e race allow t t' c :
  enter (runtime e) race allow t = (t', c) → t' = t.
Proof. destruct (enter_cases (runtime e) race allow t) as [-> | ->]; intros; by simplify_eq. Qed.

Lemma advance_world m fl wc : m_world (advance m fl wc) = wc.1.
Proof. destruct wc as [w []]; done. Qed.

Lemma seg_enter e race allow w : (seg (enter (runtime e) race allow) w).1 = w.
Proof.
  unfold seg. destruct (enter _ _ _ _) as [t c] eqn:E. apply enter_world in E. by subst.
Qed.

Lemma seg_after_response_wf e race allow r w :
  auth_wf (auth w) → auth_wf (auth (seg (after_response (runtime e) race allow r) w).1).
Proof.
  intros Hw. unfold seg. destruct (after_response _ _ _ _ _) as [t c] eqn:E.
  by eapply after_response_wf in E.
Qed.

Lemma refreshAuthentication_wf n l m :
  auth_wf (auth (m_world m)) → auth_wf (auth (m_world (refreshAuthentication n l m))).
Proof.
  intros Hw. unfold refreshAuthentication. destruct (refreshPromise m); [done|].
  destruct l; cbn [m_world update_auth auth]; [|done|by apply auth_wf_setBootstrapState].
  by rewrite advance_world, seg_enter.
Qed.

Lemma step_wf ev m m' :
  step ev m = Some m' → auth_wf (auth (m_world m)) → auth_wf (auth (m_world m')).
Proof.
  intros Hs Hw. unfold step in Hs.
  destruct ev; repeat case_match; simplify_eq;
    unfold after_wait in *; rewrite ?advance_world, ?seg_enter; cbn [m_world];
    auto using refreshAuthentication_wf, apply_op_wf, seg_after_response_wf.
Qed.

(** in every interleaving of refreshes, responses and other operations, the
    access token, its expiry and the session are stored together and removed
    together, so no request carries a token without a session behind it. *)
Theorem session_fields_together m evs m' :
  steps m evs m' → auth_wf (auth (m_world m)) → auth_wf (auth (m_world m')).
Proof. induction 1; eauto using step_wf. Qed.

Definition idle_env : SyncEnv := mkSyncEnv true true false (js "tab-a") (js "n1") num_0.

Lemma session_fields_together_witness :
  let m := mkMachine (mkWorld initial_auth 0 idle_env []) None [] in
  ∃ m', steps m [ECall 1 NoLocks; EResponse (mkResponse 401 VUndef VUndef)] m'
        ∧ auth_wf (auth (m_world m')).
Proof.
  intros m. eexists. refine ((λ H, conj H (session_fields_together _ _ _ H _)) _).
  - exact (auth_wf_reset BsIdle initial_auth).
  - econstructor; [reflexivity|]. econstructor; [vm_compute; reflexivity|]. constructor.
Defined.

(** ** A superseded refresh is inert *)

Definition resumes (ev : Event) : bool :=
  match ev with ELockGranted | EResponse _ | EWaitDone => true | _ => false end.

Lemma enter_stale e race allow w :
  authEpoch w ≠ e → seg (enter (runtime e) race allow) w
  = (w, CDone (OutTransientError Superseded)).
Proof.
  intros. unfold seg, enter, superseded. cbn [isCurrent runtime world].
  by rewrite bool_decide_false.
Qed.

Lemma after_response_stale e race allow r w :
  authEpoch w ≠ e → seg (after_response (runtime e) race allow r) w
  = (w, CDone (OutTransientError Superseded)).
Proof.
  intros. unfold seg, after_response, superseded. cbn [isCurrent runtime world].
  by rewrite bool_decide_false.
Qed.

Lemma step_stale m fl ev m' :
  refreshPromise m = Some fl → fl_epoch fl ≠ authEpoch (m_world m) →
  resumes ev = true → step ev m = Some m' →
  m' = settle m fl (m_world m) (inr (OutTransientError Superseded)).
Proof.
  intros Hfl He Hr Hs. destruct fl as [e at_ ws]. cbn in He.
  unfold step in Hs. rewrite Hfl in Hs.
  destruct ev; try done; destruct at_ as [|[]|]; try done; injection Hs as <-.
  - by rewrite enter_stale by congruence.
  - by rewrite after_response_stale by congruence.
  - unfold after_wait. by rewrite enter_stale by congruence.
Qed.

(** C4: once another operation has signed the tab in or out, the refresh that
    was under way changes nothing when it resumes: it ends as superseded, for
    all its callers, and leaves the store as that operation left it. *)
Theorem stale_refresh_inert m fl ev m' :
  refreshPromise m = Some fl → fl_epoch fl ≠ authEpoch (m_world m) →
  resumes ev = true → step ev m = Some m' →
  m_world m' = m_world m ∧ refreshPromise m' = None
  ∧ settled m' = settled m ++
      ((λ n, (n, inr (OutTransientError Superseded))) <$> fl_waiters fl).
Proof. intros Hfl He Hr Hs. by rewrite (step_stale m fl ev m' Hfl He Hr Hs). Qed.

Lemma stale_refresh_inert_witness :
  let w := mkWorld initial_auth 4 idle_env [] in
  let m := mkMachine w (Some (mkFlight 3 (AtCont (CRequest 0 true)) [7])) [] in
  ∃ m', step (EResponse (mkResponse 401 VUndef VUndef)) m = Some m' ∧ m_world m' = w.
Proof.
  intros w m. eexists. split; [reflexivity|].
  refine (proj1 (stale_refresh_inert m _ (EResponse (mkResponse 401 VUndef VUndef)) _ _ _ _ _));
    reflexivity || discriminate.
Defined.

(** ** Signing out is final for the refresh under way *)

(** Neither a new sign-in nor a new refresh *)
Definition passive (ev : Event) : bool :=
  match ev with
  | ECall _ _ => false
  | EOp (OpApplyBundle _ _) => false
  | _ => true
  end.

(** Signed out, with any refresh under way belonging to an earlier epoch *)
Definition signed_out (m : Machine) : Prop :=
  session (auth (m_world m)) = None
  ∧ match refreshPromise m with
    | Some fl => (fl_epoch fl < authEpoch (m_world m))%Z
    | None => True
    end.

Lemma apply_op_epoch op w : (authEpoch w ≤ authEpoch (apply_op op w))%Z.
Proof.
  destruct op; cbn [apply_op]; try (cbn; lia).
  - unfold applyAuthBundle. case_match; cbn; lia.
  - unfold applyAuthRotation, applyAuthBundle. repeat case_match; simplify_eq; cbn; lia.
  - unfold clearAuthentication. repeat case_match; cbn; lia.
Qed.

Lemma apply_op_signed_out op w :
  passive (EOp op) = true → session (auth w) = None → session (auth (apply_op op w)) = None.
Proof.
  intros Hp Hw. destruct op; try done; cbn [apply_op].
  - unfold applyAuthRotation. rewrite Hw. repeat case_match; simplify_eq; done.
  - by rewrite auth_clearAuthentication.
Qed.

Lemma step_signed_out ev m m' :
  passive ev = true → step ev m = Some m' → signed_out m → signed_out m'.
Proof.
  intros Hp Hs [Hn Hf]. destruct (refreshPromise m) as [fl|] eqn:Hfl.
  - destruct (resumes ev) eqn:Hr.
    + by rewrite (step_stale m fl ev m' Hfl ltac:(lia) Hr Hs).
    + unfold step in Hs. rewrite Hfl in Hs. destruct ev; try done.
      * destruct fl as [e' []]; try done. by injection Hs as <-.
      * destruct fl as [e' []]; try done. by injection Hs as <-.
      * injection Hs as <-. split; [by apply apply_op_signed_out|]. cbn.
        pose proof (apply_op_epoch op (m_world m)). lia.
  - unfold step in Hs. rewrite Hfl in Hs. destruct ev; try done.
    injection Hs as <-. split; [by apply apply_op_signed_out|done].
Qed.

(** No refresh under way belongs to a later epoch. *)
Definition epochs_ordered (m : Machine) : Prop :=
  match refreshPromise m with
  | Some fl => (fl_epoch fl ≤ authEpoch (m_world m))%Z
  | None => True
  end.

Lemma written_epoch w w' : written w w' → (authEpoch w ≤ authEpoch w')%Z.
Proof.
  destruct 1; [done| |cbn; lia|exact (apply_op_epoch (OpApplyBundle b false) w)].
  unfold clear_world. case_match; [cbn; lia|]. exact (apply_op_epoch (OpClear s (default BsComplete b)) w).
Qed.

Lemma advance_ordered m fl wc :
  (fl_epoch fl ≤ authEpoch wc.1)%Z → epochs_ordered (advance m fl wc).
Proof. by destruct wc as [w []]. Qed.

Lemma refreshAuthentication_ordered n l m :
  epochs_ordered m → epochs_ordered (refreshAuthentication n l m).
Proof.
  unfold refreshAuthentication. intros Hm. destruct (refreshPromise m) as [fl|] eqn:E.
  - by unfold epochs_ordered in *; rewrite E in Hm.
  - destruct l; [|unfold epochs_ordered; cbn; lia..]. apply advance_ordered. rewrite seg_enter. cbn. lia.
Qed.

Lemma step_ordered ev m m' : step ev m = Some m' → epochs_ordered m → epochs_ordered m'.
Proof.
  intros Hs Hm. unfold step in Hs.
  destruct ev as [n l| |x|r| | |op].
  - injection Hs as <-. by apply refreshAuthentication_ordered.
  - destruct (refreshPromise m) as [[e [|c|y] ws]|] eqn:E; simplify_eq.
    unfold epochs_ordered in Hm. rewrite E in Hm. apply advance_ordered. by rewrite seg_enter.
  - destruct (refreshPromise m) as [[e [|c|y] ws]|] eqn:E; by simplify_eq.
  - destruct (refreshPromise m) as [[e [|[]|y] ws]|] eqn:E; simplify_eq.
    unfold epochs_ordered in Hm. rewrite E in Hm. apply advance_ordered. cbn [fl_epoch] in *.
    unfold seg. destruct (after_response _ _ _ _ _) as [t c] eqn:Er.
    apply after_response_written, written_epoch in Er. cbn in *. lia.
  - destruct (refreshPromise m) as [[e [|[]|y] ws]|] eqn:E; simplify_eq.
    unfold epochs_ordered in Hm. rewrite E in Hm. apply advance_ordered. unfold after_wait.
    by rewrite seg_enter.
  - destruct (refreshPromise m) as [[e [|c|y] ws]|] eqn:E; by simplify_eq.
  - injection Hs as <-. unfold epochs_ordered in *. cbn [refreshPromise m_world].
    destruct (refreshPromise m); [|done]. pose proof (apply_op_epoch op (m_world m)). lia.
Qed.

Lemma sign_out_ends_epoch s b m m' :
  epochs_ordered m → step (EOp (OpClear s b)) m = Some m' → signed_out m'.
Proof.
  intros Hm Hs. injection Hs as <-. unfold signed_out. cbn [m_world refreshPromise apply_op].
  split; [by rewrite auth_clearAuthentication|].
  unfold epochs_ordered in Hm. destruct (refreshPromise m); [|done].
  unfold clearAuthentication. repeat case_match; cbn; lia.
Qed.

Lemma steps_app_inv m evs evs' m' :
  steps m (evs ++ evs') m' → ∃ m1, steps m evs m1 ∧ steps m1 evs' m'.
Proof.
  revert m. induction evs as [|ev evs IH]; intros m H; [exists m; split; [constructor|done]|].
  cbn in H. inversion H as [|? ? m1 ? ? Hs Hr]; subst.
  destruct (IH m1 Hr) as (m2 & H1 & H2). exists m2. split; [by econstructor|done].
Qed.

(** C5: whatever a tab did before, after a sign-out no response to a refresh under
    way and no token rotation signs it in again: until someone signs in or asks
    for another refresh, there is no session and no token. *)
Theorem sign_out_is_final m evs s b evs' m' :
  steps m (evs ++ EOp (OpClear s b) :: evs') m' →
  refreshPromise m = None → auth_wf (auth (m_world m)) → forallb passive evs' = true →
  session (auth (m_world m')) = None ∧ accessToken (auth (m_world m')) = None.
Proof.
  intros Hs Hidle Hwf Hp. apply steps_app_inv in Hs as (m1 & H1 & H2).
  assert (epochs_ordered m1) as Hord.
  { assert (epochs_ordered m) as Hm by (unfold epochs_ordered; by rewrite Hidle).
    clear -H1 Hm. induction H1; eauto using step_ordered. }
  assert (auth_wf (auth (m_world m1))) as Hwf1 by (clear -H1 Hwf; induction H1; eauto using step_wf).
  inversion H2 as [|? ? m2 ? ? Hclear H3]; subst.
  assert (session (auth (m_world m')) = None) as Hn.
  { pose proof (sign_out_ends_epoch _ _ _ _ Hord Hclear) as Hso. clear -H3 Hp Hso.
    induction H3 as [m|m ev m' evs m'' Hstep Hs IH]; [by destruct Hso|].
    cbn in Hp. apply andb_true_iff in Hp as [? ?]. eauto using step_signed_out. }
  split; [done|].
  assert (auth_wf (auth (m_world m'))) as [Ht _].
  { clear -H2 Hwf1. induction H2; eauto using step_wf. }
  rewrite Hn in Ht. destruct (accessToken _); [|done].
  by destruct (proj1 Ht ltac:(by eexists)).
Qed.

Lemma sign_out_is_final_witness :
  let m := mkMachine (mkWorld initial_auth 0 idle_env []) None [] in
  ∃ m', steps m ([ECall 7 NoLocks] ++ EOp (OpClear true BsComplete)
                 :: [EResponse (mkResponse 200 VUndef VUndef)]) m'
        ∧ session (auth (m_world m')) = None.
Proof.
  intros m. eexists.
  refine ((λ H, conj H (proj1 (sign_out_is_final _ _ _ _ _ _ H _ _ _))) _).
  - reflexivity.
  - exact (auth_wf_reset BsIdle initial_auth).
  - reflexivity.
  - econstructor; [reflexivity|]. econstructor; [reflexivity|].
    econstructor; [vm_compute; reflexivity|]. constructor.
Defined.

(** ** One flight for all callers *)

Definition waiting (m : Machine) : list nat :=
  match refreshPromise m with Some fl => fl_waiters fl | None => [] end.

Definition caller_of (ev : Event) : option nat :=
  match ev with ECall n _ => Some n | _ => None end.

Definition callers (evs : list Event) : list nat := omap caller_of evs.

(** Everyone whose call has been settled or is still waiting, in order *)
Definition served (m : Machine) : list nat := (settled m).*1 ++ waiting m.

Lemma batch_fst (r : Settled) (ns : list nat) : ((λ n, (n, r)) <$> ns).*1 = ns.
Proof. rewrite <- list_fmap_compose. apply (list_fmap_id ns). Qed.

Lemma served_advance m fl wc :
  served (advance m fl wc) = (settled m).*1 ++ fl_waiters fl.
Proof.
  destruct wc as [w []]; unfold served, waiting; cbn; try done.
  by rewrite fmap_app, batch_fst, app_nil_r.
Qed.

Lemma served_settle m fl w r :
  served (settle m fl w r) = (settled m).*1 ++ fl_waiters fl.
Proof. unfold served, waiting. cbn. by rewrite fmap_app, batch_fst, app_nil_r. Qed.

Lemma served_call n l m : served (refreshAuthentication n l m) = served m ++ [n].
Proof.
  unfold refreshAuthentication. destruct (refreshPromise m) as [fl|] eqn:Hfl.
  - unfold served, waiting. rewrite Hfl. cbn. by rewrite app_assoc.
  - destruct l; rewrite ?served_advance, ?served_settle; unfold served, waiting;
      rewrite Hfl; cbn; by rewrite app_nil_r.
Qed.

Lemma served_step ev m m' :
  step ev m = Some m' → served m' = served m ++ option_list (caller_of ev).
Proof.
  unfold step. intros Hs.
  destruct ev; cbn [caller_of option_list]; rewrite ?app_nil_r;
    [injection Hs as <-; apply served_call| | | | | |by injection Hs as <-];
    unfold served at 2, waiting; destruct (refreshPromise m) as [[e' at_ ws]|]; try done;
    destruct at_ as [|[]|]; try done; injection Hs as <-;
    by rewrite ?served_advance, ?served_settle.
Qed.


(** An event answers everyone who waits, or nobody. *)
Lemma answers_all_or_none ev m m' :
  step ev m = Some m' →
  (settled m' = settled m ∧ waiting m' = waiting m ++ option_list (caller_of ev))
  ∨ (waiting m' = []
     ∧ ∃ r, settled m' = settled m ++ ((λ n, (n, r)) <$> (waiting m ++ option_list (caller_of ev)))).
Proof.
  assert (∀ fl wc,
    (settled (advance m fl wc) = settled m ∧ waiting (advance m fl wc) = fl_waiters fl)
    ∨ (waiting (advance m fl wc) = []
       ∧ ∃ r, settled (advance m fl wc) = settled m ++ ((λ n, (n, r)) <$> fl_waiters fl))) as Hadv.
  { intros fl [w []]; cbn; eauto. }
  unfold step. intros Hs.
  destruct ev; cbn [caller_of option_list]; rewrite ?app_nil_r.
  1: { injection Hs as <-. unfold refreshAuthentication, waiting at 2 4.
       destruct (refreshPromise m) as [fl|]; [by left|].
       destruct locks; [apply (Hadv (mkFlight _ _ [_]))|by left..]. }
  all: unfold waiting at 2 4; destruct (refreshPromise m) as [[e' at_ ws]|] eqn:E; try done;
    try (destruct at_ as [|[]|]; try done); injection Hs as <-; try apply Hadv; cbn; eauto.
  all: left; unfold waiting; cbn; by rewrite ?E.
Qed.

(** C6: all callers that ask for a refresh while one is under way share it.  In
    every reachable state each call made so far was answered once or is waiting,
    in the order of the calls.  Each event either answers nobody, and a new
    caller joins those who wait, or it answers all who wait, the caller of this
    very event included, with one and the same result, and the flight is over.
    A call during a flight neither touches the store nor moves the flight. *)
Theorem single_flight w evs m :
  steps (mkMachine w None []) evs m →
  served m = callers evs
  ∧ (∀ ev m', step ev m = Some m' →
      let due := waiting m ++ option_list (caller_of ev) in
      (settled m' = settled m ∧ waiting m' = due)
      ∨ (waiting m' = [] ∧ ∃ r, settled m' = settled m ++ ((λ n, (n, r)) <$> due)))
  ∧ (∀ n l fl, refreshPromise m = Some fl →
      step (ECall n l) m
      = Some (mkMachine (m_world m)
                (Some (mkFlight (fl_epoch fl) (fl_at fl) (fl_waiters fl ++ [n]))) (settled m))).
Proof.
  intros Hs. split_and!.
  - enough (∀ m0, steps m0 evs m → served m = served m0 ++ callers evs) as H by exact (H _ Hs).
    clear Hs. induction 1 as [m|m ev m1 evs m2 Hstep Hs IH]; [by rewrite app_nil_r|].
    rewrite IH, (served_step _ _ _ Hstep), <- app_assoc. f_equal.
    unfold callers. cbn. by destruct (caller_of ev).
  - intros ev m'. apply answers_all_or_none.
  - intros n l fl Hfl. cbn. unfold refreshAuthentication. by rewrite Hfl.
Qed.

Lemma single_flight_witness :
  let m := mkMachine (mkWorld initial_auth 0 idle_env []) None [] in
  ∃ m', steps m [ECall 1 NoLocks; ECall 2 NoLocks; EResponse (mkResponse 401 VUndef VUndef)] m'
        ∧ served m' = [1; 2].
Proof.
  intros m. eexists. refine ((λ H, conj H (proj1 (single_flight _ _ _ H))) _).
  econstructor; [reflexivity|]. econstructor; [reflexivity|].
  econstructor; [reflexivity|]. constructor.
Defined.

(** ** A flight always ends *)

(** What the code between two [await]s leaves in flight is never finished and
    never past the last delay. *)
Definition flight_ok (m : Machine) : Prop :=
  match refreshPromise m with
  | Some (mkFlight _ (AtCont c) _) => race_ok c ∧ awaits_left c ≠ 0
  | _ => True
  end.

Definition awaits_of (m : Machine) : nat :=
  match refreshPromise m with
  | Some (mkFlight _ AtLock _) => 15
  | Some (mkFlight _ (AtCont c) _) => awaits_left c
  | Some (mkFlight _ (AtCaught _) _) => 1
  | None => 0
  end.

Lemma advance_ok m fl w c :
  race_ok c → flight_ok (advance m fl (w, c)) ∧ awaits_of (advance m fl (w, c)) = awaits_left c.
Proof.
  destruct c as [race allow|d race allow|o]; cbn [race_ok]; intros Hr; [| |done];
    (split; [|done]); (split; [done|]); unfold awaits_left; destruct allow; lia.
Qed.

Lemma seg_enter_ok e race allow w :
  race ≤ 3 → race_ok (seg (enter (runtime e) race allow) w).2
  ∧ awaits_left (seg (enter (runtime e) race allow) w).2 ≤ awaits_left (CRequest race allow).
Proof.
  intros Hr. unfold seg. destruct (enter_cases (runtime e) race allow (mkTab w [] [])) as [-> | ->];
    cbn [snd race_ok]; [|done]. split; [done|]. cbn [awaits_left]. lia.
Qed.

Lemma call_ok n l m : flight_ok m → flight_ok (refreshAuthentication n l m).
Proof.
  unfold refreshAuthentication. intros Hok. destruct (refreshPromise m) as [fl|] eqn:Hfl.
  { unfold flight_ok in *. rewrite Hfl in Hok. by destruct fl. }
  destruct l; try done.
  pose proof (seg_enter_ok (authEpoch (m_world m)) 0 true (m_world m) ltac:(lia)) as [Hr _].
  destruct (seg _ _) as [w c]. by apply advance_ok.
Qed.

(** A resumption keeps the flight in order and brings it closer to its end. *)
Lemma resume_ok ev m m' :
  flight_ok m → step ev m = Some m' → resumes ev = true →
  flight_ok m' ∧ awaits_of m' < awaits_of m.
Proof.
  unfold step, flight_ok at 1, awaits_of at 2. intros Hok Hs Hr.
  destruct ev; try done; destruct (refreshPromise m) as [[e at_ ws]|]; try done;
    destruct at_ as [|[race allow|d race allow|]|]; try done; injection Hs as <-.
  - pose proof (seg_enter_ok e 0 true (m_world m) ltac:(lia)) as [Hc Hl].
    destruct (seg _ _) as [w c]. cbn [snd] in *.
    destruct (advance_ok m (mkFlight e AtLock ws) w c Hc) as [? ->].
    split; [done|]. cbn [awaits_left] in Hl. lia.
  - unfold seg. destruct (after_response _ _ _ _ _) as [t c] eqn:E.
    destruct Hok as [Hok _]. apply after_response_decreases in E as (Hc & Hl & _); [|done].
    destruct (advance_ok m (mkFlight e (AtCont (CRequest race allow)) ws) (world t) c Hc)
      as [? ->]. done.
  - unfold seg. destruct (after_wait _ _ _ _) as [t c] eqn:E.
    destruct Hok as [Hok _]. apply (after_wait_decreases _ d) in E as (Hc & Hl & _); [|done].
    destruct (advance_ok m (mkFlight e (AtCont (CWait d race allow)) ws) (world t) c Hc)
      as [? ->]. done.
Qed.

(** What moves the flight: a resumption, a rejected lock or the [finally] *)
Definition moves (ev : Event) : bool :=
  resumes ev || match ev with ELockRejected _ | EFinally => true | _ => false end.

(** Every event keeps the flight in order; one that moves it brings it closer to
    its end, and no other sets it back. *)
Lemma flight_step ev m m' :
  flight_ok m → step ev m = Some m' →
  flight_ok m' ∧ (moves ev = true → awaits_of m' < awaits_of m)
  ∧ (moves ev = false → refreshPromise m ≠ None → awaits_of m' = awaits_of m).
Proof.
  intros Hok Hs. destruct (resumes ev) eqn:Hr.
  { destruct (resume_ok ev m m' Hok Hs Hr). unfold moves. rewrite Hr. by split_and!. }
  unfold moves. rewrite Hr. unfold step in Hs. destruct ev as [n l| |x|r| | |op]; try done.
  - injection Hs as <-. split_and!; [by apply call_ok|done|]. intros _ Hfl.
    unfold refreshAuthentication, awaits_of. by destruct (refreshPromise m) as [[e [|c|y] ws]|].
  - unfold awaits_of. destruct (refreshPromise m) as [[e [|c|y] ws]|]; try done.
    injection Hs as <-. cbn. by split_and!; [|lia|].
  - unfold awaits_of. destruct (refreshPromise m) as [[e [|c|y] ws]|]; try done.
    injection Hs as <-. cbn. by split_and!; [|lia|].
  - by injection Hs as <-.
Qed.

Lemma flight_in_order w evs m : steps (mkMachine w None []) evs m → flight_ok m.
Proof.
  enough (∀ m0, flight_ok m0 → steps m0 evs m → flight_ok m) as H by (apply H; exact I).
  induction 2 as [|? ? ? ? ? Hs _ IH]; [done|]. by apply IH, (flight_step _ _ _ H Hs).
Qed.

Lemma awaits_bounded m : flight_ok m → awaits_of m ≤ 15 ∧ (awaits_of m = 0 ↔ refreshPromise m = None).
Proof.
  unfold flight_ok, awaits_of. destruct (refreshPromise m) as [[e [|c|y] ws]|]; [| | |by split; [lia|]].
  - split; [lia|]. split; [lia|done].
  - intros [Hr Hn]. split; [|by split]. destruct c as [race []|d race []|]; cbn in *; lia.
  - split; [lia|]. split; [lia|done].
Qed.

(** A flight that is moved often enough is settled on the way. *)
Lemma flight_settles m evs m' :
  flight_ok m → steps m evs m' → awaits_of m ≤ length (filter (λ ev, moves ev = true) evs) →
  ∃ pre m1, pre `prefix_of` evs ∧ steps m pre m1 ∧ refreshPromise m1 = None.
Proof.
  intros Hok Hs. revert Hok. induction Hs as [m|m ev m1 evs m2 Hstep Hs IH]; intros Hok Hn.
  - exists [], m. split_and!; [done|constructor|]. apply (awaits_bounded m Hok). cbn in Hn. lia.
  - destruct (refreshPromise m) as [fl|] eqn:Hfl.
    2:{ exists [], m. split_and!; [apply prefix_nil|constructor|done]. }
    destruct (flight_step ev m m1 Hok Hstep) as (Hok1 & Hm & Hk).
    destruct IH as (pre & m3 & Hp & Hst & Hnone); [done| |].
    + rewrite filter_cons in Hn. case_decide as Hmv; cbn in Hn.
      * specialize (Hm Hmv). lia.
      * rewrite Hk; [done| |by rewrite Hfl]. by destruct (moves ev).
    + exists (ev :: pre), m3. split_and!; [by apply prefix_cons|by econstructor|done].
Qed.

(** C7: a refresh under way always ends.  In every reachable state with a flight
    some event moves it (the lock is granted or refused, the response arrives,
    the delay elapses, the [finally] runs); {e every} event that moves it, with
    whatever response, brings it strictly closer to settling its callers, and
    every other event leaves it as close; so any run in which it is moved fifteen
    times has, at some point on the way, settled it. *)
Theorem flight_progress w evs m :
  steps (mkMachine w None []) evs m → refreshPromise m ≠ None →
  (∃ ev, moves ev = true ∧ is_Some (step ev m))
  ∧ (∀ ev m', step ev m = Some m' →
      if moves ev then awaits_of m' < awaits_of m else awaits_of m' = awaits_of m)
  ∧ (∀ evs' m', steps m evs' m' → 15 ≤ length (filter (λ ev, moves ev = true) evs') →
      ∃ pre m1, pre `prefix_of` evs' ∧ steps m pre m1 ∧ refreshPromise m1 = None).
Proof.
  intros Hs Hfl. pose proof (flight_in_order _ _ _ Hs) as Hok. split_and!.
  - unfold flight_ok in Hok. destruct (refreshPromise m) as [[e [|c|y] ws]|] eqn:E; [| | |done].
    + exists ELockGranted. unfold step. rewrite E. by eauto.
    + destruct c as [race allow|d race allow|o].
      * exists (EResponse (mkResponse 0 VUndef VUndef)). unfold step. rewrite E. by eauto.
      * exists EWaitDone. unfold step. rewrite E. by eauto.
      * by destruct Hok as [_ []].
    + exists EFinally. unfold step. rewrite E. by eauto.
  - intros ev m' Hstep. destruct (flight_step ev m m' Hok Hstep) as (_ & Hm & Hk).
    destruct (moves ev); auto.
  - intros evs' m' Hrun Hn. apply (flight_settles m evs' m' Hok Hrun).
    pose proof (awaits_bounded m Hok). lia.
Qed.

Lemma flight_progress_witness :
  let m := mkMachine (mkWorld initial_auth 0 idle_env [])
             (Some (mkFlight 0 (AtCont (CRequest 0 true)) [1])) [] in
  ∃ ev, moves ev = true ∧ is_Some (step ev m).
Proof.
  intros m.
  destruct (flight_progress (mkWorld initial_auth 0 idle_env []) [ECall 1 NoLocks] m)
    as (H & _).
  - econstructor; [reflexivity|]. constructor.
  - discriminate.
  - exact H.
Defined.

(** * Rotation *)

(** A well-formed rotation: a record with a token, the type [Bearer], an expiry
    that is a positive finite number, and a complete session that is current *)
Record valid_rotation (v : jsval) (token : jstr) (expiry : num) (s : LoginSession) : Prop := {
  vr_token : prop v (js "access_token") = VStr token ∧ token ≠ [];
  vr_bearer : prop v (js "token_type") = VStr (js "Bearer");
  vr_expiry : prop v (js "access_expires_at") = VNum expiry ∧ isFinite expiry = true
              ∧ num_ltb num_0 expiry = true;
  vr_sid : prop (prop v (js "session")) (js "sid") = VStr (sid s) ∧ sid s ≠ [];
  vr_current : prop (prop v (js "session")) (js "current") = VBool true ∧ current s = true;
  vr_texts : prop (prop v (js "session")) (js "login_method") = VStr (login_method s)
             ∧ prop (prop v (js "session")) (js "ip") = VStr (ip s)
             ∧ prop (prop v (js "session")) (js "user_agent") = VStr (user_agent s);
  vr_times : prop (prop v (js "session")) (js "created_at") = VNum (created_at s)
             ∧ prop (prop v (js "session")) (js "last_active_at") = VNum (last_active_at s)
             ∧ prop (prop v (js "session")) (js "expires_at") = VNum (expires_at s);
  vr_whole : session_value s = prop v (js "session");
}.

Lemma nonempty_string v :
  match v with VStr s => (0 <? length s)%nat | _ => false end = true ↔ ∃ s, v = VStr s ∧ s ≠ [].
Proof.
  split; [|by intros ([|] & -> & ?)]. destruct v as [| | | |[|u s]| |]; try done. by eexists.
Qed.

Lemma isRecord_of_prop v k s : prop v k = VStr s → isRecord v = true.
Proof. by destruct v. Qed.

Lemma is_string_iff v : is_string v = true ↔ ∃ s, v = VStr s.
Proof. split; [|by intros [? ->]]. destruct v; try done. by eexists. Qed.

Lemma is_number_iff v : is_number v = true ↔ ∃ n, v = VNum n.
Proof. split; [|by intros [? ->]]. destruct v; try done. by eexists. Qed.

Lemma positive_number v :
  match v with VNum n => isFinite n && num_ltb num_0 n | _ => false end = true
  ↔ ∃ n, v = VNum n ∧ isFinite n = true ∧ num_ltb num_0 n = true.
Proof.
  split; [|by intros (? & -> & -> & ->)]. destruct v; try done.
  intros [? ?]%andb_true_iff. by eexists.
Qed.

Lemma current_session v : is_boolean v = true ∧ truthy_val v = true ↔ v = VBool true.
Proof. split; [by destruct v as [| |[]| | | |]; intros []|by intros ->]. Qed.

Lemma rotation_guard v :
  isAuthTokenRotation v = true ↔ ∃ token expiry,
  valid_rotation v token expiry (as_LoginSession (prop v (js "session")))
  ∧ str_of (prop v (js "access_token")) = token ∧ num_of (prop v (js "access_expires_at")) = expiry.
Proof.
  unfold isAuthTokenRotation, hasValidTokenFields, isLoginSession.
  rewrite !andb_true_iff, !nonempty_string, !positive_number, !is_string_iff, !is_number_iff,
    bool_decide_eq_true. split.
  - intros ((((_ & ((token & Ht & Htn) & _) & (n & Hn & Hf & Hp)) & Hb)
      & ((((((((_ & x & Hx & Hxn) & Hcur) & l & Hl) & i & Hi) & ua & Hua) & t1 & H1) & t2 & H2) & t3 & H3)) & Hc).
    pose proof (proj1 (current_session _) (conj Hcur Hc)) as Hcu.
    exists token, n. rewrite Ht, Hn. split; [|done].
    constructor; unfold as_LoginSession; cbn [sid current login_method ip user_agent created_at
      last_active_at expires_at session_value]; rewrite ?Hx, ?Hcu, ?Hl, ?Hi, ?Hua, ?H1, ?H2, ?H3; done.
  - intros (token & n & [[Ht Htn] Hb (He & Hf & Hp) [Hx Hxn] [Hc _] (Hl & Hip & Hua) (H1 & H2 & H3) _] & _).
    apply current_session in Hc as [? ?]. split_and!; eauto using isRecord_of_prop.
Qed.

(** The fields of a rotation are determined by it. *)
Lemma valid_rotation_guard v token expiry s :
  valid_rotation v token expiry s → isAuthTokenRotation v = true.
Proof.
  intros [[Ht Htn] Hb (He & Hf & Hp) [Hx Hxn] [Hc Hcs] (Hl & Hip & Hua) (H1 & H2 & H3) Hw].
  apply rotation_guard. exists token, expiry. rewrite Ht, He. split; [|done].
  constructor; unfold as_LoginSession; cbn [sid current login_method ip user_agent created_at
    last_active_at expires_at session_value]; rewrite ?Hx, ?Hc, ?Hl, ?Hip, ?Hua, ?H1, ?H2, ?H3; done.
Qed.

(** C8: a rotation response is applied exactly when it is well formed (a token,
    the type [Bearer], a positive finite expiry, a complete current session), a
    user and a session are there, and it names that session; the three errors are
    the three ways this can fail, in that order.  When it is applied, the token,
    its expiry and the session record are the ones of the response, the pending
    second factor is dropped, the bootstrap is complete and a new epoch begins;
    the user and the identifier of the session stay, and nothing is published to
    the other tabs. *)
Theorem rotation_contract v w :
  match applyAuthRotation v w with
  | inl InvalidRotationResponse => ∀ token expiry s, ¬ valid_rotation v token expiry s
  | inl RotationWithoutSession =>
      (∃ token expiry s, valid_rotation v token expiry s)
      ∧ (user (auth w) = None ∨ session (auth w) = None)
  | inl RotationSessionMismatch =>
      ∃ token expiry s u s0, valid_rotation v token expiry s
      ∧ user (auth w) = Some u ∧ session (auth w) = Some s0 ∧ sid s ≠ sid s0
  | inr w' =>
      ∃ token expiry s u s0, valid_rotation v token expiry s
      ∧ user (auth w) = Some u ∧ session (auth w) = Some s0 ∧ sid s = sid s0
      ∧ w' = mkWorld (mkAuth (Some u) (Some token) (Some expiry) (Some s) None BsComplete)
               (authEpoch w + 1) (sync_env w) (published w)
  end.
Proof.
  unfold applyAuthRotation. destruct (isAuthTokenRotation v) eqn:Hv; cbn [negb].
  2:{ intros token expiry s Hr. apply valid_rotation_guard in Hr. congruence. }
  apply rotation_guard in Hv as (token & expiry & Hv & -> & ->).
  destruct (user (auth w)) as [u|] eqn:Hu; [|by eauto 6].
  destruct (session (auth w)) as [s|] eqn:Hs; [|by eauto 6].
  destruct (bool_decide _) eqn:Hsid; cbn [negb]; breflect;
    exists token, expiry, (as_LoginSession (prop v (js "session"))), u, s; by split_and!.
Qed.

(** * Locks, headers and the other tabs *)

(** a browser whose lock manager rejects asynchronously leaves the store
    as it was, so a bootstrap in state [checking] stays there, and the callers
    get the rejection itself; only a synchronous failure is turned into a
    transient error with the bootstrap reset to [idle], for the callers of the
    same turn of the event loop too.  The [catch] of
    [performRefreshWithBrowserLock] does not cover the promise it returns. *)
Theorem lock_failure_paths n n' l m e :
  refreshPromise m = None →
  step (ELockRejected e) (refreshAuthentication n LocksAsync m)
    = Some (mkMachine (m_world m) None (settled m ++ [(n, inl e)]))
  ∧ step EFinally (refreshAuthentication n' l (refreshAuthentication n (LocksThrow e) m))
    = Some (mkMachine (update_auth (setBootstrapState BsIdle) (m_world m)) None
        (settled m ++ ((λ n, (n, inr (OutTransientError (HttpError e VUndef)))) <$> [n; n']))).
Proof. intros Hfl. unfold refreshAuthentication. by rewrite Hfl. Qed.

Lemma lock_failure_paths_witness :
  let w := (bootstrapAuthentication (mkWorld initial_auth 0 idle_env [])).1 in
  step (ELockRejected (VStr (js "denied")))
    (refreshAuthentication 1 LocksAsync (mkMachine w None []))
  = Some (mkMachine w None [(1, inl (VStr (js "denied")))])
  ∧ bootstrapState (auth w) = BsChecking.
Proof.
  intros w. split; [|vm_compute; reflexivity].
  exact (proj1 (lock_failure_paths 1 2 NoLocks (mkMachine w None []) (VStr (js "denied")) eq_refl)).
Defined.

Definition bearer (token : jstr) : list (jstr * jstr) :=
  [(js "Content-Type", js "application/json"); (js "Authorization", js "Bearer " ++ token)].

Lemma common_headers_bearer w token :
  accessToken (auth w) = Some token → truthy token = true → getCommonHeaders w = bearer token.
Proof. intros Ht Htr. unfold getCommonHeaders. by rewrite Ht, Htr. Qed.

Lemma token_outlives_headers bound w :
  token_outlives bound w = true →
  ∃ token e, accessToken (auth w) = Some token ∧ accessExpiresAt (auth w) = Some e
  ∧ num_ltb bound e = true ∧ getCommonHeaders w = bearer token.
Proof.
  unfold token_outlives. destruct (accessToken (auth w)) as [t|] eqn:Ht; [|done].
  destruct (accessExpiresAt (auth w)) as [e|]; [|done].
  intros [[Htr _]%andb_true_iff ?]%andb_true_iff.
  exists t, e. split_and!; [done..|]. by apply common_headers_bearer.
Qed.

(** the headers a request is sent with carry a bearer token that has more
    than a minute left, or the one the refresh just installed, or one that has
    not expired yet; in every other case the request fails instead of going out
    unauthenticated. *)
Theorem fresh_headers_authorized e t :
  match freshHeaders_start (world t) with
  | Some hs => ∃ token x, accessExpiresAt (auth (world t)) = Some x
      ∧ num_ltb (num_add (now_seconds (world t)) (num_of_Z 60)) x = true ∧ hs = bearer token
  | None => ∃ t' o n, runRefresh e t = Some (t', o, n)
      ∧ match freshHeaders_resume o (world t') with
        | inr hs =>
            (∃ b, o = OutAuthenticated b ∧ hs = bearer (access_token b))
            ∨ (∃ token x, accessExpiresAt (auth (world t')) = Some x
                 ∧ num_ltb (now_seconds (world t')) x = true ∧ hs = bearer token)
        | inl (RequestFailed c) => o = OutTransientError c
        | inl SessionExpired => o = OutAnonymous ∨ ∃ c, o = OutOfSync c
        end
  end.
Proof.
  unfold freshHeaders_start. destruct (token_outlives _ _) eqn:Hstart.
  { apply token_outlives_headers in Hstart as (tok & x & _ & Hx & Hlt & Hh). by eauto. }
  destruct (run_total (runtime e) t) as (t' & o & n & Hrun & _).
  assert (outcome_matches e o (world t')) as Hm by (by eapply run_outcome).
  exists t', o, n. split; [done|]. unfold freshHeaders_resume.
  assert (token_outlives (now_seconds (world t')) (world t') = true →
    ∃ token x, accessExpiresAt (auth (world t')) = Some x
      ∧ num_ltb (now_seconds (world t')) x = true ∧ getCommonHeaders (world t') = bearer token)
    as Hcur.
  { intros (tok & x & _ & Hx & Hlt & Hh)%token_outlives_headers. by eauto. }
  destruct o as [b| |c|c].
  - left. exists b. split; [done|]. destruct Hm as [Hm Hb].
    apply common_headers_bearer; [by rewrite Hm|done].
  - destruct (token_outlives (now_seconds (world t')) (world t')) eqn:Et;
      cbv beta iota; [right; by apply Hcur|by left].
  - destruct (token_outlives (now_seconds (world t')) (world t')) eqn:Et;
      cbv beta iota; [right; by apply Hcur|done].
  - destruct (token_outlives (now_seconds (world t')) (world t')) eqn:Et;
      cbv beta iota; [right; by apply Hcur|right; by eexists].
Qed.

(** an announced sign-in or sign-out reaches exactly the other tabs whose
    clock is within a minute of the sender's, and never the tab that sent it. *)
Theorem sync_delivery from to kind s o a b :
  date_now from = num_of_Z a → date_now to = num_of_Z b →
  safe a → safe b → safe (b - a) →
  o ∈ publishAuthSessionEvent from kind s →
  deliver to (event_val (output_event o))
  = negb (bool_decide (authSyncSource from = authSyncSource to)) && (Z.abs (b - a) <? 60000)%Z.
Proof.
  intros Ha Hb Hsa Hsb Hsab Ho. unfold publishAuthSessionEvent in Ho.
  destruct (has_window from); [|by apply elem_of_nil in Ho].
  destruct s as [|u s]; [by apply elem_of_nil in Ho|].
  assert (output_event o = mkSyncEvent kind (u :: s) (authSyncSource from) (next_nonce from)
            (date_now from)) as ->.
  { cbn in Ho. destruct (has_broadcast from); [|destruct (storage_throws from)];
      by set_solver. }
  unfold deliver. rewrite Ha, Hb.
  replace (isAuthSessionSyncEvent _) with true by (by destruct kind).
  cbn [andb]. f_equal.
  - f_equal. apply bool_decide_ext. cbn. split; [by intros [= ->]|by intros ->].
  - change (prop (event_val _) (js "timestamp")) with (VNum (num_of_Z a)). cbv beta iota.
    rewrite num_sub_of_Z by done. rewrite num_abs_of_Z by done.
    apply num_ltb_of_Z; unfold safe, MAX_SAFE_INTEGER in *; lia.
Qed.

Lemma sync_delivery_witness :
  let env t src := mkSyncEnv true true false src (js "n") (num_of_Z t) in
  let e := mkSyncEvent SignedOut (js "sid") (js "a") (js "n") (num_of_Z 1000) in
  deliver (env 2000%Z (js "b")) (event_val e) = true.
Proof.
  intros env e.
  refine (eq_trans (sync_delivery (env 1000%Z (js "a")) (env 2000%Z (js "b")) SignedOut (js "sid")
           (PostMessage e) 1000 2000 eq_refl eq_refl _ _ _ _) _);
    [unfold safe, MAX_SAFE_INTEGER; lia..| |vm_compute; reflexivity].
  left.
Defined.
