(* ===== verification/AuthSpec.v ===== *)
(** What the session of a tab promises, as an abstract machine, and that the
    interleaving of refreshes with the tab's other operations implements it.

    The abstract machine knows who is signed in and whether a renewal is under
    way and still counts.  A renewal that no longer counts can only end: no rule
    lets it change who is signed in. *)

From Stdlib Require Import ZArith NArith.
From S2P Require Import Prelude JsString JsNumber JsValue AuthSync AuthStore AuthRefresh AuthProps.
Import Runner Tab.

(** * The abstract session *)

Record Spec := mkSpec {
  who : option LoginSession;
  renewal : option bool;      (* under way, and whether it still counts *)
}.

Inductive Label :=
  | LTau
  | LStart
  | LSignIn (s : LoginSession)
  | LSignOut
  | LRotate (s : LoginSession)
  | LRenew (s : LoginSession)
  | LReject
  | LRetry
  | LFail.

(** An operation of the tab overtakes the renewal under way. *)
Definition overtaken (r : option bool) : option bool := (λ _, false) <$> r.

Inductive spec_step : Spec → Label → Spec → Prop :=
  | spec_tau s : spec_step s LTau s
  | spec_start w : spec_step (mkSpec w None) LStart (mkSpec w (Some true))
  | spec_sign_in w r s : spec_step (mkSpec w r) (LSignIn s) (mkSpec (Some s) (overtaken r))
  | spec_sign_out w r : spec_step (mkSpec w r) LSignOut (mkSpec None (overtaken r))
  | spec_rotate s s' r :
      sid s' = sid s → spec_step (mkSpec (Some s) r) (LRotate s') (mkSpec (Some s') (overtaken r))
  | spec_renew w s : spec_step (mkSpec w (Some true)) (LRenew s) (mkSpec (Some s) None)
  | spec_reject w : spec_step (mkSpec w (Some true)) LReject (mkSpec None None)
  | spec_retry w : spec_step (mkSpec w (Some true)) LRetry (mkSpec None (Some true))
  | spec_fail w b : spec_step (mkSpec w (Some b)) LFail (mkSpec w None).

(** What each event of the tab may mean *)
Definition allowed (ev : Event) (l : Label) : Prop :=
  match ev, l with
  | ECall _ _, (LTau | LStart) => True
  | (ELockGranted | EWaitDone), (LTau | LFail) => True
  | (ELockRejected _ | EFinally), LFail => True
  | EResponse r, LRenew s => ∃ b, parse_bundle (prop (data r) (js "data")) = Some b ∧ s = b_session b
  | EResponse _, (LTau | LReject | LRetry | LFail) => True
  | EOp (OpApplyBundle b _), LSignIn s => s = b_session b
  | EOp (OpClear _ _), LSignOut => True
  | EOp (OpRotate _), (LTau | LRotate _) => True
  | EOp (OpSetUser _ | OpSetPending _ | OpTick _), LTau => True
  | _, _ => False
  end.

Inductive spec_steps : Spec → list Event → Spec → Prop :=
  | spec_steps_nil s : spec_steps s [] s
  | spec_steps_cons s ev l s' evs s'' :
      allowed ev l → spec_step s l s' → spec_steps s' evs s'' → spec_steps s (ev :: evs) s''.

(** * The machine as an abstract session *)

Definition counts (w : World) (fl : Flight) : bool := bool_decide (fl_epoch fl = authEpoch w).

Definition abstract (m : Machine) : Spec :=
  mkSpec (session (auth (m_world m))) (counts (m_world m) <$> refreshPromise m).

(** How a response is taken by a refresh that still counts *)
Inductive taken (r : AuthRefreshHTTPResponse) (race : nat) (allow : bool) (w : World) : World * Cont → Prop :=
  | taken_renewed b :
      parse_bundle (prop (data r) (js "data")) = Some b →
      taken r race allow w (applyAuthBundle b false w, CDone (OutAuthenticated b))
  | taken_race d : taken r race allow w (w, CWait d race allow)
  | taken_rejected s o : taken r race allow w (clearAuthentication s BsComplete w, CDone o)
  | taken_retry : taken r race allow w (update_auth (reset BsIdle) w, CRequest 0 false)
  | taken_failed o : taken r race allow w (update_auth (setBootstrapState BsIdle) w, CDone o).

Lemma response_taken race allow r w :
  taken r race allow w (seg (after_response (runtime (authEpoch w)) race allow r) w).
Proof.
  unfold seg, after_response, superseded.
  cbn [isCurrent runtime parseBundle acceptBundle clear markTransient world].
  rewrite bool_decide_true by done. cbn [negb].
  assert (∀ s, clear_world s None w = clearAuthentication s BsComplete w) as Hclear.
  { intros s. unfold clear_world. by rewrite bool_decide_false, andb_false_r by done. }
  cbv zeta. set (rd := if isRecord (data r) then data r else VUndef).
  assert (∀ b, parse_bundle (prop rd (js "data")) = Some b →
               parse_bundle (prop (data r) (js "data")) = Some b) as Hrd.
  { intros b. subst rd. by destruct (isRecord (data r)). }
  clearbody rd.
  generalize (match prop rd (js "code") with VStr c => Some c | _ => None end). intros code.
  revert Hrd. generalize (parse_bundle (prop rd (js "data"))). intros bundle Hrd.
  repeat case_match; simplify_eq; unfold on_world in *; cbn [world] in *;
    rewrite ?Hclear; try (constructor; by auto).
  all: match goal with H : enter _ _ _ _ = _ |- _ => rename H into He end.
  all: unfold enter, superseded in He; cbn [isCurrent runtime world] in He.
  all: change (clear_world false (Some BsIdle) w) with (update_auth (reset BsIdle) w) in He.
  all: rewrite bool_decide_true in He by done; simplify_eq/=; apply taken_retry.
Qed.

(** ** Each event is an abstract step *)

Lemma abstract_call n l m :
  ∃ l', allowed (ECall n l) l' ∧ spec_step (abstract m) l' (abstract (refreshAuthentication n l m)).
Proof.
  unfold refreshAuthentication, abstract. destruct (refreshPromise m) as [fl|] eqn:E.
  { exists LTau. split; [done|]. cbn. constructor. }
  assert (∀ x, Some true = counts x <$> Some (mkFlight (authEpoch x) AtLock [n])) as Hnew.
  { intros x. cbn. unfold counts. by rewrite bool_decide_true. }
  destruct l as [| |x].
  - exists LStart. split; [done|]. unfold seg, enter, superseded. cbn [isCurrent runtime world].
    rewrite bool_decide_true by done. cbn. unfold counts. cbn. rewrite bool_decide_true by done. constructor.
  - exists LStart. split; [done|]. cbn [m_world refreshPromise]. rewrite <- Hnew. constructor.
  - exists LStart. split; [done|]. cbn. unfold counts. cbn. rewrite bool_decide_true by done. constructor.
Qed.

(** Resuming at the entry: the renewal goes on, or it was overtaken and ends. *)
Lemma abstract_enter m e at_ ws race allow :
  refreshPromise m = Some (mkFlight e at_ ws) →
  ∃ l, (l = LTau ∨ l = LFail)
  ∧ spec_step (abstract m) l
      (abstract (advance m (mkFlight e at_ ws) (seg (enter (runtime e) race allow) (m_world m)))).
Proof.
  intros E. destruct (decide (authEpoch (m_world m) = e)) as [He|He].
  - exists LTau. split; [by left|]. unfold seg, enter, superseded. cbn [isCurrent runtime world].
    rewrite bool_decide_true by done. cbn. unfold abstract. cbn. rewrite E. cbn. constructor.
  - exists LFail. split; [by right|]. rewrite enter_stale by done. unfold abstract. cbn. rewrite E. constructor.
Qed.

Lemma abstract_response m e ws race allow r :
  refreshPromise m = Some (mkFlight e (AtCont (CRequest race allow)) ws) →
  ∃ l, allowed (EResponse r) l
  ∧ spec_step (abstract m) l
      (abstract (advance m (mkFlight e (AtCont (CRequest race allow)) ws)
                   (seg (after_response (runtime e) race allow r) (m_world m)))).
Proof.
  intros E. destruct (decide (authEpoch (m_world m) = e)) as [<-|He].
  2:{ exists LFail. split; [done|]. rewrite after_response_stale by done.
      unfold abstract. cbn. rewrite E. constructor. }
  assert (abstract m = mkSpec (session (auth (m_world m))) (Some true)) as ->.
  { unfold abstract. rewrite E. cbn. unfold counts. cbn. by rewrite bool_decide_true. }
  destruct (response_taken race allow r (m_world m)) as [b Hb|d|s o| |o]; unfold abstract;
    cbn [advance m_world refreshPromise fmap option_fmap option_map].
  - exists (LRenew (b_session b)). split; [by exists b|]. rewrite auth_applyAuthBundle. constructor.
  - exists LTau. split; [done|]. unfold counts. cbn. rewrite bool_decide_true by done. constructor.
  - exists LReject. split; [done|]. rewrite auth_clearAuthentication. constructor.
  - exists LRetry. split; [done|]. unfold counts. cbn. rewrite bool_decide_true by done. constructor.
  - exists LFail. split; [done|]. constructor.
Qed.

(** An operation that starts a new epoch overtakes any renewal. *)
Lemma counts_later m w :
  epochs_ordered m → (authEpoch (m_world m) < authEpoch w)%Z →
  counts w <$> refreshPromise m = overtaken (counts (m_world m) <$> refreshPromise m).
Proof.
  unfold epochs_ordered, overtaken. destruct (refreshPromise m) as [fl|]; [|done]. intros Hle Hlt. cbn.
  unfold counts at 1. rewrite bool_decide_false; [done|]. lia.
Qed.

Lemma abstract_op m op :
  epochs_ordered m →
  ∃ l, allowed (EOp op) l
  ∧ spec_step (abstract m) l (abstract (mkMachine (apply_op op (m_world m)) (refreshPromise m) (settled m))).
Proof.
  intros Hm.
  assert (∀ b s, (authEpoch (m_world m) < authEpoch (applyAuthBundle b s (m_world m)))%Z) as Hb.
  { intros b s. unfold applyAuthBundle. case_match; cbn; lia. }
  destruct op as [b s|v|s b|u|t|env]; unfold abstract; cbn [m_world refreshPromise apply_op].
  - exists (LSignIn (b_session b)). split; [done|].
    rewrite auth_applyAuthBundle, (counts_later m (applyAuthBundle _ _ _)) by auto. constructor.
  - unfold applyAuthRotation.
    repeat case_match; simplify_eq; try (exists LTau; split; [done|]; cbn; constructor).
    eexists (LRotate _). split; [done|].
    rewrite auth_applyAuthBundle, (counts_later m (applyAuthBundle _ _ _)) by auto. cbn [setBundle session b_session]. constructor. by breflect.
  - exists LSignOut. split; [done|]. 
    rewrite auth_clearAuthentication, (counts_later m (clearAuthentication _ _ _)); [constructor|done|].
    unfold clearAuthentication. repeat case_match; cbn; lia.
  - exists LTau. split; [done|]. cbn. constructor.
  - exists LTau. split; [done|]. cbn. constructor.
  - exists LTau. split; [done|]. cbn. constructor.
Qed.

Lemma step_abstract ev m m' :
  epochs_ordered m → step ev m = Some m' →
  ∃ l, allowed ev l ∧ spec_step (abstract m) l (abstract m').
Proof.
  intros Hm Hs. unfold step in Hs. destruct ev as [n l| |x|r| | |op].
  - injection Hs as <-. apply abstract_call.
  - destruct (refreshPromise m) as [[e [|c|y] ws]|] eqn:E; simplify_eq.
    destruct (abstract_enter m e AtLock ws 0 true E) as (l & [-> | ->] & Hl);
      (eexists; split; [|exact Hl]; done).
  - destruct (refreshPromise m) as [[e [|c|y] ws]|] eqn:E; simplify_eq.
    exists LFail. split; [done|]. unfold abstract. rewrite E. cbn. constructor.
  - destruct (refreshPromise m) as [[e [|[]|y] ws]|] eqn:E; simplify_eq. by apply abstract_response.
  - destruct (refreshPromise m) as [[e [|[]|y] ws]|] eqn:E; simplify_eq. unfold after_wait.
    destruct (abstract_enter m e _ ws (S raceAttempt) allowMismatchRetry E) as (l & [-> | ->] & Hl);
      (eexists; split; [|exact Hl]; done).
  - destruct (refreshPromise m) as [[e [|c|y] ws]|] eqn:E; simplify_eq.
    exists LFail. split; [done|]. unfold abstract. rewrite E. cbn. constructor.
  - injection Hs as <-. by apply abstract_op.
Qed.

(** C37: the tab implements the abstract session: every interleaving of calls, answers,
    waits and operations, from a tab without a refresh under way, is a run of the
    abstract machine in which each event has a meaning it may have: a clear
    signs out, an applied bundle signs its session in, a rotation keeps the
    session's identifier, and an answer signs in only the session it carries and
    only while the renewal it belongs to still counts. *)
Theorem tab_refines_session m evs m' :
  refreshPromise m = None → steps m evs m' → spec_steps (abstract m) evs (abstract m').
Proof.
  intros Hidle Hs. assert (epochs_ordered m) as Hm by (unfold epochs_ordered; by rewrite Hidle).
  clear Hidle. induction Hs as [m|m ev m' evs m'' Hstep Hs IH]; [constructor|].
  destruct (step_abstract ev m m' Hm Hstep) as (l & Hl & Ha).
  econstructor; [exact Hl|exact Ha|]. apply IH. by eapply step_ordered.
Qed.

Lemma tab_refines_session_witness :
  let m := mkMachine (mkWorld initial_auth 0 idle_env []) None [] in
  ∃ m', steps m [ECall 1 NoLocks; EOp (OpClear true BsComplete); EResponse (mkResponse 401 VUndef VUndef)] m'
        ∧ spec_steps (abstract m)
            [ECall 1 NoLocks; EOp (OpClear true BsComplete); EResponse (mkResponse 401 VUndef VUndef)]
            (abstract m').
Proof.
  intros m. eexists. refine ((λ H, conj H (tab_refines_session _ _ _ _ H)) _); [reflexivity|].
  econstructor; [reflexivity|]. econstructor; [reflexivity|]. econstructor; [vm_compute; reflexivity|].
  constructor.
Defined.
