(* ===== verification/PgMessage.v ===== *)
(** Messages of the playground: [web/src/features/playground/types.ts],
    [constants.ts] and [lib/message/*.ts].

    A clock reading ([Date.now()]) and a fresh identifier ([nanoid()]) are
    arguments of the functions that draw them; the synchronous code of one call
    reads the clock once. Translation ([t]) is an argument where it is used. *)

From Stdlib Require Import ZArith NArith Lia SpecFloat.
From S2P Require Import Prelude JsString JsNumber JsValue.

(** * Types *)

Inductive MessageRole := RUser | RAssistant | RSystem.
Inductive MessageStatus := Loading | Streaming | Complete | Failed.

#[export] Instance MessageRole_eq_dec : EqDecision MessageRole.
Proof. solve_decision. Defined.
#[export] Instance MessageStatus_eq_dec : EqDecision MessageStatus.
Proof. solve_decision. Defined.

Record MessageVersion := mkVersion { v_id : jstr; v_content : jstr }.

Record Reasoning := mkReasoning {
  r_content : jstr;
  r_duration : num;
  r_startedAt : option num;
  r_completedAt : option num;
  r_durationMs : option num;
}.

Record Source := mkSource { href : jstr; title : jstr }.

(** [errorCode] is absent ([None]), [null] ([Some None]) or a string. *)
Record Message := mkMessage {
  m_key : jstr;
  m_from : MessageRole;
  versions : list MessageVersion;
  createdAt : option num;
  startedAt : option num;
  completedAt : option num;
  durationMs : option num;
  sources : option (list Source);
  reasoning : option Reasoning;
  isReasoningStreaming : option bool;
  isReasoningComplete : option bool;
  isContentComplete : option bool;
  status : option MessageStatus;
  errorCode : option (option jstr);
}.

(** Copies with some properties replaced, [{ ...message, p: x }] *)
Definition with_versions (vs : list MessageVersion) (m : Message) : Message :=
  mkMessage (m_key m) (m_from m) vs (createdAt m) (startedAt m) (completedAt m) (durationMs m)
    (sources m) (reasoning m) (isReasoningStreaming m) (isReasoningComplete m)
    (isContentComplete m) (status m) (errorCode m).
Definition with_createdAt (t : option num) (m : Message) : Message :=
  mkMessage (m_key m) (m_from m) (versions m) t (startedAt m) (completedAt m) (durationMs m)
    (sources m) (reasoning m) (isReasoningStreaming m) (isReasoningComplete m)
    (isContentComplete m) (status m) (errorCode m).
Definition with_timing (s c d : option num) (m : Message) : Message :=
  mkMessage (m_key m) (m_from m) (versions m) (createdAt m) s c d
    (sources m) (reasoning m) (isReasoningStreaming m) (isReasoningComplete m)
    (isContentComplete m) (status m) (errorCode m).
Definition with_reasoning (r : option Reasoning) (m : Message) : Message :=
  mkMessage (m_key m) (m_from m) (versions m) (createdAt m) (startedAt m) (completedAt m)
    (durationMs m) (sources m) r (isReasoningStreaming m) (isReasoningComplete m)
    (isContentComplete m) (status m) (errorCode m).
Definition with_reasoningStreaming (b : bool) (m : Message) : Message :=
  mkMessage (m_key m) (m_from m) (versions m) (createdAt m) (startedAt m) (completedAt m)
    (durationMs m) (sources m) (reasoning m) (Some b) (isReasoningComplete m)
    (isContentComplete m) (status m) (errorCode m).
Definition with_status (s : MessageStatus) (m : Message) : Message :=
  mkMessage (m_key m) (m_from m) (versions m) (createdAt m) (startedAt m) (completedAt m)
    (durationMs m) (sources m) (reasoning m) (isReasoningStreaming m) (isReasoningComplete m)
    (isContentComplete m) (Some s) (errorCode m).
Definition with_errorCode (c : option jstr) (m : Message) : Message :=
  mkMessage (m_key m) (m_from m) (versions m) (createdAt m) (startedAt m) (completedAt m)
    (durationMs m) (sources m) (reasoning m) (isReasoningStreaming m) (isReasoningComplete m)
    (isContentComplete m) (status m) (Some c).

(** * Constants *)

Definition API_REQUEST_ERROR : jstr := js "Request error occurred".
Definition NETWORK_ERROR : jstr := js "Network connection failed or server not responding".
Definition PARSE_ERROR : jstr := js "Error parsing response data".
Definition STREAM_START_ERROR : jstr := js "Error establishing connection".
Definition CONNECTION_CLOSED : jstr := js "Connection closed".
Definition INTERRUPTED : jstr := js "Generation was interrupted".

Definition ERROR_MESSAGES : list jstr :=
  [API_REQUEST_ERROR; NETWORK_ERROR; PARSE_ERROR; STREAM_START_ERROR; CONNECTION_CLOSED;
   INTERRUPTED].

(** * [message-utils.ts] *)

Definition createMessageVersion (id content : jstr) : MessageVersion := mkVersion id content.

Definition getCurrentVersion (m : Message) : MessageVersion :=
  match versions m with v :: _ => v | [] => mkVersion (js "default") [] end.

Definition getMessageContent (m : Message) : jstr := v_content (getCurrentVersion m).

Definition hasMessageContent (m : Message) : bool :=
  negb (bool_decide (trim (getMessageContent m) = [])).

Definition updateCurrentVersionContent (m : Message) (content : jstr) : Message :=
  with_versions [mkVersion (v_id (getCurrentVersion m)) content] m.

Definition createUserMessage (key id content : jstr) (created : num) : Message :=
  mkMessage key RUser [createMessageVersion id content] (Some created) None None None None None
    None None None None None.

Definition createLoadingAssistantMessage (key id : jstr) (started : num) : Message :=
  mkMessage key RAssistant [createMessageVersion id []] (Some started) (Some started) None None
    None None (Some false) (Some false) (Some false) (Some Loading) None.

Inductive ContentPart := TextPart (text : jstr) | ImagePart (url : jstr).

(** [string | ContentPart[]] *)
Definition MessageBody : Type := jstr + list ContentPart.

Definition buildMessageContent (text : jstr) (imageUrls : list jstr) : MessageBody :=
  let validImages := filter (λ url, trim url ≠ []) imageUrls in
  match validImages with
  | [] => inl text
  | _ => inr (TextPart text :: ((λ url, ImagePart (trim url)) <$> validImages))
  end.

Definition is_text (p : ContentPart) : bool := match p with TextPart _ => true | _ => false end.

Definition getTextContent (content : MessageBody) : jstr :=
  match content with
  | inl s => s
  | inr parts => match find is_text parts with Some (TextPart t) => t | _ => [] end
  end.

Record ChatCompletionMessage := mkChatMessage { role : MessageRole; body : jstr }.

Definition formatMessageForAPI (m : Message) : ChatCompletionMessage :=
  mkChatMessage (m_from m) (v_content (getCurrentVersion m)).

Definition isValidMessage (m : Message) : bool :=
  match versions m with
  | [] => false
  | _ => negb (bool_decide (m_from m = RAssistant) && negb (hasMessageContent m))
  end.

(** * [message-reasoning-utils.ts] *)

Record ParsedThinkTags := mkThink {
  visibleContent : jstr;
  think_reasoning : jstr;
  hasUnclosedTag : bool;
}.

Definition OPEN_TAG : jstr := js "<think>".
Definition CLOSE_TAG : jstr := js "</think>".

(** The [while (true)] loop; the arrays grow at the end.  Every turn that goes
    on consumes at least the two tags, so [length content] turns are enough. *)
Fixpoint think_loop (fuel : nat) (content : jstr) (currentPos : nat)
    (visibleParts reasoningParts : list jstr) : option (list jstr * list jstr * bool) :=
  match fuel with
  | 0 => None
  | S fuel =>
      match indexOf_from content OPEN_TAG currentPos with
      | None =>
          Some (if (currentPos <? length content)%nat
                then visibleParts ++ [slice_from content currentPos] else visibleParts,
                reasoningParts, false)
      | Some openPos =>
          let visibleParts :=
            if (currentPos <? openPos)%nat
            then visibleParts ++ [slice content currentPos openPos] else visibleParts in
          match indexOf_from content CLOSE_TAG (openPos + 7) with
          | None => Some (visibleParts, reasoningParts ++ [slice_from content (openPos + 7)], true)
          | Some closePos =>
              think_loop fuel content (closePos + 8) visibleParts
                (reasoningParts ++ [slice content (openPos + 7) closePos])
          end
      end
  end.

Definition PARAGRAPH : jstr := [10%N; 10%N].

Definition parseThinkTags (content : jstr) : ParsedThinkTags :=
  if negb (includes content OPEN_TAG) then mkThink content [] false
  else
    match think_loop (S (length content)) content 0 [] [] with
    | Some (v, r, u) => mkThink (trim (concat v)) (trim (join PARAGRAPH r)) u
    | None => mkThink content [] false
    end.

(** * [message-timing-utils.ts] *)

(** [a ?? b] *)
Definition or_else {A} (a b : option A) : option A := match a with Some _ => a | None => b end.

Definition elapsed (from to : num) : num := num_max num_0 (num_sub to from).

Definition completeAssistantTiming (m : Message) (completed : num) : Message :=
  if negb (bool_decide (m_from m = RAssistant)) then m
  else
    let started := default completed (or_else (startedAt m) (createdAt m)) in
    with_timing (Some started) (Some completed) (Some (elapsed started completed)) m.

Definition startReasoningTiming (m : Message) (started : num) : Reasoning :=
  match reasoning m with
  | Some r =>
      mkReasoning (r_content r) (r_duration r) (Some (default started (r_startedAt r)))
        (r_completedAt r) (r_durationMs r)
  | None => mkReasoning [] num_0 (Some started) None None
  end.

Definition completeReasoningTiming (m : Message) (completed : num) : Message :=
  match reasoning m with
  | None => m
  | Some r =>
      match r_durationMs r with
      | Some _ => m
      | None =>
          let started := default completed (or_else (r_startedAt r) (startedAt m)) in
          let ms := elapsed started completed in
          with_reasoning
            (Some (mkReasoning (r_content r) (num_ceil (num_div ms (num_of_Z 1000)))
                     (Some started) (Some completed) (Some ms))) m
      end
  end.

(** * [message-update-utils.ts] *)

Definition updateLastAssistantMessage (messages : list Message) (updater : Message → Message)
    : list Message :=
  match last messages with
  | Some l =>
      if negb (bool_decide (m_from l = RAssistant)) then messages
      else <[length messages - 1 := updater l]> messages
  | None => messages
  end.

Definition updateAssistantMessageWithError (messages : list Message) (errorMessage : jstr)
    (code : option jstr) (title : jstr) (now : num) : list Message :=
  updateLastAssistantMessage messages (λ m,
    completeAssistantTiming
      (with_errorCode (match code with Some c => if truthy c then Some c else None | None => None end)
         (with_reasoningStreaming false
            (with_status Failed
               (updateCurrentVersionContent m (title ++ js ": " ++ errorMessage)))))
      now).

(** * [message-streaming-utils.ts] *)

Definition with_content (r : Reasoning) (content : jstr) : Reasoning :=
  mkReasoning content (r_duration r) (r_startedAt r) (r_completedAt r) (r_durationMs r).

(** [contentChunk] is absent or a string; the empty string is falsy too. *)
Definition processStreamingContent (m : Message) (contentChunk : option jstr) (now : num)
    : Message :=
  let current := v_content (getCurrentVersion m) in
  let fullContent :=
    match contentChunk with Some c => if truthy c then current ++ c else current
    | None => current end in
  match reasoning m, includes fullContent OPEN_TAG with
  | None, false => with_reasoningStreaming false (updateCurrentVersionContent m fullContent)
  | _, _ =>
      let p := parseThinkTags fullContent in
      let finalReasoning :=
        if truthy (think_reasoning p)
        then Some (with_content (startReasoningTiming m now) (think_reasoning p))
        else reasoning m in
      with_reasoningStreaming (hasUnclosedTag p)
        (with_reasoning finalReasoning (updateCurrentVersionContent m fullContent))
  end.

Inductive StreamChunkType := ReasoningChunk | ContentChunk.

Definition getAppendableChunk (currentContent chunk : jstr) : jstr :=
  if negb (truthy currentContent) || negb (startsWith chunk currentContent) then chunk
  else slice_from chunk (length currentContent).

Definition applyStreamingChunk (m : Message) (type : StreamChunkType) (chunk : jstr) (now : num)
    : Message :=
  if bool_decide (status m = Some Failed) then m
  else
    match type with
    | ReasoningChunk =>
        let r := startReasoningTiming m now in
        let appendable := getAppendableChunk (r_content r) chunk in
        with_status Streaming
          (with_reasoningStreaming true
             (with_reasoning (Some (with_content r (r_content r ++ appendable))) m))
    | ContentChunk =>
        let appendable := getAppendableChunk (v_content (getCurrentVersion m)) chunk in
        let c := processStreamingContent m (Some appendable) now in
        with_status Streaming
          (if default false (isReasoningStreaming c) then c else completeReasoningTiming c now)
    end.

(** [a || b] on strings *)
Definition or_text (a b : jstr) : jstr := if truthy a then a else b.

Definition reasoning_text (m : Message) : jstr :=
  match reasoning m with Some r => r_content r | None => [] end.

Definition finalizeMessage (m : Message) (apiReasoningContent : option jstr) (now : num)
    : Message :=
  let content := v_content (getCurrentVersion m) in
  let parsed := if includes content OPEN_TAG then Some (parseThinkTags content) else None in
  let visible := match parsed with Some p => visibleContent p | None => content end in
  let finalReasoning :=
    or_text (default [] apiReasoningContent)
      (or_text (reasoning_text m)
         (match parsed with Some p => think_reasoning p | None => [] end)) in
  completeReasoningTiming
    (with_reasoningStreaming false
       (with_reasoning
          (if truthy finalReasoning
           then Some (with_content (startReasoningTiming m now) finalReasoning) else None)
          (updateCurrentVersionContent m visible)))
    now.

Definition completeAssistantMessage (m : Message) (now : num) : Message :=
  completeAssistantTiming (with_status Complete (finalizeMessage m None now)) now.

Definition isAssistantMessageFinal (m : Message) : bool :=
  bool_decide (status m = Some Complete) || bool_decide (status m = Some Failed).

Definition isAssistantMessagePending (m : Message) : bool :=
  bool_decide (status m = Some Loading) || bool_decide (status m = Some Streaming).

Definition isPendingAssistantMessage (m : Message) : bool :=
  bool_decide (m_from m = RAssistant) && isAssistantMessagePending m.

(** A completion choice: [choice.message?.content] and its [reasoning_content],
    each possibly absent *)
Record ChatCompletionChoice := mkChoice {
  choice_content : option jstr;
  choice_reasoning : option jstr;
}.

Definition hasChatCompletionChoice (choices : list ChatCompletionChoice) : bool :=
  match choices with _ :: _ => true | [] => false end.

Definition applyChatCompletionChoice (m : Message) (choice : ChatCompletionChoice) (now : num)
    : Message :=
  completeAssistantTiming
    (with_status Complete
       (finalizeMessage (updateCurrentVersionContent m (default [] (choice_content choice)))
          (choice_reasoning choice) now))
    now.

Definition applyChatCompletionResponse (m : Message) (choices : list ChatCompletionChoice)
    (now : num) : option Message :=
  match choices with
  | choice :: _ => Some (applyChatCompletionChoice m choice now)
  | [] => None
  end.

(** The [for] loop from the end: the index of the last pending message *)
Fixpoint find_last_index {A} (p : A → bool) (l : list A) : option nat :=
  match l with
  | [] => None
  | x :: r =>
      match find_last_index p r with
      | Some i => Some (S i)
      | None => if p x then Some 0 else None
      end
  end.

Definition sanitizeMessage (t : jstr → jstr) (now : num) (m : Message) : Message :=
  let finalized := finalizeMessage m None now in
  if hasMessageContent finalized || truthy (trim (reasoning_text finalized))
  then completeAssistantTiming (with_reasoningStreaming false (with_status Complete finalized)) now
  else
    completeAssistantTiming
      (with_reasoningStreaming false
         (with_status Failed
            (updateCurrentVersionContent finalized
               (t API_REQUEST_ERROR ++ js ": " ++ t INTERRUPTED))))
      now.

Definition sanitizeMessagesOnLoad (t : jstr → jstr) (now : num) (messages : list Message)
    : list Message :=
  match find_last_index isPendingAssistantMessage messages with
  | None => messages
  | Some i => alter (sanitizeMessage t now) i messages
  end.

(** * [message-content-utils.ts] and [message-error-utils.ts] *)

Record MessageContentState := mkContentState {
  displayContent : jstr;
  hasSources : bool;
  isAssistant : bool;
  showLoader : bool;
  showMessageContent : bool;
  state_sources : list Source;
  reasoningContent : option jstr;   (* [None]: [hasReasoning] is false *)
}.

Definition shouldShowMessageLoader (m : Message) (assistant : bool) (versionContent : jstr)
    : bool :=
  assistant && negb (default false (isReasoningStreaming m))
  && (bool_decide (status m = Some Loading)
      || bool_decide (status m = Some Streaming) && negb (truthy versionContent)).

Definition shouldShowMessageContent (m : Message) (versionContent : jstr) : bool :=
  (bool_decide (m_from m = RUser) || negb (default false (isReasoningStreaming m)))
  && (0 <? length versionContent)%nat.

Definition getDisplayContent (m : Message) (versionContent : jstr) : jstr :=
  if negb (bool_decide (m_from m = RAssistant)) then versionContent
  else if negb (includes versionContent OPEN_TAG) then versionContent
  else visibleContent (parseThinkTags versionContent).

Definition getMessageContentState (m : Message) (versionContent : jstr) : MessageContentState :=
  let assistant := bool_decide (m_from m = RAssistant) in
  let srcs := default [] (sources m) in
  let r := if assistant then r_content <$> reasoning m else None in
  mkContentState (getDisplayContent m versionContent) (0 <? length srcs)%nat assistant
    (shouldShowMessageLoader m assistant versionContent)
    (shouldShowMessageContent m versionContent) srcs
    (match r with Some c => if truthy c then Some c else None | None => None end).

Definition FALLBACK_ERROR_CONTENT : jstr := js "An unknown error occurred".
Definition MODEL_PRICE_ERROR_CODE : jstr := js "model_price_error".

Inductive ErrorKind := GenericError | ModelPriceError.

Record MessageErrorState := mkErrorState {
  err_content : jstr;
  err_kind : ErrorKind;
  showSettingsLink : bool;
}.

Definition isErrorMessage (m : Message) : bool := bool_decide (status m = Some Failed).

Definition getMessageErrorState (m : Message) (isAdmin : bool) : option MessageErrorState :=
  if negb (isErrorMessage m) then None
  else
    let isModelPriceError := bool_decide (errorCode m = Some (Some MODEL_PRICE_ERROR_CODE)) in
    Some (mkErrorState (or_text (getMessageContent m) FALLBACK_ERROR_CONTENT)
            (if isModelPriceError then ModelPriceError else GenericError)
            (isModelPriceError && isAdmin)).

(** * [conversation-message-utils.ts] *)

(** The identifiers drawn for a user message and the reply that follows it *)
Record FreshIds := mkIds { user_key : jstr; user_version : jstr; reply_key : jstr; reply_version : jstr }.

Definition appendUserMessagePair (ids : FreshIds) (now : num) (messages : list Message)
    (content : jstr) : list Message :=
  messages ++ [createUserMessage (user_key ids) (user_version ids) content now;
               createLoadingAssistantMessage (reply_key ids) (reply_version ids) now].

(** [messages.findIndex((message) => message.key === messageKey)] *)
Definition index_of_key (messages : list Message) (key : jstr) : option (nat * Message) :=
  list_find (λ m, m_key m = key) messages.

Definition createRegeneratedMessages (ids : FreshIds) (now : num) (messages : list Message)
    (messageKey : jstr) : option (list Message) :=
  match index_of_key messages messageKey with
  | None => None
  | Some (i, m) =>
      let reply := createLoadingAssistantMessage (reply_key ids) (reply_version ids) now in
      if bool_decide (m_from m = RUser) then Some (take (i + 1) messages ++ [reply])
      else Some (take i messages ++ [reply])
  end.

Definition removeMessageByKey (messages : list Message) (messageKey : jstr) : list Message :=
  filter (λ m, m_key m ≠ messageKey) messages.

(** The loop from [beforeIndex - 1] down to 0 *)
Fixpoint getPreviousUserMessage (messages : list Message) (beforeIndex : nat) : option Message :=
  match beforeIndex with
  | 0 => None
  | S i =>
      match messages !! i with
      | Some m =>
          if bool_decide (m_from m = RUser) then Some m else getPreviousUserMessage messages i
      | None => getPreviousUserMessage messages i
      end
  end.

Definition editMessage (key content : jstr) (shouldSubmit : bool) (now : num) (m : Message)
    : Message :=
  if bool_decide (m_key m = key)
  then with_createdAt (if shouldSubmit then Some now else createdAt m)
         (updateCurrentVersionContent m content)
  else m.

Definition applyMessageEdit (ids : FreshIds) (now : num) (messages : list Message)
    (messageKey content : jstr) (shouldSubmit : bool) : option (list Message * bool) :=
  match index_of_key messages messageKey with
  | None => None
  | Some (i, m) =>
      let updated := editMessage messageKey content shouldSubmit now <$> messages in
      if negb shouldSubmit || negb (bool_decide (m_from m = RUser)) then Some (updated, false)
      else
        Some (take (i + 1) updated
              ++ [createLoadingAssistantMessage (reply_key ids) (reply_version ids) now], true)
  end.

Definition getEditingMessageContent (messages : list Message) (editingKey : option jstr) : jstr :=
  match editingKey with
  | Some key =>
      if truthy key then
        match index_of_key messages key with
        | Some (_, m) => getMessageContent m
        | None => []
        end
      else []
  | None => []
  end.
