(* ===== verification/PgMessageProps.v ===== *)
(** What the message operations of the playground guarantee: the reading of
    [<think>] tags, the accumulation of streamed chunks, the final states of a
    reply and the edits of a conversation. *)

From Stdlib Require Import ZArith NArith Lia SpecFloat.
From S2P Require Import Prelude JsString JsNumber JsValue PgMessage.

(** * Think tags *)

(** Text with its tags put back: closed sections, then the remainder, which is
    visible text or an unclosed section after some visible text. *)
Definition section_text (s : jstr * jstr) : jstr := s.1 ++ OPEN_TAG ++ s.2 ++ CLOSE_TAG.

Definition tagged (sections : list (jstr * jstr)) (rest : jstr) (unclosed : option jstr) : jstr :=
  concat (section_text <$> sections) ++ rest
  ++ match unclosed with Some r => OPEN_TAG ++ r | None => [] end.

(** [p] does not occur in [s]. *)
Definition free_of (p s : jstr) : Prop := includes s p = false.

Lemma free_of_indexOf p s : free_of p s ↔ indexOf s p = None.
Proof. unfold free_of, includes. by destruct (indexOf s p). Qed.

(** The position of the first occurrence cuts the text around it. *)
Lemma indexOf_cut s p i :
  indexOf s p = Some i → s = take i s ++ p ++ drop (i + length p) s.
Proof.
  intros H. pose proof (indexOf_Some_drop _ _ _ H) as [k E].
  rewrite <- (take_drop i s) at 1. rewrite E. f_equal. f_equal.
  by rewrite <- drop_drop, E, drop_app_length.
Qed.

Lemma free_of_take s p i : p ≠ [] → indexOf s p = Some i → free_of p (take i s).
Proof.
  intros Hp H. apply free_of_indexOf. destruct (indexOf (take i s) p) as [j|] eqn:E; [|done].
  pose proof (indexOf_Some_bound _ _ _ E) as Hb. pose proof (indexOf_Some_drop _ _ _ E) as [k Ek].
  rewrite length_take in Hb. destruct p as [|c p]; [done|]. cbn [length] in Hb.
  exfalso. apply (indexOf_first _ _ _ j H); [lia|].
  exists (k ++ drop i s). rewrite app_assoc, <- Ek.
  rewrite <- (take_drop i s) at 1. apply drop_app_le. rewrite length_take. lia.
Qed.

Lemma indexOf_from_cut s p i j :
  indexOf_from s p i = Some j →
  i ≤ j ∧ drop i s = slice s i j ++ p ++ drop (j + length p) s ∧ j + length p ≤ i + length (drop i s)
  ∧ (p ≠ [] → free_of p (slice s i j)).
Proof.
  unfold indexOf_from, slice. intros (k & Hk & ->)%fmap_Some.
  replace (i + k - i) with k by lia. split_and!; [lia| | |].
  - rewrite (indexOf_cut _ _ _ Hk) at 1. by rewrite drop_drop, Nat.add_assoc.
  - pose proof (indexOf_Some_bound _ _ _ Hk). lia.
  - intros Hp. by apply free_of_take.
Qed.

(** A decomposition of a text at its tags, read from the left *)
Record decomposition (text : jstr) (sections : list (jstr * jstr)) (rest : jstr)
    (unclosed : option jstr) : Prop := mkDecomposition {
  dec_text : text = tagged sections rest unclosed;
  dec_sections : Forall (λ s, free_of OPEN_TAG s.1 ∧ free_of CLOSE_TAG s.2) sections;
  dec_rest : free_of OPEN_TAG rest;
  dec_unclosed : ∀ r, unclosed = Some r → free_of CLOSE_TAG r;
}.

Lemma decomposition_cons v r text sections rest unclosed :
  free_of OPEN_TAG v → free_of CLOSE_TAG r → decomposition text sections rest unclosed →
  decomposition (v ++ OPEN_TAG ++ r ++ CLOSE_TAG ++ text) ((v, r) :: sections) rest unclosed.
Proof.
  intros Hv Hr [-> Hs Hrest Hu]. split; [|by constructor|done|done].
  unfold tagged, section_text. cbn [fmap list_fmap concat fst snd]. by rewrite <- !app_assoc.
Qed.

(** Pushing a slice only when it is not empty *)
Lemma concat_push (parts : list jstr) (b : bool) (p : jstr) :
  (b = false → p = []) → concat (if b then parts ++ [p] else parts) = concat parts ++ p.
Proof.
  intros H. destruct b; [rewrite concat_app; cbn; by rewrite app_nil_r|]. by rewrite H, app_nil_r.
Qed.

Lemma think_loop_spec fuel content pos vs rs :
  length (drop pos content) < fuel →
  ∃ sections rest unclosed vs',
    decomposition (drop pos content) sections rest unclosed
    ∧ think_loop fuel content pos vs rs
      = Some (vs', rs ++ sections.*2 ++ option_list unclosed, bool_decide (is_Some unclosed))
    ∧ concat vs' = concat vs ++ concat sections.*1 ++ rest.
Proof.
  revert pos vs rs. induction fuel as [|fuel IH]; intros pos vs rs Hf; [lia|]. cbn [think_loop].
  destruct (indexOf_from content OPEN_TAG pos) as [o|] eqn:Ho.
  2:{ unfold indexOf_from in Ho. apply fmap_None, free_of_indexOf in Ho.
      eexists [], (drop pos content), None, _. split_and!.
      - split; [unfold tagged; cbn; by rewrite app_nil_r|done..].
      - cbn; by rewrite app_nil_r.
      - apply concat_push. intros E%Nat.ltb_ge. by apply drop_ge. }
  apply indexOf_from_cut in Ho as (Hle & Hcut & Hlen & Hfree).
  change (length OPEN_TAG) with 7 in *.
  set (vs1 := if (pos <? o)%nat then _ else _).
  assert (concat vs1 = concat vs ++ slice content pos o) as Hvs1.
  { apply concat_push. intros E%Nat.ltb_ge. unfold slice. by replace (o - pos) with 0 by lia. }
  destruct (indexOf_from content CLOSE_TAG (o + 7)) as [c|] eqn:Hc.
  2:{ unfold indexOf_from in Hc. apply fmap_None, free_of_indexOf in Hc.
      eexists [], (slice content pos o), (Some (drop (o + 7) content)), vs1. split_and!.
      - split; [done|done|by apply Hfree|by intros ? [= <-]].
      - by rewrite bool_decide_true by eauto.
      - done. }
  apply indexOf_from_cut in Hc as (Hle' & Hcut' & Hlen' & Hfree').
  change (length CLOSE_TAG) with 8 in *.
  destruct (IH (c + 8) vs1 (rs ++ [slice content (o + 7) c])) as
    (sections & rest & unclosed & vs' & Hdec & Hloop & Hvs').
  { rewrite !length_drop in *. lia. }
  eexists ((slice content pos o, slice content (o + 7) c) :: sections), rest, unclosed, vs'.
  split_and!.
  - rewrite Hcut, Hcut'. apply decomposition_cons; [by apply Hfree|by apply Hfree'|done].
  - rewrite Hloop. by rewrite <- app_assoc.
  - rewrite Hvs', Hvs1. cbn. by rewrite <- !app_assoc.
Qed.

(** ** The decomposition is unique *)

(** A pattern whose first unit does not come back cannot overlap itself, so it
    first occurs where it was put. *)
Lemma first_occurrence c q v x :
  c ∉ q → free_of (c :: q) v → indexOf (v ++ (c :: q) ++ x) (c :: q) = Some (length v).
Proof.
  intros Hc. induction v as [|d v IH]; intros Hfree.
  { pose proof (startsWith_app x (c :: q)) as E. cbn [app length] in *. cbn [indexOf].
    by rewrite E. }
  rewrite free_of_indexOf in Hfree. cbn [app length indexOf] in *.
  destruct (startsWith (d :: v) (c :: q)) eqn:E0; [done|].
  destruct (startsWith (d :: v ++ c :: q ++ x) (c :: q)) eqn:E.
  - exfalso. unfold startsWith in *.
    apply bool_decide_eq_false in E0. apply bool_decide_eq_true in E as [k Hk].
    change (d :: v ++ c :: q ++ x) with ((d :: v) ++ (c :: q ++ x)) in Hk.
    apply app_eq_inv in Hk as [(l & Hl & _)|(l & Hl & Hl')].
    + by apply E0; exists l.
    + destruct l as [|e l]; [by apply E0; exists []; rewrite app_nil_r in *|].
      cbn in Hl'. injection Hl' as <- _. cbn in Hl. injection Hl as -> ->. set_solver.
  - apply fmap_None, free_of_indexOf in Hfree. by rewrite (IH Hfree).
Qed.

Lemma open_occurrence v x : free_of OPEN_TAG v → indexOf (v ++ OPEN_TAG ++ x) OPEN_TAG = Some (length v).
Proof.
  apply (first_occurrence 60%N (tail OPEN_TAG)). apply (bool_decide_unpack _). by vm_compute.
Qed.

Lemma close_occurrence v x :
  free_of CLOSE_TAG v → indexOf (v ++ CLOSE_TAG ++ x) CLOSE_TAG = Some (length v).
Proof.
  apply (first_occurrence 60%N (tail CLOSE_TAG)). apply (bool_decide_unpack _). by vm_compute.
Qed.

Lemma occurrence_inj (p v v' x x' : jstr) :
  indexOf (v ++ p ++ x) p = Some (length v) → indexOf (v' ++ p ++ x') p = Some (length v') →
  v ++ p ++ x = v' ++ p ++ x' → v = v' ∧ x = x'.
Proof.
  intros H H' E. rewrite E, H' in H. injection H as H.
  apply app_inj_1 in E as [-> E]; [|done]. by apply app_inv_head in E.
Qed.

(** The two shapes of a decomposition that has a tag *)
Lemma tagged_cons v r ss rest u :
  tagged ((v, r) :: ss) rest u = v ++ OPEN_TAG ++ r ++ CLOSE_TAG ++ tagged ss rest u.
Proof. unfold tagged, section_text. cbn. by rewrite <- !app_assoc. Qed.

Lemma tagged_nil rest u :
  tagged [] rest u = rest ++ match u with Some r => OPEN_TAG ++ r | None => [] end.
Proof. done. Qed.

Lemma decomposition_unique text ss rest u ss' rest' u' :
  decomposition text ss rest u → decomposition text ss' rest' u' →
  ss = ss' ∧ rest = rest' ∧ u = u'.
Proof.
  revert text ss'. induction ss as [|[v r] ss IH]; intros text ss' [Ht Hs Hr Hu] [Ht' Hs' Hr' Hu'];
    rewrite Ht in Ht'; destruct ss' as [|[v' r'] ss'];
    rewrite ?tagged_cons, ?tagged_nil in Ht';
    repeat match goal with H : Forall _ (_ :: _) |- _ => inversion_clear H as [|? ? [? ?] ?] end;
    cbn [fst snd] in *.
  - destruct u as [x|], u' as [x'|]; rewrite ?app_nil_r in Ht'.
    + apply occurrence_inj in Ht' as [-> ->]; auto using open_occurrence.
    + apply free_of_indexOf in Hr'. rewrite <- Ht', open_occurrence in Hr' by done. done.
    + apply free_of_indexOf in Hr. rewrite Ht', open_occurrence in Hr by done. done.
    + by subst.
  - exfalso. destruct u as [rx|]; rewrite ?app_nil_r in Ht'.
    + apply occurrence_inj in Ht' as [-> ->]; auto using open_occurrence.
      specialize (Hu _ eq_refl). apply free_of_indexOf in Hu.
      by rewrite close_occurrence in Hu.
    + apply free_of_indexOf in Hr. by rewrite Ht', open_occurrence in Hr.
  - exfalso. destruct u' as [rx|]; rewrite ?app_nil_r in Ht'.
    + apply occurrence_inj in Ht' as [-> <-]; auto using open_occurrence.
      specialize (Hu' _ eq_refl). apply free_of_indexOf in Hu'.
      by rewrite close_occurrence in Hu'.
    + apply free_of_indexOf in Hr'. by rewrite <- Ht', open_occurrence in Hr'.
  - apply occurrence_inj in Ht' as [-> Ht']; auto using open_occurrence.
    apply occurrence_inj in Ht' as [-> Ht']; auto using close_occurrence.
    destruct (IH (tagged ss rest u) ss') as (-> & -> & ->); by split.
Qed.

(** C28: every reply splits in one way at its think tags into closed sections, a visible remainder and perhaps an unclosed section: the parser
    always ends, the reasoning is the content of the sections in order, the
    visible text is everything outside them, and a tag that is still open is
    reported; a reply without tags is left untouched. *)
Theorem think_tags_spec content :
  ∃ sections rest unclosed,
    decomposition content sections rest unclosed
    ∧ parseThinkTags content = (if includes content OPEN_TAG
        then mkThink (trim (concat sections.*1 ++ rest))
               (trim (join PARAGRAPH (sections.*2 ++ option_list unclosed)))
               (bool_decide (is_Some unclosed))
        else mkThink content [] false)
    ∧ ∀ ss r u, decomposition content ss r u → ss = sections ∧ r = rest ∧ u = unclosed.
Proof.
  destruct (think_loop_spec (S (length content)) content 0 [] []) as
    (sections & rest & unclosed & vs' & Hdec & Hloop & Hvs'); [rewrite drop_0; lia|].
  rewrite drop_0 in Hdec. exists sections, rest, unclosed.
  split_and!; [done| |intros; by eapply decomposition_unique].
  unfold parseThinkTags. destruct (includes content OPEN_TAG); [|done]. cbn [negb].
  rewrite Hloop. cbn [app concat] in *. by rewrite Hvs'.
Qed.

(** * Streaming *)

(** What a text becomes when a chunk arrives: the chunk is appended, unless it
    repeats the text from its start, in which case it replaces it. *)
Definition streamed (text chunk : jstr) : jstr :=
  if truthy text && startsWith chunk text then chunk else text ++ chunk.

Lemma append_appendable text chunk : text ++ getAppendableChunk text chunk = streamed text chunk.
Proof.
  unfold getAppendableChunk, streamed. destruct (truthy text); [|done]. cbn [negb orb andb].
  destruct (startsWith chunk text) eqn:E; [|done]. cbn [negb].
  symmetry. by apply startsWith_drop.
Qed.

Lemma streamed_prefix text chunk : text `prefix_of` streamed text chunk.
Proof. rewrite <- append_appendable. by apply prefix_app_r. Qed.

Lemma foldl_streamed_prefix text chunks : text `prefix_of` foldl streamed text chunks.
Proof.
  revert text. induction chunks as [|c cs IH]; intros text; [done|].
  cbn [foldl]. etrans; [apply streamed_prefix|apply IH].
Qed.

Lemma free_of_prefix p s s' : p ≠ [] → s `prefix_of` s' → free_of p s' → free_of p s.
Proof.
  intros Hp [k ->] Hf. apply free_of_indexOf. apply free_of_indexOf in Hf.
  destruct (indexOf s p) as [j|] eqn:E; [|done].
  exfalso. pose proof (indexOf_Some_bound _ _ _ E). apply (indexOf_None _ _ j Hf).
  apply indexOf_Some_drop in E as [x E]. exists (x ++ k).
  rewrite drop_app_le by lia. by rewrite E, <- app_assoc.
Qed.

(** ** Effect of the helpers on the text of a message *)

Lemma content_completeReasoningTiming m now :
  getMessageContent (completeReasoningTiming m now) = getMessageContent m.
Proof. unfold completeReasoningTiming. by repeat case_match. Qed.

Lemma reasoning_completeReasoningTiming m now :
  reasoning_text (completeReasoningTiming m now) = reasoning_text m.
Proof.
  unfold completeReasoningTiming, reasoning_text.
  destruct (reasoning m) as [r|] eqn:E; [|by rewrite E].
  destruct (r_durationMs r); [by rewrite E|done].
Qed.

Lemma content_completeAssistantTiming m now :
  getMessageContent (completeAssistantTiming m now) = getMessageContent m.
Proof. unfold completeAssistantTiming. by case_match. Qed.

Lemma content_update m c : getMessageContent (updateCurrentVersionContent m c) = c.
Proof. done. Qed.

Lemma content_processStreaming m c now :
  getMessageContent (processStreamingContent m (Some c) now) = getMessageContent m ++ c.
Proof.
  unfold processStreamingContent, getMessageContent.
  set (full := if truthy c then _ else _).
  assert (full = v_content (getCurrentVersion m) ++ c) as <-.
  { subst full. destruct c; [by rewrite app_nil_r|done]. }
  by repeat case_match.
Qed.

Lemma reasoning_processStreaming m c now :
  free_of OPEN_TAG (getMessageContent m ++ c) →
  reasoning_text (processStreamingContent m (Some c) now) = reasoning_text m.
Proof.
  unfold processStreamingContent, getMessageContent. intros Hf.
  set (full := if truthy c then _ else _).
  assert (full = v_content (getCurrentVersion m) ++ c) as ->.
  { subst full. destruct c; [by rewrite app_nil_r|done]. }
  unfold parseThinkTags. rewrite Hf. cbn.
  destruct (reasoning m) eqn:E; unfold reasoning_text; cbn; by rewrite E.
Qed.

Lemma startReasoning_text m now : r_content (startReasoningTiming m now) = reasoning_text m.
Proof. unfold startReasoningTiming, reasoning_text. by destruct (reasoning m). Qed.

(** ** One chunk *)

Lemma apply_chunk_status m ty c now :
  status m ≠ Some Failed → status (applyStreamingChunk m ty c now) = Some Streaming.
Proof.
  intros Hs. unfold applyStreamingChunk. rewrite bool_decide_false by done. by destruct ty.
Qed.

Lemma apply_content_chunk m c now :
  status m ≠ Some Failed →
  getMessageContent (applyStreamingChunk m ContentChunk c now) = streamed (getMessageContent m) c
  ∧ (free_of OPEN_TAG (streamed (getMessageContent m) c) →
     reasoning_text (applyStreamingChunk m ContentChunk c now) = reasoning_text m).
Proof.
  intros Hs. unfold applyStreamingChunk. rewrite bool_decide_false by done.
  set (p := processStreamingContent _ _ _).
  assert (getMessageContent p = streamed (getMessageContent m) c) as Hp.
  { unfold p. by rewrite content_processStreaming, <- append_appendable. }
  split.
  - rewrite <- Hp. destruct (default _ _); [done|].
    exact (content_completeReasoningTiming p now).
  - rewrite <- append_appendable. intros Hf.
    rewrite <- (reasoning_processStreaming m _ now Hf). fold p.
    destruct (default _ _); [done|]. exact (reasoning_completeReasoningTiming p now).
Qed.

Lemma apply_reasoning_chunk m c now :
  status m ≠ Some Failed →
  getMessageContent (applyStreamingChunk m ReasoningChunk c now) = getMessageContent m
  ∧ reasoning_text (applyStreamingChunk m ReasoningChunk c now) = streamed (reasoning_text m) c.
Proof.
  intros Hs. unfold applyStreamingChunk. rewrite bool_decide_false by done.
  split; [done|]. unfold reasoning_text at 1. cbn.
  by rewrite append_appendable, startReasoning_text.
Qed.

(** ** A whole stream *)

(** The chunks of one kind, in the order they arrived *)
Definition chunks_of (ty : StreamChunkType) (us : list (StreamChunkType * jstr)) : list jstr :=
  omap (λ u, match ty, u.1 with
             | ReasoningChunk, ReasoningChunk | ContentChunk, ContentChunk => Some u.2
             | _, _ => None
             end) us.

Definition apply_stream (m : Message) (us : list (StreamChunkType * jstr * num)) : Message :=
  foldl (λ m u, applyStreamingChunk m u.1.1 u.1.2 u.2) m us.

(** the text of a reply that is still open is the fold of the content
    chunks received, and, as long as no think tag shows up in it, its reasoning
    is the fold of the reasoning chunks; interleaving the two kinds of chunk
    does not matter, and the reply stays in state [streaming]. *)
Theorem stream_accumulates m us :
  status m ≠ Some Failed →
  getMessageContent (apply_stream m us)
    = foldl streamed (getMessageContent m) (chunks_of ContentChunk us.*1)
  ∧ (free_of OPEN_TAG (getMessageContent (apply_stream m us)) →
     reasoning_text (apply_stream m us)
       = foldl streamed (reasoning_text m) (chunks_of ReasoningChunk us.*1))
  ∧ (us ≠ [] → status (apply_stream m us) = Some Streaming).
Proof.
  revert m. induction us as [|[[ty c] now] us IH]; intros m Hs; [done|].
  pose proof (apply_chunk_status m ty c now Hs) as Hs1.
  destruct (IH (applyStreamingChunk m ty c now)) as (IHc & IHr & IHs); [by rewrite Hs1|].
  cbn [apply_stream foldl fst snd] in *. fold (apply_stream (applyStreamingChunk m ty c now) us) in *.
  split_and!.
  - rewrite IHc. destruct ty; cbn.
    + by rewrite (proj1 (apply_reasoning_chunk m c now Hs)).
    + by rewrite (proj1 (apply_content_chunk m c now Hs)).
  - intros Hf. rewrite (IHr Hf). destruct ty; cbn.
    + by rewrite (proj2 (apply_reasoning_chunk m c now Hs)).
    + rewrite (proj2 (apply_content_chunk m c now Hs)); [done|].
      rewrite <- (proj1 (apply_content_chunk m c now Hs)).
      rewrite IHc in Hf. eapply free_of_prefix; [done|apply foldl_streamed_prefix|exact Hf].
  - intros _. destruct us as [|u us]; [done|]. by apply IHs.
Qed.

Definition demo_reply : Message := createLoadingAssistantMessage (js "k") (js "v") num_0.

Lemma stream_accumulates_witness :
  getMessageContent (apply_stream demo_reply
    [(ReasoningChunk, js "hm", num_0); (ContentChunk, js "Hello", num_0);
     (ContentChunk, js " you", num_0)]) = js "Hello you".
Proof.
  refine (eq_trans (proj1 (stream_accumulates demo_reply _ _)) _); [discriminate|].
  vm_compute. reflexivity.
Defined.

(** a chunk equal to the text received so far is taken for a repetition of
    it and dropped, so a reply that starts by repeating a token loses the
    repetition: the text stays [s] where [s ++ s] was sent. *)
Theorem repeated_chunk_dropped m s now :
  status m ≠ Some Failed → s ≠ [] → getMessageContent m = s →
  getMessageContent (applyStreamingChunk m ContentChunk s now) = s.
Proof.
  intros Hs Hne Hc. rewrite (proj1 (apply_content_chunk m s now Hs)), Hc. unfold streamed.
  destruct (truthy s) eqn:E; [|by destruct s].
  pose proof (startsWith_app [] s) as Hp. rewrite app_nil_r in Hp. by rewrite Hp.
Qed.

Lemma repeated_chunk_dropped_witness :
  let m := updateCurrentVersionContent demo_reply (js "ha") in
  getMessageContent (applyStreamingChunk m ContentChunk (js "ha") num_0) = js "ha".
Proof.
  intros m. apply (repeated_chunk_dropped m (js "ha") num_0); [discriminate| |reflexivity].
  intros H. discriminate H.
Defined.

(** * Replies read back from storage *)

Lemma find_last_index_None {A} (p : A → bool) l :
  find_last_index p l = None → Forall (λ x, p x = false) l.
Proof.
  induction l as [|x l IH]; cbn; [by constructor|].
  destruct (find_last_index p l); [done|]. destruct (p x) eqn:E; [done|]. constructor; auto.
Qed.

Lemma find_last_index_Some {A} (p : A → bool) l i :
  find_last_index p l = Some i →
  (∃ x, l !! i = Some x ∧ p x = true) ∧ ∀ j y, i < j → l !! j = Some y → p y = false.
Proof.
  revert i. induction l as [|x l IH]; intros i; cbn; [done|].
  destruct (find_last_index p l) as [k|] eqn:E.
  - intros [= <-]. destruct (IH k eq_refl) as [Hx Hj]. split; [done|].
    intros [|j] y Hlt; [lia|]. apply Hj. lia.
  - destruct (p x) eqn:Ep; [|done]. intros [= <-]. split; [by exists x|].
    apply find_last_index_None in E. rewrite Forall_lookup in E.
    intros [|j] y Hlt; [lia|]. apply E.
Qed.

(** What a reply must satisfy to be shown as finished: a final status, no
    reasoning under way, a completion time, and something to read. *)
Definition settled_reply (m : Message) : Prop :=
  isAssistantMessageFinal m = true ∧ isReasoningStreaming m = Some false
  ∧ is_Some (completedAt m) ∧ is_Some (durationMs m)
  ∧ (hasMessageContent m = true ∨ truthy (trim (reasoning_text m)) = true).

Lemma completeAssistantTiming_fields m now :
  m_from m = RAssistant →
  let m' := completeAssistantTiming m now in
  status m' = status m ∧ isReasoningStreaming m' = isReasoningStreaming m
  ∧ completedAt m' = Some now ∧ is_Some (durationMs m')
  ∧ versions m' = versions m ∧ reasoning m' = reasoning m.
Proof.
  intros Hm. cbv zeta. unfold completeAssistantTiming. rewrite Hm. cbn. by split_and!; eauto.
Qed.

Lemma finalizeMessage_frame m api now :
  m_from (finalizeMessage m api now) = m_from m ∧ m_key (finalizeMessage m api now) = m_key m.
Proof.
  unfold finalizeMessage. generalize (parseThinkTags (v_content (getCurrentVersion m))). intros p.
  unfold completeReasoningTiming. cbn [reasoning with_reasoning with_reasoningStreaming].
  by repeat case_match.
Qed.

Lemma hasMessageContent_elem c m :
  is_ws c = false → c ∈ getMessageContent m → hasMessageContent m = true.
Proof.
  intros Hc H. unfold hasMessageContent. apply negb_true_iff, bool_decide_eq_false. intros E.
  apply (elem_of_trim_no_ws c) in H; [|done]. rewrite E in H. by apply elem_of_nil in H.
Qed.

Lemma sanitizeMessage_settled t now m :
  m_from m = RAssistant → settled_reply (sanitizeMessage t now m).
Proof.
  intros Hm. unfold sanitizeMessage. cbv zeta.
  destruct (finalizeMessage_frame m None now) as [Hfrom _]. rewrite Hm in Hfrom. revert Hfrom.
  generalize (finalizeMessage m None now). intros f Hf.
  destruct (hasMessageContent f || truthy (trim (reasoning_text f))) eqn:E.
  - edestruct (completeAssistantTiming_fields
                 (with_reasoningStreaming false (with_status Complete f)) now)
      as (Hs & Hr & Hc & Hd & Hv & Hre); [done|].
    unfold settled_reply, isAssistantMessageFinal. rewrite Hs, Hr, Hc.
    split_and!; [done|done|by eauto|done|].
    apply orb_true_iff in E. unfold hasMessageContent, getMessageContent, getCurrentVersion,
      reasoning_text in *. by rewrite Hv, Hre.
  - edestruct (completeAssistantTiming_fields
                 (with_reasoningStreaming false (with_status Failed
                    (updateCurrentVersionContent f
                       (t API_REQUEST_ERROR ++ js ": " ++ t INTERRUPTED)))) now)
      as (Hs & Hr & Hc & Hd & Hv & Hre); [done|].
    unfold settled_reply, isAssistantMessageFinal. rewrite Hs, Hr, Hc.
    split_and!; [done|done|by eauto|done|]. left. apply (hasMessageContent_elem 58%N); [done|].
    unfold getMessageContent, getCurrentVersion. rewrite Hv. cbn.
    rewrite !elem_of_app. right. left. apply (bool_decide_unpack _). by vm_compute.
Qed.

(** loading a conversation settles its last unfinished reply, with the
    text received so far or an interruption notice, and leaves every other
    message as it is; with no unfinished reply nothing changes. *)
Theorem sanitize_settles_last t now ms :
  let ms' := sanitizeMessagesOnLoad t now ms in
  length ms' = length ms
  ∧ (ms' = ms ∧ Forall (λ m, isPendingAssistantMessage m = false) ms
     ∨ ∃ i m m', ms !! i = Some m ∧ isPendingAssistantMessage m = true
         ∧ (∀ j x, i < j → ms !! j = Some x → isPendingAssistantMessage x = false)
         ∧ ms' !! i = Some m' ∧ settled_reply m' ∧ ∀ j, j ≠ i → ms' !! j = ms !! j).
Proof.
  cbv zeta. unfold sanitizeMessagesOnLoad.
  destruct (find_last_index _ ms) as [i|] eqn:E.
  - apply find_last_index_Some in E as [(m & Hm & Hp) Hafter].
    split; [by apply length_alter|]. right. exists i, m, (sanitizeMessage t now m).
    split_and!; [done|done|done| | |].
    + by rewrite list_lookup_alter_eq, Hm.
    + apply sanitizeMessage_settled. unfold isPendingAssistantMessage in Hp.
      by apply andb_true_iff in Hp as [Hp%bool_decide_eq_true _].
    + intros j Hj. by apply list_lookup_alter_ne.
  - split; [done|]. left. split; [done|]. by apply find_last_index_None.
Qed.
