(* ===== verification/PgStream.v ===== *)
(** Requests of the playground: [lib/streaming/stream-utils.ts],
    [lib/streaming/payload-builder.ts], [lib/streaming/request-error-utils.ts]
    and the stream controller of [hooks/use-stream-request.ts], under
    [web/src/features/playground/].

    The fields of a server message are read at their declared type: a text field
    that holds something else is coerced as by string concatenation. *)

From Stdlib Require Import ZArith NArith Lia SpecFloat.
From S2P Require Import Prelude JsString JsNumber JsValue PgMessage.

(** * Stream messages *)

(** [v || undefined] for a text field *)
Definition text_field (v : jsval) : option jstr :=
  if truthy_val v then Some (string_of_val v) else None.

(** [v?.[0]] *)
Definition first_item (v : jsval) : jsval :=
  match v with
  | VArr (x :: _) => x
  | VStr (c :: _) => VStr [c]
  | VObj _ => prop v (js "0")
  | _ => VUndef
  end.

Record ErrorDetails := mkDetails { det_code : option jstr; det_message : jstr }.

Definition parseStreamErrorDetails (data : option jstr) : ErrorDetails :=
  let text := default [] data in
  let fallback := or_text text API_REQUEST_ERROR in
  if negb (truthy text) then mkDetails None fallback
  else
    match JSON_parse text with
    | None => mkDetails None fallback
    | Some parsed =>
        let e := prop parsed (js "error") in
        if negb (truthy_val e) then mkDetails None fallback
        else mkDetails (text_field (prop e (js "code")))
               (default fallback (text_field (prop e (js "message"))))
    end.

(** The updates of one event; [None] when the text is not JSON, or is [null],
    whose property access throws. *)
Definition parseStreamMessageUpdates (data : jstr) : option (list (StreamChunkType * jstr)) :=
  match JSON_parse data with
  | None | Some VNull => None
  | Some chunk =>
      let delta := prop (first_item (prop chunk (js "choices"))) (js "delta") in
      if negb (truthy_val delta) then Some []
      else
        Some (match text_field (prop delta (js "reasoning_content")) with
              | Some r => [(ReasoningChunk, r)]
              | None => []
              end
              ++ match text_field (prop delta (js "content")) with
                 | Some c => [(ContentChunk, c)]
                 | None => []
                 end)
  end.

Definition STREAM_DONE_MESSAGE : jstr := js "[DONE]".
Definition STREAM_CLOSED_READY_STATE : Z := 2.

Definition isStreamDoneMessage (data : jstr) : bool := bool_decide (data = STREAM_DONE_MESSAGE).

Definition isStreamClosedReadyState (readyState : option Z) : bool :=
  bool_decide (readyState = Some STREAM_CLOSED_READY_STATE).

Definition getStreamReadyStateError (eventReadyState status : option Z) : option jstr :=
  match eventReadyState, status with
  | Some r, Some s =>
      if (STREAM_CLOSED_READY_STATE <=? r)%Z && negb (s =? 200)%Z
      then Some (js "HTTP " ++ string_of_Z s ++ js ": " ++ CONNECTION_CLOSED)
      else None
  | _, _ => None
  end.

(** [requestError?.response?.data?.error?.code] and the messages next to it *)
Definition parseRequestErrorDetails (error : jsval) : ErrorDetails :=
  let data := prop (prop error (js "response")) (js "data") in
  mkDetails (text_field (prop (prop data (js "error")) (js "code")))
    (default (default API_REQUEST_ERROR (text_field (prop error (js "message"))))
       (text_field (prop data (js "message")))).

(** * The payload *)

Record PlaygroundConfig := mkConfig {
  c_model : jstr;
  c_group : jstr;
  c_temperature : num;
  c_top_p : num;
  c_max_tokens : num;
  c_frequency_penalty : num;
  c_presence_penalty : num;
  c_seed : option num;
  c_stream : bool;
}.

Record ParameterEnabled := mkEnabled {
  e_temperature : bool;
  e_top_p : bool;
  e_max_tokens : bool;
  e_frequency_penalty : bool;
  e_presence_penalty : bool;
  e_seed : bool;
}.

Record ChatCompletionRequest := mkRequest {
  q_model : jstr;
  q_group : jstr;
  q_messages : list ChatCompletionMessage;
  q_stream : bool;
  q_temperature : option num;
  q_top_p : option num;
  q_max_tokens : option num;
  q_frequency_penalty : option num;
  q_presence_penalty : option num;
  q_seed : option num;
}.

Definition when {A} (b : bool) (x : A) : option A := if b then Some x else None.

Definition buildChatCompletionPayload (messages : list Message) (config : PlaygroundConfig)
    (enabled : ParameterEnabled) : ChatCompletionRequest :=
  mkRequest (c_model config) (c_group config)
    (formatMessageForAPI <$> filter (λ m, isValidMessage m = true) messages)
    (c_stream config)
    (when (e_temperature enabled) (c_temperature config))
    (when (e_top_p enabled) (c_top_p config))
    (when (e_max_tokens enabled) (c_max_tokens config))
    (when (e_frequency_penalty enabled) (c_frequency_penalty config))
    (when (e_presence_penalty enabled) (c_presence_penalty config))
    (if e_seed enabled then c_seed config else None).

(** * The controller

    [createStreamRequestController]: a request is named by its generation.  It
    creates at most one event source, which therefore has the same name. *)

Module Controller.

(** [generation] and [source], with what the closures of the requests hold: the
    requests whose headers are awaited, the sources created, and the requests
    whose [completed] flag is set. *)
Record T := mkT {
  generation : nat;
  source : option nat;
  awaiting : list nat;
  created : list nat;
  completed : list nat;
}.

Definition init : T := mkT 0 None [] [] [].

(** What the controller does to its surroundings, in order *)
Inductive Effect :=
  | FxClose (g : nat)
  | FxStreaming (b : bool)
  | FxUpdate (g : nat) (type : StreamChunkType) (chunk : jstr)
  | FxComplete (g : nat)
  | FxError (g : nat) (message : jstr) (code : option jstr).

Definition with_source (s : option nat) (c : T) : T :=
  mkT (generation c) s (awaiting c) (created c) (completed c).

Definition mark_completed (g : nat) (c : T) : T :=
  mkT (generation c) (source c) (awaiting c) (created c) (g :: completed c).

Definition close_opt (s : option nat) : list Effect :=
  match s with Some g => [FxClose g] | None => [] end.

Definition closeActiveSource (target : nat) (c : T) : T * list Effect :=
  if bool_decide (source c = Some target)
  then (with_source None c, [FxClose target; FxStreaming false])
  else (c, [FxClose target]).

(** [send] up to [await runtime.getHeaders()] *)
Definition send (c : T) : T * list Effect :=
  let requestGeneration := S (generation c) in
  (mkT requestGeneration None (requestGeneration :: awaiting c) (created c) (completed c),
   close_opt (source c) ++ [FxStreaming false]).

Definition isCurrent (g : nat) (c : T) : bool :=
  bool_decide (generation c = g) && bool_decide (source c = Some g).

Definition live (g : nat) (c : T) : bool := isCurrent g c && negb (bool_decide (g ∈ completed c)).

Definition handleError (g : nat) (message : jstr) (code : option jstr) (c : T)
    : T * list Effect :=
  if negb (live g c) then (c, [])
  else
    let '(c', fx) := closeActiveSource g (mark_completed g c) in
    (c', FxError g message code :: fx).

(** How the headers arrive: rejected, with the message when the reason is an
    [Error], or resolved, with whether [stream()] then throws *)
Inductive Headers := HeadersRejected (message : option jstr) | HeadersReady (startThrows : bool).

Definition headersResolved (g : nat) (h : Headers) (c : T) : T * list Effect :=
  let c := mkT (generation c) (source c) (filter (λ x, x ≠ g) (awaiting c)) (created c)
             (completed c) in
  if negb (bool_decide (generation c = g)) then (c, [])
  else
    match h with
    | HeadersRejected message => (c, [FxError g (default STREAM_START_ERROR message) None])
    | HeadersReady startThrows =>
        let c := mkT (generation c) (Some g) (awaiting c) (g :: created c) (completed c) in
        if startThrows then
          let '(c', fx) := handleError g STREAM_START_ERROR None c in
          (c', FxStreaming true :: fx)
        else (c, [FxStreaming true])
    end.

Definition onMessage (g : nat) (data : option jstr) (c : T) : T * list Effect :=
  if negb (live g c) then (c, [])
  else
    let data := default [] data in
    if isStreamDoneMessage data then
      let '(c', fx) := closeActiveSource g (mark_completed g c) in
      (c', fx ++ [FxComplete g])
    else
      match parseStreamMessageUpdates data with
      | Some updates => (c, (λ u, FxUpdate g u.1 u.2) <$> updates)
      | None => handleError g PARSE_ERROR None c
      end.

Definition onError (g : nat) (readyState : option Z) (data : option jstr) (c : T)
    : T * list Effect :=
  if negb (live g c) then (c, [])
  else if isStreamClosedReadyState readyState then (c, [])
  else
    let d := parseStreamErrorDetails data in
    handleError g (det_message d) (det_code d) c.

Definition onReadyStateChange (g : nat) (readyState status : option Z) (c : T)
    : T * list Effect :=
  if negb (live g c) then (c, [])
  else
    match getStreamReadyStateError readyState status with
    | Some message => handleError g message None c
    | None => (c, [])
    end.

Definition cancel (notify : bool) (c : T) : T * list Effect :=
  (mkT (S (generation c)) None (awaiting c) (created c) (completed c),
   close_opt (source c) ++ if notify then [FxStreaming false] else []).

Definition stop : T → T * list Effect := cancel true.
Definition dispose : T → T * list Effect := cancel false.

(** What can happen: calls, answers to the awaited headers, events of a source *)
Inductive Event :=
  | EvSend
  | EvStop
  | EvDispose
  | EvHeaders (g : nat) (h : Headers)
  | EvMessage (g : nat) (data : option jstr)
  | EvError (g : nat) (readyState : option Z) (data : option jstr)
  | EvReadyState (g : nat) (readyState status : option Z).

(** An answer needs a request that waits for it, an event a source. *)
Definition enabled (e : Event) (c : T) : bool :=
  match e with
  | EvSend | EvStop | EvDispose => true
  | EvHeaders g _ => bool_decide (g ∈ awaiting c)
  | EvMessage g _ | EvError g _ _ | EvReadyState g _ _ => bool_decide (g ∈ created c)
  end.

Definition step (e : Event) (c : T) : T * list Effect :=
  match e with
  | EvSend => send c
  | EvStop => stop c
  | EvDispose => dispose c
  | EvHeaders g h => headersResolved g h c
  | EvMessage g data => onMessage g data c
  | EvError g rs data => onError g rs data c
  | EvReadyState g rs s => onReadyStateChange g rs s c
  end.

Inductive run : T → list Event → T → list Effect → Prop :=
  | run_nil c : run c [] c []
  | run_cons c e c' fx es c'' fx' :
      enabled e c = true → step e c = (c', fx) → run c' es c'' fx' →
      run c (e :: es) c'' (fx ++ fx').
End Controller.
