(* ===== verification/PgStreamProps.v ===== *)
(** What the stream controller and the payload builder of the playground
    guarantee. *)

From Stdlib Require Import ZArith NArith Lia SpecFloat.
From S2P Require Import Prelude JsString JsNumber JsValue PgMessage PgStream.
Import Controller.

(** * Callbacks *)

(** The request a callback belongs to, and whether it is the last one *)
Definition callback (fx : Effect) : option (nat * bool) :=
  match fx with
  | FxUpdate g _ _ => Some (g, false)
  | FxComplete g | FxError g _ _ => Some (g, true)
  | FxClose _ | FxStreaming _ => None
  end.

(** For one request: [false] for each update, [true] for a completion or error *)
Definition callbacks_of (g : nat) (log : list Effect) : list bool :=
  omap (λ fx, match callback fx with
              | Some (g', final) => if decide (g' = g) then Some final else None
              | None => None
              end) log.

Lemma callbacks_of_app g l1 l2 : callbacks_of g (l1 ++ l2) = callbacks_of g l1 ++ callbacks_of g l2.
Proof. apply omap_app. Qed.

Lemma callbacks_of_updates g g' (us : list (StreamChunkType * jstr)) :
  callbacks_of g ((λ u, FxUpdate g' u.1 u.2) <$> us)
  = if decide (g' = g) then replicate (length us) false else [].
Proof.
  induction us as [|u us IH]; [by destruct (decide _)|].
  cbn [fmap list_fmap callbacks_of omap list_omap callback length replicate] in *.
  fold (callbacks_of g ((λ u, FxUpdate g' u.1 u.2) <$> us)). rewrite IH. by destruct (decide _).
Qed.

(** Any number of updates, then at most one final callback *)
Definition protocol (l : list bool) : Prop :=
  ∃ n, l = replicate n false ∨ l = replicate n false ++ [true].

Lemma protocol_nil : protocol [].
Proof. exists 0. by left. Qed.

Lemma protocol_true : protocol [true].
Proof. exists 0. by right. Qed.

Lemma protocol_updates n : protocol (replicate n false).
Proof. exists n. by left. Qed.

Lemma protocol_app l1 l2 : true ∉ l1 → protocol l1 → protocol l2 → protocol (l1 ++ l2).
Proof.
  intros Ht [n [-> | ->]] [k Hk]; [|set_solver]. exists (n + k).
  rewrite replicate_add, <- app_assoc. destruct Hk as [-> | ->]; auto.
Qed.

#[local] Hint Resolve protocol_nil protocol_true protocol_updates : gate.

(** ** Invariant

    [log] is everything done so far.  A request still waiting for its headers
    has called nobody; the active source belongs to the current request, which
    has not finished; a source that is not active has been closed. *)
Record ok (c : T) (log : list Effect) : Prop := mkOk {
  ok_bound : ∀ g, g ∈ awaiting c ++ created c ++ completed c → g ≤ generation c;
  ok_source : ∀ g, source c = Some g → g = generation c ∧ g ∈ created c ∧ (g ∉ completed c);
  ok_completed : ∀ g, g ∈ completed c → g ∈ created c;
  ok_awaiting : ∀ g, g ∈ awaiting c → (g ∉ created c) ∧ callbacks_of g log = [];
  ok_active : ∀ g, source c = Some g → true ∉ callbacks_of g log;
  ok_protocol : ∀ g, protocol (callbacks_of g log);
  ok_future : ∀ g, generation c < g → callbacks_of g log = [];
  ok_closed : ∀ g, g ∈ created c → source c = Some g ∨ FxClose g ∈ log;
}.

Lemma init_ok : ok init [].
Proof. split; try set_solver; auto with gate. Qed.

(** ** Shapes of a step *)

Lemma live_true g c : live g c = true → generation c = g ∧ source c = Some g ∧ (g ∉ completed c).
Proof. unfold live, isCurrent. intros H. by repeat (apply andb_true_iff in H as [H ?]); breflect. Qed.

(** What one event of a live source does: it passes updates on, or ends the
    request, closing its source. *)
Definition quiet (c c' : T) : Prop :=
  generation c' = generation c ∧ awaiting c' = awaiting c ∧ created c' = created c.

Inductive source_step (g : nat) (c : T) : T → list Effect → Prop :=
  | src_idle : source_step g c c []
  | src_updates us : source c = Some g → generation c = g →
      source_step g c c ((λ u, FxUpdate g u.1 u.2) <$> us)
  | src_final c' fx : source c = Some g → generation c = g → quiet c c' → source c' = None →
      completed c' = g :: completed c → callbacks_of g fx = [true] →
      (∀ h, h ≠ g → callbacks_of h fx = []) → FxClose g ∈ fx → source_step g c c' fx.

Lemma handleError_step g m code c c' fx : handleError g m code c = (c', fx) → source_step g c c' fx.
Proof.
  unfold handleError. destruct (live g c) eqn:E; cbn [negb]; [|intros; simplify_eq; constructor].
  apply live_true in E as (Hg & Hs & _). unfold closeActiveSource.
  cbn [source mark_completed]. rewrite bool_decide_true by done. intros; simplify_eq.
  apply src_final; try done; [cbn; by rewrite decide_True| |set_solver].
  intros h Hh. cbn. by rewrite decide_False.
Qed.

Lemma onMessage_step g d c c' fx : onMessage g d c = (c', fx) → source_step g c c' fx.
Proof.
  unfold onMessage. destruct (live g c) eqn:E; cbn [negb]; [|intros; simplify_eq; constructor].
  destruct (isStreamDoneMessage _).
  - apply live_true in E as (Hg & Hs & _). unfold closeActiveSource.
    cbn [source mark_completed]. rewrite bool_decide_true by done. intros; simplify_eq.
    apply src_final; try done; [cbn; by rewrite decide_True| |set_solver].
    intros h Hh. cbn. by rewrite decide_False.
  - destruct (parseStreamMessageUpdates _); [|apply handleError_step].
    apply live_true in E as (Hg & Hs & _). intros; simplify_eq. by constructor.
Qed.

Lemma event_step g e c c' fx :
  (∃ d, e = EvMessage g d) ∨ (∃ r d, e = EvError g r d) ∨ (∃ r s, e = EvReadyState g r s) →
  step e c = (c', fx) → source_step g c c' fx.
Proof.
  intros [(d & ->)|[(r & d & ->)|(r & s & ->)]]; cbn [step].
  - apply onMessage_step.
  - unfold onError. repeat case_match; try apply handleError_step; intros; simplify_eq; constructor.
  - unfold onReadyStateChange. repeat case_match; try apply handleError_step;
      intros; simplify_eq; constructor.
Qed.

Lemma source_step_ok g c c' fx log :
  source_step g c c' fx → ok c log → ok c' (log ++ fx).
Proof.
  intros [|us Hs Hg|c'' fx' Hs Hg (Eg & Ea & Ec) Hn Ecomp Hcb Hother Hcl] H.
  - by rewrite app_nil_r.
  - destruct H as [Hb Hso Hcc Haw Hact Hpr Hfu Hcl]. destruct (Hso g Hs) as (_ & Hcr & _).
    split; try done; intros h; rewrite ?callbacks_of_app, ?callbacks_of_updates;
      destruct (decide (g = h)) as [<-|Hne]; rewrite ?app_nil_r; auto.
    + intros Hin. by destruct (Haw g Hin).
    + intros _ [?|[? _]%elem_of_replicate]%elem_of_app; [by eapply Hact|done].
    + apply protocol_app; auto with gate.
    + lia.
    + set_solver.
  - destruct H as [Hb Hso Hcc Haw Hact Hpr Hfu Hcl0]. destruct (Hso g Hs) as (_ & Hcr & _).
    split; intros h; rewrite ?Eg, ?Ea, ?Ec, ?Hn, ?Ecomp, ?callbacks_of_app;
      try (destruct (decide (h = g)) as [->|Hne]; [rewrite Hcb|rewrite Hother, ?app_nil_r by done]);
      auto; try done.
    + set_solver.
    + set_solver.
    + intros Hin. by destruct (Haw g Hin).
    + apply protocol_app; auto with gate.
    + lia.
    + intros [E|?]%Hcl0; [rewrite Hs in E; injection E as <-|]; set_solver.
Qed.

(** A new generation, by [send] or [cancel]: the old source is closed. *)
Lemma callbacks_of_close g s b : callbacks_of g (close_opt s ++ [FxStreaming b]) = [].
Proof. by destruct s. Qed.

Lemma bump_ok c log aw fx :
  aw = awaiting c ∨ aw = S (generation c) :: awaiting c →
  (∀ g, callbacks_of g fx = []) → (∀ g, source c = Some g → FxClose g ∈ fx) →
  ok c log → ok (mkT (S (generation c)) None aw (created c) (completed c)) (log ++ fx).
Proof.
  intros Haw' Hfx Hcl' [Hb Hso Hcc Haw Hact Hpr Hfu Hcl].
  assert (∀ g, g ∈ aw → g ∈ awaiting c ∨ g = S (generation c)) as Hin
    by (intros g; destruct Haw' as [-> | ->]; set_solver).
  split; cbn [generation source awaiting created completed]; try done;
    intros g; rewrite ?callbacks_of_app, ?Hfx, ?app_nil_r; auto.
  - rewrite elem_of_app. intros [[?| ->]%Hin|?]; [|lia|];
      (etrans; [apply Hb; set_solver|lia]).
  - intros [?| ->]%Hin; [by apply Haw|]. split; [|apply Hfu; lia].
    intros ?. enough (S (generation c) ≤ generation c) by lia. apply Hb. set_solver.
  - intros ?. apply Hfu. lia.
  - intros [?|?]%Hcl; right; set_solver.
Qed.

(** The headers of a request arrive. *)
Lemma headers_ok g h c c' fx log :
  g ∈ awaiting c → headersResolved g h c = (c', fx) → ok c log → ok c' (log ++ fx).
Proof.
  intros Hg. unfold headersResolved.
  set (aw := filter _ (awaiting c)). cbn [generation source awaiting created completed].
  intros Hh [Hb Hso Hcc Haw Hact Hpr Hfu Hcl].
  assert (∀ x, x ∈ aw → x ∈ awaiting c ∧ x ≠ g) as Hin
    by (intros x; unfold aw; rewrite list_elem_of_filter; tauto).
  destruct (Haw g Hg) as [Hgc Hg0].
  assert (ok (mkT (generation c) (source c) aw (created c) (completed c)) log) as Hok.
  { split; cbn [generation source awaiting created completed]; auto; set_solver. }
  destruct (decide (generation c = g)) as [Eg|Ng].
  2:{ rewrite bool_decide_false in Hh by done. cbn in Hh. simplify_eq. by rewrite app_nil_r. }
  rewrite bool_decide_true in Hh by done. cbn [negb] in Hh.
  assert (source c = None) as Hn.
  { destruct (source c) as [x|] eqn:E; [|done]. destruct (Hso x eq_refl) as (-> & ? & _).
    by rewrite Eg in *. }
  assert (ok (mkT (generation c) (Some g) aw (g :: created c) (completed c)) (log ++ [FxStreaming true]))
    as Hopen.
  { split; cbn [generation source awaiting created completed]; intros x;
      rewrite ?callbacks_of_app; cbn [callbacks_of omap list_omap callback]; rewrite ?app_nil_r; auto.
    - intros ?. destruct (decide (x = g)) as [->|]; [lia|]. apply Hb. set_solver.
    - intros [= <-]. split_and!; [done|set_solver|].
      intros ?. by apply Hgc, Hcc.
    - set_solver.
    - set_solver.
    - intros [= <-]. rewrite Hg0. set_solver.
    - set_solver. }
  destruct h as [m|[]]; [simplify_eq| |by simplify_eq].
  - destruct Hok as [Hb' Hso' Hcc' Haw' Hact' Hpr' Hfu' Hcl'].
    cbn [generation source awaiting created completed] in *.
    split; cbn [generation source awaiting created completed]; intros x;
      rewrite ?callbacks_of_app, ?Hn; auto; cbn [callbacks_of omap list_omap callback];
      destruct (decide (generation c = x)) as [<-|]; rewrite ?app_nil_r; auto;
      try discriminate.
    + intros ?. exfalso. by apply (Hin (generation c)).
    + rewrite Hg0. cbn. auto with gate.
    + lia.
    + intros [?|?]%Hcl'; [congruence|set_solver].
    + intros [?|?]%Hcl'; [congruence|set_solver].
  - destruct (handleError g STREAM_START_ERROR None _) as [c2 fx2] eqn:E. simplify_eq.
    apply handleError_step in E. rewrite (cons_middle (FxStreaming true) log fx2), app_assoc.
    by eapply source_step_ok.
Qed.

Lemma step_ok e c c' fx log :
  enabled e c = true → step e c = (c', fx) → ok c log → ok c' (log ++ fx).
Proof.
  destruct e as [| | |g h|g d|g r d|g r s]; cbn [enabled step]; intros He Hs Hok.
  - unfold send in Hs. simplify_eq. apply bump_ok; auto using callbacks_of_close.
    intros g ->. set_solver.
  - unfold stop, cancel in Hs. simplify_eq. apply bump_ok; auto using callbacks_of_close.
    intros g ->. set_solver.
  - unfold dispose, cancel in Hs. simplify_eq. apply bump_ok; auto.
    + intros g. rewrite app_nil_r. by destruct (source c).
    + intros g ->. set_solver.
  - breflect. by eapply headers_ok.
  - eapply source_step_ok; [|done]. apply (event_step g (EvMessage g d)); eauto.
  - eapply source_step_ok; [|done]. apply (event_step g (EvError g r d)); eauto.
  - eapply source_step_ok; [|done]. apply (event_step g (EvReadyState g r s)); eauto 6.
Qed.

Lemma run_ok c es c' fx log : run c es c' fx → ok c log → ok c' (log ++ fx).
Proof.
  intros Hr. revert log. induction Hr as [c|c e c1 fx1 es c2 fx2 He Hs Hr IH]; intros log Hok.
  - by rewrite app_nil_r.
  - rewrite app_assoc. apply IH. by eapply step_ok.
Qed.

(** whatever the order of calls, header answers and server events, each
    request calls back with any number of updates and then at most one
    completion or error, and every event source ever created is the active one
    or has been closed. *)
Theorem stream_protocol es c log :
  run init es c log →
  (∀ g, protocol (callbacks_of g log))
  ∧ (∀ g, g ∈ created c → source c = Some g ∨ FxClose g ∈ log).
Proof.
  intros Hr. destruct (run_ok _ _ _ _ [] Hr init_ok). by split.
Qed.

Lemma stream_protocol_witness :
  protocol (callbacks_of 1
    ([FxStreaming false] ++ [FxStreaming true] ++ [FxClose 1; FxStreaming false; FxComplete 1]
     ++ [] ++ [])).
Proof.
  refine (proj1 (stream_protocol
    [EvSend; EvHeaders 1 (HeadersReady false); EvMessage 1 (Some (js "[DONE]"));
     EvMessage 1 (Some (js "late"))] _ _ _) 1).
  econstructor; [reflexivity|reflexivity|]. econstructor; [reflexivity|reflexivity|].
  econstructor; [reflexivity|reflexivity|]. econstructor; [reflexivity|reflexivity|].
  constructor.
Defined.

(** ** Nothing after a stop *)

(** No request is current: neither waiting nor streaming. *)
Definition idle (c : T) : Prop :=
  source c = None ∧ (∀ g, g ∈ awaiting c ++ created c → g < generation c).

Lemma idle_step e c c' fx :
  idle c → e ≠ EvSend → enabled e c = true → step e c = (c', fx) →
  idle c' ∧ ∀ f, f ∈ fx → f = FxStreaming false.
Proof.
  intros [Hn Hg] Hne He Hs.
  assert (∀ g, live g c = false) as Hdead.
  { intros g. unfold live, isCurrent. rewrite Hn.
    rewrite (bool_decide_false (None = Some g)); [|discriminate]. by rewrite andb_false_r. }
  destruct e as [| | |g h|g d|g r d|g r s]; cbn [step enabled] in *; [done|..].
  - unfold stop, cancel in Hs. rewrite Hn in Hs. simplify_eq. split; [|set_solver].
    split; [done|]. intros g Hin. apply Hg in Hin. cbn. lia.
  - unfold dispose, cancel in Hs. rewrite Hn in Hs. simplify_eq. split; [|set_solver].
    split; [done|]. intros g Hin. apply Hg in Hin. cbn. lia.
  - unfold headersResolved in Hs. cbn [generation] in Hs. breflect.
    assert (g < generation c) by (apply Hg; set_solver).
    rewrite bool_decide_false in Hs by lia. cbn in Hs. simplify_eq. split; [|set_solver].
    split; [done|]. cbn. intros x. rewrite elem_of_app, list_elem_of_filter. intros Hx.
    apply Hg. set_solver.
  - unfold onMessage in Hs. rewrite Hdead in Hs. cbn in Hs. simplify_eq. split; [done|set_solver].
  - unfold onError in Hs. rewrite Hdead in Hs. cbn in Hs. simplify_eq. split; [done|set_solver].
  - unfold onReadyStateChange in Hs. rewrite Hdead in Hs. cbn in Hs. simplify_eq. split; [done|set_solver].
Qed.

(** C30: once the user stops the generation, no request calls back any more,
    whatever headers or server events are still under way, until the next one
    is sent. *)
Theorem stop_is_silent es c log es' c' log' :
  run init es c log → run c (EvStop :: es') c' log' → EvSend ∉ es' →
  ∀ f, f ∈ log' → callback f = None ∧ f ≠ FxStreaming true.
Proof.
  intros Hr Hr' Hns. destruct (run_ok _ _ _ _ [] Hr init_ok) as [Hb _ _ _ _ _ _ _].
  inversion Hr' as [|? ? c1 fx1 ? ? fx2 He Hs Hrest]; simplify_eq. cbn in Hs.
  unfold stop, cancel in Hs. simplify_eq.
  assert (∀ es c1 c2 fx, run c1 es c2 fx → idle c1 → EvSend ∉ es →
            ∀ f, f ∈ fx → f = FxStreaming false) as Hidle.
  { clear. induction 1 as [|c e c1 fx1 es c2 fx2 He Hs Hr IH]; intros Hi Hns; [set_solver|].
    destruct (idle_step e c c1 fx1) as [Hi' Hf]; [done|set_solver|done|done|].
    intros f [?|?]%elem_of_app; [by apply Hf|]. apply IH; [done|set_solver|done]. }
  intros f [Hf|Hf]%elem_of_app.
  - destruct (source c); set_solver.
  - eapply Hidle in Hf as ->; [done|exact Hrest| |done].
    split; [done|]. cbn. intros g Hg. enough (g ≤ generation c) by lia. apply Hb. set_solver.
Qed.

Lemma stop_is_silent_witness :
  callback (FxStreaming false) = None ∧ FxStreaming false ≠ FxStreaming true.
Proof.
  refine (stop_is_silent [EvSend] _ [FxStreaming false] [EvHeaders 1 (HeadersReady false)] _
            [FxStreaming false] _ _ _ (FxStreaming false) _); [| | |left].
  - change [FxStreaming false] with ([FxStreaming false] ++ []).
    econstructor; [reflexivity|reflexivity|constructor].
  - change [FxStreaming false] with ([FxStreaming false] ++ [] ++ []).
    econstructor; [reflexivity|reflexivity|].
    econstructor; [reflexivity|reflexivity|constructor].
  - intros H. inversion H as [|? ? ? H']. inversion H'.
Defined.
