(* ===== verification/PgChat.v ===== *)
(** The chat of the playground: [hooks/use-chat-handler.ts] and
    [hooks/use-playground-conversation.ts] over the stream controller.

    The hooks keep their state in React: an update of the messages is a function
    that React queues and runs, in order, at the next render.  The state below
    holds the messages of the last render and that queue; [render] empties it.
    The functions are kept as data, [Update], with what they captured. *)

From Stdlib Require Import ZArith NArith Lia SpecFloat.
From S2P Require Import Prelude JsString JsNumber JsValue PgMessage PgStream.

Record PendingStreamChunks := mkPending {
  p_generation : nat;
  p_content : jstr;
  p_reasoning : jstr;
}.

(** The functions passed to [onMessageUpdate] and [updateMessages] *)
Inductive Update :=
  | UReplace (next : list Message)
  | URemove (key : jstr)
  | UFlush (generation : nat) (chunks : PendingStreamChunks)
  | UComplete (generation : nat)
  | UError (generation : nat) (displayError : jstr) (code : option jstr) (title : jstr)
  | UResponse (generation : nat) (choices : list ChatCompletionChoice)
  | UStopped (idleGeneration : nat).

Definition flush_message (chunks : PendingStreamChunks) (now : num) (m : Message) : Message :=
  let m := if truthy (p_reasoning chunks)
           then applyStreamingChunk m ReasoningChunk (p_reasoning chunks) now else m in
  if truthy (p_content chunks)
  then applyStreamingChunk m ContentChunk (p_content chunks) now else m.

(** Running one of them: [current] is [requestGenerationRef.current] then. *)
Definition apply_update (current : nat) (now : num) (prev : list Message) (u : Update)
    : list Message :=
  match u with
  | UReplace next => next
  | URemove key => removeMessageByKey prev key
  | UFlush generation chunks =>
      if negb (generation =? current)%nat then prev
      else updateLastAssistantMessage prev (flush_message chunks now)
  | UComplete generation =>
      if negb (generation =? current)%nat then prev
      else updateLastAssistantMessage prev (λ m,
             if isAssistantMessageFinal m then m else completeAssistantMessage m now)
  | UError generation displayError code title =>
      if negb (generation =? current)%nat then prev
      else updateAssistantMessageWithError prev displayError code title now
  | UResponse generation choices =>
      if negb (generation =? current)%nat then prev
      else updateLastAssistantMessage prev (λ m,
             default m (applyChatCompletionResponse m choices now))
  | UStopped idleGeneration =>
      if negb (idleGeneration =? current)%nat then prev
      else updateLastAssistantMessage prev (λ m,
             if isAssistantMessagePending m then completeAssistantMessage m now else m)
  end.

(** The refs and the state of the hooks.  [owner] is what the callbacks passed
    to the controller captured: the generation of the chat for each request of
    the controller.  An abort controller is named by the generation of its
    request, and [inflight] are the requests without streaming that wait for
    their response. *)
Record Chat := mkChat {
  ctl : Controller.T;
  owner : list (nat * nat);
  requestGeneration : nat;
  pending : PendingStreamChunks;
  streamFlushTimer : option nat;
  abortController : option nat;
  aborted : list nat;
  inflight : list nat;
  isRequesting : bool;
  isStreaming : bool;
  messages : list Message;
  queue : list Update;
  toasts : list jstr;
  editingMessageKey : option jstr;
}.

Definition on_ctl (c : Controller.T) (o : list (nat * nat)) (s : Chat) : Chat :=
  mkChat c o (requestGeneration s) (pending s) (streamFlushTimer s) (abortController s)
    (aborted s) (inflight s) (isRequesting s) (isStreaming s) (messages s) (queue s) (toasts s)
    (editingMessageKey s).
Definition set_generation (g : nat) (s : Chat) : Chat :=
  mkChat (ctl s) (owner s) g (pending s) (streamFlushTimer s) (abortController s)
    (aborted s) (inflight s) (isRequesting s) (isStreaming s) (messages s) (queue s) (toasts s)
    (editingMessageKey s).
Definition set_pending (p : PendingStreamChunks) (t : option nat) (s : Chat) : Chat :=
  mkChat (ctl s) (owner s) (requestGeneration s) p t (abortController s)
    (aborted s) (inflight s) (isRequesting s) (isStreaming s) (messages s) (queue s) (toasts s)
    (editingMessageKey s).
Definition set_abort (a : option nat) (dead : list nat) (s : Chat) : Chat :=
  mkChat (ctl s) (owner s) (requestGeneration s) (pending s) (streamFlushTimer s) a
    dead (inflight s) (isRequesting s) (isStreaming s) (messages s) (queue s) (toasts s)
    (editingMessageKey s).
Definition set_inflight (i : list nat) (s : Chat) : Chat :=
  mkChat (ctl s) (owner s) (requestGeneration s) (pending s) (streamFlushTimer s)
    (abortController s) (aborted s) i (isRequesting s) (isStreaming s) (messages s) (queue s)
    (toasts s) (editingMessageKey s).
Definition setIsRequesting (b : bool) (s : Chat) : Chat :=
  mkChat (ctl s) (owner s) (requestGeneration s) (pending s) (streamFlushTimer s)
    (abortController s) (aborted s) (inflight s) b (isStreaming s) (messages s) (queue s)
    (toasts s) (editingMessageKey s).
Definition setIsStreaming (b : bool) (s : Chat) : Chat :=
  mkChat (ctl s) (owner s) (requestGeneration s) (pending s) (streamFlushTimer s)
    (abortController s) (aborted s) (inflight s) (isRequesting s) b (messages s) (queue s)
    (toasts s) (editingMessageKey s).
Definition set_messages (ms : list Message) (q : list Update) (s : Chat) : Chat :=
  mkChat (ctl s) (owner s) (requestGeneration s) (pending s) (streamFlushTimer s)
    (abortController s) (aborted s) (inflight s) (isRequesting s) (isStreaming s) ms q
    (toasts s) (editingMessageKey s).
Definition add_toast (x : jstr) (s : Chat) : Chat :=
  mkChat (ctl s) (owner s) (requestGeneration s) (pending s) (streamFlushTimer s)
    (abortController s) (aborted s) (inflight s) (isRequesting s) (isStreaming s) (messages s)
    (queue s) (toasts s ++ [x]) (editingMessageKey s).
Definition setEditingMessageKey (k : option jstr) (s : Chat) : Chat :=
  mkChat (ctl s) (owner s) (requestGeneration s) (pending s) (streamFlushTimer s)
    (abortController s) (aborted s) (inflight s) (isRequesting s) (isStreaming s) (messages s)
    (queue s) (toasts s) k.

Definition onMessageUpdate (u : Update) (s : Chat) : Chat :=
  set_messages (messages s) (queue s ++ [u]) s.

Definition render (now : num) (s : Chat) : Chat :=
  set_messages (foldl (apply_update (requestGeneration s) now) (messages s) (queue s)) [] s.

(** * Stream updates *)

Definition mergePendingStreamChunk (currentChunk nextChunk : jstr) : jstr :=
  if negb (truthy currentChunk) || negb (startsWith nextChunk currentChunk)
  then currentChunk ++ nextChunk else nextChunk.

Definition discardPendingStreamUpdates (generation : nat) (s : Chat) : Chat :=
  set_pending (mkPending generation [] []) None s.

Definition flushStreamUpdates (generation : nat) (s : Chat) : Chat :=
  if negb (generation =? requestGeneration s)%nat then s
  else
    let chunks := pending s in
    let s := set_pending chunks None s in
    if negb (p_generation chunks =? generation)%nat then s
    else if negb (truthy (p_reasoning chunks)) && negb (truthy (p_content chunks)) then s
    else onMessageUpdate (UFlush generation chunks)
           (set_pending (mkPending generation [] []) None s).

Definition scheduleStreamFlush (generation : nat) (s : Chat) : Chat :=
  if negb (generation =? requestGeneration s)%nat then s
  else
    match streamFlushTimer s with
    | Some _ => s
    | None => set_pending (pending s) (Some generation) s
    end.

(** The armed timer fires. *)
Definition timerFired (s : Chat) : Chat :=
  match streamFlushTimer s with
  | Some generation => flushStreamUpdates generation s
  | None => s
  end.

(** [pendingStreamChunksRef.current[type] = merge(...)] *)
Definition merge_pending (type : StreamChunkType) (chunk : jstr) (p : PendingStreamChunks)
    : PendingStreamChunks :=
  match type with
  | ContentChunk =>
      mkPending (p_generation p) (mergePendingStreamChunk (p_content p) chunk) (p_reasoning p)
  | ReasoningChunk =>
      mkPending (p_generation p) (p_content p) (mergePendingStreamChunk (p_reasoning p) chunk)
  end.

Definition handleStreamUpdate (generation : nat) (type : StreamChunkType) (chunk : jstr)
    (s : Chat) : Chat :=
  if negb (generation =? requestGeneration s)%nat then s
  else if negb (p_generation (pending s) =? generation)%nat then s
  else
    scheduleStreamFlush generation
      (set_pending (merge_pending type chunk (pending s)) (streamFlushTimer s) s).

Definition handleStreamComplete (generation : nat) (s : Chat) : Chat :=
  if negb (generation =? requestGeneration s)%nat then s
  else
    onMessageUpdate (UComplete generation)
      (setIsRequesting false (flushStreamUpdates generation s)).

Section handler.
(** Translation, and the configuration the hooks were rendered with *)
Variable t : jstr → jstr.
Variable config : PlaygroundConfig.
Variable parameterEnabled : ParameterEnabled.

Definition getDisplayError (error : jstr) : jstr :=
  if bool_decide (error ∈ ERROR_MESSAGES) then t error
  else if endsWith error (js ": " ++ CONNECTION_CLOSED)
  then take (length error - length CONNECTION_CLOSED) error ++ t CONNECTION_CLOSED
  else error.

Definition handleStreamError (generation : nat) (error : jstr) (code : option jstr) (s : Chat)
    : Chat :=
  if negb (generation =? requestGeneration s)%nat then s
  else
    let displayError := getDisplayError error in
    onMessageUpdate (UError generation displayError code (t API_REQUEST_ERROR))
      (add_toast displayError (setIsRequesting false (flushStreamUpdates generation s))).

(** The effects of the controller reach the callbacks of [sendStreamingChat]
    and the state of [useStreamRequest]. *)
Definition run_effect (s : Chat) (fx : Controller.Effect) : Chat :=
  match fx with
  | Controller.FxClose _ => s
  | Controller.FxStreaming b => setIsStreaming b s
  | Controller.FxUpdate g type chunk =>
      match omap.get (owner s) g with
      | Some generation => handleStreamUpdate generation type chunk s
      | None => s
      end
  | Controller.FxComplete g =>
      match omap.get (owner s) g with
      | Some generation => handleStreamComplete generation s
      | None => s
      end
  | Controller.FxError g message code =>
      match omap.get (owner s) g with
      | Some generation => handleStreamError generation message code s
      | None => s
      end
  end.

(** A call or event of the controller; a request it starts is owned by [o]. *)
Definition with_controller (o : option nat) (e : Controller.Event) (s : Chat) : Chat :=
  let '(c, fx) := Controller.step e (ctl s) in
  let own := match o with
             | Some generation => (Controller.generation c, generation) :: owner s
             | None => owner s
             end in
  foldl run_effect (on_ctl c own s) fx.

(** [abortControllerRef.current?.abort()], then the ref is replaced *)
Definition replace_abort (next : option nat) (s : Chat) : Chat :=
  set_abort next (match abortController s with Some a => a :: aborted s | None => aborted s end) s.

(** * Sending and stopping *)

Definition sendStreamingChat (s : Chat) : Chat :=
  let generation := S (requestGeneration s) in
  with_controller (Some generation) Controller.EvSend
    (setIsRequesting true
       (discardPendingStreamUpdates generation
          (replace_abort None (set_generation generation s)))).

(** [sendNonStreamingChat] up to the request *)
Definition sendNonStreamingChat (s : Chat) : Chat :=
  let generation := S (requestGeneration s) in
  let s := with_controller None Controller.EvStop (set_generation generation s) in
  let s := replace_abort (Some generation) (discardPendingStreamUpdates generation s) in
  set_inflight (generation :: inflight s) (setIsRequesting true s).

(** The [finally] of that request *)
Definition request_finally (generation : nat) (s : Chat) : Chat :=
  if (requestGeneration s =? generation)%nat
  then setIsRequesting false (set_abort None (aborted s) s) else s.

(** and from its response, or the error it was rejected with, to the end *)
Definition responseArrived (generation : nat) (r : jsval + list ChatCompletionChoice) (s : Chat)
    : Chat :=
  let s := set_inflight (filter (λ g, g ≠ generation) (inflight s)) s in
  request_finally generation
    (if bool_decide (generation ∈ aborted s) || negb (requestGeneration s =? generation)%nat then s
     else
       match r with
       | inr choices =>
           if negb (hasChatCompletionChoice choices)
           then handleStreamError generation API_REQUEST_ERROR None s
           else onMessageUpdate (UResponse generation choices) s
       | inl error =>
           let d := parseRequestErrorDetails error in
           handleStreamError generation (det_message d) (det_code d) s
       end).

Definition sendChat (s : Chat) : Chat :=
  if c_stream config then sendStreamingChat s else sendNonStreamingChat s.

(** The request a call to [sendChat] with these messages carries *)
Definition sentPayload (next : list Message) : ChatCompletionRequest :=
  buildChatCompletionPayload next config parameterEnabled.

Definition stopGeneration (s : Chat) : Chat :=
  let stoppedGeneration := requestGeneration s in
  let s := flushStreamUpdates stoppedGeneration s in
  let idleGeneration := S stoppedGeneration in
  let s := discardPendingStreamUpdates idleGeneration (set_generation idleGeneration s) in
  let s := with_controller None Controller.EvStop s in
  let s := setIsRequesting false (replace_abort None s) in
  onMessageUpdate (UStopped idleGeneration) s.

(** The clean-up of both hooks when the page goes away *)
Definition unmount (s : Chat) : Chat :=
  with_controller None Controller.EvDispose
    (replace_abort None
       (set_pending (pending s) None (set_generation (S (requestGeneration s)) s))).

Definition isGenerating (s : Chat) : bool := isStreaming s || isRequesting s.

(** * The conversation *)

Definition handleSendMessage (ids : FreshIds) (now : num) (text : jstr) (s : Chat) : Chat :=
  let next := appendUserMessagePair ids now (messages s) text in
  sendChat (onMessageUpdate (UReplace next) s).

Definition handleRegenerateMessage (ids : FreshIds) (now : num) (key : jstr) (s : Chat) : Chat :=
  match createRegeneratedMessages ids now (messages s) key with
  | None => s
  | Some next => sendChat (onMessageUpdate (UReplace next) s)
  end.

Definition applyEdit (ids : FreshIds) (now : num) (content : jstr) (shouldSubmit : bool)
    (s : Chat) : Chat :=
  match editingMessageKey s with
  | None => s
  | Some key =>
      if negb (truthy key) then s
      else
        match applyMessageEdit ids now (messages s) key content shouldSubmit with
        | None => s
        | Some (next, shouldSend) =>
            let s := onMessageUpdate (UReplace next) (setEditingMessageKey None s) in
            if shouldSend then sendChat s else s
        end
  end.

Definition handleDeleteMessage (key : jstr) (s : Chat) : Chat := onMessageUpdate (URemove key) s.

(** * What can happen *)

Inductive ChatEvent :=
  | CSend (ids : FreshIds) (now : num) (text : jstr)
  | CRegenerate (ids : FreshIds) (now : num) (key : jstr)
  | CEdit (key : option jstr)
  | CApplyEdit (ids : FreshIds) (now : num) (content : jstr) (shouldSubmit : bool)
  | CDelete (key : jstr)
  | CStop
  | CStream (e : Controller.Event)
  | CResponse (generation : nat) (r : jsval + list ChatCompletionChoice)
  | CTimer
  | CRender (now : num)
  | CUnmount.

(** The events of a stream come from outside; its calls do not. *)
Definition chat_enabled (e : ChatEvent) (s : Chat) : bool :=
  match e with
  | CStream (Controller.EvSend | Controller.EvStop | Controller.EvDispose) => false
  | CStream e => Controller.enabled e (ctl s)
  | CResponse g _ => bool_decide (g ∈ inflight s)
  | CTimer => match streamFlushTimer s with Some _ => true | None => false end
  | _ => true
  end.

Definition chat_step (e : ChatEvent) (s : Chat) : Chat :=
  match e with
  | CSend ids now text => handleSendMessage ids now text s
  | CRegenerate ids now key => handleRegenerateMessage ids now key s
  | CEdit key => setEditingMessageKey key s
  | CApplyEdit ids now content submit => applyEdit ids now content submit s
  | CDelete key => handleDeleteMessage key s
  | CStop => stopGeneration s
  | CStream e => with_controller None e s
  | CResponse g r => responseArrived g r s
  | CTimer => timerFired s
  | CRender now => render now s
  | CUnmount => unmount s
  end.

Inductive chat_run : Chat → list ChatEvent → Chat → Prop :=
  | chat_run_nil s : chat_run s [] s
  | chat_run_cons s e es s' :
      chat_enabled e s = true → chat_run (chat_step e s) es s' → chat_run s (e :: es) s'.
End handler.

Definition initial_chat (ms : list Message) : Chat :=
  mkChat Controller.init [] 0 (mkPending 0 [] []) None None [] [] false false ms [] [] None.
