(* ===== verification/PgChatProps.v ===== *)
(** What the chat of the playground guarantees: superseded requests are inert,
    what a stop and a completion leave on screen, and what a turn sends. *)

From Stdlib Require Import ZArith NArith Lia SpecFloat.
From S2P Require Import Prelude JsString JsNumber JsValue PgMessage PgMessageProps PgStream PgChat.

Section chat.
Context (t : jstr → jstr) (config : PlaygroundConfig) (en : ParameterEnabled).
Implicit Types s : Chat.

(** * Generations *)

(** No callback and no response belongs to a generation that has not begun. *)
Definition issued (bound : nat) (s : Chat) : Prop :=
  (∀ g o, omap.get (owner s) g = Some o → o ≤ bound) ∧ (∀ g, g ∈ inflight s → g ≤ bound).

(** A step that leaves generation, owners and requests as they are *)
Definition same_ids (s s' : Chat) : Prop :=
  requestGeneration s' = requestGeneration s ∧ owner s' = owner s ∧ inflight s' = inflight s.

#[local] Instance same_ids_preorder : PreOrder same_ids.
Proof.
  split; [intros x; by split_and!|].
  intros a b c (?&?&?) (?&?&?). split_and!; etrans; eauto.
Qed.

Lemma issued_same bound s s' : same_ids s s' → issued bound s → issued bound s'.
Proof. intros (_ & Eo & Ei). unfold issued. by rewrite Eo, Ei. Qed.

Lemma same_flush g s : same_ids s (flushStreamUpdates g s).
Proof. unfold flushStreamUpdates. by repeat case_match. Qed.

Lemma same_update g ty c s : same_ids s (handleStreamUpdate g ty c s).
Proof. unfold handleStreamUpdate, scheduleStreamFlush. by repeat case_match. Qed.

Lemma same_complete g s : same_ids s (handleStreamComplete g s).
Proof. unfold handleStreamComplete. case_match; [done|]. apply same_flush. Qed.

Lemma same_error g m c s : same_ids s (handleStreamError t g m c s).
Proof. unfold handleStreamError. case_match; [done|]. apply same_flush. Qed.

Lemma same_effect s fx : same_ids s (run_effect t s fx).
Proof.
  destruct fx; cbn [run_effect]; repeat case_match; try done;
    auto using same_update, same_complete, same_error.
Qed.

Lemma same_effects s fxs : same_ids s (foldl (run_effect t) s fxs).
Proof.
  revert s. induction fxs as [|fx fxs IH]; intros s; [done|].
  cbn [foldl]. etrans; [apply same_effect|apply IH].
Qed.

Lemma with_controller_ids o e s :
  requestGeneration (with_controller t o e s) = requestGeneration s
  ∧ inflight (with_controller t o e s) = inflight s
  ∧ ∀ bound, (∀ x, o = Some x → x ≤ bound) → issued bound s → issued bound (with_controller t o e s).
Proof.
  unfold with_controller. destruct (Controller.step e (ctl s)) as [c fx].
  set (own := match o with Some _ => _ | None => _ end).
  destruct (same_effects (on_ctl c own s) fx) as (Eg & Eo & Ei).
  rewrite Eg, Ei. split_and!; [done|done|]. intros bound Ho [Hown Hinf].
  split; rewrite ?Eo, ?Ei; [|done]. intros g x. cbn [owner on_ctl]. unfold own.
  destruct o as [y|]; [|apply Hown]. cbn [omap.get]. destruct (decide _); [|apply Hown].
  intros [= <-]. by apply Ho.
Qed.

(** ** Every event keeps the invariant *)

Definition chat_ok (s : Chat) : Prop := issued (requestGeneration s) s.

Lemma issued_le b b' s : b ≤ b' → issued b s → issued b' s.
Proof. intros ? [H1 H2]. split; intros; (etrans; [|done]); eauto. Qed.

Lemma sendChat_ok s : chat_ok s → chat_ok (sendChat t config s).
Proof.
  intros Hs. unfold sendChat, chat_ok. destruct (c_stream config).
  - unfold sendStreamingChat. edestruct with_controller_ids as (-> & _ & Hc).
    apply Hc; [by intros ? [= <-]|]. by eapply issued_le; [|exact Hs]; cbn; lia.
  - unfold sendNonStreamingChat.
    edestruct (with_controller_ids None Controller.EvStop
                 (set_generation (S (requestGeneration s)) s)) as (Eg & Ei & Hc).
    split; cbn [owner inflight set_inflight setIsRequesting replace_abort set_abort
                discardPendingStreamUpdates set_pending requestGeneration]; rewrite Eg.
    + apply (Hc (S (requestGeneration s))); [done|]. by eapply issued_le; [|exact Hs]; cbn; lia.
    + rewrite Ei. cbn. intros g [->|Hg]%elem_of_cons; [done|].
      apply Hs in Hg. lia.
Qed.

Lemma same_finally g s s' : same_ids s s' → same_ids s (request_finally g s').
Proof. intros H. etrans; [exact H|]. unfold request_finally. by case_match. Qed.

Lemma responseArrived_same g r s :
  same_ids (set_inflight (filter (λ x, x ≠ g) (inflight s)) s) (responseArrived t g r s).
Proof.
  unfold responseArrived. apply same_finally. repeat case_match; try done; apply same_error.
Qed.

Lemma stop_issued bound s :
  issued bound s →
  requestGeneration (stopGeneration t s) = S (requestGeneration s)
  ∧ issued bound (stopGeneration t s).
Proof.
  intros Hs. unfold stopGeneration.
  edestruct with_controller_ids as (Eg & Ei & Hc).
  split; [exact Eg|]. apply (Hc bound); [done|].
  change (issued bound (flushStreamUpdates (requestGeneration s) s)).
  eapply issued_same; [apply same_flush|done].
Qed.

Lemma chat_step_ok e s : chat_ok s → chat_ok (chat_step t config e s).
Proof.
  intros Hs. assert (∀ s', same_ids s s' → chat_ok s') as Hsame.
  { intros s' H. unfold chat_ok. rewrite (proj1 H). by eapply issued_same. }
  destruct e as [ids now text|ids now k|k|ids now c b|k| |e|g r| |now|]; cbn [chat_step].
  - by apply sendChat_ok.
  - unfold handleRegenerateMessage. case_match; [|done]. by apply sendChat_ok.
  - done.
  - unfold applyEdit. repeat case_match; try done. by apply sendChat_ok.
  - done.
  - destruct (stop_issued _ s Hs) as [Eg Hi]. unfold chat_ok. rewrite Eg.
    by eapply issued_le; [|exact Hi]; lia.
  - edestruct with_controller_ids as (Eg & Ei & Hc). unfold chat_ok. rewrite Eg. by apply Hc.
  - destruct (responseArrived_same g r s) as (Eg & Eo & Ei). unfold chat_ok, issued.
    rewrite Eg, Eo, Ei. split; [apply Hs|]. intros x [_ Hx]%list_elem_of_filter. by apply Hs.
  - apply Hsame. unfold timerFired. case_match; [apply same_flush|done].
  - done.
  - unfold unmount, chat_ok. edestruct with_controller_ids as (Eg & Ei & Hc). rewrite Eg.
    apply Hc; [done|]. by eapply issued_le; [|exact Hs]; cbn; lia.
Qed.

Lemma chat_run_ok es s s' : chat_run t config s es s' → chat_ok s → chat_ok s'.
Proof. induction 1; eauto using chat_step_ok. Qed.

(** A request that is stopped or superseded runs no effect that arms the timer. *)
Lemma timer_streaming s fx :
  streamFlushTimer s = None → (∀ g ty c, fx ≠ Controller.FxUpdate g ty c) →
  streamFlushTimer (run_effect t s fx) = None.
Proof.
  intros Ht Hne. assert (∀ g s1, streamFlushTimer s1 = None →
    streamFlushTimer (flushStreamUpdates g s1) = None) as Hf.
  { intros g s1 H1. unfold flushStreamUpdates. by repeat case_match. }
  destruct fx as [g|b|g ty c|g|g m code]; cbn [run_effect]; try done; [by destruct (Hne g ty c)|..];
    (case_match; [|done]); unfold handleStreamComplete, handleStreamError;
    (case_match; [done|]); by apply Hf.
Qed.

Lemma stop_no_timer s : streamFlushTimer (stopGeneration t s) = None.
Proof.
  unfold stopGeneration, with_controller. cbn [Controller.step].
  unfold Controller.stop, Controller.cancel. cbn [streamFlushTimer onMessageUpdate set_messages
    setIsRequesting replace_abort set_abort].
  set (s0 := on_ctl _ _ _). assert (streamFlushTimer s0 = None) as H0 by done. clearbody s0.
  cbn [ctl discardPendingStreamUpdates set_pending set_generation].
  destruct (Controller.source _); cbn [Controller.close_opt app foldl];
    repeat (apply timer_streaming; [|done]); done.
Qed.

(** * After a stop *)

(** The generation is past every request: nothing pending, no timer. *)
Definition quiescent (s : Chat) : Prop :=
  issued (pred (requestGeneration s)) s ∧ 0 < requestGeneration s ∧ streamFlushTimer s = None.

(** What the user sees, now or after the next render *)
Definition same_view (s s' : Chat) : Prop := messages s' = messages s ∧ queue s' = queue s.

Definition from_network (e : ChatEvent) : bool :=
  match e with CStream _ | CResponse _ _ | CTimer => true | _ => false end.

Lemma stale_effect s fx :
  quiescent s → quiescent (run_effect t s fx) ∧ same_view s (run_effect t s fx)
  ∧ requestGeneration (run_effect t s fx) = requestGeneration s
  ∧ owner (run_effect t s fx) = owner s.
Proof.
  intros Hq. pose proof Hq as ([Hown _] & Hpos & _).
  assert (∀ g o, omap.get (owner s) g = Some o → (o =? requestGeneration s)%nat = false) as Hstale.
  { intros g o Ho%Hown. apply Nat.eqb_neq. lia. }
  destruct fx as [g|b|g ty c|g|g m code]; cbn [run_effect]; try done;
    destruct (omap.get (owner s) g) as [o|] eqn:E; try done; pose proof (Hstale g o E) as Ho.
  - unfold handleStreamUpdate. by rewrite Ho.
  - unfold handleStreamComplete. by rewrite Ho.
  - unfold handleStreamError. by rewrite Ho.
Qed.

Lemma stale_effects s fxs :
  quiescent s → quiescent (foldl (run_effect t) s fxs) ∧ same_view s (foldl (run_effect t) s fxs)
  ∧ requestGeneration (foldl (run_effect t) s fxs) = requestGeneration s.
Proof.
  revert s. induction fxs as [|fx fxs IH]; intros s Hq; [done|]. cbn [foldl].
  destruct (stale_effect s fx Hq) as (Hq1 & [Em Eq] & Eg & _).
  destruct (IH _ Hq1) as (Hq2 & [Em2 Eq2] & Eg2). unfold same_view.
  by rewrite Em2, Eq2, Eg2.
Qed.

Lemma stale_network e s :
  quiescent s → from_network e = true → chat_enabled e s = true →
  quiescent (chat_step t config e s) ∧ same_view s (chat_step t config e s).
Proof.
  intros Hq Hn He. destruct e as [| | | | | |e|g r| | |]; try done; cbn [chat_step].
  - unfold with_controller. destruct (Controller.step e (ctl s)) as [c fx].
    destruct (stale_effects (on_ctl c (owner s) s) fx) as (? & ? & _); [exact Hq|done].
  - destruct Hq as ([Hown Hinf] & Hpos & Htm). cbn in He. apply bool_decide_eq_true in He.
    assert ((requestGeneration s =? g)%nat = false) as Hg.
    { apply Nat.eqb_neq. apply Hinf in He. lia. }
    unfold responseArrived. cbn [requestGeneration set_inflight aborted].
    rewrite Hg. cbn [negb]. rewrite orb_true_r. unfold request_finally.
    cbn [requestGeneration set_inflight]. rewrite Hg. split; [|done].
    split; [|done]. split; [done|]. cbn. intros x [_ Hx]%list_elem_of_filter. by apply Hinf.
  - cbn in He. destruct Hq as (_ & _ & Htm). by rewrite Htm in He.
Qed.

(** after the user stops, no response, stream event or timer of any
    earlier request changes the messages on screen or queues an update. *)
Theorem stop_freezes_messages ms es s es' s' :
  chat_run t config (initial_chat ms) es s →
  chat_run t config (stopGeneration t s) es' s' → Forall (λ e, from_network e = true) es' →
  messages s' = messages (stopGeneration t s) ∧ queue s' = queue (stopGeneration t s).
Proof.
  intros Hr Hr' Hnet.
  assert (chat_ok s) as Hok.
  { eapply chat_run_ok; [exact Hr|]. split; cbn; [done|set_solver]. }
  assert (quiescent (stopGeneration t s)) as Hq.
  { destruct (stop_issued _ s Hok) as [Eg Hi]. split_and!; [by rewrite Eg| by rewrite Eg; lia|].
    by apply stop_no_timer. }
  revert Hq Hnet. clear Hr Hok. generalize dependent (stopGeneration t s). intros s0 Hr'.
  induction Hr' as [s0|s0 e es' s' He Hrun IH]; intros Hq Hnet; [done|].
  inversion_clear Hnet as [|? ? Hn Hnet'].
  destruct (stale_network e s0 Hq Hn He) as (Hq1 & [Em Eq]).
  destruct (IH Hq1 Hnet') as [Em' Eq']. by rewrite Em', Eq', Em, Eq.
Qed.
End chat.

(** A configuration to run examples with *)
Definition demo_config (stream : bool) : PlaygroundConfig :=
  mkConfig (js "m") (js "default") num_0 num_0 num_0 num_0 num_0 None stream.

Lemma stop_freezes_messages_witness :
  let s := chat_step id (demo_config true) (CSend (mkIds [] [] [] []) num_0 (js "hi"))
             (initial_chat []) in
  messages (chat_step id (demo_config true)
              (CStream (Controller.EvHeaders 1 (Controller.HeadersReady false)))
              (stopGeneration id s))
  = messages (stopGeneration id s).
Proof.
  intros s.
  refine (proj1 (stop_freezes_messages id (demo_config true) []
    [CSend (mkIds [] [] [] []) num_0 (js "hi")] s
    [CStream (Controller.EvHeaders 1 (Controller.HeadersReady false))] _ _ _ _)).
  - econstructor; [reflexivity|constructor].
  - econstructor; [reflexivity|constructor].
  - repeat constructor.
Defined.

(** * What ends up on screen *)

(** Two updates of the last reply compose, as long as the first keeps the role. *)
Lemma updateLast_compose ms f g :
  (∀ m, m_from (f m) = m_from m) →
  updateLastAssistantMessage (updateLastAssistantMessage ms f) g
  = updateLastAssistantMessage ms (λ m, g (f m)).
Proof.
  intros Hf. unfold updateLastAssistantMessage.
  destruct ms as [|m ms _] using rev_ind; [done|]. rewrite !last_snoc.
  assert (∀ x : Message, <[length (ms ++ [m]) - 1 := x]> (ms ++ [m]) = ms ++ [x]) as Hins.
  { intros x. rewrite length_app. cbn. replace (length ms + 1 - 1) with (length ms + 0) by lia.
    by rewrite insert_app_r. }
  destruct (bool_decide (m_from m = RAssistant)) eqn:E; cbn [negb].
  - rewrite Hins, last_snoc, Hf, E. cbn [negb].
    rewrite !length_app in *. cbn in *. rewrite Hins.
    replace (length ms + 1 - 1) with (length ms + 0) by lia. by rewrite insert_app_r.
  - by rewrite last_snoc, E.
Qed.

Lemma from_applyStreamingChunk m ty c now : m_from (applyStreamingChunk m ty c now) = m_from m.
Proof.
  unfold applyStreamingChunk. case_match; [done|]. destruct ty; [done|].
  generalize (getAppendableChunk (v_content (getCurrentVersion m)) c). intros a.
  unfold processStreamingContent, completeReasoningTiming.
  generalize (parseThinkTags). intros parse. by repeat case_match.
Qed.

Lemma from_flush chunks now m : m_from (flush_message chunks now m) = m_from m.
Proof.
  unfold flush_message. repeat case_match; by rewrite ?from_applyStreamingChunk.
Qed.

(** The chunks not flushed yet belong to the current request. *)
Definition unflushed (s : Chat) : Prop :=
  p_generation (pending s) = requestGeneration s ∧ queue s = [].

(** when the stream completes, the chunks still waiting for the flush timer
    are shown before the reply is closed: nothing received is lost. *)
Theorem completion_keeps_pending now s :
  unflushed s →
  messages (render now (handleStreamComplete (requestGeneration s) s))
  = updateLastAssistantMessage (messages s) (λ m,
      let m := flush_message (pending s) now m in
      if isAssistantMessageFinal m then m else completeAssistantMessage m now).
Proof.
  intros [Hp Hq]. unfold handleStreamComplete. rewrite Nat.eqb_refl. cbn [negb].
  unfold flushStreamUpdates. rewrite Nat.eqb_refl. cbn [negb]. rewrite Hp, Nat.eqb_refl. cbn [negb].
  destruct (truthy (p_reasoning (pending s))) eqn:Hr, (truthy (p_content (pending s))) eqn:Hc;
    cbn [negb andb];
    cbn [render onMessageUpdate setIsRequesting set_pending set_messages messages queue
         requestGeneration]; rewrite Hq; cbn [app foldl apply_update];
    rewrite ?Nat.eqb_refl; cbn [negb];
    rewrite ?updateLast_compose by (intros; apply from_flush); try done.
  f_equal. unfold flush_message. by rewrite Hr, Hc.
Qed.

(** A reply that has received a chunk which no timer has flushed yet *)
Definition demo_streaming : Chat :=
  let s := render num_0 (chat_step id (demo_config true)
             (CSend (mkIds (js "u") (js "uv") (js "r") (js "rv")) num_0 (js "hi"))
             (initial_chat [])) in
  handleStreamUpdate (requestGeneration s) ContentChunk (js "Hello") s.

Lemma completion_keeps_pending_witness :
  getMessageContent <$> last (messages (render num_0
    (handleStreamComplete (requestGeneration demo_streaming) demo_streaming)))
  = Some (js "Hello").
Proof.
  rewrite completion_keeps_pending; [vm_compute; reflexivity|split; vm_compute; reflexivity].
Defined.

(** Stopping the controller only touches the streaming flag. *)
Lemma with_controller_stop t s :
  let s' := with_controller t None Controller.EvStop s in
  messages s' = messages s ∧ queue s' = queue s ∧ requestGeneration s' = requestGeneration s.
Proof.
  unfold with_controller. cbn [Controller.step]. unfold Controller.stop, Controller.cancel.
  by destruct (Controller.source (ctl s)).
Qed.

(** a stop does not show the chunks that still wait for the flush timer:
    their update is queued for the generation that the stop has just ended, so
    when React runs it at the next render it is skipped, and the reply is closed
    with the text flushed before. *)
Theorem stop_drops_pending t now s :
  queue s = [] →
  messages (render now (stopGeneration t s))
  = updateLastAssistantMessage (messages s) (λ m,
      if isAssistantMessagePending m then completeAssistantMessage m now else m).
Proof.
  intros Hq. unfold stopGeneration. set (s1 := discardPendingStreamUpdates _ _).
  destruct (with_controller_stop t s1) as (Em & Eq & Eg).
  unfold render. cbn [onMessageUpdate set_messages setIsRequesting replace_abort set_abort
                      messages queue requestGeneration]. rewrite Em, Eq, Eg.
  unfold s1. cbn [discardPendingStreamUpdates set_pending set_generation messages queue
                  requestGeneration].
  unfold flushStreamUpdates. rewrite Nat.eqb_refl. cbn [negb].
  assert ((requestGeneration s =? S (requestGeneration s))%nat = false) as Hne
    by (apply Nat.eqb_neq; lia).
  repeat case_match; cbn [onMessageUpdate set_messages set_pending messages queue app foldl];
    rewrite Hq; cbn [app foldl apply_update]; by rewrite ?Hne, Nat.eqb_refl.
Qed.

Lemma stop_drops_pending_witness :
  getMessageContent <$> last (messages (render num_0 (stopGeneration id demo_streaming)))
  = Some [].
Proof.
  rewrite stop_drops_pending; [vm_compute; reflexivity|vm_compute; reflexivity].
Defined.

(** * What a turn sends *)

Lemma payload_app ms ms' config en :
  q_messages (buildChatCompletionPayload (ms ++ ms') config en)
  = q_messages (buildChatCompletionPayload ms config en)
    ++ q_messages (buildChatCompletionPayload ms' config en).
Proof. unfold buildChatCompletionPayload. cbn [q_messages]. by rewrite filter_app, fmap_app. Qed.

Lemma payload_loading key id now config en :
  q_messages (buildChatCompletionPayload [createLoadingAssistantMessage key id now] config en) = [].
Proof. done. Qed.

(** a request carries the conversation in order without the placeholder of
    the reply it asks for: a new turn sends the earlier messages and the user's
    text; a regeneration sends the messages up to the one it answers. *)
Theorem turn_payload config en ids now ms text key :
  q_messages (buildChatCompletionPayload (appendUserMessagePair ids now ms text) config en)
  = q_messages (buildChatCompletionPayload ms config en) ++ [mkChatMessage RUser text]
  ∧ ∀ next, createRegeneratedMessages ids now ms key = Some next →
    ∃ i m, ms !! i = Some m ∧ m_key m = key
      ∧ q_messages (buildChatCompletionPayload next config en)
        = q_messages (buildChatCompletionPayload
            (take (if bool_decide (m_from m = RUser) then i + 1 else i) ms) config en).
Proof.
  split.
  - unfold appendUserMessagePair. rewrite payload_app. f_equal.
  - intros next. unfold createRegeneratedMessages, index_of_key.
    destruct (list_find _ ms) as [[i m]|] eqn:E; [|done].
    apply list_find_Some in E as (Hm & Hk & _). intros Hn. exists i, m. split_and!; [done..|].
    destruct (bool_decide (m_from m = RUser)); simplify_eq;
      by rewrite payload_app, payload_loading, app_nil_r.
Qed.

Lemma turn_payload_witness :
  q_messages (buildChatCompletionPayload
    (appendUserMessagePair (mkIds [] [] [] []) num_0 [] (js "hi")) (demo_config true)
    (mkEnabled true true true true true true))
  = [mkChatMessage RUser (js "hi")].
Proof.
  exact (proj1 (turn_payload (demo_config true) (mkEnabled true true true true true true)
    (mkIds [] [] [] []) num_0 [] (js "hi") (js "k"))).
Defined.
