(* ===== verification/PgStorage.v ===== *)
(** Saved conversations of the playground: [lib/storage/storage.ts] and
    [lib/storage/storage-schema.ts] under [web/src/features/playground/].

    [localStorage] is the text stored under the messages key, if any.  The
    schemas are read as their library documents them: an object schema checks
    the listed fields and drops the others, and a number is finite. *)

From Stdlib Require Import ZArith NArith Lia SpecFloat.
From S2P Require Import Prelude JsString JsNumber JsValue JsRegex PgMessage PgMessageProps.

(** * Limits *)

Definition STORAGE_VERSION : Z := 1.
Definition MAX_STORED_MESSAGES : nat := 100.
Definition MAX_STORED_MESSAGES_BYTES : N := 1048576.
Definition MAX_LOADED_MESSAGES_CHARS : N := 120000.
Definition MAX_LOADED_MESSAGE_CHARS : N := 40000.

(** [s.length], in binary so that the limits compute *)
Definition text_length (s : jstr) : N := N.of_nat (length s).

(** * The message schema *)

Definition z_string (v : jsval) : option jstr := match v with VStr s => Some s | _ => None end.
Definition z_number (v : jsval) : option num :=
  match v with VNum n => if isFinite n then Some n else None | _ => None end.
Definition z_boolean (v : jsval) : option bool := match v with VBool b => Some b | _ => None end.

Definition z_optional {A} (p : jsval → option A) (v : jsval) : option (option A) :=
  match v with VUndef => Some None | _ => Some <$> p v end.
Definition z_nullable {A} (p : jsval → option A) (v : jsval) : option (option A) :=
  match v with VNull => Some None | _ => Some <$> p v end.
Definition z_array {A} (p : jsval → option A) (v : jsval) : option (list A) :=
  match v with VArr l => mapM p l | _ => None end.
Definition z_object {A} (p : (jstr → jsval) → option A) (v : jsval) : option A :=
  match v with VObj _ => p (prop v) | _ => None end.

Definition messageRoleSchema (v : jsval) : option MessageRole :=
  s ← z_string v;
  if bool_decide (s = js "user") then Some RUser
  else if bool_decide (s = js "assistant") then Some RAssistant
  else if bool_decide (s = js "system") then Some RSystem else None.

Definition messageStatusSchema (v : jsval) : option MessageStatus :=
  s ← z_string v;
  if bool_decide (s = js "loading") then Some Loading
  else if bool_decide (s = js "streaming") then Some Streaming
  else if bool_decide (s = js "complete") then Some Complete
  else if bool_decide (s = js "error") then Some Failed else None.

Definition messageVersionSchema : jsval → option MessageVersion := z_object (λ f,
  id ← z_string (f (js "id")); content ← z_string (f (js "content")); Some (mkVersion id content)).

Definition sourceSchema : jsval → option Source := z_object (λ f,
  h ← z_string (f (js "href")); ti ← z_string (f (js "title")); Some (mkSource h ti)).

Definition reasoningSchema : jsval → option Reasoning := z_object (λ f,
  content ← z_string (f (js "content"));
  duration ← z_number (f (js "duration"));
  started ← z_optional z_number (f (js "startedAt"));
  completed ← z_optional z_number (f (js "completedAt"));
  ms ← z_optional z_number (f (js "durationMs"));
  Some (mkReasoning content duration started completed ms)).

Definition messageSchema : jsval → option Message := z_object (λ f,
  key ← z_string (f (js "key"));
  from ← messageRoleSchema (f (js "from"));
  vs ← z_array messageVersionSchema (f (js "versions"));
  guard (vs ≠ []);;
  created ← z_optional z_number (f (js "createdAt"));
  started ← z_optional z_number (f (js "startedAt"));
  completed ← z_optional z_number (f (js "completedAt"));
  ms ← z_optional z_number (f (js "durationMs"));
  srcs ← z_optional (z_array sourceSchema) (f (js "sources"));
  r ← z_optional reasoningSchema (f (js "reasoning"));
  rs ← z_optional z_boolean (f (js "isReasoningStreaming"));
  rc ← z_optional z_boolean (f (js "isReasoningComplete"));
  cc ← z_optional z_boolean (f (js "isContentComplete"));
  st ← z_optional messageStatusSchema (f (js "status"));
  code ← z_optional (z_nullable z_string) (f (js "errorCode"));
  Some (mkMessage key from vs created started completed ms srcs r rs rc cc st code)).

Definition messagesSchema : jsval → option (list Message) := z_array messageSchema.

(** * Trimming *)

Definition trimMessages (messages : list Message) : list Message :=
  if (length messages <=? MAX_STORED_MESSAGES)%nat then messages
  else drop (length messages - MAX_STORED_MESSAGES) messages.

Definition getMessageSize (m : Message) : N :=
  (foldl (λ total v, total + text_length (v_content v)) 0 (versions m)
   + match reasoning m with Some r => text_length (r_content r) | None => 0 end)%N.

Definition TRUNCATED_CONTENT_SUFFIX : jstr := [10%N; 10%N] ++ js "[...]".

Definition truncateText (text : jstr) (maxLength : N) : jstr :=
  if (text_length text <=? maxLength)%N then text
  else if (maxLength <=? text_length TRUNCATED_CONTENT_SUFFIX)%N
  then take (N.to_nat maxLength) text
  else take (N.to_nat (maxLength - text_length TRUNCATED_CONTENT_SUFFIX)) text
       ++ TRUNCATED_CONTENT_SUFFIX.

(** The loop from the newest message; [result] is already in reading order. *)
Fixpoint size_loop (newest_first : list Message) (totalSize : N) (result : list Message)
    : list Message :=
  match newest_first with
  | [] => result
  | m :: older =>
      let size := getMessageSize m in
      if negb (bool_decide (result = []))
         && (MAX_LOADED_MESSAGES_CHARS <? totalSize + size)%N
      then result
      else size_loop older (totalSize + size) (m :: result)
  end.

Definition trimMessagesByContentSize (messages : list Message) : list Message :=
  size_loop (reverse messages) 0 [].

(** * Repeated snapshots *)

Definition MIN_PREFIX_COLLAPSE_LENGTH : N := 2000.
Definition MIN_REPEATED_SECTION_COUNT : nat := 3.

(** A heading line: two to six hash signs, blanks, a number, a point, blanks and
    a text up to the end of the line *)
Definition SECTION_HEADING_LINE_PATTERN : re :=
  seq [RLineBegin; between 2 4 (lit (js "#")); plus ws; plus digit; lit (js "."); plus ws;
       plus dot; RLineEnd].

Record SectionOccurrence := mkOccurrence { heading : jstr; occ_index : nat }.

Definition getSectionOccurrences (text : jstr) : list SectionOccurrence :=
  (λ x, mkOccurrence (r_text x.2) x.1) <$> match_all SECTION_HEADING_LINE_PATTERN text.

Definition getHeadingCounts (occurrences : list SectionOccurrence) : list (jstr * nat) :=
  foldl (λ counts o,
    omap.set counts (heading o) (S (default 0 (omap.get counts (heading o))))) [] occurrences.

(** The loop from the last occurrence *)
Fixpoint repeated_indexes (counts : list (jstr * nat)) (last_first : list SectionOccurrence)
    (seen : list jstr) : list nat :=
  match last_first with
  | [] => []
  | o :: earlier =>
      let count := default 0 (omap.get counts (heading o)) in
      if (count <? MIN_REPEATED_SECTION_COUNT)%nat || bool_decide (heading o ∈ seen)
      then repeated_indexes counts earlier seen
      else occ_index o :: repeated_indexes counts earlier (heading o :: seen)
  end.

Definition findLastRepeatedSectionRunStart (text : jstr) : option nat :=
  let occurrences := getSectionOccurrences text in
  match repeated_indexes (getHeadingCounts occurrences) (reverse occurrences) [] with
  | [] => None
  | i :: more => Some (foldl Nat.min i more)
  end.

Definition collapseRepeatedSectionSnapshots (text : jstr) : jstr :=
  if (text_length text <? MIN_PREFIX_COLLAPSE_LENGTH)%N then text
  else
    match findLastRepeatedSectionRunStart text with
    | None => text
    | Some start => slice_from text start
    end.

(** * Loading *)

Definition normalize_version (v : MessageVersion) : MessageVersion :=
  mkVersion (v_id v)
    (truncateText (collapseRepeatedSectionSnapshots (v_content v)) MAX_LOADED_MESSAGE_CHARS).

Definition normalize_reasoning (r : Reasoning) : Reasoning :=
  with_content r (truncateText (r_content r) MAX_LOADED_MESSAGE_CHARS).

(** Versions and reasoning are replaced only when one of them changed; when none
    did, the copies equal the originals, so the result is the same message. *)
Definition normalizeStoredMessageForLoad (now : num) (m : Message) : Message :=
  let normalized :=
    with_reasoning (normalize_reasoning <$> reasoning m)
      (with_versions (normalize_version <$> versions m) m) in
  if negb (isAssistantMessagePending normalized) then normalized
  else if negb (hasMessageContent normalized) && negb (truthy (trim (reasoning_text normalized)))
  then normalized
  else
    let completed :=
      default now
        (or_else (completedAt normalized)
           (or_else (r ← reasoning normalized; r_completedAt r)
              (or_else (startedAt normalized) (createdAt normalized)))) in
    completeAssistantTiming
      (with_reasoningStreaming false
         (with_status Complete (finalizeMessage normalized None now)))
      completed.

(** What reading the key does: nothing there, a text so long that it is removed,
    or a value *)
Inductive StoredMessages := NothingStored | TooLarge | NotJson | Stored (v : jsval).

Definition readStoredMessagesValue (saved : option jstr) : StoredMessages :=
  match saved with
  | None => NothingStored
  | Some text =>
      if negb (truthy text) then NothingStored
      else if (MAX_STORED_MESSAGES_BYTES <? text_length text)%N then TooLarge
      else match JSON_parse text with Some v => Stored v | None => NotJson end
  end.

Definition unwrapStoredValue (v : jsval) : jsval :=
  match v with
  | VObj o => if omap.has o (js "version") && omap.has o (js "data") then prop v (js "data") else v
  | _ => v
  end.

(** The messages a stored value stands for, before the unfinished reply is
    settled *)
Definition loadedMessages (now : num) (parsed : list Message) : list Message :=
  trimMessagesByContentSize
    (trimMessages (normalizeStoredMessageForLoad now <$> parsed)).

(** A message of the declared type passes the schema again when it has a
    version and its numbers are finite. *)
Definition opt_finite (n : option num) : bool := match n with Some n => isFinite n | None => true end.

Definition storable (m : Message) : bool :=
  match versions m with [] => false | _ => true end
  && opt_finite (createdAt m) && opt_finite (startedAt m) && opt_finite (completedAt m)
  && opt_finite (durationMs m)
  && match reasoning m with
     | Some r => isFinite (r_duration r) && opt_finite (r_startedAt r)
                 && opt_finite (r_completedAt r) && opt_finite (r_durationMs r)
     | None => true
     end.

(** [saveMessages]: the messages written, or nothing when the schema throws *)
Definition saveMessages (messages : list Message) : option (list Message) :=
  let trimmed := trimMessages messages in
  if forallb storable trimmed then Some trimmed else None.

(** [loadMessages]: the messages, and what is written back.  The array built by
    [trimMessagesByContentSize] is always a new one, so the comparison of the
    arrays that guards the write always succeeds. *)
Definition loadMessages (t : jstr → jstr) (now : num) (saved : option jstr)
    : option (list Message) * option (list Message) :=
  match readStoredMessagesValue saved with
  | NothingStored | TooLarge | NotJson => (None, None)
  | Stored v =>
      if negb (truthy_val v) then (None, None)
      else
        match messagesSchema (unwrapStoredValue v) with
        | None => (None, None)
        | Some parsed =>
            let sanitized := sanitizeMessagesOnLoad t now (loadedMessages now parsed) in
            (Some sanitized, saveMessages sanitized)
        end
  end.

(** * What loading guarantees *)

(** ** Sizes *)

Definition total_size (ms : list Message) : N := foldr (λ m n, getMessageSize m + n)%N 0%N ms.

Lemma total_size_app ms ms' : total_size (ms ++ ms') = (total_size ms + total_size ms')%N.
Proof.
  induction ms as [|m ms IH]; [done|]. cbn [app total_size foldr].
  fold (total_size (ms ++ ms')) (total_size ms). rewrite IH. lia.
Qed.

(** A list of messages that may be kept: within the limit, or a single one *)
Definition fits (ms : list Message) : Prop :=
  (total_size ms ≤ MAX_LOADED_MESSAGES_CHARS)%N ∨ length ms ≤ 1.

Lemma size_loop_spec nf total result :
  total = total_size result → fits result →
  ∃ kept dropped, nf = kept ++ dropped
    ∧ size_loop nf total result = reverse kept ++ result
    ∧ fits (reverse kept ++ result)
    ∧ ∀ m older, dropped = m :: older →
        reverse kept ++ result ≠ []
        ∧ (MAX_LOADED_MESSAGES_CHARS < total_size (m :: reverse kept ++ result))%N.
Proof.
  revert total result. induction nf as [|m nf IH]; intros total result Ht Hfit; cbn [size_loop].
  { exists [], []. by split_and!. }
  destruct (negb (bool_decide (result = [])) && (MAX_LOADED_MESSAGES_CHARS <? total + getMessageSize m)%N)
    eqn:E.
  - apply andb_true_iff in E as [E1 E2]. breflect. apply N.ltb_lt in E2.
    exists [], (m :: nf). split_and!; [done|done|done|]. intros ? ? [= <- <-]. cbn.
    fold (total_size result). split; [done|lia].
  - destruct (IH (total + getMessageSize m)%N (m :: result)) as (kept & dropped & -> & Hl & Hf & Hd).
    { cbn. fold (total_size result). lia. }
    { apply andb_false_iff in E as [E|E].
      - apply negb_false_iff, bool_decide_eq_true in E as ->. right. cbn. lia.
      - apply N.ltb_ge in E. left. cbn. fold (total_size result). lia. }
    exists (m :: kept), dropped. rewrite reverse_cons, <- app_assoc. by split_and!.
Qed.

Lemma trim_by_size ms :
  let kept := trimMessagesByContentSize ms in
  fits kept ∧ (ms ≠ [] → kept ≠ [])
  ∧ ∃ dropped, ms = dropped ++ kept
    ∧ ∀ older m, dropped = older ++ [m] →
        kept ≠ [] ∧ (MAX_LOADED_MESSAGES_CHARS < total_size (m :: kept))%N.
Proof.
  cbv zeta. unfold trimMessagesByContentSize.
  destruct (size_loop_spec (reverse ms) 0 []) as (kept & dropped & E & -> & Hf & Hd);
    [done|by right; cbn; lia|].
  rewrite app_nil_r in *. apply (f_equal reverse) in E.
  rewrite reverse_involutive, reverse_app in E. subst ms. split_and!; [done| |].
  - intros Hne Hk. apply (f_equal reverse) in Hk. rewrite reverse_involutive in Hk. subst kept.
    destruct dropped as [|m older]; [done|]. by destruct (Hd m older eq_refl) as [[] _].
  - exists (reverse dropped). split; [done|]. intros older m Ed.
    apply (Hd m (reverse older)). apply (f_equal reverse) in Ed.
    by rewrite reverse_involutive, reverse_app in Ed.
Qed.

(** the conversation kept on load is the longest run of its newest messages
    whose text stays within the limit, or the newest message alone when that one
    exceeds it. *)
Theorem keeps_longest_suffix ms :
  let kept := trimMessagesByContentSize ms in
  fits kept ∧ (ms ≠ [] → kept ≠ [])
  ∧ ∃ dropped, ms = dropped ++ kept
    ∧ ∀ older m, dropped = older ++ [m] →
        kept ≠ [] ∧ (MAX_LOADED_MESSAGES_CHARS < total_size (m :: kept))%N.
Proof. apply trim_by_size. Qed.

(** ** Texts *)

Lemma truncateText_length text n :
  (text_length (truncateText text n) ≤ n)%N.
Proof.
  unfold truncateText, text_length. destruct (N.leb_spec (N.of_nat (length text)) n); [done|].
  destruct (N.leb_spec n (N.of_nat (length TRUNCATED_CONTENT_SUFFIX))).
  - rewrite length_take. lia.
  - rewrite length_app, length_take. lia.
Qed.

Lemma length_trim s : length (trim s) ≤ length s.
Proof.
  destruct (trim_infix s) as (a & b & E). rewrite E at 2. rewrite !length_app. lia.
Qed.

Lemma length_visible sections rest u :
  length (concat sections.*1 ++ rest) ≤ length (tagged sections rest u).
Proof.
  induction sections as [|[v r] ss IH]; cbn [fmap list_fmap concat fst].
  - rewrite tagged_nil, !length_app. cbn [length]. lia.
  - rewrite tagged_cons. rewrite !length_app in *. lia.
Qed.

Lemma length_visibleContent content :
  length (visibleContent (parseThinkTags content)) ≤ length content.
Proof.
  destruct (think_loop_spec (S (length content)) content 0 [] []) as
    (sections & rest & u & vs' & [Ht _ _ _] & Hloop & Hvs'); [rewrite drop_0; lia|].
  unfold parseThinkTags. destruct (includes content OPEN_TAG); [|done]. cbn [negb].
  rewrite Hloop. cbn [visibleContent]. rewrite Hvs'. cbn [concat app]. rewrite drop_0 in Ht.
  etrans; [apply length_trim|]. rewrite Ht. apply length_visible.
Qed.

(** Every version of a message is at most [n] units long. *)
Definition versions_within (n : N) (m : Message) : Prop :=
  Forall (λ v, (text_length (v_content v) ≤ n)%N) (versions m).

Lemma versions_finalize m api now :
  versions (finalizeMessage m api now)
  = [mkVersion (v_id (getCurrentVersion m))
       (if includes (getMessageContent m) OPEN_TAG
        then visibleContent (parseThinkTags (getMessageContent m)) else getMessageContent m)].
Proof.
  unfold finalizeMessage, getMessageContent.
  generalize (parseThinkTags (v_content (getCurrentVersion m))). intros p.
  unfold completeReasoningTiming. cbn [reasoning with_reasoning with_reasoningStreaming].
  by repeat case_match; simplify_eq.
Qed.

Lemma current_within n m : versions_within n m → (text_length (getMessageContent m) ≤ n)%N.
Proof.
  unfold versions_within, getMessageContent, getCurrentVersion.
  destruct 1; [apply N.le_0_l|done].
Qed.

Lemma normalize_within now m :
  versions_within MAX_LOADED_MESSAGE_CHARS (normalizeStoredMessageForLoad now m).
Proof.
  unfold normalizeStoredMessageForLoad. cbv zeta.
  set (nm := with_reasoning _ _).
  assert (versions_within MAX_LOADED_MESSAGE_CHARS nm) as Hn.
  { unfold versions_within, nm. cbn [versions with_reasoning with_versions].
    apply Forall_fmap, Forall_true. intros v. apply truncateText_length. }
  clearbody nm. destruct (isAssistantMessagePending nm); [|done]. cbn [negb].
  destruct (negb (hasMessageContent nm) && _); [done|].
  unfold versions_within, completeAssistantTiming. case_match;
    cbn [versions with_timing with_reasoningStreaming with_status];
    rewrite versions_finalize; (constructor; [|done]); cbn [v_content];
    apply current_within in Hn; (case_match; [|done]);
    pose proof (length_visibleContent (getMessageContent nm)); unfold text_length in *; lia.
Qed.

(** whatever was stored, at most a hundred messages are loaded, the newest
    ones in their order, each version within its limit and the whole within
    the total limit or a single message; something is loaded when something was
    stored. *)
Theorem loaded_within_limits now parsed :
  let ms := loadedMessages now parsed in
  length ms ≤ MAX_STORED_MESSAGES
  ∧ fits ms
  ∧ Forall (versions_within MAX_LOADED_MESSAGE_CHARS) ms
  ∧ ms `suffix_of` (normalizeStoredMessageForLoad now <$> parsed)
  ∧ (parsed ≠ [] → ms ≠ []).
Proof.
  cbv zeta. unfold loadedMessages. set (nms := normalizeStoredMessageForLoad now <$> parsed).
  assert (trimMessages nms `suffix_of` nms ∧ length (trimMessages nms) ≤ MAX_STORED_MESSAGES
          ∧ (nms ≠ [] → trimMessages nms ≠ [])) as (Hsuf & Hlen & Hne).
  { unfold trimMessages. destruct (Nat.leb_spec (length nms) MAX_STORED_MESSAGES); [done|].
    split_and!.
    - exists (take (length nms - MAX_STORED_MESSAGES) nms). by rewrite take_drop.
    - rewrite length_drop. lia.
    - intros _ E. apply (f_equal length) in E. rewrite length_drop in E.
      unfold MAX_STORED_MESSAGES in *. cbn in E. lia. }
  destruct (trim_by_size (trimMessages nms)) as (Hfit & Hne2 & dropped & E & _).
  assert (trimMessagesByContentSize (trimMessages nms) `suffix_of` nms) as Hs.
  { etrans; [|exact Hsuf]. by exists dropped. }
  split_and!; [|done| |done|].
  - apply suffix_length in Hs. etrans; [|exact Hlen].
    rewrite E at 2. rewrite length_app. lia.
  - assert (Forall (versions_within MAX_LOADED_MESSAGE_CHARS) nms) as Hall.
    { apply Forall_fmap, Forall_true. intros m. apply normalize_within. }
    destruct Hs as [k Hk]. rewrite Hk in Hall. by apply Forall_app in Hall as [_ ?].
  - intros Hp. apply Hne2, Hne. unfold nms. by destruct parsed.
Qed.
