(* ===== verification/BillingExpr.v ===== *)
(** Billing expressions: [web/src/features/pricing/lib/billing-expr.ts].

    The request rules of an expression, their parser and printer, the split of
    an expression into base and rules, and the reading of its tiers.  In the
    literals below an apostrophe stands for the double quote. *)

From Stdlib Require Import ZArith NArith Lia SpecFloat.
From S2P Require Import Prelude JsString JsNumber JsValue JsRegex.

(** * Variables *)

Inductive Side := SideInput | SideOutput | SideCondition.

Record BillingVar := mkVar {
  var_key : jstr;
  field : option jstr;
  tierField : option jstr;
  var_label : jstr;
  shortLabel : jstr;
  side : Side;
  isBase : bool;
  isConditionOnly : bool;
  var_group : option jstr;
}.

Definition base_var k f tf l sl sd : BillingVar :=
  mkVar (js k) (Some (js f)) (Some (js tf)) (js l) (js sl) sd true false None.
Definition group_var k f tf l sl sd g : BillingVar :=
  mkVar (js k) (Some (js f)) (Some (js tf)) (js l) (js sl) sd false false (Some (js g)).

Definition BILLING_VARS : list BillingVar :=
  [base_var "p" "inputPrice" "input_unit_cost" "Input price" "Input" SideInput;
   base_var "c" "outputPrice" "output_unit_cost" "Completion price" "Output" SideOutput;
   mkVar (js "len") None None (js "Input length") (js "Length") SideCondition false true None;
   group_var "cr" "cacheReadPrice" "cache_read_unit_cost" "Cache read price" "Cache Read"
     SideInput "cache";
   group_var "cc" "cacheCreatePrice" "cache_create_unit_cost" "Cache create price" "Cache Write"
     SideInput "cache";
   group_var "cc1h" "cacheCreate1hPrice" "cache_create_1h_unit_cost" "Cache create (1h) price"
     "Cache Write (1h)" SideInput "cache";
   group_var "img" "imagePrice" "image_unit_cost" "Image input price" "Image In" SideInput "media";
   group_var "img_o" "imageOutputPrice" "image_output_unit_cost" "Image output price" "Image Out"
     SideOutput "media";
   group_var "ai" "audioInputPrice" "audio_input_unit_cost" "Audio input price" "Audio In"
     SideInput "media";
   group_var "ao" "audioOutputPrice" "audio_output_unit_cost" "Audio output price" "Audio Out"
     SideOutput "media"].

Definition BILLING_PRICING_VARS : list BillingVar :=
  filter (λ v, isConditionOnly v = false) BILLING_VARS.

Definition BILLING_CONDITION_VARS : list jstr :=
  var_key <$> filter (λ v, isBase v || isConditionOnly v = true) BILLING_VARS.

Definition BILLING_EXTRA_VARS : list BillingVar :=
  filter (λ v, isBase v = false ∧ isConditionOnly v = false) BILLING_VARS.

(** * Numbers in expressions *)

(** The class of the units of a number *)
Definition num_unit (c : N) : bool := is_digit c || bool_decide (c ∈ js ".eE+-").
Definition num_text : re := plus (RClass num_unit).

Definition NUMERIC_LITERAL_REGEX : re :=
  seq [RBegin; opt (lit (js "-"));
       RAlt (seq [plus digit; opt (lit (js ".")); RStar digit]) (seq [lit (js "."); plus digit]);
       opt (seq [one_of (js "eE"); opt (one_of (js "+-")); plus digit]); REnd].

Definition is_numeric (s : jstr) : bool := test NUMERIC_LITERAL_REGEX s.

(** * Request rules *)

Definition MATCH_EQ : jstr := js "eq".
Definition MATCH_CONTAINS : jstr := js "contains".
Definition MATCH_GT : jstr := js "gt".
Definition MATCH_GTE : jstr := js "gte".
Definition MATCH_LT : jstr := js "lt".
Definition MATCH_LTE : jstr := js "lte".
Definition MATCH_EXISTS : jstr := js "exists".
Definition MATCH_RANGE : jstr := js "range".

Definition TIME_FUNCS : list jstr := [js "hour"; js "minute"; js "weekday"; js "month"; js "day"].

Inductive RuleSource := FromParam | FromHeader.

Inductive RequestCondition :=
  | TimeCondition (timeFunc timezone mode value rangeStart rangeEnd : jstr)
  | ParamHeaderCondition (source : RuleSource) (path mode value : jstr).

(** The optional [conditionText] and [matched], which only the display of a
    usage log's trace sets, are left out. *)
Record RequestRuleGroup := mkGroup { conditions : list RequestCondition; multiplier : jstr }.

(** ** Splitting at the top level

    The loop over the units: [depth] counts parentheses, a separator at depth 0
    ends a part; [part] is the current one in reverse, [skip] the units of a
    separator still to be passed over. *)
Fixpoint split_loop (sep : jstr) (depth : Z) (skip : nat) (part : jstr) (s : jstr) : list jstr :=
  match s with
  | [] => [trim (reverse part)]
  | c :: r =>
      match skip with
      | S skip => split_loop sep depth skip part r
      | 0 =>
          let depth := if (c =? 40)%N then (depth + 1)%Z else depth in
          let depth := if (c =? 41)%N then (depth - 1)%Z else depth in
          if (depth =? 0)%Z && bool_decide (take (length sep) s = sep)
          then trim (reverse part) :: split_loop sep depth (length sep - 1) [] r
          else split_loop sep depth 0 (c :: part) r
      end
  end.

Definition split_top (sep expr : jstr) : list jstr :=
  filter (λ p, p ≠ []) (split_loop sep 0 0 [] expr).

Definition splitTopLevelMultiply : jstr → list jstr := split_top (js " * ").
Definition splitTopLevelAnd : jstr → list jstr := split_top (js " && ").

(** ** Parsing conditions *)

(** The parser may reject a text ([null]) or throw: [JSON.parse] is called on
    quoted texts outside any [try]. *)
Inductive parsed (A : Type) := Threw | Rejected | Parsed (a : A).
Arguments Threw {A}.
Arguments Rejected {A}.
Arguments Parsed {A} a.

(** [None] is [null]. *)
Definition parseExprLiteral (raw : jstr) : option jsval :=
  let text := trim raw in
  if bool_decide (text = js "true") || bool_decide (text = js "false") then Some (VStr text)
  else if is_numeric text then Some (VStr text)
  else match JSON_parse text with Some VNull | None => None | Some v => Some v end.

Definition time_func : re := alt (lit <$> TIME_FUNCS).
Definition quoted_name (n : nat) : re := RGroup n (plus (not_unit QUOTE)).

(** [f("tz") >= a || f("tz") < b], alone and in parentheses, and [f("tz") op a] *)
Definition time_range_body : list re :=
  [RGroup 1 time_func; lit (jq "('"); quoted_name 2; lit (jq "') >= "); RGroup 3 num_text;
   lit (jq " || "); RBackref 1; lit (jq "('"); RBackref 2; lit (jq "') < "); RGroup 4 num_text].
Definition time_range_re : re := seq (RBegin :: time_range_body ++ [REnd]).
Definition time_range_paren_re : re :=
  seq (RBegin :: lit (js "(") :: time_range_body ++ [lit (js ")"); REnd]).
Definition time_compare_re : re :=
  seq [RBegin; RGroup 1 time_func; lit (jq "('"); quoted_name 2; lit (jq "') ");
       RGroup 3 (alt [lit (js "=="); lit (js ">="); lit (js "<")]); lit (js " ");
       RGroup 4 num_text; REnd].

Definition cap (res : rresult) (n : nat) : jstr := default [] (group res n).

Definition tryParseTimeCondition (expr : jstr) : option RequestCondition :=
  let range '((_, res) : nat * rresult) :=
    TimeCondition (cap res 1) (cap res 2) MATCH_RANGE [] (cap res 3) (cap res 4) in
  match exec time_range_re expr with
  | Some m => Some (range m)
  | None =>
      match exec time_range_paren_re expr with
      | Some m => Some (range m)
      | None =>
          match exec time_compare_re expr with
          | Some (_, res) =>
              let mode :=
                if bool_decide (cap res 3 = js ">=") then MATCH_GTE
                else if bool_decide (cap res 3 = js "<") then MATCH_LT else MATCH_EQ in
              Some (TimeCondition (cap res 1) (cap res 2) mode (cap res 4) [] [])
          | None => None
          end
      end
  end.

Definition header_exists_re : re :=
  seq [RBegin; lit (jq "header('"); quoted_name 1; lit (jq "') != ''"); REnd].
Definition param_exists_re : re :=
  seq [RBegin; lit (jq "param('"); quoted_name 1; lit (jq "') != nil"); REnd].

(** A quoted text: units other than quote and backslash, or escaped units *)
Definition json_string_re : re :=
  seq [unit QUOTE; RStar (RAlt (RClass (λ c, negb (c =? QUOTE)%N && negb (c =? 92)%N))
                               (seq [unit 92%N; dot])); unit QUOTE].

Definition header_contains_re : re :=
  seq [RBegin; lit (jq "has(header('"); quoted_name 1; lit (jq "'), "); RGroup 2 json_string_re;
       lit (js ")"); REnd].
Definition param_contains_re : re :=
  seq [RBegin; lit (jq "param('"); quoted_name 1; lit (jq "') != nil && has(param('");
       quoted_name 2; lit (jq "'), "); RGroup 3 json_string_re; lit (js ")"); REnd].
Definition param_compare_re : re :=
  seq [RBegin; lit (jq "param('"); quoted_name 1; lit (jq "') != nil && param('");
       quoted_name 2; lit (jq "') ");
       RGroup 3 (alt [lit (js ">"); lit (js ">="); lit (js "<"); lit (js "<=")]); lit (js " ");
       RGroup 4 num_text; REnd].
Definition equals_re : re :=
  seq [RBegin; RGroup 1 (RAlt (lit (js "param")) (lit (js "header"))); lit (jq "('");
       quoted_name 2; lit (jq "') == "); RGroup 3 (plus dot); REnd].

(** [JSON.parse] of a quoted text *)
Definition with_json (text : jstr) (f : jstr → RequestCondition) : parsed RequestCondition :=
  match JSON_parse text with Some v => Parsed (f (string_of_val v)) | None => Threw end.

Definition compare_mode (op : jstr) : jstr :=
  if bool_decide (op = js ">") then MATCH_GT
  else if bool_decide (op = js ">=") then MATCH_GTE
  else if bool_decide (op = js "<") then MATCH_LT else MATCH_LTE.

(** The expressions tried in order.  Those that compare two captured names go
    on to the next when the names differ. *)
Definition tryParseEquals (expr : jstr) : parsed RequestCondition :=
  match exec equals_re expr with
  | Some (_, res) =>
      match parseExprLiteral (cap res 3) with
      | None => Rejected
      | Some v =>
          Parsed (ParamHeaderCondition
                    (if bool_decide (cap res 1 = js "param") then FromParam else FromHeader)
                    (cap res 2) MATCH_EQ (string_of_val v))
      end
  | None => Rejected
  end.

Definition tryParseParamCompare (expr : jstr) : parsed RequestCondition :=
  match exec param_compare_re expr with
  | Some (_, res) =>
      if bool_decide (cap res 1 = cap res 2)
      then Parsed (ParamHeaderCondition FromParam (cap res 1) (compare_mode (cap res 3)) (cap res 4))
      else tryParseEquals expr
  | None => tryParseEquals expr
  end.

Definition tryParseParamContains (expr : jstr) : parsed RequestCondition :=
  match exec param_contains_re expr with
  | Some (_, res) =>
      if bool_decide (cap res 1 = cap res 2)
      then with_json (cap res 3) (ParamHeaderCondition FromParam (cap res 1) MATCH_CONTAINS)
      else tryParseParamCompare expr
  | None => tryParseParamCompare expr
  end.

Definition tryParseRequestCondition (expr : jstr) : parsed RequestCondition :=
  match tryParseTimeCondition expr with
  | Some tc => Parsed tc
  | None =>
      match exec header_exists_re expr with
      | Some (_, res) => Parsed (ParamHeaderCondition FromHeader (cap res 1) MATCH_EXISTS [])
      | None =>
          match exec param_exists_re expr with
          | Some (_, res) => Parsed (ParamHeaderCondition FromParam (cap res 1) MATCH_EXISTS [])
          | None =>
              match exec header_contains_re expr with
              | Some (_, res) =>
                  with_json (cap res 2)
                    (ParamHeaderCondition FromHeader (cap res 1) MATCH_CONTAINS)
              | None => tryParseParamContains expr
              end
          end
      end
  end.

(** A loop over parts that stops at the first failure *)
Fixpoint parse_each {A} (f : jstr → parsed A) (parts : list jstr) : parsed (list A) :=
  match parts with
  | [] => Parsed []
  | p :: rest =>
      match f p with
      | Threw => Threw
      | Rejected => Rejected
      | Parsed x =>
          match parse_each f rest with
          | Threw => Threw
          | Rejected => Rejected
          | Parsed xs => Parsed (x :: xs)
          end
      end
  end.

Definition tryParseRequestConditions (conditionStr : jstr) : parsed (list RequestCondition) :=
  match parse_each (λ p, tryParseRequestCondition (trim p)) (splitTopLevelAnd conditionStr) with
  | Parsed [] => Rejected
  | r => r
  end.

Definition rule_factor_re : re :=
  seq [RBegin; lit (js "("); RGroup 1 (plus any); lit (js " ? "); RGroup 2 num_text;
       lit (js " : 1)"); REnd].

Definition tryParseRuleGroupFactor (part : jstr) : parsed RequestRuleGroup :=
  match exec rule_factor_re part with
  | None => Rejected
  | Some (_, res) =>
      match tryParseRequestConditions (cap res 1) with
      | Threw => Threw
      | Rejected => Rejected
      | Parsed cs => Parsed (mkGroup cs (cap res 2))
      end
  end.

Definition tryParseRequestRuleExpr (expr : jstr) : parsed (list RequestRuleGroup) :=
  let trimmed := trim expr in
  if negb (truthy trimmed) then Parsed []
  else parse_each tryParseRuleGroupFactor (splitTopLevelMultiply trimmed).

(** ** Base expression and rules *)

Fixpoint parens_loop (depth : Z) (s : jstr) : bool :=
  match s with
  | [] => (depth =? 0)%Z
  | c :: r =>
      let depth := if (c =? 40)%N then (depth + 1)%Z else depth in
      let depth := if (c =? 41)%N then (depth - 1)%Z else depth in
      if (depth =? 0)%Z && truthy r then false else parens_loop depth r
  end.

Definition hasFullOuterParens (expr : jstr) : bool :=
  if negb (startsWith expr (js "(")) || negb (endsWith expr (js ")")) then false
  else parens_loop 0 expr.

(** [current.slice(1, -1)] *)
Definition inner (s : jstr) : jstr := take (length s - 2) (drop 1 s).

(** Each turn removes two units, so the length of the text bounds the turns. *)
Fixpoint unwrap_loop (fuel : nat) (current : jstr) : jstr :=
  match fuel with
  | 0 => current
  | S fuel =>
      if hasFullOuterParens current then unwrap_loop fuel (trim (inner current)) else current
  end.

Definition unwrapOuterParens (expr : jstr) : jstr := unwrap_loop (length expr) (trim expr).

(** One part of the expression is a rule when it parses to some groups. *)
Definition is_rule_part (part : jstr) : option bool :=
  match tryParseRequestRuleExpr part with
  | Threw => None
  | Parsed (_ :: _) => Some true
  | Parsed [] | Rejected => Some false
  end.

(** [None] when parsing a part throws. *)
Fixpoint classify (parts : list jstr) : option (list jstr * list jstr) :=
  match parts with
  | [] => Some ([], [])
  | p :: rest =>
      b ← is_rule_part p;
      '(rules, bases) ← classify rest;
      Some (if (b : bool) then (p :: rules, bases) else (rules, p :: bases))
  end.

(** Base and rules; [None] when the parser throws *)
Definition splitBillingExprAndRequestRules (expr : jstr) : option (jstr * jstr) :=
  let trimmed := trim expr in
  if negb (truthy trimmed) then Some ([], [])
  else
    let parts := splitTopLevelMultiply trimmed in
    if (length parts <=? 1)%nat then Some (trimmed, [])
    else
      '(rules, bases) ← classify parts;
      match rules, bases with
      | _ :: _, [base] => Some (unwrapOuterParens base, join (js " * ") rules)
      | _, _ => Some (trimmed, [])
      end.

Definition combineBillingExpr (baseExpr requestRuleExpr : jstr) : jstr :=
  let base := trim baseExpr in
  let rules := trim requestRuleExpr in
  if negb (truthy base) then []
  else if negb (truthy rules) then base
  else js "(" ++ base ++ js ") * " ++ rules.

(** ** Building *)

Definition createEmptyCondition : RequestCondition := ParamHeaderCondition FromParam [] MATCH_EQ [].
Definition createEmptyTimeCondition : RequestCondition :=
  TimeCondition (js "hour") (js "Asia/Shanghai") MATCH_GTE [] [] [].
Definition createEmptyRuleGroup : RequestRuleGroup := mkGroup [createEmptyCondition] [].
Definition createEmptyTimeRuleGroup : RequestRuleGroup := mkGroup [createEmptyTimeCondition] [].

(** The values of the options offered for a source; [None] is the time source. *)
Definition getRequestRuleMatchOptions (source : option RuleSource) : list jstr :=
  match source with
  | None => [MATCH_EQ; MATCH_GTE; MATCH_LT; MATCH_RANGE]
  | Some FromHeader => [MATCH_EQ; MATCH_CONTAINS; MATCH_EXISTS]
  | Some FromParam =>
      [MATCH_EQ; MATCH_CONTAINS; MATCH_EXISTS; MATCH_GT; MATCH_GTE; MATCH_LT; MATCH_LTE]
  end.

Definition isTimeFunc (f : jstr) : bool := bool_decide (f ∈ TIME_FUNCS).

(** On a condition whose fields are all present *)
Definition normalizeCondition (cond : RequestCondition) : RequestCondition :=
  match cond with
  | TimeCondition f tz mode v s e =>
      TimeCondition (if isTimeFunc f then f else js "hour")
        (if truthy tz then tz else js "Asia/Shanghai")
        (if bool_decide (mode ∈ getRequestRuleMatchOptions None) then mode else MATCH_GTE) v s e
  | ParamHeaderCondition src path mode v =>
      ParamHeaderCondition src path
        (if bool_decide (mode ∈ getRequestRuleMatchOptions (Some src)) then mode else MATCH_EQ) v
  end.

Definition buildExprLiteral (mode value : jstr) : jstr :=
  let text := trim value in
  if bool_decide (mode = MATCH_CONTAINS) then JSON_quote text
  else if bool_decide (text = js "true") || bool_decide (text = js "false") then text
  else if is_numeric text then text
  else JSON_quote text.

Definition time_op (mode : jstr) : jstr :=
  if bool_decide (mode = MATCH_GTE) then js ">="
  else if bool_decide (mode = MATCH_LT) then js "<" else js "==".

(** The call [f("tz")] of a normalised condition *)
Definition time_call (f tz : jstr) : jstr := f ++ js "(" ++ JSON_quote tz ++ js ")".

Definition buildTime (f tz mode v s e : jstr) : jstr :=
  let fn := time_call f tz in
  if bool_decide (mode = MATCH_RANGE) then
    if negb (is_numeric (trim s)) || negb (is_numeric (trim e)) then []
    else fn ++ js " >= " ++ trim s ++ js " || " ++ fn ++ js " < " ++ trim e
  else if negb (is_numeric (trim v)) then []
  else fn ++ js " " ++ time_op mode ++ js " " ++ trim v.

Definition compare_op (mode : jstr) : jstr :=
  if bool_decide (mode = MATCH_GT) then js ">"
  else if bool_decide (mode = MATCH_GTE) then js ">="
  else if bool_decide (mode = MATCH_LT) then js "<" else js "<=".

Definition source_name (src : RuleSource) : jstr :=
  match src with FromParam => js "param" | FromHeader => js "header" end.

Definition buildParamHeader (src : RuleSource) (path mode value : jstr) : jstr :=
  let path := trim path in
  if negb (truthy path) then []
  else
    let sourceExpr := source_name src ++ js "(" ++ JSON_quote path ++ js ")" in
    if bool_decide (mode = MATCH_EXISTS) then
      match src with FromHeader => sourceExpr ++ jq " != ''" | FromParam => sourceExpr ++ js " != nil" end
    else if bool_decide (mode = MATCH_CONTAINS) then
      let has := js "has(" ++ sourceExpr ++ js ", " ++ buildExprLiteral mode value ++ js ")" in
      match src with FromHeader => has | FromParam => sourceExpr ++ js " != nil && " ++ has end
    else if bool_decide (mode ∈ [MATCH_GT; MATCH_GTE; MATCH_LT; MATCH_LTE]) then
      let numText := trim value in
      if negb (is_numeric numText) then []
      else sourceExpr ++ js " != nil && " ++ sourceExpr ++ js " " ++ compare_op mode ++ js " "
           ++ numText
    else sourceExpr ++ js " == " ++ buildExprLiteral mode value.

Definition buildRequestConditionExpr (cond : RequestCondition) : jstr :=
  match normalizeCondition cond with
  | TimeCondition f tz mode v s e => buildTime f tz mode v s e
  | ParamHeaderCondition src path mode v => buildParamHeader src path mode v
  end.

Definition protect (e : jstr) : jstr :=
  if includes e (js " || ") then js "(" ++ e ++ js ")" else e.

Definition buildRuleGroupFactor (g : RequestRuleGroup) : jstr :=
  let mult := trim (multiplier g) in
  if negb (is_numeric mult) then []
  else
    match filter (λ e, e ≠ []) (buildRequestConditionExpr <$> conditions g) with
    | [] => []
    | es =>
        let combined := match es with [e] => e | _ => join (js " && ") (protect <$> es) end in
        js "(" ++ combined ++ js " ? " ++ mult ++ js " : 1)"
    end.

Definition buildRequestRuleExpr (groups : list RequestRuleGroup) : jstr :=
  join (js " * ") (filter (λ f, f ≠ []) (buildRuleGroupFactor <$> groups)).

(** * Tiers *)

Record TierConditionT := mkTierCondition { tc_var : jstr; tc_op : jstr; tc_value : num }.

Record ParsedTier := mkTier {
  tier_label : jstr;
  tier_conditions : list TierConditionT;
  tier_fields : list (jstr * num);
}.

Definition version_re : re :=
  seq [RBegin; lit (js "v"); RGroup 1 (plus digit); lit (js ":"); RGroup 2 (RStar any); REnd].

Definition stripExprVersion (exprStr : jstr) : num * jstr :=
  if negb (truthy exprStr) then (num_of_Z 1, [])
  else
    match exec version_re exprStr with
    | Some (_, res) => (Number_of_text (cap res 1), cap res 2)
    | None => (num_of_Z 1, exprStr)
    end.

Definition BILLING_VAR_REGEX : re :=
  seq [RWordBoundary; RGroup 1 (alt ((λ v, lit (var_key v)) <$> BILLING_PRICING_VARS));
       RStar ws; lit (js "*"); RStar ws; RGroup 2 num_text].

(** The first coefficient of each variable *)
Definition coefficients (bodyStr : jstr) : list (jstr * num) :=
  foldl (λ coeffs '((_, res) : nat * rresult),
    if omap.has coeffs (cap res 1) then coeffs
    else omap.set coeffs (cap res 1) (Number_of_text (cap res 2)))
    [] (match_all BILLING_VAR_REGEX bodyStr).

(** [n || 0] *)
Definition or_zero (n : option num) : num :=
  match n with Some n => if num_truthy n then n else num_0 | None => num_0 end.

Definition parseTierBody (bodyStr : jstr) : list (jstr * num) :=
  let coeffs := coefficients bodyStr in
  (λ v, (default [] (field v), or_zero (omap.get coeffs (var_key v)))) <$> BILLING_PRICING_VARS.

Definition cond_var : re := alt [lit (js "p"); lit (js "c"); lit (js "len")].
Definition cond_op : re := alt [lit (js "<"); lit (js "<="); lit (js ">"); lit (js ">=")].
Definition cond_num : re := plus (RClass (λ c, is_digit c || bool_decide (c ∈ js ".eE+"))).
Definition cond_re : re := seq [cond_var; RStar ws; cond_op; RStar ws; cond_num].
Definition cond_group_re : re :=
  RGroup 1 (seq [cond_re; RStar (seq [RStar ws; lit (js "&&"); RStar ws; cond_re])]).

Definition tier_re : re :=
  seq [opt (seq [cond_group_re; RStar ws; lit (js "?"); RStar ws]); lit (jq "tier('");
       RGroup 2 (RStar (not_unit QUOTE)); lit (jq "',"); RStar ws;
       RGroup 3 (plus (not_unit 41%N)); lit (js ")")].

Definition cond_part_re : re :=
  seq [RBegin; RGroup 1 cond_var; RStar ws; RGroup 2 cond_op; RStar ws; RGroup 3 cond_num; REnd].

(** [condStr.split(/\s*&&\s*/)]: the text between the matches *)
Fixpoint split_matches (s : jstr) (from : nat) (ms : list (nat * rresult)) : list jstr :=
  match ms with
  | [] => [slice_from s from]
  | (i, res) :: ms => slice s from i :: split_matches s (i + length (r_text res)) ms
  end.

Definition and_re : re := seq [RStar ws; lit (js "&&"); RStar ws].

Definition parse_tier_conditions (condStr : jstr) : list TierConditionT :=
  if negb (truthy condStr) then []
  else
    omap (λ cp,
      match exec cond_part_re (trim cp) with
      | Some (_, cm) => Some (mkTierCondition (cap cm 1) (cap cm 2) (Number_of_text (cap cm 3)))
      | None => None
      end) (split_matches condStr 0 (match_all and_re condStr)).

Definition parseTiersFromExpr (exprStr : jstr) : list ParsedTier :=
  if negb (truthy exprStr) then []
  else
    let '(_, body) := stripExprVersion exprStr in
    (λ '((_, m) : nat * rresult),
       mkTier (cap m 2) (parse_tier_conditions (cap m 1)) (parseTierBody (cap m 3)))
    <$> match_all tier_re body.

(** ** Examples *)

Example tiers_example :
  (λ t, (tier_label t, tier_conditions t, omap.get (tier_fields t) (js "inputPrice"),
         omap.get (tier_fields t) (js "cacheReadPrice"))) <$>
  parseTiersFromExpr (jq "v1:len <= 200000 && p > 1e3 ? tier('base', p * 1.25 + c * 10 + cr * 0.5) : tier('long', p*2.5 + c*15)")
  = [(js "base", [mkTierCondition (js "len") (js "<=") (num_of_Z 200000);
                  mkTierCondition (js "p") (js ">") (num_of_Z 1000)],
      Some (num_of_decimal 125 (-2)), Some (num_of_decimal 5 (-1)));
     (js "long", [], Some (num_of_decimal 25 (-1)), Some num_0)].
Proof. vm_compute. reflexivity. Qed.

Definition demo_group : RequestRuleGroup :=
  mkGroup [TimeCondition (js "hour") (js "Asia/Shanghai") MATCH_RANGE [] (js "22") (js "6");
           ParamHeaderCondition FromHeader (js "x-tier") MATCH_CONTAINS (js "pro");
           ParamHeaderCondition FromParam (js "stream") MATCH_EQ (js "true")] (js "0.5").

Example rules_round_trip :
  tryParseRequestRuleExpr (buildRequestRuleExpr [demo_group; demo_group])
  = Parsed [demo_group; demo_group].
Proof. vm_compute. reflexivity. Qed.

Example split_example :
  splitBillingExprAndRequestRules
    (combineBillingExpr (jq "tier('base', p * 2 + c * 3)") (buildRequestRuleExpr [demo_group]))
  = Some (jq "tier('base', p * 2 + c * 3)", buildRequestRuleExpr [demo_group]).
Proof. vm_compute. reflexivity. Qed.

Example compare_rule_lost :
  tryParseRequestRuleExpr
    (buildRequestRuleExpr
       [mkGroup [ParamHeaderCondition FromParam (js "max_tokens") MATCH_GT (js "5")] (js "2")])
  = Rejected.
Proof. vm_compute. reflexivity. Qed.
