(* ===== verification/BillingProps.v ===== *)
(** What the request rules of billing expressions guarantee: rules are read back
    as they were built, a base and its rules are separated again, and which
    rules the builder produces that the parser cannot read. *)

From Stdlib Require Import ZArith NArith Lia SpecFloat.
From S2P Require Import Prelude JsString JsNumber JsValue JsRegex BillingExpr.

(** * Plain texts *)

(** Letters, digits and the punctuation of names, paths, zones and numbers *)
Definition plain (c : N) : bool := is_word c || bool_decide (c ∈ js "./-:+@").
Definition plain_text (s : jstr) : Prop := Forall (λ c, plain c = true) s.

Create HintDb plain.

(** [plain] as ranges and values, for arithmetic *)
Lemma plain_range c :
  plain c = true →
  (48 ≤ c ≤ 57 ∨ 65 ≤ c ≤ 90 ∨ 97 ≤ c ≤ 122 ∨ c = 95 ∨ c = 46 ∨ c = 47 ∨ c = 45 ∨ c = 58
   ∨ c = 43 ∨ c = 64)%N.
Proof.
  unfold plain, is_word, is_digit. rewrite !orb_true_iff, !andb_true_iff, bool_decide_eq_true.
  rewrite !N.leb_le, N.eqb_eq. intros [H|H]; [lia|].
  change (js "./-:+@") with [46; 47; 45; 58; 43; 64]%N in H. set_solver.
Qed.

Lemma plain_ne c : plain c = true →
  c ≠ QUOTE ∧ c ≠ 92%N ∧ c ≠ 32%N ∧ c ≠ 40%N ∧ c ≠ 41%N ∧ c ≠ 63%N ∧ c ≠ 38%N ∧ c ≠ 124%N ∧ c ≠ 42%N.
Proof. intros H%plain_range. unfold QUOTE. lia. Qed.

Lemma plain_not_ws c : plain c = true → is_ws c = false.
Proof.
  intros H%plain_range. unfold is_ws.
  repeat match goal with
  | |- (_ || _) = false => apply orb_false_iff; split
  | |- (_ && _) = false => apply andb_false_iff
  | |- (?a =? ?b)%N = false => apply N.eqb_neq; lia
  end.
  all: rewrite ?N.leb_gt; lia.
Qed.

Lemma plain_trim s : plain_text s → trim s = s.
Proof.
  intros H. apply trim_id, trimmed_no_ws. eapply Forall_impl; [exact H|].
  intros c Hc. by apply plain_not_ws.
Qed.

Lemma escape_plain s : plain_text s → escape_text s = s.
Proof.
  induction 1 as [|c s Hc Hs IH]; [done|]. cbn [escape_text].
  pose proof (plain_range c Hc) as Hr. unfold high_surrogate, low_surrogate.
  destruct (N.leb_spec 55296 c); [lia|]. destruct (N.leb_spec 56320 c); [lia|]. cbn [andb].
  rewrite IH. replace (escape_unit c) with [c]; [done|]. unfold escape_unit.
  assert ((c <? 32)%N = false) as -> by (apply N.ltb_ge; lia).
  repeat (case_match; try lia); done.
Qed.

Lemma quote_plain s : plain_text s → JSON_quote s = [QUOTE] ++ s ++ [QUOTE].
Proof. intros H. unfold JSON_quote. by rewrite escape_plain. Qed.

Lemma parse_string_plain s rest :
  plain_text s → parse_string (s ++ QUOTE :: rest) = Some (s, rest).
Proof.
  induction 1 as [|c s Hc Hs IH]; [done|]. cbn [app parse_string].
  pose proof (plain_range c Hc). destruct (plain_ne c Hc) as (H1 & H2 & _).
  destruct (N.eqb_spec c QUOTE); [done|]. destruct (N.eqb_spec c 92); [done|].
  assert ((c <? 32)%N = false) as -> by (apply N.ltb_ge; lia). by rewrite IH.
Qed.

Lemma JSON_parse_quoted s : plain_text s → JSON_parse ([QUOTE] ++ s ++ [QUOTE]) = Some (VStr s).
Proof.
  intros H. unfold JSON_parse. cbn [app].
  replace (2 * length (QUOTE :: s ++ [QUOTE]) + 2) with (S (2 * length (QUOTE :: s ++ [QUOTE]) + 1)) by lia.
  generalize (2 * length (QUOTE :: s ++ [QUOTE]) + 1). intros n.
  cbn [parse_value]. change (skip_ws (QUOTE :: s ++ [QUOTE])) with (QUOTE :: s ++ [QUOTE]).
  cbv iota. rewrite N.eqb_refl, parse_string_plain by done. done.
Qed.

(** ** Numbers *)

Lemma num_unit_plain c : num_unit c = true → plain c = true.
Proof.
  unfold num_unit, plain, is_word. rewrite !orb_true_iff, !bool_decide_eq_true.
  intros [H|H]; [by auto|]. change (js ".eE+-") with [46; 101; 69; 43; 45]%N in H.
  change (js "./-:+@") with [46; 47; 45; 58; 43; 64]%N.
  repeat (apply elem_of_cons in H as [->|H]; [set_solver|]). by apply elem_of_nil in H.
Qed.

(** The literal between its anchors *)
Definition numeric_body : list re :=
  [opt (lit (js "-"));
   RAlt (seq [plus digit; opt (lit (js ".")); RStar digit]) (seq [lit (js "."); plus digit]);
   opt (seq [one_of (js "eE"); opt (one_of (js "+-")); plus digit])].

Lemma numeric_over : over num_unit (seq numeric_body).
Proof.
  cbn [over numeric_body seq opt plus digit one_of lit unit].
  assert (∀ c, is_digit c = true → num_unit c = true) as Hd
    by (intros c Hc; unfold num_unit; by rewrite Hc).
  repeat split; try done;
    intros c Hc; unfold num_unit; apply orb_true_iff; right; apply bool_decide_eq_true;
    try (apply N.eqb_eq in Hc as ->; apply (bool_decide_unpack _); by vm_compute);
    apply bool_decide_eq_true in Hc;
    change (js ".eE+-") with [46; 101; 69; 43; 45]%N;
    [change (js "eE") with [101; 69]%N in Hc|change (js "+-") with [43; 45]%N in Hc]; set_solver.
Qed.

Lemma numeric_units s : is_numeric s = true → s ≠ [] ∧ Forall (λ c, num_unit c = true) s.
Proof.
  intros H. split; [by intros ->; vm_compute in H|].
  unfold is_numeric, test in H.
  change NUMERIC_LITERAL_REGEX with (RSeq RBegin (seq (numeric_body ++ [REnd]))) in H.
  rewrite exec_begin in H. unfold match_at in H. cbn [rest before start_state] in H.
  destruct (rmatch _ _ _) as [x|] eqn:E; [|done]. clear H.
  match type of E with rmatch _ ?K ?M = _ =>
    change (rmatch (seq numeric_body) (rmatch REnd K) M = Some x) in E end.
  apply (rmatch_over num_unit) in E as (l & m' & El & Hl & Hk); [|apply numeric_over].
  cbn [rest] in El. cbn [rmatch] in Hk. destruct (rest m'); [|done].
  by rewrite app_nil_r in El; subst l.
Qed.

Lemma numeric_plain s : is_numeric s = true → plain_text s.
Proof.
  intros [_ H]%numeric_units. eapply Forall_impl; [exact H|]. apply num_unit_plain.
Qed.

(** ** Steps over names and numbers *)

Section steps.
Context {A : Type} (k : mstate → option A).

Lemma rmatch_name n path tail b c :
  path ≠ [] → plain_text path → head tail = Some QUOTE →
  stops (λ d, negb (d =? QUOTE)%N) k →
  rmatch (quoted_name n) k (mkM b (path ++ tail) c)
  = k (mkM (passed path b) tail ((n, path) :: c)).
Proof.
  intros Hne Hp Ht Hk. apply rmatch_group_plus; [done| |by destruct tail; simplify_eq/=|done].
  eapply Forall_impl; [exact Hp|]. intros d Hd. cbn. apply plain_ne in Hd as [Hd _].
  by apply negb_true_iff, N.eqb_neq.
Qed.

Lemma rmatch_num n v tail b c :
  is_numeric v = true → match tail with d :: _ => num_unit d = false | [] => True end →
  stops num_unit k →
  rmatch (RGroup n num_text) k (mkM b (v ++ tail) c) = k (mkM (passed v b) tail ((n, v) :: c)).
Proof. intros [Hne Hv]%numeric_units Ht Hk. by apply rmatch_group_plus. Qed.

Lemma rmatch_time_func f t b c :
  f ∈ TIME_FUNCS →
  rmatch (RGroup 1 time_func) k (mkM b (f ++ t) c) = k (mkM (passed f b) t ((1, f) :: c)).
Proof.
  intros Hf. cbn [rmatch rest].
  assert (∀ K : mstate → option A, rmatch time_func K (mkM b (f ++ t) c) = K (mkM (passed f b) t c))
    as H.
  { intros K. unfold TIME_FUNCS in Hf.
    repeat (apply elem_of_cons in Hf as [->|Hf]; [vm_compute; by destruct (K _)|]).
    by apply elem_of_nil in Hf. }
  rewrite H. unfold capture. cbn [before rest caps]. do 3 f_equal. rewrite length_app.
  replace (length f + length t - length t) with (length f) by lia. by rewrite take_app_length.
Qed.
End steps.

(** * Conditions are read back *)

(** What the builder writes for a condition over plain texts *)
Definition source_text (src : RuleSource) (path : jstr) : jstr :=
  source_name src ++ jq "('" ++ path ++ jq "')".

(** A condition the builder and the parser agree on *)
Definition clean_condition (c : RequestCondition) : Prop :=
  match c with
  | TimeCondition f tz mode v s e =>
      f ∈ TIME_FUNCS ∧ tz ≠ [] ∧ plain_text tz
      ∧ ((mode ∈ [MATCH_EQ; MATCH_GTE; MATCH_LT] ∧ is_numeric v = true ∧ s = [] ∧ e = [])
         ∨ (mode = MATCH_RANGE ∧ v = [] ∧ is_numeric s = true ∧ is_numeric e = true))
  | ParamHeaderCondition src path mode v =>
      path ≠ [] ∧ plain_text path
      ∧ ((mode = MATCH_EXISTS ∧ v = []) ∨ (mode = MATCH_CONTAINS ∧ src = FromHeader ∧ plain_text v)
         ∨ (mode = MATCH_EQ ∧ plain_text v))
  end.

(** The last literal or number of an expression *)
Lemma rmatch_lit_last {A} s (k : mstate → option A) b c :
  rmatch (lit s) k (mkM b s c) = k (mkM (passed s b) [] c).
Proof. rewrite <- (rmatch_lit s k b [] c). by rewrite app_nil_r. Qed.

Lemma rmatch_num_last {A} n v (k : mstate → option A) b c :
  is_numeric v = true → stops num_unit k →
  rmatch (RGroup n num_text) k (mkM b v c) = k (mkM (passed v b) [] ((n, v) :: c)).
Proof. intros Hv Hk. rewrite <- (rmatch_num k n v [] b c Hv I Hk). by rewrite app_nil_r. Qed.

(** One step of a match along the text it was written for *)
Ltac guards := first
  [ done
  | apply stops_end
  | refine (stops_lit _ _ _ _ _ _ _); reflexivity
  | by vm_compute ].

Ltac rstep := first
  [ rewrite rmatch_seq
  | rewrite rmatch_lit
  | rewrite rmatch_lit_last
  | rewrite rmatch_name by guards
  | rewrite rmatch_num by guards
  | rewrite rmatch_num_last by guards
  | rewrite rmatch_time_func by guards
  | rewrite rmatch_backref by done ].

Ltac rbegin r :=
  let x := eval cbv delta [r] in r in
  let y := eval cbn [time_range_body app] in x in
  change r with y;
  change (seq (RBegin :: ?a :: ?l)) with (RSeq RBegin (seq (a :: l)));
  rewrite exec_begin; unfold match_at; cbn [rest before start_state].

(** The match succeeds, or fails within a literal. *)
Ltac raccept := repeat rstep; cbn [rmatch rest fmap option_fmap option_map]; eexists; split;
  [reflexivity|reflexivity].
Ltac rrefuse := repeat rstep; vm_compute; reflexivity.

Lemma header_exists_reads path :
  path ≠ [] → plain_text path →
  ∃ res, exec header_exists_re (jq "header('" ++ path ++ jq "') != ''") = Some (0, res)
         ∧ r_caps res = [(1, path)].
Proof. intros Hne Hp. rbegin header_exists_re. raccept. Qed.

Lemma param_exists_reads path :
  path ≠ [] → plain_text path →
  ∃ res, exec param_exists_re (jq "param('" ++ path ++ jq "') != nil") = Some (0, res)
         ∧ r_caps res = [(1, path)].
Proof. intros Hne Hp. rbegin param_exists_re. raccept. Qed.

(** Texts that start like a name are no time conditions. *)
Lemma time_refuses p t :
  p ∈ [jq "header('"; jq "param('"; jq "has(header('"] → tryParseTimeCondition (p ++ t) = None.
Proof.
  intros Hp. unfold tryParseTimeCondition.
  rbegin time_range_re. rbegin time_range_paren_re. rbegin time_compare_re.
  repeat (apply elem_of_cons in Hp as [->|Hp]; [vm_compute; reflexivity|]).
  by apply elem_of_nil in Hp.
Qed.

(** ** Quoted texts *)

Lemma rmatch_json_string {A} n v (k : mstate → option A) tail b c :
  plain_text v →
  (∀ d b t c, plain d = true → k (mkM b (d :: t) c) = None) →
  rmatch (RGroup n json_string_re) k (mkM b (([QUOTE] ++ v ++ [QUOTE]) ++ tail) c)
  = k (mkM (Some QUOTE) tail ((n, [QUOTE] ++ v ++ [QUOTE]) :: c)).
Proof.
  intros Hv Hk. set (text := [QUOTE] ++ v ++ [QUOTE]).
  set (K := λ m' : mstate, k (capture n (take (length (text ++ tail) - length (rest m')) (text ++ tail)) m')).
  set (body := RAlt (RClass (λ c, negb (c =? QUOTE)%N && negb (c =? 92)%N)) (seq [unit 92%N; dot])).
  change (rmatch (RGroup n json_string_re) k (mkM b (text ++ tail) c))
    with (rmatch json_string_re K (mkM b (QUOTE :: (v ++ [QUOTE]) ++ tail) c)).
  change json_string_re with (RSeq (unit QUOTE) (RSeq (RStar body) (unit QUOTE))).
  assert (∀ m, rmatch (RSeq (unit QUOTE) (RSeq (RStar body) (unit QUOTE))) K m
    = rmatch (unit QUOTE) (λ m1, star_loop (rmatch body) (rmatch (unit QUOTE) K) (length (rest m1)) m1) m)
    as -> by done.
  unfold unit at 1. rewrite rmatch_class by apply N.eqb_refl. cbn [rest].
  rewrite <- app_assoc. unfold plain_text in Hv. rewrite Forall_forall in Hv.
  rewrite (star_det (rmatch body) (rmatch (unit QUOTE) K) v ([QUOTE] ++ tail)).
  - cbn [app]. unfold unit. rewrite rmatch_class by apply N.eqb_refl. unfold K, capture.
    cbn [before rest caps]. do 3 f_equal. unfold text. rewrite !length_app. cbn [length].
    replace (1 + (length v + 1) + length tail - length tail)
      with (length ([QUOTE] ++ v ++ [QUOTE])) by (rewrite !length_app; cbn; lia).
    by rewrite take_app_length.
  - intros d K' b' t c' Hd. destruct (plain_ne d (Hv d Hd)) as (Hq & Hb & _).
    cbn [rmatch body seq unit rest]. apply N.eqb_neq in Hq, Hb. rewrite Hq, Hb. cbn [negb andb].
    by destruct (K' _).
  - done.
  - intros d b' t c' Hd. destruct (plain_ne d (Hv d Hd)) as (Hq & _).
    cbn [rmatch unit rest]. apply N.eqb_neq in Hq. by rewrite Hq.
  - done.
Qed.

Lemma header_contains_reads path v :
  path ≠ [] → plain_text path → plain_text v →
  ∃ res, exec header_contains_re
           (jq "has(header('" ++ path ++ jq "'), " ++ ([QUOTE] ++ v ++ [QUOTE]) ++ jq ")") = Some (0, res)
         ∧ r_caps res = [(2, [QUOTE] ++ v ++ [QUOTE]); (1, path)].
Proof.
  intros Hne Hp Hv. rbegin header_contains_re. repeat rstep. rewrite rmatch_json_string; [|done|].
  - raccept.
  - intros d b t c Hd. rewrite rmatch_seq. apply rmatch_lit_ne.
    by apply plain_ne in Hd as (_ & _ & _ & _ & ? & _).
Qed.

(** ** Literals *)

Lemma quoted_trim v : plain_text v → trim ([QUOTE] ++ v ++ [QUOTE]) = [QUOTE] ++ v ++ [QUOTE].
Proof.
  intros Hv. apply trim_id, trimmed_no_ws. apply Forall_app; split; [by constructor|].
  apply Forall_app; split; [|by constructor]. eapply Forall_impl; [exact Hv|].
  intros c. apply plain_not_ws.
Qed.

Lemma quoted_not_numeric t : is_numeric (QUOTE :: t) = false.
Proof. unfold is_numeric, test. rbegin NUMERIC_LITERAL_REGEX. vm_compute. reflexivity. Qed.

Lemma literal_reads mode v :
  mode ≠ MATCH_CONTAINS → plain_text v →
  parseExprLiteral (buildExprLiteral mode v) = Some (VStr v).
Proof.
  intros Hm Hv. unfold buildExprLiteral. rewrite plain_trim, bool_decide_false by done.
  unfold parseExprLiteral.
  destruct (bool_decide (v = js "true") || bool_decide (v = js "false")) eqn:E1.
  { by rewrite plain_trim, E1. }
  destruct (is_numeric v) eqn:E2; [by rewrite plain_trim, E1, E2|].
  rewrite quote_plain, quoted_trim, JSON_parse_quoted by done.
  cbn [app]. by rewrite quoted_not_numeric.
Qed.

(** The units of a literal stay on one line. *)
Lemma literal_units mode v :
  plain_text v → buildExprLiteral mode v ≠ []
  ∧ Forall (λ c, negb (is_line_end c) = true) (buildExprLiteral mode v).
Proof.
  intros Hv.
  assert (∀ s, plain_text s → Forall (λ c, negb (is_line_end c) = true) s) as Hline.
  { intros s Hs. eapply Forall_impl; [exact Hs|]. intros c Hc%plain_range. unfold is_line_end.
    apply negb_true_iff. rewrite !orb_false_iff, !N.eqb_neq. lia. }
  unfold buildExprLiteral. rewrite plain_trim, quote_plain by done.
  assert ([QUOTE] ++ v ++ [QUOTE] ≠ [] ∧ Forall (λ c, negb (is_line_end c) = true) ([QUOTE] ++ v ++ [QUOTE]))
    as Hq.
  { split; [done|]. apply Forall_app; split; [by constructor|].
    apply Forall_app; split; [by apply Hline|by constructor]. }
  repeat case_match; try done; split; auto.
  - by destruct v.
  - by apply numeric_units.
Qed.

Lemma rmatch_source {A} (k : mstate → option A) src t b c :
  rmatch (RGroup 1 (RAlt (lit (js "param")) (lit (js "header")))) k (mkM b (source_name src ++ t) c)
  = k (mkM (passed (source_name src) b) t ((1, source_name src) :: c)).
Proof.
  cbn [rmatch rest].
  assert (take (length (source_name src ++ t) - length t) (source_name src ++ t) = source_name src)
    as Ht.
  { rewrite length_app. replace (length (source_name src) + length t - length t)
      with (length (source_name src)) by lia. by rewrite take_app_length. }
  destruct src; cbn [source_name] in *.
  - rewrite rmatch_lit. unfold capture. cbn [rest before caps]. rewrite Ht.
    destruct (k _); [done|]. vm_compute. reflexivity.
  - rewrite (rmatch_lit (js "header")). unfold capture. cbn [rest before caps]. rewrite Ht.
    vm_compute. reflexivity.
Qed.

Lemma equals_reads src path L :
  path ≠ [] → plain_text path → L ≠ [] → Forall (λ c, negb (is_line_end c) = true) L →
  ∃ res, exec equals_re (source_text src path ++ js " == " ++ L) = Some (0, res)
         ∧ cap res 1 = source_name src ∧ cap res 2 = path ∧ cap res 3 = L.
Proof.
  intros Hne Hp HL Hline. unfold source_text. rewrite <- !app_assoc.
  change (jq "')" ++ js " == " ++ L) with (jq "') == " ++ L).
  rbegin equals_re. rewrite rmatch_seq, rmatch_source. rstep. rstep. rstep. rstep. rstep. rstep. rstep.
  rewrite <- (app_nil_r L).
  unfold dot. rewrite rmatch_group_plus; [|done..]. rewrite app_nil_r.
  cbn [rmatch rest fmap option_fmap option_map]. by eexists.
Qed.

(** ** Time conditions *)

Definition range_text (f tz s e : jstr) : jstr :=
  f ++ jq "('" ++ tz ++ jq "') >= " ++ s ++ jq " || " ++ f ++ jq "('" ++ tz ++ jq "') < " ++ e.

Definition compare_text (f tz op v : jstr) : jstr :=
  f ++ jq "('" ++ tz ++ jq "') " ++ op ++ js " " ++ v.

Definition TIME_OPS : list jstr := [js "=="; js ">="; js "<"].

(** By cases on a list of literals *)
Ltac each_of H tac :=
  repeat (apply elem_of_cons in H as [->|H]; [tac|]); by apply elem_of_nil in H.

Section time.
Context (f tz : jstr) (Hf : f ∈ TIME_FUNCS) (Htz : tz ≠ []) (Hp : plain_text tz).

Lemma range_reads s e :
  is_numeric s = true → is_numeric e = true →
  tryParseTimeCondition (range_text f tz s e) = Some (TimeCondition f tz MATCH_RANGE [] s e).
Proof.
  intros Hs He. unfold tryParseTimeCondition, range_text. rbegin time_range_re. repeat rstep.
  cbn [rmatch rest fmap option_fmap option_map]. reflexivity.
Qed.

Lemma range_paren_reads s e :
  is_numeric s = true → is_numeric e = true →
  tryParseTimeCondition (js "(" ++ range_text f tz s e ++ js ")")
  = Some (TimeCondition f tz MATCH_RANGE [] s e).
Proof.
  intros Hs He. unfold tryParseTimeCondition, range_text.
  assert (∀ t, exec time_range_re (js "(" ++ t) = None) as ->.
  { intros t. rbegin time_range_re. vm_compute. reflexivity. }
  rewrite <- !app_assoc. rbegin time_range_paren_re. repeat rstep.
  cbn [rmatch rest fmap option_fmap option_map]. reflexivity.
Qed.

Lemma range_paren_refuses t : exec time_range_paren_re (f ++ t) = None.
Proof. rbegin time_range_paren_re. clear -Hf. unfold TIME_FUNCS in Hf. each_of Hf ltac:(vm_compute; reflexivity). Qed.

Lemma range_refuses op v :
  op ∈ TIME_OPS → is_numeric v = true → exec time_range_re (compare_text f tz op v) = None.
Proof.
  intros Hop Hv. unfold compare_text. rbegin time_range_re.
  rewrite rmatch_seq, rmatch_time_func by done. repeat rstep.
  unfold TIME_OPS in Hop. repeat (apply elem_of_cons in Hop as [->|Hop]).
  - vm_compute. reflexivity.
  - change (jq "') " ++ js ">=" ++ js " " ++ v) with (jq "') >= " ++ v). repeat rstep.
    reflexivity.
  - vm_compute. reflexivity.
  - by apply elem_of_nil in Hop.
Qed.

Lemma rmatch_op {A} (k : mstate → option A) op t b c :
  op ∈ TIME_OPS →
  rmatch (RGroup 3 (alt [lit (js "=="); lit (js ">="); lit (js "<")])) k (mkM b (op ++ js " " ++ t) c)
  = k (mkM (passed op b) (js " " ++ t) ((3, op) :: c)).
Proof.
  intros Hop. cbn [rmatch rest].
  assert (∀ K : mstate → option A,
    rmatch (alt [lit (js "=="); lit (js ">="); lit (js "<")]) K (mkM b (op ++ js " " ++ t) c)
    = K (mkM (passed op b) (js " " ++ t) c)) as ->.
  { intros K. unfold TIME_OPS in Hop. each_of Hop ltac:(vm_compute; by destruct (K _)). }
  unfold capture. cbn [before rest caps]. do 3 f_equal. rewrite length_app.
  replace (length op + length (js " " ++ t) - length (js " " ++ t)) with (length op) by lia.
  by rewrite take_app_length.
Qed.

Lemma compare_reads mode v :
  mode ∈ [MATCH_EQ; MATCH_GTE; MATCH_LT] → is_numeric v = true →
  tryParseTimeCondition (compare_text f tz (time_op mode) v)
  = Some (TimeCondition f tz mode v [] []).
Proof.
  intros Hm Hv.
  assert (time_op mode ∈ TIME_OPS) as Hop
    by (each_of Hm ltac:(apply (bool_decide_unpack _); by vm_compute)).
  unfold tryParseTimeCondition. rewrite range_refuses by done.
  unfold compare_text at 1. rewrite range_paren_refuses.
  unfold compare_text. rbegin time_compare_re. repeat rstep. rewrite rmatch_op by done.
  repeat rstep. cbn [rmatch rest fmap option_fmap option_map].
  clear Hop. each_of Hm ltac:(reflexivity).
Qed.
End time.

(** ** The text of a condition *)

Definition cond_text (c : RequestCondition) : jstr :=
  match c with
  | TimeCondition f tz mode v s e =>
      if bool_decide (mode = MATCH_RANGE) then range_text f tz s e
      else compare_text f tz (time_op mode) v
  | ParamHeaderCondition src path mode v =>
      if bool_decide (mode = MATCH_EXISTS)
      then match src with
           | FromHeader => jq "header('" ++ path ++ jq "') != ''"
           | FromParam => jq "param('" ++ path ++ jq "') != nil"
           end
      else if bool_decide (mode = MATCH_CONTAINS)
      then jq "has(header('" ++ path ++ jq "'), " ++ ([QUOTE] ++ v ++ [QUOTE]) ++ jq ")"
      else source_text src path ++ js " == " ++ buildExprLiteral MATCH_EQ v
  end.

(** A call with a quoted argument *)
Lemma call_text name arg t :
  plain_text arg → (name ++ js "(" ++ JSON_quote arg ++ js ")") ++ t = name ++ jq "('" ++ arg ++ jq "')" ++ t.
Proof.
  intros Ha. rewrite quote_plain by done.
  change (jq "('") with (js "(" ++ [QUOTE]). change (jq "')") with ([QUOTE] ++ js ")").
  by rewrite <- !app_assoc.
Qed.

Lemma build_cond_text c : clean_condition c → buildRequestConditionExpr c = cond_text c.
Proof.
  destruct c as [f tz mode v s e|src path mode v]; cbn [clean_condition].
  - intros (Hf & Htz & Hp & Hmode). unfold buildRequestConditionExpr. cbn [normalizeCondition cond_text].
    unfold isTimeFunc. rewrite bool_decide_true by done. destruct tz as [|u tz]; [done|]. cbn [truthy].
    assert (mode ∈ getRequestRuleMatchOptions None) as Hin.
    { destruct Hmode as [(Hm & _)|(-> & _)].
      - each_of Hm ltac:(apply (bool_decide_unpack _); by vm_compute).
      - apply (bool_decide_unpack _). by vm_compute. }
    rewrite bool_decide_true by done. unfold buildTime, time_call.
    destruct Hmode as [(Hm & Hv & _)|(-> & -> & Hs & He)].
    + rewrite bool_decide_false by (each_of Hm ltac:(by vm_compute)).
      rewrite plain_trim by (by apply numeric_plain). rewrite Hv. cbn [negb].
      rewrite call_text by done. unfold compare_text.
      change (jq "') ") with (jq "')" ++ js " "). by rewrite <- !app_assoc.
    + rewrite bool_decide_true by done. rewrite !plain_trim by (by apply numeric_plain).
      rewrite Hs, He. cbn [negb orb]. rewrite !call_text by done. unfold range_text.
      change (jq "') >= ") with (jq "')" ++ js " >= "). change (jq "') < ") with (jq "')" ++ js " < ").
      change (jq " || ") with (js " || "). by rewrite <- !app_assoc.
  - intros (Hne & Hp & Hmode). unfold buildRequestConditionExpr. cbn [normalizeCondition].
    assert (bool_decide (mode ∈ getRequestRuleMatchOptions (Some src)) = true) as ->.
    { destruct src, Hmode as [(-> & _)|[(-> & Hsrc & _)|(-> & _)]]; try done; by vm_compute. }
    unfold buildParamHeader. rewrite plain_trim by done. destruct path as [|u path]; [done|].
    cbn [truthy negb cond_text].
    destruct Hmode as [(-> & ->)|[(-> & -> & Hv)|(-> & Hv)]].
    + rewrite !bool_decide_true by done. destruct src; rewrite call_text by done.
      * change (jq "param('") with (js "param" ++ jq "('").
        change (jq "') != nil") with (jq "')" ++ js " != nil"). by rewrite <- !app_assoc.
      * change (jq "header('") with (js "header" ++ jq "('").
        change (jq "') != ''") with (jq "')" ++ jq " != ''"). by rewrite <- !app_assoc.
    + rewrite bool_decide_false by (by vm_compute). rewrite bool_decide_true by done.
      unfold buildExprLiteral. rewrite bool_decide_true, plain_trim, (quote_plain v) by done.
      cbn [source_name]. rewrite call_text by done.
      change (jq "has(header('") with (js "has(" ++ js "header" ++ jq "('").
      change (jq "'), ") with (jq "')" ++ js ", "). change (jq ")") with (js ")").
      by rewrite <- !app_assoc.
    + do 2 rewrite bool_decide_false by (by vm_compute).
      rewrite bool_decide_false by (apply (bool_decide_unpack _); by vm_compute). rewrite call_text by done.
      unfold source_text. by rewrite <- !app_assoc.
Qed.

(** Texts that start like a source are refused where another shape is expected. *)
Lemma equals_not_exists src path t :
  path ≠ [] → plain_text path →
  exec header_exists_re (source_text src path ++ js " == " ++ t) = None
  ∧ exec param_exists_re (source_text src path ++ js " == " ++ t) = None.
Proof.
  intros Hne Hp. unfold source_text. rewrite <- !app_assoc.
  rbegin header_exists_re. rbegin param_exists_re. destruct src; cbn [source_name].
  - change (js "param" ++ jq "('" ++ ?x) with (jq "param('" ++ x). split; rrefuse.
  - change (js "header" ++ jq "('" ++ ?x) with (jq "header('" ++ x). split; rrefuse.
Qed.

Lemma equals_not_param src path t :
  path ≠ [] → plain_text path →
  exec param_contains_re (source_text src path ++ js " == " ++ t) = None
  ∧ exec param_compare_re (source_text src path ++ js " == " ++ t) = None
  ∧ exec header_contains_re (source_text src path ++ js " == " ++ t) = None.
Proof.
  intros Hne Hp. unfold source_text. rewrite <- !app_assoc.
  rbegin param_contains_re. rbegin param_compare_re. rbegin header_contains_re.
  destruct src; cbn [source_name].
  - change (js "param" ++ jq "('" ++ ?x) with (jq "param('" ++ x). split_and!; rrefuse.
  - change (js "header" ++ jq "('" ++ ?x) with (jq "header('" ++ x). split_and!; rrefuse.
Qed.

Lemma cap_caps res n l : r_caps res = l → cap res n = default [] (omap.get l n).
Proof. intros <-. done. Qed.

Lemma condition_reads c : clean_condition c → tryParseRequestCondition (cond_text c) = Parsed c.
Proof.
  destruct c as [f tz mode v s e|src path mode v]; cbn [clean_condition cond_text].
  - intros (Hf & Htz & Hp & [(Hm & Hv & -> & ->)|(-> & -> & Hs & He)]);
      unfold tryParseRequestCondition.
    + rewrite bool_decide_false by (each_of Hm ltac:(by vm_compute)). by rewrite compare_reads.
    + rewrite bool_decide_true by done. by rewrite range_reads.
  - intros (Hne & Hp & [(-> & ->)|[(-> & -> & Hv)|(-> & Hv)]]); unfold tryParseRequestCondition.
    + rewrite bool_decide_true by done. destruct src.
      * rewrite time_refuses by (apply (bool_decide_unpack _); by vm_compute).
        assert (exec header_exists_re (jq "param('" ++ path ++ jq "') != nil") = None) as ->.
        { rbegin header_exists_re. vm_compute. reflexivity. }
        destruct (param_exists_reads path Hne Hp) as (res & -> & Hc). by rewrite (cap_caps _ _ _ Hc).
      * rewrite time_refuses by (apply (bool_decide_unpack _); by vm_compute).
        destruct (header_exists_reads path Hne Hp) as (res & -> & Hc). by rewrite (cap_caps _ _ _ Hc).
    + rewrite bool_decide_false by (by vm_compute). rewrite bool_decide_true by done.
      rewrite time_refuses by (apply (bool_decide_unpack _); by vm_compute).
      assert (∀ t, exec header_exists_re (jq "has(header('" ++ t) = None
                   ∧ exec param_exists_re (jq "has(header('" ++ t) = None) as Hno.
      { intros t. rbegin header_exists_re. rbegin param_exists_re. split; vm_compute; reflexivity. }
      rewrite (proj1 (Hno _)), (proj2 (Hno _)).
      destruct (header_contains_reads path v Hne Hp Hv) as (res & -> & Hc).
      rewrite !(cap_caps _ _ _ Hc). cbn [omap.get default from_option]. unfold with_json.
      rewrite !decide_True by done. cbn [default from_option id]. rewrite JSON_parse_quoted by done. done.
    + do 2 rewrite bool_decide_false by (by vm_compute).
      destruct (literal_units MATCH_EQ v Hv) as [HL Hline].
      assert (tryParseTimeCondition (source_text src path ++ js " == " ++ buildExprLiteral MATCH_EQ v) = None)
        as ->.
      { unfold source_text. rewrite <- !app_assoc. destruct src; cbn [source_name].
        - change (js "param" ++ jq "('" ++ ?x) with (jq "param('" ++ x).
          apply time_refuses, (bool_decide_unpack _). by vm_compute.
        - change (js "header" ++ jq "('" ++ ?x) with (jq "header('" ++ x).
          apply time_refuses, (bool_decide_unpack _). by vm_compute. }
      destruct (equals_not_exists src path (buildExprLiteral MATCH_EQ v) Hne Hp) as [-> ->].
      unfold tryParseParamContains, tryParseParamCompare, tryParseEquals.
      destruct (equals_not_param src path (buildExprLiteral MATCH_EQ v) Hne Hp) as (-> & -> & ->).
      destruct (equals_reads src path _ Hne Hp HL Hline) as (res & -> & H1 & H2 & H3).
      rewrite H1, H2, H3, literal_reads by (done || by vm_compute).
      by destruct src.
Qed.
