(* ===== verification/BillingSplit.v ===== *)
(** Round trips of whole rule expressions: splitting at the top level undoes
    joining, a factor is read back, and base and rules are separated again. *)

From Stdlib Require Import ZArith NArith Lia SpecFloat.
From S2P Require Import Prelude JsString JsNumber JsValue JsRegex BillingExpr BillingProps.

(** * Splitting undoes joining *)

(** Opening minus closing parentheses *)
Definition paren (c : N) : Z :=
  ((if (c =? 40)%N then 1 else 0) - (if (c =? 41)%N then 1 else 0))%Z.
Definition net (s : jstr) : Z := foldr (λ c z, (paren c + z)%Z) 0%Z s.

Lemma net_app s t : net (s ++ t) = (net s + net t)%Z.
Proof. induction s as [|c s IH]; cbn [app net foldr]; [done|]. fold (net (s ++ t)) (net s). lia. Qed.

Lemma net_plain s : plain_text s → net s = 0%Z.
Proof.
  induction 1 as [|c s Hc Hs IH]; [done|]. cbn [net foldr]. fold (net s). rewrite IH. unfold paren.
  destruct (plain_ne c Hc) as (_ & _ & _ & H1 & H2 & _).
  apply N.eqb_neq in H1, H2. by rewrite H1, H2.
Qed.

(** The depth after a unit, as the loop computes it *)
Lemma depth_step (d : Z) (c : N) :
  (let d := if (c =? 40)%N then d + 1 else d in if (c =? 41)%N then d - 1 else d)%Z
  = (d + paren c)%Z.
Proof. unfold paren. destruct (N.eqb_spec c 40), (N.eqb_spec c 41); cbv zeta; lia. Qed.

Section split.
(** A separator of at least two units, its second unit [w] *)
Context (x w : N) (sep' : jstr).
Let sep : jstr := x :: w :: sep'.

Lemma split_unit_step d part c r :
  ((d + paren c)%Z = 0%Z → head r ≠ Some w) →
  split_loop sep d 0 part (c :: r) = split_loop sep (d + paren c) 0 (c :: part) r.
Proof.
  intros Hr. cbn [split_loop]. cbv zeta in *.
  pose proof (depth_step d c) as E. cbv zeta in E. rewrite E.
  destruct (Z.eqb_spec (d + paren c) 0) as [E0|]; [|done]. cbn [andb].
  rewrite bool_decide_false; [done|]. intros Ht. cbn in Ht. injection Ht as _ Ht.
  destruct r as [|c' r]; [done|]. injection Ht as -> _. by apply Hr.
Qed.

(** A text without the separator's second unit is walked over. *)
Lemma split_free s t d part :
  w ∉ s → head t ≠ Some w →
  split_loop sep d 0 part (s ++ t) = split_loop sep (d + net s) 0 (reverse s ++ part) t.
Proof.
  intros Hs Ht. revert d part. induction s as [|c s IH]; intros d part.
  { cbn. by rewrite Z.add_0_r. }
  cbn [app]. rewrite split_unit_step.
  - rewrite IH by set_solver. cbn [net foldr]. fold (net s).
    rewrite reverse_cons, <- app_assoc. f_equal. lia.
  - intros _. destruct s as [|c' s]; [done|]. cbn. intros [= ->]. set_solver.
Qed.

(** Inside parentheses nothing is split. *)
Fixpoint stays_inside (d : Z) (s : jstr) : bool :=
  match s with
  | [] => true
  | c :: s => (0 <? d + paren c)%Z && stays_inside (d + paren c) s
  end.

Lemma split_inside s t d part :
  stays_inside d s = true →
  split_loop sep d 0 part (s ++ t) = split_loop sep (d + net s) 0 (reverse s ++ part) t.
Proof.
  revert d part. induction s as [|c s IH]; intros d part Hs.
  { cbn. by rewrite Z.add_0_r. }
  cbn [stays_inside] in Hs. apply andb_true_iff in Hs as [Hd%Z.ltb_lt Hs].
  cbn [app]. rewrite split_unit_step by lia. rewrite IH by done.
  cbn [net foldr]. fold (net s). rewrite reverse_cons, <- app_assoc. f_equal. lia.
Qed.

Lemma split_skip l t d part :
  split_loop sep d (length l) part (l ++ t) = split_loop sep d 0 part t.
Proof. induction l as [|c l IH]; [done|]. cbn [length app split_loop]. exact IH. Qed.

Context (Hx : paren x = 0%Z).

Lemma split_at_sep t part :
  split_loop sep 0 0 part (sep ++ t) = trim (reverse part) :: split_loop sep 0 0 [] t.
Proof.
  unfold sep at 2. cbn [app split_loop]. pose proof (depth_step 0 x) as E. cbv zeta in E. rewrite E, Hx.
  cbn [Z.add]. rewrite Z.eqb_refl. cbn [andb].
  rewrite bool_decide_true by (cbn [take length sep]; by rewrite take_app_length).
  f_equal. change (length sep - 1) with (length (w :: sep')).
  exact (split_skip (w :: sep') t 0 []).
Qed.

(** A part that comes back whole *)
Definition part_ok (s : jstr) : Prop := s ≠ [] ∧ trim s = s ∧ net s = 0%Z ∧ w ∉ s.

Context (Hxw : x ≠ w).

Lemma split_join ps : Forall part_ok ps → split_top sep (join sep ps) = ps.
Proof.
  intros Hps. unfold split_top. destruct ps as [|p ps]; [done|].
  assert (∀ p ps, part_ok p → Forall part_ok ps →
    split_loop sep 0 0 [] (join sep (p :: ps)) = p :: ps) as Hloop.
  { clear p ps Hps. intros p ps (Hne & Htr & Hnet & Hw) Hps. revert p Hne Htr Hnet Hw.
    induction Hps as [|q ps (Hne' & Htr' & Hnet' & Hw') Hps IH]; intros p Hne Htr Hnet Hw.
    - cbn [join]. rewrite <- (app_nil_r p) at 1. rewrite split_free by done. cbn [split_loop].
      by rewrite app_nil_r, reverse_involutive, Htr.
    - change (join sep (p :: q :: ps)) with (p ++ sep ++ join sep (q :: ps)).
      rewrite split_free; [|done|cbn; congruence].
      rewrite Hnet. change (0 + 0)%Z with 0%Z. rewrite split_at_sep, app_nil_r, reverse_involutive, Htr.
      f_equal. by apply IH. }
  inversion_clear Hps as [|? ? Hp Hps']. rewrite Hloop by done.
  apply filter_id. constructor; [by destruct Hp|]. eapply Forall_impl; [exact Hps'|]. by intros s [? _].
Qed.
End split.

(** * Conditions as parts *)

(** The units a condition is written with; a range also has bars. *)
Definition cond_unit (bar : bool) (c : N) : bool :=
  plain c || bool_decide (c ∈ [32; 33; 34; 40; 41; 44; 60; 61; 62]%N) || (bar && (c =? 124)%N).

Lemma cond_unit_ne bar c :
  cond_unit bar c = true → c ≠ 38%N ∧ c ≠ 42%N ∧ c ≠ 63%N ∧ (bar = false → c ≠ 124%N).
Proof.
  unfold cond_unit. rewrite !orb_true_iff, andb_true_iff, bool_decide_eq_true, N.eqb_eq.
  intros [[H|H]|[-> ->]].
  - apply plain_ne in H. tauto.
  - split_and!; intros; intros ->; set_solver.
  - by split_and!.
Qed.

Definition cond_units (bar : bool) (s : jstr) : Prop := Forall (λ c, cond_unit bar c = true) s.

Lemma plain_cond_units bar s : plain_text s → cond_units bar s.
Proof. intros H. eapply Forall_impl; [exact H|]. intros c Hc. unfold cond_unit. by rewrite Hc. Qed.

Lemma lit_cond_units bar s : forallb (cond_unit bar) s = true → cond_units bar s.
Proof.
  intros H. unfold cond_units. rewrite Forall_forall. intros c Hc.
  eapply forallb_forall in H; [done|]. by apply list_elem_of_In.
Qed.

Lemma cond_units_not_in bar s w : cond_units bar s → w ∈ [38; 42; 63]%N → w ∉ s.
Proof.
  intros Hs Hw Hin. unfold cond_units in Hs. rewrite Forall_forall in Hs.
  apply Hs, cond_unit_ne in Hin. set_solver.
Qed.

(** A text with a clean start and a clean end *)
Lemma trim_ends a m b :
  a ≠ [] → b ≠ [] → trimmed a → trimmed b → trim (a ++ m ++ b) = a ++ m ++ b.
Proof.
  intros Ha Hb [Ha1 _] [_ Hb2]. apply trim_id. split.
  - by destruct a.
  - rewrite !reverse_app. destruct (reverse b) eqn:E; [|done].
    apply (f_equal reverse) in E. by rewrite reverse_involutive in E.
Qed.

Lemma plain_trimmed s : plain_text s → trimmed s.
Proof.
  intros H. apply trimmed_no_ws. eapply Forall_impl; [exact H|]. intros c. apply plain_not_ws.
Qed.

Lemma time_func_plain f : f ∈ TIME_FUNCS → f ≠ [] ∧ plain_text f.
Proof.
  intros Hf. unfold TIME_FUNCS in Hf.
  each_of Hf ltac:(split; [by vm_compute|]; apply (bool_decide_unpack _); by vm_compute).
Qed.

Lemma literal_clean v :
  plain_text v →
  let L := buildExprLiteral MATCH_EQ v in L ≠ [] ∧ trimmed L ∧ net L = 0%Z ∧ cond_units false L.
Proof.
  intros Hv. cbv zeta. split; [by apply literal_units|].
  unfold buildExprLiteral. rewrite plain_trim, quote_plain by done.
  assert (trimmed ([QUOTE] ++ v ++ [QUOTE]) ∧ net ([QUOTE] ++ v ++ [QUOTE]) = 0%Z
          ∧ cond_units false ([QUOTE] ++ v ++ [QUOTE])) as Hq.
  { split_and!.
    - split; [done|]. rewrite !reverse_app, reverse_singleton. done.
    - rewrite !net_app, (net_plain v) by done. done.
    - apply Forall_app; split; [by apply lit_cond_units|].
      apply Forall_app; split; [by apply plain_cond_units|by apply lit_cond_units]. }
  repeat case_match; auto using plain_trimmed, net_plain, plain_cond_units.
Qed.

(** The shape of a condition's text *)
Definition text_ok (bar : bool) (s : jstr) : Prop :=
  s ≠ [] ∧ trim s = s ∧ net s = 0%Z ∧ cond_units bar s.

Ltac units := repeat (apply Forall_app; split);
  first [by apply plain_cond_units | by apply lit_cond_units
        | by apply plain_cond_units, numeric_plain | done].

Lemma text_ok_bar bar s : text_ok bar s → text_ok true s.
Proof.
  intros (H1 & H2 & H3 & H4). split_and!; [done..|]. eapply Forall_impl; [exact H4|].
  intros u. unfold cond_unit. rewrite !orb_true_iff, !andb_true_iff. tauto.
Qed.

(** From the pieces: a clean start and end, balanced pieces, known units *)
Lemma text_ok_ends bar a m b :
  a ≠ [] → b ≠ [] → trimmed a → trimmed b → net (a ++ m ++ b) = 0%Z →
  cond_units bar (a ++ m ++ b) → text_ok bar (a ++ m ++ b).
Proof.
  intros Ha Hb Hta Htb Hn Hu. split_and!; [by destruct a|by apply trim_ends|done|done].
Qed.

Lemma time_text_ok f tz mode v s e :
  clean_condition (TimeCondition f tz mode v s e) →
  text_ok (bool_decide (mode = MATCH_RANGE)) (cond_text (TimeCondition f tz mode v s e)).
Proof.
  cbn [clean_condition cond_text].
  intros (Hf & Htz & Hp & Hmode). destruct (time_func_plain f Hf) as [Hfne Hfp].
  destruct Hmode as [(Hm & Hv & -> & ->)|(-> & -> & Hs & He)].
  - rewrite bool_decide_false by (each_of Hm ltac:(by vm_compute)). unfold compare_text.
    pose proof (numeric_plain v Hv). destruct (numeric_units v Hv) as [Hvne _].
    assert (cond_units false (time_op mode) ∧ net (time_op mode) = 0%Z) as [Hop1 Hop2].
    { each_of Hm ltac:(split; [by apply lit_cond_units|by vm_compute]). }
    rewrite !app_assoc. rewrite <- !(app_assoc f).
    apply text_ok_ends; auto using plain_trimmed; [|units].
    by rewrite !net_app, Hop2, (net_plain f), (net_plain tz), (net_plain v).
  - rewrite bool_decide_true by done. unfold range_text.
    pose proof (numeric_plain s Hs). pose proof (numeric_plain e He).
    destruct (numeric_units e He) as [Hene _].
    rewrite !app_assoc. rewrite <- !(app_assoc f).
    apply text_ok_ends; auto using plain_trimmed; [|units].
    by rewrite !net_app, (net_plain f), (net_plain tz), (net_plain s), (net_plain e).
Qed.

(** The literals around a name are trimmed. *)
Lemma lit_trimmed s : trim s = s → trimmed s.
Proof. intros <-. apply trim_trimmed. Qed.

Lemma source_text_ok src path mode v :
  clean_condition (ParamHeaderCondition src path mode v) →
  text_ok false (cond_text (ParamHeaderCondition src path mode v)).
Proof.
  cbn [clean_condition cond_text].
  intros (Hne & Hp & [(-> & ->)|[(-> & -> & Hv)|(-> & Hv)]]).
  - rewrite bool_decide_true by done.
    destruct src; (apply text_ok_ends;
      [by vm_compute|by vm_compute|by apply lit_trimmed; vm_compute|by apply lit_trimmed; vm_compute
      |by rewrite !net_app, (net_plain path)|units]).
  - rewrite bool_decide_false by (by vm_compute). rewrite bool_decide_true by done.
    rewrite (app_assoc (jq "'), ")), (app_assoc path).
    apply text_ok_ends;
      [by vm_compute|by vm_compute|by apply lit_trimmed; vm_compute|by apply lit_trimmed; vm_compute
      |by rewrite !net_app, (net_plain path), (net_plain v)|units].
  - do 2 rewrite bool_decide_false by (by vm_compute).
    destruct (literal_clean v Hv) as (HL & Ht & Hn & Hu). unfold source_text.
    assert (source_name src ≠ [] ∧ plain_text (source_name src)) as [Hs1 Hs2].
    { destruct src; (split; [by vm_compute|apply (bool_decide_unpack _); by vm_compute]). }
    rewrite !app_assoc. rewrite <- !(app_assoc (source_name src)).
    apply text_ok_ends; auto using plain_trimmed; [|units].
    by rewrite !net_app, Hn, (net_plain (source_name src)), (net_plain path).
Qed.

Definition is_range (c : RequestCondition) : bool :=
  match c with TimeCondition _ _ mode _ _ _ => bool_decide (mode = MATCH_RANGE) | _ => false end.

Lemma cond_text_ok c : clean_condition c → text_ok (is_range c) (cond_text c).
Proof. destruct c; [apply time_text_ok|apply source_text_ok]. Qed.

(** ** Parentheses around a range *)

Lemma paren_text_ok bar s :
  net s = 0%Z → cond_units bar s → text_ok bar (js "(" ++ s ++ js ")").
Proof.
  intros Hn Hu. apply text_ok_ends;
    [by vm_compute|by vm_compute|by apply lit_trimmed; vm_compute|by apply lit_trimmed; vm_compute
    |by rewrite !net_app, Hn|units].
Qed.

Lemma no_bar s : cond_units false s → includes s (js " || ") = false.
Proof.
  intros Hs. unfold includes. destruct (indexOf s (js " || ")) as [i|] eqn:E; [|done].
  apply indexOf_Some_drop in E as [t E]. exfalso.
  unfold cond_units in Hs. rewrite Forall_forall in Hs.
  assert (124%N ∈ s) as Hin%Hs%cond_unit_ne; [|tauto].
  rewrite <- (take_drop i s), E. apply elem_of_app. right. apply elem_of_app. left.
  apply (bool_decide_unpack _). by vm_compute.
Qed.

Lemma protect_text c :
  clean_condition c →
  text_ok true (protect (cond_text c))
  ∧ tryParseRequestCondition (protect (cond_text c)) = Parsed c.
Proof.
  intros Hc. pose proof (text_ok_bar _ _ (cond_text_ok c Hc)) as Hok.
  destruct (cond_text_ok c Hc) as (_ & _ & _ & Hu). pose proof (condition_reads c Hc) as Hr.
  unfold protect. destruct (includes (cond_text c) (js " || ")) eqn:E; [|by split_and!].
  split; [by destruct Hok as (_ & _ & ? & ?); apply paren_text_ok|].
  destruct (is_range c) eqn:Hrange; [|by rewrite no_bar in E].
  destruct c as [f tz mode v s e|]; [|done]. cbn [is_range clean_condition cond_text] in *.
  apply bool_decide_eq_true in Hrange as ->.
  destruct Hc as (Hf & Htz & Hp & [(Hm & _)|(_ & -> & Hs & He)]).
  { exfalso. revert Hm. apply (bool_decide_unpack _). by vm_compute. }
  rewrite bool_decide_true by done. unfold tryParseRequestCondition. by rewrite range_paren_reads.
Qed.

(** * Groups *)

Definition clean_group (g : RequestRuleGroup) : Prop :=
  conditions g ≠ [] ∧ Forall clean_condition (conditions g) ∧ is_numeric (multiplier g) = true.

(** The conditions of a group in one text *)
Definition combined (cs : list RequestCondition) : jstr :=
  match cs with
  | [c] => cond_text c
  | _ => join (js " && ") (protect <$> (cond_text <$> cs))
  end.

Definition factor_text (g : RequestRuleGroup) : jstr :=
  js "(" ++ combined (conditions g) ++ js " ? " ++ multiplier g ++ js " : 1)".

Lemma build_factor_text g : clean_group g → buildRuleGroupFactor g = factor_text g.
Proof.
  intros (Hne & Hcs & Hm). unfold buildRuleGroupFactor, factor_text.
  rewrite plain_trim by (by apply numeric_plain). rewrite Hm. cbn [negb].
  assert (buildRequestConditionExpr <$> conditions g = cond_text <$> conditions g) as ->.
  { clear Hne. induction Hcs as [|c cs Hc Hcs IH]; [done|]. cbn. by rewrite build_cond_text, IH. }
  rewrite filter_id.
  2:{ apply Forall_fmap. eapply Forall_impl; [exact Hcs|]. intros c Hc. by apply cond_text_ok. }
  destruct (conditions g) as [|c1 [|c2 cs]]; [done|done|]. done.
Qed.

(** A text of the conditions of a group: no question mark, no star, balanced *)
Lemma join_ok (ps : list jstr) :
  ps ≠ [] → Forall (text_ok true) ps →
  let s := join (js " && ") ps in
  s ≠ [] ∧ net s = 0%Z ∧ (63%N ∉ s) ∧ (42%N ∉ s).
Proof.
  intros Hne Hps. cbv zeta. destruct ps as [|p ps]; [done|]. clear Hne. revert p Hps.
  induction ps as [|q ps IH]; intros p Hps; inversion_clear Hps as [|? ? (Hpn & _ & Hnet & Hu) Hps'].
  - cbn [join]. split_and!; [done|done|..];
      (eapply cond_units_not_in; [exact Hu|set_solver]).
  - destruct (IH q Hps') as (H1 & H2 & H3 & H4).
    change (join (js " && ") (p :: q :: ps)) with (p ++ js " && " ++ join (js " && ") (q :: ps)).
    split_and!.
    + by destruct p.
    + by rewrite !net_app, Hnet, H2.
    + rewrite !elem_of_app. intros [H|[H|H]]; [|revert H; apply (bool_decide_unpack _); by vm_compute|done].
      revert H. eapply cond_units_not_in; [exact Hu|set_solver].
    + rewrite !elem_of_app. intros [H|[H|H]]; [|revert H; apply (bool_decide_unpack _); by vm_compute|done].
      revert H. eapply cond_units_not_in; [exact Hu|set_solver].
Qed.

Lemma and_part_ok s : text_ok true s → part_ok 38%N s.
Proof.
  intros (Hne & Ht & Hn & Hu). split_and!; [done..|]. eapply cond_units_not_in; [exact Hu|set_solver].
Qed.

Lemma split_and ps : Forall (text_ok true) ps → splitTopLevelAnd (join (js " && ") ps) = ps.
Proof.
  intros Hps. apply (split_join 32 38 [38; 32]%N); [done|done|].
  eapply Forall_impl; [exact Hps|]. apply and_part_ok.
Qed.

Lemma parse_each_fmap {A B} (f : jstr → parsed A) (g : B → jstr) (h : B → A) (l : list B) :
  (∀ x, x ∈ l → f (g x) = Parsed (h x)) → parse_each f (g <$> l) = Parsed (h <$> l).
Proof.
  induction l as [|x l IH]; intros H; [done|]. cbn. rewrite H by set_solver.
  change (list_fmap B jstr g l) with (g <$> l). by rewrite IH by set_solver.
Qed.

Lemma combined_spec cs :
  cs ≠ [] → Forall clean_condition cs →
  ∃ ps, combined cs = join (js " && ") ps ∧ ps ≠ [] ∧ Forall (text_ok true) ps
  ∧ parse_each (λ p, tryParseRequestCondition (trim p)) ps = Parsed cs.
Proof.
  intros Hne Hcs.
  assert (∀ g : RequestCondition → jstr,
    (∀ c, clean_condition c → text_ok true (g c) ∧ tryParseRequestCondition (g c) = Parsed c) →
    Forall (text_ok true) (g <$> cs)
    ∧ parse_each (λ p, tryParseRequestCondition (trim p)) (g <$> cs) = Parsed cs) as Hg.
  { intros g Hg. split.
    - apply Forall_fmap. eapply Forall_impl; [exact Hcs|]. intros c Hc. by apply Hg.
    - rewrite <- (list_fmap_id cs) at 2. apply parse_each_fmap. intros c Hin.
      rewrite Forall_forall in Hcs. destruct (Hg c (Hcs c Hin)) as ((_ & -> & _) & ->). done. }
  assert (∀ c, clean_condition c → text_ok true (cond_text c)) as Htrue.
  { intros c Hc. by eapply text_ok_bar, cond_text_ok. }
  destruct cs as [|c [|c' cs']]; [done|..].
  - exists [cond_text c]. split_and!; [done|done|..];
      [constructor; [apply Htrue; by inversion Hcs|done]|].
    apply (Hg cond_text). intros c0 Hc0. split; [by apply Htrue|by apply condition_reads].
  - exists (protect <$> (cond_text <$> (c :: c' :: cs'))). split_and!; [done|done|..].
    + rewrite <- list_fmap_compose. apply Hg. intros. by apply protect_text.
    + rewrite <- list_fmap_compose. apply (Hg (protect ∘ cond_text)). intros. by apply protect_text.
Qed.

(** ** Reading a factor *)

(** The literal between condition and multiplier needs a question mark second. *)
Lemma no_question {A} (k : mstate → option A) r l b s c :
  (63%N ∉ drop 1 s) → rmatch (seq (lit (js " ? ") :: r :: l)) k (mkM b s c) = None.
Proof.
  intros Hs. rewrite rmatch_seq. change (js " ? ") with [32; 63; 32]%N.
  destruct s as [|x [|y s]]; cbn [lit rmatch unit rest]; [done|by destruct (x =? 32)%N|].
  destruct (x =? 32)%N; [|done]. destruct (N.eqb_spec y 63) as [->|]; [set_solver|done].
Qed.

Lemma factor_reads C mult :
  C ≠ [] → is_numeric mult = true →
  ∃ res, exec rule_factor_re (js "(" ++ C ++ js " ? " ++ mult ++ js " : 1)") = Some (0, res)
         ∧ r_caps res = [(2, mult); (1, C)].
Proof.
  intros Hne Hm. rbegin rule_factor_re. rewrite rmatch_seq, rmatch_lit, rmatch_seq.
  set (K0 := rmatch (seq (lit (js " ? ") :: _)) _).
  destruct C as [|c C]; [done|].
  set (R := js " ? " ++ mult ++ js " : 1)").
  assert (∃ res, K0 (mkM (passed (c :: C) (Some 40%N)) R [(1, c :: C)]) = Some res
                 ∧ r_caps res = [(2, mult); (1, c :: C)]) as (res & HK & Hcaps).
  { unfold K0, R. repeat rstep. cbn [rmatch rest]. by eexists. }
  set (K1 := λ m', K0 (capture 1 (take (length ((c :: C) ++ R) - length (rest m')) ((c :: C) ++ R)) m')).
  change (rmatch (RGroup 1 (plus any)) K0 (mkM (passed (js "(") None) ((c :: C) ++ R) []))
    with (rmatch any (λ m1, star_loop (rmatch any) K1 (length (rest m1)) m1)
            (mkM (Some 40%N) (c :: (C ++ R)) [])).
  unfold any at 1. rewrite rmatch_class by done. cbn [rest].
  exists res. split; [|done]. rewrite (star_last K1 C R _ _ _ res); [done| | |done].
  - unfold K1, capture. cbn [rest before caps]. rewrite <- HK, passed_cons. do 3 f_equal.
    rewrite length_app. replace (length (c :: C) + length R - length R) with (length (c :: C)) by lia.
    by rewrite take_app_length.
  - intros q q' E Hq. unfold K1, capture, K0. cbn [rest before caps].
    apply no_question. assert (drop 1 q' = drop (length q + 1) R) as ->.
    { rewrite E, <- drop_drop, drop_app_length. done. }
    destruct q as [|x q]; [done|]. cbn [length].
    replace (S (length q) + 1) with (2 + length q) by lia. rewrite <- drop_drop.
    intros Hin. assert (63%N ∈ js " " ++ mult ++ js " : 1)") as H63.
    { change (js " " ++ mult ++ js " : 1)") with (drop 2 R).
      rewrite <- (take_drop (length q) (drop 2 R)). set_solver. }
    revert H63. rewrite !elem_of_app. intros [H|[H|H]].
    + revert H. apply (bool_decide_unpack _). by vm_compute.
    + pose proof (numeric_plain mult Hm) as Hp. unfold plain_text in Hp. rewrite Forall_forall in Hp.
      apply Hp, plain_ne in H. tauto.
    + revert H. apply (bool_decide_unpack _). by vm_compute.
Qed.

Lemma group_reads g : clean_group g → tryParseRuleGroupFactor (factor_text g) = Parsed g.
Proof.
  intros (Hne & Hcs & Hm). unfold tryParseRuleGroupFactor, factor_text.
  destruct (combined_spec (conditions g) Hne Hcs) as (ps & Ec & Hps & Hok & Hparse).
  destruct (join_ok ps Hps Hok) as (Hjne & _). rewrite <- Ec in Hjne.
  destruct (factor_reads (combined (conditions g)) (multiplier g) Hjne Hm) as (res & -> & Hc).
  assert (cap res 1 = combined (conditions g)) as -> by (by rewrite (cap_caps _ _ _ Hc)).
  assert (cap res 2 = multiplier g) as -> by (by rewrite (cap_caps _ _ _ Hc)).
  unfold tryParseRequestConditions. rewrite Ec, split_and, Hparse by done.
  destruct g as [[|c cs] mult]; [done|]. done.
Qed.

(** A balanced condition without stars gives a factor that is one part. *)
Lemma factor_shape_ok C mult :
  net C = 0%Z → (42%N ∉ C) → is_numeric mult = true →
  part_ok 42%N (js "(" ++ C ++ js " ? " ++ mult ++ js " : 1)").
Proof.
  intros Hn H42 Hm. pose proof (numeric_plain _ Hm) as Hp. split_and!; [done| |..].
  - change (js " : 1)") with (js " : 1" ++ js ")").
    rewrite !app_assoc. rewrite <- !(app_assoc (js "(")).
    apply trim_ends; [by vm_compute..|by apply lit_trimmed; vm_compute|by apply lit_trimmed; vm_compute].
  - by rewrite !net_app, Hn, (net_plain mult).
  - unfold plain_text in Hp. rewrite Forall_forall in Hp.
    rewrite !elem_of_app. intros [H|[H|[H|[H|H]]]]; [|done| | |];
      [..|apply Hp, plain_ne in H; tauto|];
      (revert H; apply (bool_decide_unpack _); by vm_compute).
Qed.

Lemma factor_part_ok g : clean_group g → part_ok 42%N (factor_text g).
Proof.
  intros (Hne & Hcs & Hm). unfold factor_text.
  destruct (combined_spec (conditions g) Hne Hcs) as (ps & Ec & Hps & Hok & _).
  destruct (join_ok ps Hps Hok) as (_ & Hn & _ & H42). rewrite <- Ec in *.
  by apply factor_shape_ok.
Qed.

Lemma split_multiply ps : Forall (part_ok 42%N) ps → splitTopLevelMultiply (join (js " * ") ps) = ps.
Proof. intros Hps. by apply (split_join 32 42 [32]%N). Qed.

Lemma build_rules_text groups :
  Forall clean_group groups → buildRequestRuleExpr groups = join (js " * ") (factor_text <$> groups).
Proof.
  intros Hg. unfold buildRequestRuleExpr.
  assert (buildRuleGroupFactor <$> groups = factor_text <$> groups) as ->.
  { induction Hg as [|g gs Hg Hgs IH]; [done|]. cbn. by rewrite build_factor_text, IH. }
  rewrite filter_id; [done|]. apply Forall_fmap. eapply Forall_impl; [exact Hg|].
  intros g Hc. by apply factor_part_ok.
Qed.

(** A join of trimmed parts is trimmed. *)
Lemma trim_join sep ps :
  Forall (λ p, p ≠ [] ∧ trim p = p) ps → trim (join sep ps) = join sep ps.
Proof.
  destruct ps as [|p ps]; [done|]. intros Hps. inversion_clear Hps as [|? ? [Hp Ht] Hps'].
  revert p Hp Ht. induction Hps' as [|q ps [Hq Htq] Hps IH]; intros p Hp Ht; [done|].
  change (join sep (p :: q :: ps)) with (p ++ sep ++ join sep (q :: ps)).
  apply trim_ends; [done| |by apply lit_trimmed|].
  - destruct ps; cbn [join]; by destruct q.
  - apply lit_trimmed. by apply IH.
Qed.

(** C31: request rules are read back exactly as they were built, whatever the number
    of groups and conditions, when every group has conditions and a numeric multiplier
    and every condition is one of: a time in a plain zone that equals, reaches or is
    below a number, or lies in a range of numbers; a header or parameter of a plain name
    that exists or equals a plain text; a header that contains a plain text.  Ranges are
    protected by parentheses where needed.  Comparisons of a parameter with a number, and
    a parameter that contains a text, are not among them: those are not read back.  *)
Theorem request_rules_round_trip groups :
  Forall clean_group groups →
  tryParseRequestRuleExpr (buildRequestRuleExpr groups) = Parsed groups.
Proof.
  intros Hg. rewrite build_rules_text by done.
  assert (Forall (part_ok 42%N) (factor_text <$> groups)) as Hps.
  { apply Forall_fmap. eapply Forall_impl; [exact Hg|]. apply factor_part_ok. }
  unfold tryParseRequestRuleExpr. rewrite trim_join.
  2:{ eapply Forall_impl; [exact Hps|]. intros s (H1 & H2 & _). done. }
  destruct groups as [|g gs]; [done|].
  destruct (truthy (join (js " * ") (factor_text <$> (g :: gs)))) eqn:E.
  - cbn [negb]. rewrite split_multiply by done. rewrite <- (list_fmap_id (g :: gs)) at 2.
    apply parse_each_fmap. intros x Hx. rewrite Forall_forall in Hg. by apply group_reads, Hg.
  - exfalso. by destruct gs.
Qed.

Lemma demo_clean : clean_group demo_group.
Proof.
  split; [discriminate|].
  split; [|reflexivity].
  constructor; [|constructor; [|constructor; [|constructor]]].
  - split; [apply (bool_decide_unpack _); vm_compute; exact I|]. split; [discriminate|].
    split; [apply (bool_decide_unpack _); vm_compute; exact I|]. right. repeat split; reflexivity.
  - split; [discriminate|]. split; [apply (bool_decide_unpack _); vm_compute; exact I|]. right. left.
    split; [reflexivity|]. split; [reflexivity|]. apply (bool_decide_unpack _). vm_compute. exact I.
  - split; [discriminate|]. split; [apply (bool_decide_unpack _); vm_compute; exact I|]. right. right.
    split; [reflexivity|]. apply (bool_decide_unpack _). vm_compute. exact I.
Qed.

Lemma request_rules_round_trip_witness :
  tryParseRequestRuleExpr (buildRequestRuleExpr [demo_group]) = Parsed [demo_group].
Proof. apply request_rules_round_trip. constructor; [apply demo_clean|constructor]. Defined.

(** * Rules that are not read back *)

Definition COMPARE_OPS : list jstr := [js ">"; js ">="; js "<"; js "<="].

(** A bare comparison of a parameter *)
Definition bare_compare (path op v : jstr) : jstr :=
  jq "param('" ++ path ++ jq "') " ++ op ++ js " " ++ v.

Lemma bare_compare_refused path op v :
  path ≠ [] → plain_text path → op ∈ COMPARE_OPS →
  tryParseRequestCondition (bare_compare path op v) = Rejected.
Proof.
  intros Hne Hp Hop. unfold tryParseRequestCondition, bare_compare.
  rewrite time_refuses by (apply (bool_decide_unpack _); by vm_compute).
  set (t := jq "') " ++ op ++ js " " ++ v).
  assert (exec header_exists_re (jq "param('" ++ path ++ t) = None) as ->
    by (rbegin header_exists_re; vm_compute; reflexivity).
  assert (exec header_contains_re (jq "param('" ++ path ++ t) = None) as ->
    by (rbegin header_contains_re; vm_compute; reflexivity).
  assert (head t = Some QUOTE) as Ht by (by vm_compute).
  assert (∀ s r l A (k : mstate → option A) b c,
    s ∈ [jq "') != nil"; jq "') != nil && has(param('"; jq "') != nil && param('"; jq "') == "] →
    rmatch (seq (lit s :: r :: l)) k (mkM b t c) = None) as Hno.
  { intros s r l A k b c Hs. rewrite rmatch_seq. subst t.
    each_of Hs ltac:(unfold COMPARE_OPS in Hop; each_of Hop ltac:(vm_compute; reflexivity)). }
  assert (exec param_exists_re (jq "param('" ++ path ++ t) = None) as ->.
  { rbegin param_exists_re. do 3 rstep. rewrite rmatch_name by guards.
    by rewrite Hno by (apply (bool_decide_unpack _); by vm_compute). }
  unfold tryParseParamContains, tryParseParamCompare, tryParseEquals.
  assert (exec param_contains_re (jq "param('" ++ path ++ t) = None) as ->.
  { rbegin param_contains_re. do 3 rstep. rewrite rmatch_name by guards.
    by rewrite Hno by (apply (bool_decide_unpack _); by vm_compute). }
  assert (exec param_compare_re (jq "param('" ++ path ++ t) = None) as ->.
  { rbegin param_compare_re. do 3 rstep. rewrite rmatch_name by guards.
    by rewrite Hno by (apply (bool_decide_unpack _); by vm_compute). }
  assert (exec equals_re (jq "param('" ++ path ++ t) = None) as ->; [|done].
  change (jq "param('" ++ path ++ t) with (source_name FromParam ++ jq "('" ++ path ++ t).
  rbegin equals_re. rewrite rmatch_seq, rmatch_source. do 3 rstep. rewrite rmatch_name by guards.
  by rewrite Hno by (apply (bool_decide_unpack _); by vm_compute).
Qed.
