(* ===== verification/BillingCombine.v ===== *)
(** What the rule editor can and cannot read back: comparisons of a parameter
    are written as two conditions and lost, and a base expression is separated
    again from the rules multiplied to it. *)

From Stdlib Require Import ZArith NArith Lia SpecFloat.
From S2P Require Import Prelude JsString JsNumber JsValue JsRegex BillingExpr BillingProps BillingSplit.

Definition COMPARE_MODES : list jstr := [MATCH_GT; MATCH_GTE; MATCH_LT; MATCH_LTE].

Definition exists_text (path : jstr) : jstr :=
  cond_text (ParamHeaderCondition FromParam path MATCH_EXISTS []).

Lemma exists_clean path :
  path ≠ [] → plain_text path → clean_condition (ParamHeaderCondition FromParam path MATCH_EXISTS []).
Proof. intros. split_and!; [done|done|by left]. Qed.

Lemma compare_ops mode : mode ∈ COMPARE_MODES → compare_op mode ∈ COMPARE_OPS.
Proof.
  intros Hm. unfold COMPARE_MODES in Hm.
  each_of Hm ltac:(apply (bool_decide_unpack _); by vm_compute).
Qed.

Lemma build_compare path mode v :
  path ≠ [] → plain_text path → mode ∈ COMPARE_MODES → is_numeric v = true →
  buildRequestConditionExpr (ParamHeaderCondition FromParam path mode v)
  = join (js " && ") [exists_text path; bare_compare path (compare_op mode) v].
Proof.
  intros Hne Hp Hm Hv. unfold buildRequestConditionExpr. cbn [normalizeCondition].
  assert (bool_decide (mode ∈ getRequestRuleMatchOptions (Some FromParam)) = true) as ->.
  { unfold COMPARE_MODES in Hm. each_of Hm ltac:(by vm_compute). }
  unfold buildParamHeader. rewrite plain_trim by done. destruct path as [|u path]; [done|].
  cbn [truthy negb].
  assert (bool_decide (mode = MATCH_EXISTS) = false ∧ bool_decide (mode = MATCH_CONTAINS) = false
          ∧ bool_decide (mode ∈ [MATCH_GT; MATCH_GTE; MATCH_LT; MATCH_LTE]) = true) as (-> & -> & ->).
  { unfold COMPARE_MODES in Hm. each_of Hm ltac:(by vm_compute). }
  rewrite (plain_trim v) by (by apply numeric_plain). rewrite Hv. cbn [negb source_name].
  rewrite !call_text by done. unfold exists_text, bare_compare. cbn [cond_text join].
  rewrite bool_decide_true by done.
  change (jq "param('") with (js "param" ++ jq "('").
  change (jq "') != nil") with (jq "')" ++ js " != nil").
  change (js " != nil && ") with (js " != nil" ++ js " && ").
  change (jq "') ") with (jq "')" ++ js " "). by rewrite <- !app_assoc.
Qed.

Lemma compare_part_ok path op v :
  path ≠ [] → plain_text path → op ∈ COMPARE_OPS → is_numeric v = true →
  text_ok true (bare_compare path op v).
Proof.
  intros Hne Hp Hop Hv. unfold bare_compare.
  pose proof (numeric_plain v Hv). destruct (numeric_units v Hv) as [Hvne _].
  assert (cond_units true op ∧ net op = 0%Z) as [Hop1 Hop2].
  { unfold COMPARE_OPS in Hop. each_of Hop ltac:(split; [by apply lit_cond_units|by vm_compute]). }
  rewrite !app_assoc. rewrite <- !(app_assoc (jq "param('")).
  apply text_ok_ends; [by vm_compute|done|by apply lit_trimmed; vm_compute|by apply plain_trimmed
    | |units].
  by rewrite !net_app, Hop2, (net_plain path), (net_plain v).
Qed.

(** The factor built from one comparison *)
Definition compare_factor (path mode v mult : jstr) : jstr :=
  js "(" ++ join (js " && ") [exists_text path; bare_compare path (compare_op mode) v]
  ++ js " ? " ++ mult ++ js " : 1)".

Section compare.
Context (path mode v mult : jstr) (Hne : path ≠ []) (Hp : plain_text path).
Context (Hm : mode ∈ COMPARE_MODES) (Hv : is_numeric v = true) (Hmult : is_numeric mult = true).

Lemma compare_texts :
  Forall (text_ok true) [exists_text path; bare_compare path (compare_op mode) v].
Proof.
  apply Forall_cons; split; [|apply Forall_singleton].
  - eapply text_ok_bar, cond_text_ok. by apply exists_clean.
  - apply compare_part_ok; auto using compare_ops.
Qed.

Lemma compare_joined :
  let s := join (js " && ") [exists_text path; bare_compare path (compare_op mode) v] in
  s ≠ [] ∧ net s = 0%Z ∧ (63%N ∉ s) ∧ (42%N ∉ s).
Proof. apply join_ok; [done|apply compare_texts]. Qed.

Lemma build_compare_factor :
  buildRuleGroupFactor (mkGroup [ParamHeaderCondition FromParam path mode v] mult)
  = compare_factor path mode v mult.
Proof.
  unfold buildRuleGroupFactor. cbn [multiplier conditions fmap list_fmap].
  rewrite plain_trim, Hmult by (by apply numeric_plain). cbn [negb].
  rewrite build_compare by done. rewrite filter_id; [done|].
  constructor; [|done]. apply compare_joined.
Qed.

Lemma compare_factor_refused :
  tryParseRuleGroupFactor (compare_factor path mode v mult) = Rejected.
Proof.
  unfold tryParseRuleGroupFactor, compare_factor.
  destruct compare_joined as (Hj & _).
  destruct (factor_reads _ mult Hj Hmult) as (res & -> & Hc).
  assert (cap res 1 = join (js " && ") [exists_text path; bare_compare path (compare_op mode) v]) as ->
    by (by rewrite (cap_caps _ _ _ Hc)).
  unfold tryParseRequestConditions. rewrite split_and by apply compare_texts.
  cbn [parse_each]. pose proof compare_texts as Ht.
  apply Forall_cons in Ht as [(_ & -> & _) Ht]. apply Forall_cons in Ht as [(_ & -> & _) _].
  unfold exists_text. rewrite condition_reads by (by apply exists_clean).
  by rewrite bare_compare_refused by auto using compare_ops.
Qed.

Lemma compare_factor_part : part_ok 42%N (compare_factor path mode v mult).
Proof.
  destruct compare_joined as (_ & Hn & _ & H42).
  by apply factor_shape_ok.
Qed.
End compare.

(** a rule that compares a parameter with a number is not read back: the
    text built for it joins the existence test and the comparison by the same
    separator that the reader splits conditions at, and the bare comparison
    that remains is no known condition. *)
Theorem compare_rules_lost path mode v mult :
  path ≠ [] → plain_text path → mode ∈ COMPARE_MODES → is_numeric v = true →
  is_numeric mult = true →
  let rules := buildRequestRuleExpr [mkGroup [ParamHeaderCondition FromParam path mode v] mult] in
  truthy rules = true ∧ tryParseRequestRuleExpr rules = Rejected.
Proof.
  intros Hne Hp Hm Hv Hmult. cbv zeta. unfold buildRequestRuleExpr. cbn [fmap list_fmap].
  rewrite build_compare_factor by done.
  pose proof (compare_factor_part path mode v mult Hne Hp Hm Hv Hmult) as Hpart.
  rewrite filter_id by (constructor; [by destruct Hpart|done]).
  split; [done|]. unfold tryParseRequestRuleExpr.
  rewrite trim_join by (constructor; [by destruct Hpart as (? & ? & _)|done]).
  change (negb (truthy (join (js " * ") [compare_factor path mode v mult]))) with false. cbv iota.
  rewrite split_multiply by (by constructor). cbn [parse_each].
  by rewrite compare_factor_refused.
Qed.

Lemma compare_rules_lost_witness :
  let rules := buildRequestRuleExpr
    [mkGroup [ParamHeaderCondition FromParam (js "max_tokens") MATCH_GTE (js "4096")] (js "1.5")] in
  truthy rules = true ∧ tryParseRequestRuleExpr rules = Rejected.
Proof.
  apply (compare_rules_lost (js "max_tokens") MATCH_GTE (js "4096") (js "1.5"));
    [discriminate|apply (bool_decide_unpack _); vm_compute; exact I
    |apply (bool_decide_unpack _); vm_compute; exact I|vm_compute; reflexivity|vm_compute; reflexivity].
Defined.

(** * Base and rules *)


(** A base expression that is one part: balanced and never below the level it
    starts at, not wrapped in one pair of parentheses, and no rule itself *)
Definition clean_base (base : jstr) : Prop :=
  base ≠ [] ∧ trim base = base ∧ net base = 0%Z ∧ stays_inside 1 base = true
  ∧ hasFullOuterParens base = false
  ∧ is_rule_part (js "(" ++ base ++ js ")") = Some false.

Lemma join_cons sep p (l : list jstr) : l ≠ [] → join sep (p :: l) = p ++ sep ++ join sep l.
Proof. by destruct l. Qed.

Section combine.
Context (base : jstr) (Hbase : clean_base base).
Context (groups : list RequestRuleGroup) (Hg : groups ≠ []) (Hgs : Forall clean_group groups).

#[local] Abbreviation wrapped := (js "(" ++ base ++ js ")").
#[local] Abbreviation factors := (factor_text <$> groups).

Lemma factors_ok : Forall (part_ok 42%N) factors.
Proof. apply Forall_fmap. eapply Forall_impl; [exact Hgs|]. apply factor_part_ok. Qed.

Lemma wrapped_trim : trim wrapped = wrapped.
Proof.
  apply trim_ends; [by vm_compute..|by apply lit_trimmed; vm_compute|by apply lit_trimmed; vm_compute].
Qed.

(** The base in parentheses is walked over as one part. *)
Lemma split_wrapped t :
  head t ≠ Some 42%N → split_loop (js " * ") 0 0 [] (wrapped ++ t)
  = split_loop (js " * ") 0 0 (reverse wrapped) t.
Proof.
  intros Ht. destruct Hbase as (_ & _ & Hn & Hin & _).
  change (js " * ") with [32; 42; 32]%N. change (js "(") with [40%N]. change (js ")") with [41%N].
  rewrite <- !app_assoc. cbn [app].
  rewrite split_unit_step by done. change (0 + paren 40)%Z with 1%Z.
  rewrite split_inside by done. rewrite Hn.
  change (1 + 0)%Z with 1%Z. rewrite split_unit_step by done. change (1 + paren 41)%Z with 0%Z.
  by rewrite reverse_cons, reverse_app, reverse_singleton.
Qed.

Lemma combined_parts :
  splitTopLevelMultiply (wrapped ++ js " * " ++ join (js " * ") factors) = wrapped :: factors.
Proof.
  pose proof factors_ok as Hf. pose proof (split_multiply _ Hf) as Hs.
  unfold splitTopLevelMultiply, split_top in *. rewrite split_wrapped by (by vm_compute).
  pose proof (split_at_sep 32 42 [32]%N eq_refl (join (js " * ") factors) (reverse wrapped)) as E.
  change [32; 42; 32]%N with (js " * ") in E. rewrite E, reverse_involutive, wrapped_trim.
  rewrite filter_cons_True by done. by rewrite Hs.
Qed.

Lemma rule_parts : classify factors = Some (factors, []).
Proof.
  clear Hg. induction Hgs as [|g gs Hgc Hgs' IH]; [done|]. cbn [fmap list_fmap classify].
  change (list_fmap _ _ factor_text gs) with (factor_text <$> gs).
  unfold is_rule_part. pose proof (factor_part_ok g Hgc) as Hp.
  assert (tryParseRequestRuleExpr (factor_text g) = Parsed [g]) as ->.
  { unfold tryParseRequestRuleExpr. destruct Hp as (Hne & Ht & Hrest). rewrite Ht.
    destruct (factor_text g) as [|u s] eqn:E; [done|]. cbn [truthy negb]. rewrite <- E in *.
    pose proof (split_multiply [factor_text g]) as Hs. cbn [join] in Hs.
    rewrite Hs by (by constructor). cbn [parse_each]. by rewrite group_reads. }
  cbn [mbind option_bind]. by rewrite IH.
Qed.

(** The parentheses around the base are the outer ones. *)
Lemma parens_inside d s :
  (0 < d)%Z → stays_inside d s = true → (d + net s = 1)%Z → parens_loop d (s ++ [41%N]) = true.
Proof.
  revert d. induction s as [|c s IH]; intros d Hd Hin Hn.
  - cbn [net foldr] in Hn. assert (d = 1)%Z as -> by lia. done.
  - cbn [stays_inside] in Hin. apply andb_true_iff in Hin as [Hc%Z.ltb_lt Hin].
    cbn [net foldr] in Hn. fold (net s) in Hn. cbn [app parens_loop].
    pose proof (depth_step d c) as E. cbv zeta in *. rewrite E.
    destruct (Z.eqb_spec (d + paren c) 0); [lia|]. cbn [andb]. apply IH; [lia|done|lia].
Qed.

Lemma unwrap_wrapped : unwrapOuterParens wrapped = base.
Proof.
  destruct Hbase as (Hne & Ht & Hn & Hin & Hout & _). unfold unwrapOuterParens. rewrite wrapped_trim.
  assert (hasFullOuterParens wrapped = true) as Hfull.
  { unfold hasFullOuterParens. change (js "(") with [40%N]. change (js ")") with [41%N].
    assert (endsWith ([40%N] ++ base ++ [41%N]) [41%N] = true) as ->.
    { apply bool_decide_eq_true. exists ([40%N] ++ base). by rewrite app_assoc. }
    change (startsWith ([40%N] ++ base ++ [41%N]) [40%N]) with true.
    change (parens_loop 1 (base ++ [41%N]) = true). apply parens_inside; [done|done|lia]. }
  assert (inner wrapped = base) as Hinner.
  { unfold inner. change (js "(") with [40%N]. cbn [app drop]. cbn [length].
    rewrite length_app. change (length (js ")")) with 1. cbn [length].
    replace (S (length base + 1) - 2) with (length base) by lia. by rewrite drop_0, take_app_length. }
  change (length wrapped) with (S (length (base ++ js ")"))). cbn [unwrap_loop].
  rewrite Hfull, Hinner, Ht. destruct (length (base ++ js ")")); [done|]. cbn [unwrap_loop]. by rewrite Hout.
Qed.

Lemma combine_text :
  combineBillingExpr base (buildRequestRuleExpr groups)
  = wrapped ++ js " * " ++ join (js " * ") factors.
Proof.
  unfold combineBillingExpr. destruct Hbase as (Hne & Ht & _). rewrite Ht, build_rules_text by done.
  rewrite trim_join.
  2:{ eapply Forall_impl; [exact factors_ok|]. intros s (H1 & H2 & _). done. }
  destruct base as [|u b] eqn:E; [done|]. cbn [truthy negb]. rewrite <- E.
  assert (truthy (join (js " * ") factors) = true) as ->.
  { destruct groups as [|g [|g' gs]]; [done|done|done]. }
  cbn [negb]. change (js ") * ") with (js ")" ++ js " * "). by rewrite <- !app_assoc.
Qed.

Lemma split_combined :
  splitBillingExprAndRequestRules (combineBillingExpr base (buildRequestRuleExpr groups))
  = Some (base, buildRequestRuleExpr groups).
Proof.
  rewrite combine_text. unfold splitBillingExprAndRequestRules.
  assert (trim (wrapped ++ js " * " ++ join (js " * ") factors)
          = wrapped ++ js " * " ++ join (js " * ") factors) as ->.
  { rewrite <- join_cons by (by destruct groups). apply trim_join. constructor.
    - split; [done|apply wrapped_trim].
    - eapply Forall_impl; [exact factors_ok|]. intros s (H1 & H2 & _). done. }
  rewrite combined_parts.
  change (truthy (wrapped ++ js " * " ++ join (js " * ") factors)) with true. cbn [negb].
  destruct Hbase as (_ & _ & _ & _ & _ & Hrule).
  cbn [classify]. rewrite Hrule. cbn [mbind option_bind]. rewrite rule_parts. cbn [mbind option_bind].
  rewrite build_rules_text by done. pose proof unwrap_wrapped as Hu.
  destruct groups as [|g gs]; [done|]. cbn [fmap list_fmap length Nat.leb]. by rewrite Hu.
Qed.
End combine.

(** C32: a base expression and the rules multiplied to it are separated again,
    each exactly as it was, when the rules are of the kinds that are read back (no
    comparison of a parameter with a number and no parameter that contains a text), there
    is at least one, and the base is a trimmed balanced text that is neither wrapped in one
    pair of parentheses nor a rule itself; parentheses, stars and conditionals inside the
    base do not matter.  *)
Theorem combine_split_round_trip base groups :
  clean_base base → groups ≠ [] → Forall clean_group groups →
  splitBillingExprAndRequestRules (combineBillingExpr base (buildRequestRuleExpr groups))
  = Some (base, buildRequestRuleExpr groups).
Proof. intros Hb Hg Hgs. by apply split_combined. Qed.

Lemma combine_split_round_trip_witness :
  splitBillingExprAndRequestRules
    (combineBillingExpr (jq "len <= 2000 ? tier('a', p * 2 + c * 3) : tier('b', p * 4)")
       (buildRequestRuleExpr [demo_group; demo_group]))
  = Some (jq "len <= 2000 ? tier('a', p * 2 + c * 3) : tier('b', p * 4)",
          buildRequestRuleExpr [demo_group; demo_group]).
Proof.
  apply combine_split_round_trip; [|discriminate|constructor; [|constructor; [|constructor]]; apply demo_clean].
  split; [discriminate|]. repeat split; vm_compute; reflexivity.
Defined.
