(* ===== verification/CustomRoutes.v ===== *)
(** Route tables of custom channels: [web/src/features/channels/lib/advanced-custom.ts].

    The options the editor offers, the defaults of a converter, the
    normalisation of a table and its validation.  Converters and
    authentication types are texts, since a table read from JSON may hold
    unregistered ones.  The parser behind [new URL] belongs to the platform and
    is a parameter: host and protocol of a text, [None] where it throws. *)

From Stdlib Require Import ZArith NArith.
From stdpp Require Import gmap.
From S2P Require Import Prelude JsString.

(** * Data *)

Record AdvancedCustomRouteAuth := mkRouteAuth {
  auth_type : option jstr;
  auth_name : option jstr;
  auth_value : option jstr;
}.

#[global] Instance route_auth_eq_dec : EqDecision AdvancedCustomRouteAuth.
Proof. solve_decision. Defined.

Record AdvancedCustomRoute := mkRoute {
  incoming_path : option jstr;
  upstream_path : option jstr;
  converter : option jstr;
  route_models : option (list jstr);
  route_auth : option AdvancedCustomRouteAuth;
}.

Record AdvancedCustomConfig := mkRoutesConfig {
  advanced_routes : option (list AdvancedCustomRoute);
}.

Record AdvancedCustomValidationError := mkRouteError {
  message : jstr;
  routeIndex : option nat;
}.

(** [x || d] on an optional text *)
Definition text_or (x : option jstr) (d : jstr) : jstr :=
  match x with Some s => if truthy s then s else d | None => d end.

(** [x?.trim() || ''] *)
Definition trimmed_text (x : option jstr) : jstr :=
  match x with Some s => trim s | None => [] end.

(** * Options *)

Definition ADVANCED_CUSTOM_MODEL_LIST_PATH : jstr := js "/v1/models".
Definition ADVANCED_CUSTOM_MODEL_LIST_LABEL : jstr := js "OpenAI Models".

Definition NONE : jstr := js "none".
Definition anthropic_to_chat : jstr := js "anthropic_messages_to_openai_chat_completions".
Definition chat_to_anthropic : jstr := js "openai_chat_completions_to_anthropic_messages".
Definition chat_to_responses : jstr := js "openai_chat_completions_to_openai_responses".
Definition responses_to_chat : jstr := js "openai_responses_to_openai_chat_completions".
Definition responses_to_gemini : jstr := js "openai_responses_to_gemini_generate_content".
Definition gemini_to_chat : jstr := js "gemini_generate_content_to_openai_chat_completions".
Definition chat_to_gemini : jstr := js "openai_chat_completions_to_gemini_generate_content".

Record ConverterOption := mkConverterOption {
  co_value : jstr;
  co_label : jstr;
  triggerLabel : jstr;
}.

Definition ADVANCED_CUSTOM_CONVERTER_OPTIONS : list ConverterOption :=
  [mkConverterOption NONE (js "Native forwarding") (js "Native forwarding");
   mkConverterOption anthropic_to_chat (js "Anthropic Messages to OpenAI Chat") (js "To OpenAI Chat");
   mkConverterOption chat_to_anthropic (js "OpenAI Chat to Anthropic Messages")
     (js "To Anthropic Messages");
   mkConverterOption chat_to_responses (js "OpenAI Chat to OpenAI Responses")
     (js "To OpenAI Responses");
   mkConverterOption responses_to_chat (js "OpenAI Responses to OpenAI Chat") (js "To OpenAI Chat");
   mkConverterOption responses_to_gemini (js "OpenAI Responses to Gemini Generate Content")
     (js "To Gemini Generate Content");
   mkConverterOption gemini_to_chat (js "Gemini Generate Content to OpenAI Chat")
     (js "To OpenAI Chat");
   mkConverterOption chat_to_gemini (js "OpenAI Chat to Gemini Generate Content")
     (js "To Gemini Generate Content")].

Record LabelledOption := mkOption { opt_value : jstr; opt_label : jstr }.

Definition ADVANCED_CUSTOM_AUTH_MODE_OPTIONS : list LabelledOption :=
  [mkOption (js "default") (js "Default Bearer"); mkOption (js "none") (js "No Auth");
   mkOption (js "header") (js "Header"); mkOption (js "query") (js "Query")].

Definition ADVANCED_CUSTOM_INCOMING_PATH_OPTIONS : list LabelledOption :=
  [mkOption (js "/v1/chat/completions") (js "OpenAI Chat");
   mkOption (js "/v1/responses") (js "OpenAI Responses");
   mkOption (js "/v1/responses/compact") (js "OpenAI Responses Compact");
   mkOption (js "/v1/alpha/search") (js "OpenAI Alpha Search");
   mkOption ADVANCED_CUSTOM_MODEL_LIST_PATH ADVANCED_CUSTOM_MODEL_LIST_LABEL;
   mkOption (js "/v1/embeddings") (js "OpenAI Embeddings");
   mkOption (js "/v1/images/generations") (js "OpenAI Image Generations");
   mkOption (js "/v1/images/edits") (js "OpenAI Image Edits");
   mkOption (js "/v1/completions") (js "OpenAI Completions");
   mkOption (js "/v1/audio/speech") (js "OpenAI Audio Speech");
   mkOption (js "/v1/audio/transcriptions") (js "OpenAI Audio Transcriptions");
   mkOption (js "/v1/audio/translations") (js "OpenAI Audio Translations");
   mkOption (js "/v1/rerank") (js "OpenAI Rerank");
   mkOption (js "/v1/realtime") (js "OpenAI Realtime");
   mkOption (js "/v1/messages") (js "Claude Messages");
   mkOption (js "/v1beta/models/{model}:generateContent") (js "Gemini Generate Content");
   mkOption (js "/v1beta/models/{model}:embedContent") (js "Gemini Embed Content");
   mkOption (js "/v1beta/models/{model}:batchEmbedContents") (js "Gemini Batch Embed Contents")].

Definition openAIChatPath : jstr := js "/v1/chat/completions".
Definition openAIResponsesPath : jstr := js "/v1/responses".
Definition claudeMessagesPath : jstr := js "/v1/messages".
Definition geminiGenerateContentPath : jstr := js "/v1beta/models/{model}:generateContent".

Definition auth_of (type name value : string) : AdvancedCustomRouteAuth :=
  mkRouteAuth (Some (js type)) (Some (js name)) (Some (js value)).
Definition bearerHeaderAuth : AdvancedCustomRouteAuth :=
  auth_of "header" "Authorization" "Bearer {api_key}".
Definition apiKeyHeaderAuth : AdvancedCustomRouteAuth := auth_of "header" "x-api-key" "{api_key}".
Definition geminiQueryAuth : AdvancedCustomRouteAuth := auth_of "query" "key" "{api_key}".

(** ** Templates *)

Definition native (path : string) (auth : AdvancedCustomRouteAuth) : AdvancedCustomRoute :=
  mkRoute (Some (js path)) (Some (js path)) (Some NONE) None (Some auth).

Record AdvancedCustomTemplateOption := mkTemplate {
  tpl_value : jstr;
  tpl_label : jstr;
  tpl_config : AdvancedCustomConfig;
}.

Definition template (value label : string) (routes : list AdvancedCustomRoute) :=
  mkTemplate (js value) (js label) (mkRoutesConfig (Some routes)).

Definition ADVANCED_CUSTOM_TEMPLATE_OPTIONS : list AdvancedCustomTemplateOption :=
  [template "official_openai_chat" "Official OpenAI Chat"
     [native "/v1/chat/completions" bearerHeaderAuth];
   template "official_openai_responses" "Official OpenAI Responses"
     [native "/v1/responses" bearerHeaderAuth];
   template "official_openai_embeddings" "Official OpenAI Embeddings"
     [native "/v1/embeddings" bearerHeaderAuth];
   template "official_openai_images" "Official OpenAI Images"
     [native "/v1/images/generations" bearerHeaderAuth; native "/v1/images/edits" bearerHeaderAuth];
   template "official_claude_messages" "Official Claude Messages"
     [native "/v1/messages" apiKeyHeaderAuth];
   template "official_gemini_native" "Official Gemini Native"
     [native "/v1beta/models/{model}:generateContent" geminiQueryAuth;
      native "/v1beta/models/{model}:embedContent" geminiQueryAuth;
      native "/v1beta/models/{model}:batchEmbedContents" geminiQueryAuth];
   template "official_gemini_from_openai_chat" "Official Gemini from OpenAI Chat"
     [mkRoute (Some (js "/v1/chat/completions"))
        (Some (js "/v1beta/models/{model}:generateContent")) (Some chat_to_gemini) None
        (Some geminiQueryAuth)]].

(** The copy through JSON gives equal fields. *)
Definition getAdvancedCustomTemplateConfig (templateKey : jstr) : option AdvancedCustomConfig :=
  match list_find (λ o, tpl_value o = templateKey) ADVANCED_CUSTOM_TEMPLATE_OPTIONS with
  | Some (_, o) => Some (tpl_config o)
  | None => tpl_config <$> head ADVANCED_CUSTOM_TEMPLATE_OPTIONS
  end.

Definition createAdvancedCustomRoute : AdvancedCustomRoute :=
  mkRoute (Some openAIChatPath) (Some openAIChatPath) (Some NONE) None None.
Definition createAdvancedCustomConfig : AdvancedCustomConfig :=
  mkRoutesConfig (Some [createAdvancedCustomRoute]).

(** * Converters *)

Definition isAdvancedCustomConverter (value : jstr) : bool :=
  existsb (λ o, bool_decide (co_value o = value)) ADVANCED_CUSTOM_CONVERTER_OPTIONS.

Definition isConverterPathAllowed (incomingPath conv : jstr) : bool :=
  if bool_decide (conv = NONE) then true
  else if bool_decide (incomingPath = js "/v1/alpha/search") then false
  else if bool_decide (conv = anthropic_to_chat) then bool_decide (incomingPath = js "/v1/messages")
  else if bool_decide (conv = chat_to_anthropic) || bool_decide (conv = chat_to_responses)
       || bool_decide (conv = chat_to_gemini)
  then bool_decide (incomingPath = js "/v1/chat/completions")
  else if bool_decide (conv = responses_to_chat) then bool_decide (incomingPath = js "/v1/responses")
  else if bool_decide (conv = responses_to_gemini) then bool_decide (incomingPath = js "/v1/responses")
  else includes incomingPath (js ":generateContent")
       || includes incomingPath (js ":streamGenerateContent").

Definition getAdvancedCustomIncomingPathOptions (conv : jstr) : list LabelledOption :=
  filter (λ o, isConverterPathAllowed (opt_value o) conv = true)
    ADVANCED_CUSTOM_INCOMING_PATH_OPTIONS.

Definition getDefaultAdvancedCustomIncomingPath (conv : jstr) : jstr :=
  text_or (opt_value <$> head (getAdvancedCustomIncomingPathOptions conv))
    (js "/v1/chat/completions").

Definition isAdvancedCustomIncomingPathAllowed : jstr → jstr → bool := isConverterPathAllowed.

Definition getAdvancedCustomConverterOptions (incomingPath : jstr) : list ConverterOption :=
  let normalizedIncomingPath := trim incomingPath in
  filter (λ o, bool_decide (co_value o = NONE)
               || isConverterPathAllowed normalizedIncomingPath (co_value o) = true)
    ADVANCED_CUSTOM_CONVERTER_OPTIONS.

Definition getAdvancedCustomIncomingPathLabel (value : jstr) : jstr :=
  text_or ((λ '(_, o), opt_label o) <$>
             list_find (λ o, opt_value o = value) ADVANCED_CUSTOM_INCOMING_PATH_OPTIONS) value.

Definition getAdvancedCustomNativeAuth (incomingPath : jstr) : AdvancedCustomRouteAuth :=
  if bool_decide (incomingPath = claudeMessagesPath) then apiKeyHeaderAuth
  else if includes incomingPath (js ":generateContent")
       || includes incomingPath (js ":streamGenerateContent")
       || includes incomingPath (js ":embedContent")
       || includes incomingPath (js ":batchEmbedContents")
  then geminiQueryAuth
  else bearerHeaderAuth.

Record AdvancedCustomConverterDefaults := mkDefaults {
  default_upstream : jstr;
  default_auth : option AdvancedCustomRouteAuth;
}.

Definition getAdvancedCustomConverterDefaults (conv incomingPath : jstr) :
    AdvancedCustomConverterDefaults :=
  let normalizedIncomingPath :=
    text_or (Some (trim incomingPath)) (getDefaultAdvancedCustomIncomingPath conv) in
  if bool_decide (conv = NONE) then
    mkDefaults normalizedIncomingPath (Some (getAdvancedCustomNativeAuth normalizedIncomingPath))
  else if bool_decide (conv = anthropic_to_chat) || bool_decide (conv = gemini_to_chat)
       || bool_decide (conv = responses_to_chat)
  then mkDefaults openAIChatPath (Some bearerHeaderAuth)
  else if bool_decide (conv = chat_to_responses)
  then mkDefaults openAIResponsesPath (Some bearerHeaderAuth)
  else if bool_decide (conv = chat_to_anthropic)
  then mkDefaults claudeMessagesPath (Some apiKeyHeaderAuth)
  else if bool_decide (conv = chat_to_gemini) || bool_decide (conv = responses_to_gemini)
  then mkDefaults geminiGenerateContentPath (Some geminiQueryAuth)
  else mkDefaults (text_or (Some normalizedIncomingPath) openAIChatPath)
         (Some (getAdvancedCustomNativeAuth normalizedIncomingPath)).

Definition getAdvancedCustomUpstreamPathPlaceholder (conv : jstr) (incomingPath : option jstr) : jstr :=
  default_upstream (getAdvancedCustomConverterDefaults conv
    (default (getDefaultAdvancedCustomIncomingPath conv) incomingPath)).

(** * Authentication *)

Definition getAdvancedCustomAuthMode (route : AdvancedCustomRoute) : jstr :=
  text_or (a ← route_auth route; auth_type a) (js "default").

Definition buildAdvancedCustomAuth (mode : jstr) (previousAuth : option AdvancedCustomRouteAuth) :
    option AdvancedCustomRouteAuth :=
  let name d := Some (text_or (a ← previousAuth; auth_name a) d) in
  let value d := Some (text_or (a ← previousAuth; auth_value a) d) in
  if bool_decide (mode = js "default") then None
  else if bool_decide (mode = js "none") then Some (mkRouteAuth (Some (js "none")) None None)
  else if bool_decide (mode = js "header")
  then Some (mkRouteAuth (Some (js "header")) (name (js "Authorization")) (value (js "Bearer {api_key}")))
  else Some (mkRouteAuth (Some (js "query")) (name (js "api_key")) (value (js "{api_key}"))).

(** [Some message] is an error. *)
Definition validateRouteAuth (auth : option AdvancedCustomRouteAuth) : option jstr :=
  match auth with
  | None => None
  | Some a =>
      if bool_decide (auth_type a = Some (js "none")) then None
      else if bool_decide (auth_type a ≠ Some (js "header"))
           && bool_decide (auth_type a ≠ Some (js "query"))
      then Some (js "Auth type is invalid")
      else if negb (truthy (trimmed_text (auth_name a))) then Some (js "Auth name is required")
      else if negb (truthy (trimmed_text (auth_value a))) then Some (js "Auth value is required")
      else None
  end.

(** * Choosing a converter in the editor *)

(** The patch the editor of a route applies when a converter is chosen: the path
    is kept where the converter allows it. *)
Definition setConverter (route : AdvancedCustomRoute) (nextConverter : jstr) : AdvancedCustomRoute :=
  let incomingPath :=
    text_or (incoming_path route)
      (getDefaultAdvancedCustomIncomingPath (text_or (converter route) NONE)) in
  let nextIncomingPath :=
    if isAdvancedCustomIncomingPathAllowed incomingPath nextConverter then incomingPath
    else getDefaultAdvancedCustomIncomingPath nextConverter in
  let defaults := getAdvancedCustomConverterDefaults nextConverter nextIncomingPath in
  mkRoute (Some nextIncomingPath) (Some (default_upstream defaults)) (Some nextConverter)
    (route_models route) (default_auth defaults).

(** * Normalisation *)

Definition parseAdvancedCustomRouteModels (value : jstr) : list jstr :=
  uniq (filter (λ s, s ≠ []) (trim <$> split_unit 44%N value)).

Definition normalizeAdvancedCustomRouteModels (models : option (list jstr)) : list jstr :=
  match models with Some ms => filter (λ s, s ≠ []) (trim <$> ms) | None => [] end.

Definition getAdvancedCustomRouteUpstreamPath (route : AdvancedCustomRoute) : jstr :=
  trim (text_or (upstream_path route) []).

Definition normalizeAdvancedCustomRoute (route : AdvancedCustomRoute) : AdvancedCustomRoute :=
  let models := normalizeAdvancedCustomRouteModels (route_models route) in
  mkRoute (Some (text_or (incoming_path route) []))
    (Some (getAdvancedCustomRouteUpstreamPath route))
    (Some (text_or (converter route) NONE))
    (if decide (models = []) then None else Some models)
    ((λ a, mkRouteAuth (auth_type a) (Some (text_or (auth_name a) []))
             (Some (text_or (auth_value a) []))) <$> route_auth route).

Definition normalizeAdvancedCustomConfig (config : AdvancedCustomConfig) : AdvancedCustomConfig :=
  mkRoutesConfig (Some (normalizeAdvancedCustomRoute <$> default [] (advanced_routes config))).

(** * Validation *)

Definition ADVANCED_CUSTOM_MODEL_REGEX_PREFIX : jstr := js "re:".

Inductive AdvancedCustomModelRuleKind := exact_rule | regex_rule.

#[global] Instance rule_kind_eq_dec : EqDecision AdvancedCustomModelRuleKind.
Proof. solve_decision. Defined.

Definition getAdvancedCustomModelRuleKind (modelRule : jstr) : AdvancedCustomModelRuleKind :=
  if startsWith modelRule ADVANCED_CUSTOM_MODEL_REGEX_PREFIX then regex_rule else exact_rule.

Definition getAdvancedCustomRegexModelPattern (modelRule : jstr) : jstr :=
  slice_from modelRule (length ADVANCED_CUSTOM_MODEL_REGEX_PREFIX).

(** What is known of the routes seen so far with one incoming path *)
Record PathState := mkPathState {
  catchAllIndex : option nat;
  models_seen : gmap jstr nat;
}.

(** An error message, or the state to go on with.  States are only read while
    no error has been returned, so an error carries none. *)
Fixpoint route_models_loop (index : nat) (seenInRoute : gset jstr) (state : PathState)
    (models : list jstr) : jstr + PathState :=
  match models with
  | [] => inr state
  | model :: rest =>
      if bool_decide (getAdvancedCustomModelRuleKind model = regex_rule)
         && bool_decide (getAdvancedCustomRegexModelPattern model = [])
      then inl (js "Model regex cannot be empty")
      else if bool_decide (model ∈ seenInRoute) then inl (js "Duplicate model in route models")
      else if bool_decide (is_Some (models_seen state !! model))
      then inl (js "Route models must be unique for the same incoming path")
      else route_models_loop index ({[model]} ∪ seenInRoute)
             (mkPathState (catchAllIndex state) (<[model := index]> (models_seen state))) rest
  end.

Definition validateAdvancedCustomRouteModels (index : nat) (incomingPath : jstr) (models : list jstr)
    (routeModelsByPath : gmap jstr PathState) : jstr + gmap jstr PathState :=
  let state := default (mkPathState None ∅) (routeModelsByPath !! incomingPath) in
  let store s := <[incomingPath := s]> routeModelsByPath in
  match models with
  | [] =>
      match catchAllIndex state with
      | Some _ => inl (js "Only one catch-all route is allowed for the same incoming path")
      | None => inr (store (mkPathState (Some index) (models_seen state)))
      end
  | _ :: _ =>
      match catchAllIndex state with
      | Some _ => inl (js "Catch-all route must be last for the same incoming path")
      | None =>
          match route_models_loop index ∅ state models with
          | inl m => inl m
          | inr s => inr (store s)
          end
      end
  end.

Section url.
(** Host and protocol as [new URL] reads them; [None] where it throws *)
Context (parse_url : jstr → option (jstr * jstr)).

Definition isFullHttpURLOrAbsolutePath (value : jstr) : bool :=
  if startsWith value (js "/") then negb (startsWith value (js "//"))
  else
    match parse_url value with
    | Some (host, protocol) =>
        truthy host && (bool_decide (protocol = js "http:") || bool_decide (protocol = js "https:"))
    | None => false
    end.

(** The extra rules of the model list route; the new value of
    [modelListRouteIndex] *)
Definition model_list_rules (index : nat) (incomingPath upstreamPath conv : jstr)
    (models : list jstr) (modelListRouteIndex : option nat) : jstr + option nat :=
  if bool_decide (incomingPath = ADVANCED_CUSTOM_MODEL_LIST_PATH) then
    match modelListRouteIndex with
    | Some _ => inl (js "Only one OpenAI Models route is allowed")
    | None =>
        match models with
        | _ :: _ => inl (js "OpenAI Models route does not support client model rules")
        | [] =>
            if bool_decide (conv ≠ NONE)
            then inl (js "OpenAI Models route must use native forwarding")
            else if includes upstreamPath (js "{model}")
            then inl (js "OpenAI Models upstream path must not contain {model}")
            else inr (Some index)
        end
    end
  else inr modelListRouteIndex.

(** The rules on one route after those on its models *)
Definition route_target_error (incomingPath upstreamPath conv : jstr)
    (auth : option AdvancedCustomRouteAuth) : option jstr :=
  if negb (truthy upstreamPath) then Some (js "Upstream path is required")
  else if negb (isFullHttpURLOrAbsolutePath upstreamPath)
  then Some (js "Upstream path must be a full URL or a path starting with /")
  else if negb (isAdvancedCustomConverter conv) then Some (js "Converter is not registered")
  else if negb (isConverterPathAllowed incomingPath conv)
  then Some (js "Converter does not match incoming path")
  else validateRouteAuth auth.

(** The body of the loop: an error message, or the state for the next route *)
Definition validate_route (index : nat) (byPath : gmap jstr PathState)
    (modelListRouteIndex : option nat) (route : AdvancedCustomRoute) :
    jstr + (gmap jstr PathState * option nat) :=
  let incomingPath := trimmed_text (incoming_path route) in
  let upstreamPath := getAdvancedCustomRouteUpstreamPath route in
  let conv := text_or (converter route) NONE in
  let models := normalizeAdvancedCustomRouteModels (route_models route) in
  if negb (truthy incomingPath) then inl (js "Incoming path is required")
  else if negb (startsWith incomingPath (js "/")) then inl (js "Incoming path must start with /")
  else if includes incomingPath (js "?") then inl (js "Incoming path must not include query")
  else
    match model_list_rules index incomingPath upstreamPath conv models modelListRouteIndex with
    | inl m => inl m
    | inr modelListRouteIndex =>
        match validateAdvancedCustomRouteModels index incomingPath models byPath with
        | inl m => inl m
        | inr byPath =>
            match route_target_error incomingPath upstreamPath conv (route_auth route) with
            | Some m => inl m
            | None => inr (byPath, modelListRouteIndex)
            end
        end
    end.

Fixpoint validate_loop (index : nat) (byPath : gmap jstr PathState)
    (modelListRouteIndex : option nat) (routes : list AdvancedCustomRoute) :
    option AdvancedCustomValidationError :=
  match routes with
  | [] => None
  | route :: rest =>
      match validate_route index byPath modelListRouteIndex route with
      | inl m => Some (mkRouteError m (Some index))
      | inr (byPath, modelListRouteIndex) =>
          validate_loop (S index) byPath modelListRouteIndex rest
      end
  end.

Definition validateAdvancedCustomConfig (config : option AdvancedCustomConfig) :
    option AdvancedCustomValidationError :=
  match config with
  | None => Some (mkRouteError (js "Advanced custom configuration is required") None)
  | Some config =>
      match default [] (advanced_routes (normalizeAdvancedCustomConfig config)) with
      | [] =>
          Some (mkRouteError (js "Advanced custom configuration requires at least one route") None)
      | routes => validate_loop 0 ∅ None routes
      end
  end.

Definition hasValidAdvancedCustomModelListRoute (config : option AdvancedCustomConfig) : bool :=
  match config with
  | None => false
  | Some c =>
      match validateAdvancedCustomConfig config with
      | Some _ => false
      | None =>
          existsb (λ r, bool_decide (trim <$> incoming_path r = Some ADVANCED_CUSTOM_MODEL_LIST_PATH))
            (default [] (advanced_routes (normalizeAdvancedCustomConfig c)))
      end
  end.

Definition advancedCustomConfigUsesRelativeUpstreamPath (config : option AdvancedCustomConfig) : bool :=
  match config with
  | None => false
  | Some c =>
      existsb (λ r, startsWith (getAdvancedCustomRouteUpstreamPath r) (js "/"))
        (default [] (advanced_routes (normalizeAdvancedCustomConfig c)))
  end.
End url.

(** ** Examples *)

Definition with_models (path : string) (models : list string) : AdvancedCustomRoute :=
  mkRoute (Some (js path)) (Some (js path)) None (Some (js <$> models)) None.

Example catch_all_must_be_last :
  validateAdvancedCustomConfig (λ _, None)
    (Some (mkRoutesConfig (Some [with_models "/v1/responses" ["gpt-5"];
                                 with_models "/v1/messages" [];
                                 with_models "/v1/messages" [" re:^claude "]])))
  = Some (mkRouteError (js "Catch-all route must be last for the same incoming path") (Some 2)).
Proof. vm_compute. reflexivity. Qed.

Example model_rules_unique :
  validateAdvancedCustomConfig (λ _, None)
    (Some (mkRoutesConfig (Some [with_models "/v1/responses" ["gpt-5"; "o3"];
                                 with_models "/v1/messages" ["gpt-5"];
                                 with_models "/v1/responses" ["gpt-4"; " gpt-5"]])))
  = Some (mkRouteError (js "Route models must be unique for the same incoming path") (Some 2)).
Proof. vm_compute. reflexivity. Qed.
