(* ===== verification/CustomRoutesProps.v ===== *)
(** What the validation of a route table accepts, which route it blames, and
    that the options and templates of the editor are accepted. *)

From Stdlib Require Import ZArith NArith.
From stdpp Require Import gmap.
From S2P Require Import Prelude JsString CustomRoutes.

(** * What a table must satisfy *)

Definition path_of (r : AdvancedCustomRoute) : jstr := trimmed_text (incoming_path r).
Definition models_of (r : AdvancedCustomRoute) : list jstr :=
  normalizeAdvancedCustomRouteModels (route_models r).
Definition conv_of (r : AdvancedCustomRoute) : jstr := text_or (converter r) NONE.

(** A rule [re:] without a pattern *)
Definition empty_regex (m : jstr) : Prop := m = ADVANCED_CUSTOM_MODEL_REGEX_PREFIX.

Definition auth_complete (a : AdvancedCustomRouteAuth) : Prop :=
  auth_type a = Some (js "none")
  ∨ (auth_type a = Some (js "header") ∨ auth_type a = Some (js "query"))
    ∧ trimmed_text (auth_name a) ≠ [] ∧ trimmed_text (auth_value a) ≠ [].

Section url.
Context (parse_url : jstr → option (jstr * jstr)).

(** A route on its own *)
Record route_ok (r : AdvancedCustomRoute) : Prop := {
  ok_path : js "/" `prefix_of` path_of r ∧ (63%N ∉ path_of r);
  ok_list : path_of r = ADVANCED_CUSTOM_MODEL_LIST_PATH →
    models_of r = [] ∧ conv_of r = NONE
    ∧ includes (getAdvancedCustomRouteUpstreamPath r) (js "{model}") = false;
  ok_models : NoDup (models_of r) ∧ Forall (λ m, ¬ empty_regex m) (models_of r);
  ok_upstream : getAdvancedCustomRouteUpstreamPath r ≠ []
    ∧ isFullHttpURLOrAbsolutePath parse_url (getAdvancedCustomRouteUpstreamPath r) = true;
  ok_converter : conv_of r ∈ co_value <$> ADVANCED_CUSTOM_CONVERTER_OPTIONS
    ∧ isConverterPathAllowed (path_of r) (conv_of r) = true;
  ok_auth : match route_auth r with Some a => auth_complete a | None => True end;
}.

(** An earlier and a later route: with the same path the earlier one names its
    models and shares none with the later one. *)
Definition compatible (r1 r2 : AdvancedCustomRoute) : Prop :=
  path_of r1 = path_of r2 → models_of r1 ≠ [] ∧ models_of r1 ## models_of r2.

Definition routes_ok (rs : list AdvancedCustomRoute) : Prop :=
  Forall route_ok rs ∧ ∀ i j r1 r2, i < j → rs !! i = Some r1 → rs !! j = Some r2 → compatible r1 r2.

Lemma routes_ok_snoc rs r :
  routes_ok (rs ++ [r]) ↔ routes_ok rs ∧ route_ok r ∧ Forall (λ r1, compatible r1 r) rs.
Proof.
  unfold routes_ok. rewrite Forall_app, Forall_singleton, (Forall_lookup (λ r1, compatible r1 r)).
  split.
  - intros [[Hrs Hr] Hc]. split_and!; [done| |done|].
    + intros i j r1 r2 Hij H1 H2. eapply Hc; [exact Hij|by apply lookup_app_l_Some..].
    + intros i r1 Hi. eapply (Hc i (length rs)); [by apply lookup_lt_Some in Hi
        |by apply lookup_app_l_Some|by apply list_lookup_middle].
  - intros ([Hrs Hc] & Hr & Hl). split; [done|]. intros i j r1 r2 Hij H1 H2.
    apply lookup_app_Some in H2 as [H2|[Hj H2]].
    + rewrite lookup_app_l in H1 by (apply lookup_lt_Some in H2; lia). by eapply Hc.
    + apply list_lookup_singleton_Some in H2 as [Ej <-].
      rewrite lookup_app_l in H1 by lia. by eapply Hl.
Qed.

(** * The state of the loop *)

Record path_known (pre : list AdvancedCustomRoute) (p : jstr) (st : option PathState) : Prop := {
  known_catch : is_Some (st ≫= catchAllIndex) ↔ ∃ r, r ∈ pre ∧ path_of r = p ∧ models_of r = [];
  known_models m : is_Some (st ≫= λ s, models_seen s !! m)
    ↔ ∃ r, r ∈ pre ∧ path_of r = p ∧ m ∈ models_of r;
}.

Record known (pre : list AdvancedCustomRoute) (byPath : gmap jstr PathState) (ml : option nat) : Prop := {
  known_paths p : path_known pre p (byPath !! p);
  known_list : is_Some ml ↔ ∃ r, r ∈ pre ∧ path_of r = ADVANCED_CUSTOM_MODEL_LIST_PATH;
}.

(** What a new route adds to the state of its path *)
Lemma path_known_snoc pre r q st st' :
  path_known pre q st →
  (is_Some (st' ≫= catchAllIndex) ↔
     is_Some (st ≫= catchAllIndex) ∨ path_of r = q ∧ models_of r = []) →
  (∀ m, is_Some (st' ≫= λ s, models_seen s !! m) ↔
     is_Some (st ≫= λ s, models_seen s !! m) ∨ path_of r = q ∧ m ∈ models_of r) →
  path_known (pre ++ [r]) q st'.
Proof.
  intros [Hc Hm] Hc' Hm'. split.
  - rewrite Hc', Hc. set_solver.
  - intros m. rewrite Hm', Hm. set_solver.
Qed.

Lemma path_known_other pre r q st :
  path_of r ≠ q → path_known pre q st → path_known (pre ++ [r]) q st.
Proof. intros Hq H. eapply path_known_snoc; [exact H|naive_solver..]. Qed.

Lemma empty_regex_spec m :
  bool_decide (getAdvancedCustomModelRuleKind m = regex_rule)
  && bool_decide (getAdvancedCustomRegexModelPattern m = []) = bool_decide (empty_regex m).
Proof.
  unfold getAdvancedCustomModelRuleKind, getAdvancedCustomRegexModelPattern, startsWith, slice_from, empty_regex.
  destruct (bool_decide (ADVANCED_CUSTOM_MODEL_REGEX_PREFIX `prefix_of` m)) eqn:E.
  - apply bool_decide_eq_true in E as [t ->]. rewrite drop_app_length.
    rewrite bool_decide_true by done. cbn [andb]. apply bool_decide_ext.
    split; [intros ->; apply app_nil_r|].
    intros H. apply (f_equal length) in H. rewrite length_app in H. destruct t; cbn in H; [done|lia].
  - apply bool_decide_eq_false in E. rewrite bool_decide_false by done. cbn [andb].
    symmetry. apply bool_decide_eq_false. intros ->. by apply E.
Qed.

(** The rules of a route against the state of its path *)
Lemma models_loop_spec index seen st models :
  match route_models_loop index seen st models with
  | inr st' =>
      NoDup models ∧ Forall (λ m, ¬ empty_regex m) models
      ∧ (∀ m, m ∈ models → (m ∉ seen) ∧ models_seen st !! m = None)
      ∧ catchAllIndex st' = catchAllIndex st
      ∧ ∀ m, is_Some (models_seen st' !! m) ↔ m ∈ models ∨ is_Some (models_seen st !! m)
  | inl _ =>
      ¬ (NoDup models ∧ Forall (λ m, ¬ empty_regex m) models
         ∧ ∀ m, m ∈ models → (m ∉ seen) ∧ models_seen st !! m = None)
  end.
Proof.
  revert seen st. induction models as [|m ms IH]; intros seen st; cbn [route_models_loop].
  { split_and!; [constructor|constructor|set_solver|done|set_solver]. }
  rewrite empty_regex_spec.
  destruct (bool_decide_reflect (empty_regex m)) as [He|He].
  { intros (_ & H & _). by inversion H. }
  destruct (bool_decide_reflect (m ∈ seen)) as [Hs|Hs].
  { intros (_ & _ & H). destruct (H m) as [? _]; set_solver. }
  destruct (bool_decide_reflect (is_Some (models_seen st !! m))) as [[i Hi]|Hi].
  { intros (_ & _ & H). destruct (H m) as [_ ?]; [set_solver|congruence]. }
  apply eq_None_not_Some in Hi.
  specialize (IH ({[m]} ∪ seen) (mkPathState (catchAllIndex st) (<[m := index]> (models_seen st)))).
  destruct (route_models_loop _ _ _ ms) as [e|st'].
  - intros (Hnd & Hre & Hfresh). apply IH. inversion_clear Hnd. inversion_clear Hre. split_and!; [done..|].
    intros x Hx. cbn [models_seen]. assert (x ≠ m) by (by intros ->).
    rewrite lookup_insert_ne by done. destruct (Hfresh x) as [? ?]; set_solver.
  - destruct IH as (Hnd & Hre & Hfresh & Hc & Hm). cbn [models_seen catchAllIndex] in *.
    assert (m ∉ ms) as Hnm by (intros Hin; destruct (Hfresh m Hin) as [? _]; set_solver).
    split_and!; [by constructor|by constructor| |done|].
    + intros x [->|Hx]%elem_of_cons; [done|]. destruct (Hfresh x Hx) as [H1 H2].
      rewrite lookup_insert_ne in H2 by set_solver. set_solver.
    + intros x. rewrite Hm, elem_of_cons. destruct (decide (x = m)) as [->|].
      * rewrite lookup_insert_eq. naive_solver.
      * rewrite lookup_insert_ne by done. naive_solver.
Qed.

Lemma fresh_state (byPath : gmap jstr PathState) p :
  let st := default (mkPathState None ∅) (byPath !! p) in
  catchAllIndex st = (byPath !! p) ≫= catchAllIndex
  ∧ ∀ m, models_seen st !! m = (byPath !! p) ≫= λ s, models_seen s !! m.
Proof. cbv zeta. by destruct (byPath !! p). Qed.

Lemma route_models_step pre byPath ml index r :
  known pre byPath ml →
  match validateAdvancedCustomRouteModels index (path_of r) (models_of r) byPath with
  | inr byPath' =>
      NoDup (models_of r) ∧ Forall (λ m, ¬ empty_regex m) (models_of r)
      ∧ Forall (λ r1, compatible r1 r) pre ∧ ∀ q, path_known (pre ++ [r]) q (byPath' !! q)
  | inl _ =>
      ¬ (NoDup (models_of r) ∧ Forall (λ m, ¬ empty_regex m) (models_of r)
         ∧ Forall (λ r1, compatible r1 r) pre)
  end.
Proof.
  intros [Hpaths _]. unfold validateAdvancedCustomRouteModels.
  destruct (fresh_state byPath (path_of r)) as [Hcatch Hseen].
  set (st := default _ _) in *. pose proof (Hpaths (path_of r)) as [Hc Hm].
  assert (is_Some (catchAllIndex st) → ¬ Forall (λ r1, compatible r1 r) pre) as Hclash.
  { intros Hs Hall. rewrite Hcatch in Hs. apply Hc in Hs as (r1 & Hin & Hp & Hnil).
    rewrite Forall_forall in Hall. by destruct (Hall r1 Hin Hp). }
  assert (catchAllIndex st = None → (∀ m, m ∈ models_of r → models_seen st !! m = None) →
          Forall (λ r1, compatible r1 r) pre) as Hcompat.
  { intros Hn Hfresh. apply Forall_forall. intros r1 Hin Hp. split.
    - intros Hnil. assert (is_Some (catchAllIndex st)) as [? ?]; [|congruence].
      rewrite Hcatch, Hc. by exists r1.
    - intros m H1 H2. assert (is_Some (models_seen st !! m)) as [? ?].
      { rewrite Hseen, Hm. by exists r1. }
      rewrite Hfresh in * by done. done. }
  assert (∀ s, (is_Some (catchAllIndex s) ↔ is_Some (catchAllIndex st) ∨ models_of r = []) →
    (∀ m, is_Some (models_seen s !! m) ↔ m ∈ models_of r ∨ is_Some (models_seen st !! m)) →
    ∀ q, path_known (pre ++ [r]) q (<[path_of r := s]> byPath !! q)) as Hstore.
  { intros s Hs1 Hs2 q. destruct (decide (path_of r = q)) as [<-|Hq].
    - rewrite lookup_insert_eq. eapply path_known_snoc; [apply Hpaths|..]; cbn.
      + rewrite Hs1, Hcatch. naive_solver.
      + intros m. rewrite Hs2, Hseen. naive_solver.
    - rewrite lookup_insert_ne by done. by apply path_known_other. }
  destruct (models_of r) as [|m ms] eqn:Em.
  - destruct (catchAllIndex st) eqn:Ec; [intros (_ & _ & H); by eapply Hclash|].
    split_and!; [constructor|constructor|apply Hcompat; [done|set_solver]|].
    apply Hstore; cbn; [split; [by right|by eexists]|set_solver].
  - destruct (catchAllIndex st) eqn:Ec; [intros (_ & _ & H); by eapply Hclash|].
    pose proof (models_loop_spec index ∅ st (m :: ms)) as Hloop.
    destruct (route_models_loop _ _ _ _) as [e|s].
    + intros (H1 & H2 & H3). apply Hloop. split_and!; [done..|]. intros x Hx. split; [set_solver|].
      apply eq_None_not_Some. rewrite Hseen, Hm. intros (r1 & Hin & Hp & Hx1).
      rewrite Forall_forall in H3. destruct (H3 r1 Hin Hp) as [_ Hd]. rewrite Em in Hd. by eapply Hd.
    + destruct Hloop as (H1 & H2 & H3 & H4 & H5). split_and!; [done|done| |].
      * apply Hcompat; [done|]. intros x Hx. by apply H3.
      * apply Hstore; [|done]. rewrite H4, Ec. naive_solver.
Qed.

(** ** One turn of the loop *)

Lemma converter_registered c :
  isAdvancedCustomConverter c = true ↔ c ∈ co_value <$> ADVANCED_CUSTOM_CONVERTER_OPTIONS.
Proof.
  unfold isAdvancedCustomConverter. rewrite existsb_exists, list_elem_of_fmap.
  setoid_rewrite <- list_elem_of_In. setoid_rewrite bool_decide_eq_true. naive_solver.
Qed.

Lemma auth_valid auth :
  validateRouteAuth auth = None ↔ match auth with Some a => auth_complete a | None => True end.
Proof.
  destruct auth as [a|]; [|done]. unfold validateRouteAuth, auth_complete.
  destruct (bool_decide_reflect (auth_type a = Some (js "none"))) as [->|H1]; [naive_solver|].
  destruct (bool_decide_reflect (auth_type a ≠ Some (js "header"))) as [H2|H2];
    destruct (bool_decide_reflect (auth_type a ≠ Some (js "query"))) as [H3|H3]; cbn [andb].
  all: destruct (trimmed_text (auth_name a)), (trimmed_text (auth_value a)); cbn [truthy negb].
  all: try (split; [done|naive_solver]).
  all: split; [intros _; right|done]; (split; [|done]).
  all: destruct (decide (auth_type a = Some (js "header"))); [by left|].
  all: destruct (decide (auth_type a = Some (js "query"))); [by right|]; by exfalso; auto.
Qed.

Lemma target_valid r :
  route_target_error parse_url (path_of r) (getAdvancedCustomRouteUpstreamPath r) (conv_of r)
    (route_auth r) = None
  ↔ (getAdvancedCustomRouteUpstreamPath r ≠ []
     ∧ isFullHttpURLOrAbsolutePath parse_url (getAdvancedCustomRouteUpstreamPath r) = true)
    ∧ (conv_of r ∈ co_value <$> ADVANCED_CUSTOM_CONVERTER_OPTIONS
       ∧ isConverterPathAllowed (path_of r) (conv_of r) = true)
    ∧ match route_auth r with Some a => auth_complete a | None => True end.
Proof.
  unfold route_target_error. rewrite <- converter_registered, <- auth_valid.
  destruct (getAdvancedCustomRouteUpstreamPath r) eqn:E; cbn [truthy negb]; [naive_solver|].
  rewrite <- E.
  destruct (isFullHttpURLOrAbsolutePath _ _), (isAdvancedCustomConverter _),
    (isConverterPathAllowed _ _); cbn [negb]; intuition congruence.
Qed.

Lemma path_valid p :
  truthy p = true ∧ startsWith p (js "/") = true ∧ includes p (js "?") = false
  ↔ js "/" `prefix_of` p ∧ (63%N ∉ p).
Proof.
  change (js "?") with [63%N]. rewrite includes_unit. unfold startsWith.
  rewrite bool_decide_eq_true, bool_decide_eq_false. split; [naive_solver|].
  intros [H1 H2]. split_and!; [|done..]. destruct H1 as [t ->]. done.
Qed.

(** The rules of the model list route, given that the earlier routes are fine *)
Lemma list_rules pre byPath ml index r :
  known pre byPath ml →
  let listed := path_of r = ADVANCED_CUSTOM_MODEL_LIST_PATH in
  match model_list_rules index (path_of r) (getAdvancedCustomRouteUpstreamPath r) (conv_of r)
          (models_of r) ml with
  | inr ml' =>
      (listed → models_of r = [] ∧ conv_of r = NONE
       ∧ includes (getAdvancedCustomRouteUpstreamPath r) (js "{model}") = false)
      ∧ (is_Some ml' ↔ ∃ r', r' ∈ pre ++ [r] ∧ path_of r' = ADVANCED_CUSTOM_MODEL_LIST_PATH)
  | inl _ =>
      listed ∧
      ((∃ r', r' ∈ pre ∧ path_of r' = ADVANCED_CUSTOM_MODEL_LIST_PATH)
       ∨ ¬ (models_of r = [] ∧ conv_of r = NONE
            ∧ includes (getAdvancedCustomRouteUpstreamPath r) (js "{model}") = false))
  end.
Proof.
  intros [_ Hl]. cbv zeta. unfold model_list_rules.
  destruct (bool_decide_reflect (path_of r = ADVANCED_CUSTOM_MODEL_LIST_PATH)) as [Hp|Hp].
  - destruct ml as [i|]; [split; [done|left; apply Hl; by eexists]|].
    destruct (models_of r) eqn:Em; [|split; [done|right; naive_solver]].
    destruct (bool_decide_reflect (conv_of r ≠ NONE)) as [Hc|Hc]; [split; [done|right; naive_solver]|].
    destruct (includes _ _) eqn:Ei; [split; [done|right; naive_solver]|].
    split; [intros _; split_and!; [done| |done]; by apply dec_stable|].
    split; [intros _; exists r; set_solver|by eexists].
  - split; [done|]. rewrite Hl. set_solver.
Qed.

(** A second model list route has no rules to set it apart. *)
Lemma second_list_route pre r :
  Forall route_ok pre → (∃ r', r' ∈ pre ∧ path_of r' = ADVANCED_CUSTOM_MODEL_LIST_PATH) →
  path_of r = ADVANCED_CUSTOM_MODEL_LIST_PATH → ¬ Forall (λ r1, compatible r1 r) pre.
Proof.
  intros Hpre (r' & Hin & Hp') Hp Hall. rewrite Forall_forall in Hpre, Hall.
  destruct (ok_list r' (Hpre r' Hin) Hp') as [Hnil _].
  by destruct (Hall r' Hin (eq_trans Hp' (eq_sym Hp))) as [? _].
Qed.

Lemma validate_route_step pre byPath ml index r :
  routes_ok pre → known pre byPath ml →
  match validate_route parse_url index byPath ml r with
  | inr (byPath', ml') => routes_ok (pre ++ [r]) ∧ known (pre ++ [r]) byPath' ml'
  | inl _ => ¬ routes_ok (pre ++ [r])
  end.
Proof.
  intros Hok Hk. pose proof (routes_ok_snoc pre r) as Hsn. unfold validate_route.
  fold (path_of r) (conv_of r) (models_of r). pose proof (path_valid (path_of r)) as Hpath.
  destruct (truthy (path_of r)) eqn:E1; cbn [negb].
  2:{ intros (_ & [Hp _ _ _ _ _] & _)%Hsn. apply Hpath in Hp. naive_solver. }
  destruct (startsWith (path_of r) (js "/")) eqn:E2; cbn [negb].
  2:{ intros (_ & [Hp _ _ _ _ _] & _)%Hsn. apply Hpath in Hp. naive_solver. }
  destruct (includes (path_of r) (js "?")) eqn:E3.
  { intros (_ & [Hp _ _ _ _ _] & _)%Hsn. apply Hpath in Hp. naive_solver. }
  pose proof (list_rules pre byPath ml index r Hk) as Hlist. cbv zeta in Hlist.
  destruct (model_list_rules _ _ _ _ _ _) as [m|ml'].
  { destruct Hlist as [Hl [Hex|Hno]]; intros (_ & Hr & Hc)%Hsn.
    - destruct Hok as [Hok _]. by eapply second_list_route.
    - by apply Hno, ok_list. }
  pose proof (route_models_step pre byPath ml index r Hk) as Hmod.
  destruct (validateAdvancedCustomRouteModels _ _ _ _) as [m|byPath'].
  { intros (_ & Hr & Hc)%Hsn. apply Hmod. destruct (ok_models r Hr). done. }
  pose proof (target_valid r) as Ht.
  destruct (route_target_error _ _ _ _ _) as [m|].
  { intros (_ & [_ _ _ Hu Hcv Ha] & _)%Hsn. destruct Ht as [_ Ht]. by discriminate Ht. }
  destruct Ht as [Ht _]. destruct (Ht eq_refl) as (Hu & Hcv & Ha).
  destruct Hmod as (H1 & H2 & H3 & H4), Hlist as [Hl1 Hl2]. split; [|by split].
  apply Hsn. split_and!; [done| |done]. split; try done; by apply Hpath.
Qed.

(** * The whole table *)

Lemma validate_loop_spec pre byPath ml rs :
  routes_ok pre → known pre byPath ml →
  match validate_loop parse_url (length pre) byPath ml rs with
  | None => routes_ok (pre ++ rs)
  | Some e =>
      ∃ i, routeIndex e = Some (length pre + i) ∧ i < length rs
           ∧ routes_ok (pre ++ take i rs) ∧ ¬ routes_ok (pre ++ take (S i) rs)
  end.
Proof.
  revert pre byPath ml. induction rs as [|r rs IH]; intros pre byPath ml Hok Hk; cbn [validate_loop].
  { by rewrite app_nil_r. }
  pose proof (validate_route_step pre byPath ml (length pre) r Hok Hk) as Hstep.
  destruct (validate_route _ _ _ _ _) as [m|[byPath' ml']].
  - exists 0. cbn [take length]. rewrite app_nil_r. split_and!; [by rewrite Nat.add_0_r|lia|done|done].
  - destruct Hstep as [Hok' Hk']. specialize (IH _ _ _ Hok' Hk').
    replace (length (pre ++ [r])) with (S (length pre)) in IH by (rewrite length_app; cbn; lia).
    destruct (validate_loop _ _ _ _ rs) as [e|].
    + destruct IH as (i & He & Hi & H1 & H2). exists (S i). cbn [length take].
      rewrite <- !(assoc_L app) in *. cbn [app] in *. split_and!; [by rewrite He; f_equal; lia|lia|done|done].
    + by rewrite <- (assoc_L app) in IH.
Qed.

Lemma known_nil : known [] ∅ None.
Proof.
  split; [|split; [by intros [? ?]|set_solver]].
  intros p. rewrite lookup_empty. split; [|intros m]; cbn; (split; [by intros [? ?]|set_solver]).
Qed.

Lemma routes_ok_nil : routes_ok [].
Proof. split; [constructor|]. intros i j r1 r2 _ H. done. Qed.

(** The routes as the validation sees them *)
Definition table (c : AdvancedCustomConfig) : list AdvancedCustomRoute :=
  default [] (advanced_routes (normalizeAdvancedCustomConfig c)).

Lemma validate_spec c :
  match validateAdvancedCustomConfig parse_url (Some c) with
  | None => table c ≠ [] ∧ routes_ok (table c)
  | Some e =>
      table c = [] ∧ routeIndex e = None
      ∨ ∃ i, routeIndex e = Some i ∧ i < length (table c)
             ∧ routes_ok (take i (table c)) ∧ ¬ routes_ok (take (S i) (table c))
  end.
Proof.
  unfold validateAdvancedCustomConfig. fold (table c).
  destruct (table c) as [|r rs] eqn:E; [by left|]. rewrite <- E.
  pose proof (validate_loop_spec [] ∅ None (table c) routes_ok_nil known_nil) as H.
  cbn [length app Nat.add] in H.
  destruct (validate_loop _ _ _ _ _); [by right|]. by rewrite E in *.
Qed.
End url.

(** A platform that reads no text as an address *)
Definition no_url : jstr → option (jstr * jstr) := λ _, None.

(** C33: the validation accepts a table exactly when it has routes, each route is
    fine on its own, and of two routes with the same path the earlier one names
    its models and shares none with the later one.  In particular a catch-all
    route is the last of its path, and there is one model list route at most. *)
Theorem validation_accepts_exactly parse_url c :
  validateAdvancedCustomConfig parse_url (Some c) = None
  ↔ table c ≠ [] ∧ routes_ok parse_url (table c).
Proof.
  pose proof (validate_spec parse_url c) as H.
  destruct (validateAdvancedCustomConfig parse_url (Some c)) as [e|]; [|done].
  split; [done|]. intros [Hne Hok]. exfalso. destruct H as [[? _]|(i & _ & Hi & _ & Hno)]; [done|].
  apply Hno. destruct Hok as [H1 H2]. split; [by apply Forall_take|].
  intros a b r1 r2 Hab Ha Hb. apply lookup_take_Some in Ha as [Ha _], Hb as [Hb _]. by eapply H2.
Qed.

(** an error blames the first offending route: the routes before it would be
    accepted, and with it they are not. *)
Theorem validation_blames_first parse_url c e :
  validateAdvancedCustomConfig parse_url (Some c) = Some e →
  (table c = [] ∧ routeIndex e = None)
  ∨ ∃ i, routeIndex e = Some i ∧ i < length (table c) ∧ routes_ok parse_url (take i (table c))
         ∧ ¬ routes_ok parse_url (take (S i) (table c)).
Proof. intros He. pose proof (validate_spec parse_url c) as H. by rewrite He in H. Qed.

Definition broken_table : AdvancedCustomConfig :=
  mkRoutesConfig (Some [with_models "/v1/responses" ["gpt-5"]; with_models "/v1/messages" [];
                        with_models "/v1/messages" ["re:^claude"]]).

Lemma validation_blames_first_witness :
  let e := mkRouteError (js "Catch-all route must be last for the same incoming path") (Some 2) in
  (table broken_table = [] ∧ routeIndex e = None)
  ∨ ∃ i, routeIndex e = Some i ∧ i < length (table broken_table)
         ∧ routes_ok no_url (take i (table broken_table))
         ∧ ¬ routes_ok no_url (take (S i) (table broken_table)).
Proof. apply validation_blames_first. vm_compute. reflexivity. Defined.

(** * Normalisation *)

Lemma text_or_idemp x d : text_or (Some (text_or x d)) d = text_or x d.
Proof. destruct x as [[|u s]|]; cbn; by repeat case_match. Qed.

Lemma normalize_models_idemp ms :
  normalizeAdvancedCustomRouteModels (Some (normalizeAdvancedCustomRouteModels ms))
  = normalizeAdvancedCustomRouteModels ms.
Proof.
  destruct ms as [ms|]; [|done]. unfold normalizeAdvancedCustomRouteModels.
  induction ms as [|m ms IH]; [done|]. cbn [fmap list_fmap].
  rewrite filter_cons. case_decide as Hm; [|exact IH].
  cbn [fmap list_fmap]. rewrite trim_idemp, filter_cons, decide_True by done. f_equal. exact IH.
Qed.

Lemma normalize_route_idemp r :
  normalizeAdvancedCustomRoute (normalizeAdvancedCustomRoute r) = normalizeAdvancedCustomRoute r.
Proof.
  destruct r as [ip up cv ms au]. unfold normalizeAdvancedCustomRoute at 1.
  unfold getAdvancedCustomRouteUpstreamPath.
  cbn [normalizeAdvancedCustomRoute incoming_path upstream_path converter route_models route_auth].
  assert (normalizeAdvancedCustomRouteModels
            (if decide (normalizeAdvancedCustomRouteModels ms = []) then None
             else Some (normalizeAdvancedCustomRouteModels ms))
          = normalizeAdvancedCustomRouteModels ms) as Hms.
  { case_decide as E; [by rewrite E|]. apply normalize_models_idemp. }
  unfold normalizeAdvancedCustomRoute, getAdvancedCustomRouteUpstreamPath.
  cbn [incoming_path upstream_path converter route_models route_auth]. rewrite Hms.
  rewrite !text_or_idemp. f_equal.
  - f_equal. set (t := trim (text_or up [])). assert (trim t = t) as Ht by apply trim_idemp. clearbody t. by destruct t.
  - destruct au as [a|]; [|done]. cbn [fmap option_fmap option_map auth_type auth_name auth_value].
    by rewrite !text_or_idemp.
Qed.

(** normalising a table twice changes nothing, so the verdict on a saved
    table is the verdict on the table that was edited. *)
Theorem normalisation_settles parse_url c :
  normalizeAdvancedCustomConfig (normalizeAdvancedCustomConfig c) = normalizeAdvancedCustomConfig c
  ∧ validateAdvancedCustomConfig parse_url (Some (normalizeAdvancedCustomConfig c))
    = validateAdvancedCustomConfig parse_url (Some c).
Proof.
  assert (normalizeAdvancedCustomConfig (normalizeAdvancedCustomConfig c)
          = normalizeAdvancedCustomConfig c) as E.
  { unfold normalizeAdvancedCustomConfig. cbn [advanced_routes default from_option id].
    apply (f_equal (λ l, mkRoutesConfig (Some l))). rewrite <- list_fmap_compose. apply list_fmap_ext.
    intros i r _. apply normalize_route_idemp. }
  split; [done|]. unfold validateAdvancedCustomConfig. by rewrite E.
Qed.

(** * The editor's own tables *)

Lemma native_auth_ok path :
  getAdvancedCustomNativeAuth path ∈ [bearerHeaderAuth; apiKeyHeaderAuth; geminiQueryAuth].
Proof. unfold getAdvancedCustomNativeAuth. repeat case_match; set_solver. Qed.

Lemma standard_auth_ok a :
  a ∈ [bearerHeaderAuth; apiKeyHeaderAuth; geminiQueryAuth] → validateRouteAuth (Some a) = None.
Proof. intros [->|[->|[->|[]%not_elem_of_nil]%elem_of_cons]%elem_of_cons]%elem_of_cons; by vm_compute. Qed.

Definition CONVERTING : list jstr :=
  [anthropic_to_chat; chat_to_anthropic; chat_to_responses; responses_to_chat; responses_to_gemini;
   gemini_to_chat; chat_to_gemini].

(** Compare two closed texts. *)
Ltac compare_texts :=
  match goal with
  | |- context [bool_decide (?x = ?y)] =>
      let b := eval vm_compute in (bool_decide (x = y)) in
      assert (bool_decide (x = y) = b) as -> by (vm_compute; reflexivity)
  end.

Lemma registered_converters : co_value <$> ADVANCED_CUSTOM_CONVERTER_OPTIONS = NONE :: CONVERTING.
Proof. reflexivity. Qed.

Lemma native_defaults path :
  path ≠ [] → trim path = path →
  getAdvancedCustomConverterDefaults NONE path
  = mkDefaults path (Some (getAdvancedCustomNativeAuth path)).
Proof.
  intros Hne Ht. unfold getAdvancedCustomConverterDefaults. rewrite Ht, bool_decide_true by done.
  generalize (getDefaultAdvancedCustomIncomingPath NONE). intros d. by destruct path.
Qed.

Lemma converting_defaults conv path :
  conv ∈ CONVERTING →
  ∃ u a, getAdvancedCustomConverterDefaults conv path = mkDefaults u (Some a)
  ∧ u ∈ [openAIChatPath; openAIResponsesPath; claudeMessagesPath; geminiGenerateContentPath]
  ∧ a ∈ [bearerHeaderAuth; apiKeyHeaderAuth; geminiQueryAuth].
Proof.
  intros Hc. unfold getAdvancedCustomConverterDefaults. cbv zeta.
  generalize (text_or (Some (trim path)) (getDefaultAdvancedCustomIncomingPath conv)). intros p.
  unfold CONVERTING in Hc.
  repeat (apply elem_of_cons in Hc as [->|Hc];
    [repeat compare_texts; cbn [orb]; eexists _, _; split; [exact eq_refl|]; split;
     apply (bool_decide_unpack _); vm_compute; exact I|]).
  by apply elem_of_nil in Hc.
Qed.

Lemma converting_upstream parse_url u :
  u ∈ [openAIChatPath; openAIResponsesPath; claudeMessagesPath; geminiGenerateContentPath] →
  trim u = u ∧ u ≠ [] ∧ isFullHttpURLOrAbsolutePath parse_url u = true.
Proof.
  rewrite !elem_of_cons, elem_of_nil.
  intros [->|[->|[->|[->|[]]]]]; (split_and!; [by vm_compute|done|by vm_compute]).
Qed.

(** The upstream path and authentication suggested for a converter are fine. *)
Lemma defaults_ok parse_url conv path :
  conv ∈ co_value <$> ADVANCED_CUSTOM_CONVERTER_OPTIONS →
  js "/" `prefix_of` path → ¬ js "//" `prefix_of` path → trim path = path →
  let d := getAdvancedCustomConverterDefaults conv path in
  (trim (default_upstream d) = default_upstream d ∧ default_upstream d ≠ []
   ∧ isFullHttpURLOrAbsolutePath parse_url (default_upstream d) = true)
  ∧ (conv = NONE → default_upstream d = path)
  ∧ ∃ a, default_auth d = Some a ∧ a ∈ [bearerHeaderAuth; apiKeyHeaderAuth; geminiQueryAuth].
Proof.
  intros Hc H1 H2 Ht. cbv zeta. rewrite registered_converters in Hc.
  destruct (decide (conv = NONE)) as [->|Hn].
  - assert (path ≠ []) as Hne by (intros ->; by apply prefix_nil_inv in H1).
    rewrite native_defaults by done. cbn [default_upstream default_auth]. split_and!; [done|done| |done|].
    + unfold isFullHttpURLOrAbsolutePath, startsWith.
      by rewrite bool_decide_true, bool_decide_false by done.
    + eexists. split; [done|apply native_auth_ok].
  - apply elem_of_cons in Hc as [?|Hc]; [done|].
    destruct (converting_defaults conv path Hc) as (u & a & -> & Hu & Ha).
    cbn [default_upstream default_auth]. split; [by apply converting_upstream|]. split; [done|by exists a].
Qed.

(** A path as the editor's options have it *)
Definition clean_path (p : jstr) : Prop :=
  js "/" `prefix_of` p ∧ (¬ js "//" `prefix_of` p) ∧ (63%N ∉ p) ∧ trim p = p.

Lemma default_path_ok conv :
  conv ∈ co_value <$> ADVANCED_CUSTOM_CONVERTER_OPTIONS →
  clean_path (getDefaultAdvancedCustomIncomingPath conv)
  ∧ isConverterPathAllowed (getDefaultAdvancedCustomIncomingPath conv) conv = true.
Proof.
  rewrite registered_converters. unfold CONVERTING. intros Hc.
  repeat (apply elem_of_cons in Hc as [->|Hc];
    [split; [split_and!; [apply (bool_decide_unpack _); by vm_compute..|by vm_compute]|by vm_compute]|]).
  by apply elem_of_nil in Hc.
Qed.

Lemma list_path_native conv :
  conv ∈ co_value <$> ADVANCED_CUSTOM_CONVERTER_OPTIONS →
  isConverterPathAllowed ADVANCED_CUSTOM_MODEL_LIST_PATH conv = true → conv = NONE.
Proof.
  rewrite registered_converters. unfold CONVERTING. intros Hc.
  apply elem_of_cons in Hc as [->|Hc]; [done|]. intros H. exfalso. revert H.
  repeat (apply elem_of_cons in Hc as [->|Hc]; [by vm_compute|]).
  by apply elem_of_nil in Hc.
Qed.

Section chosen.
Context (parse_url : jstr → option (jstr * jstr)) (route : AdvancedCustomRoute) (conv : jstr).
Context (Hconv : conv ∈ co_value <$> ADVANCED_CUSTOM_CONVERTER_OPTIONS).
Context (Hpath : clean_path (text_or (incoming_path route)
                   (getDefaultAdvancedCustomIncomingPath (text_or (converter route) NONE)))).

Lemma chosen_path :
  ∃ p, setConverter route conv
       = mkRoute (Some p) (Some (default_upstream (getAdvancedCustomConverterDefaults conv p)))
           (Some conv) (route_models route) (default_auth (getAdvancedCustomConverterDefaults conv p))
       ∧ clean_path p ∧ isConverterPathAllowed p conv = true.
Proof.
  unfold setConverter. cbv zeta. unfold isAdvancedCustomIncomingPathAllowed.
  set (p := text_or (incoming_path route) _) in *.
  destruct (isConverterPathAllowed p conv) eqn:E; [by exists p|].
  exists (getDefaultAdvancedCustomIncomingPath conv). split; [done|by apply default_path_ok].
Qed.

Lemma chosen_route_ok :
  NoDup (models_of route) → Forall (λ m, ¬ empty_regex m) (models_of route) →
  (path_of (setConverter route conv) = ADVANCED_CUSTOM_MODEL_LIST_PATH → models_of route = []) →
  route_ok parse_url (normalizeAdvancedCustomRoute (setConverter route conv)).
Proof.
  intros Hnd Hre Hlist. destruct chosen_path as (p & E & (Hp1 & Hp2 & Hp3 & Hp4) & Hallow).
  rewrite E in *. unfold path_of in Hlist. cbn [incoming_path trimmed_text] in Hlist. rewrite Hp4 in Hlist.
  destruct (defaults_ok parse_url conv p Hconv Hp1 Hp2 Hp4) as ((Hu1 & Hu2 & Hu3) & Hnat & a & Ha & Hstd).
  set (d := getAdvancedCustomConverterDefaults conv p) in *.
  assert (p ≠ []) as Hpne by (intros ->; by apply prefix_nil_inv in Hp1).
  assert (conv ≠ []) as Hcne.
  { intros ->. revert Hconv. apply (bool_decide_unpack _). by vm_compute. }
  set (r := normalizeAdvancedCustomRoute _).
  assert (path_of r = p) as Er1.
  { unfold r, path_of. cbn [normalizeAdvancedCustomRoute incoming_path trimmed_text text_or].
    by destruct p. }
  assert (conv_of r = conv) as Er2.
  { unfold r, conv_of. cbn [normalizeAdvancedCustomRoute converter text_or]. destruct conv; [done|]. done. }
  assert (models_of r = models_of route) as Er3.
  { unfold r, models_of. cbn [normalizeAdvancedCustomRoute route_models]. case_decide as Em.
    - cbn [route_models] in Em. by rewrite Em.
    - apply normalize_models_idemp. }
  assert (getAdvancedCustomRouteUpstreamPath r = default_upstream d) as Er4.
  { unfold r, getAdvancedCustomRouteUpstreamPath. cbn [normalizeAdvancedCustomRoute upstream_path].
    unfold getAdvancedCustomRouteUpstreamPath. cbn [upstream_path].
    assert (∀ u, u ≠ [] → text_or (Some u) [] = u) as Htext by (by intros []).
    rewrite (Htext (default_upstream d)), Hu1, Htext by done. done. }
  split; rewrite ?Er1, ?Er2, ?Er3, ?Er4; [done| |done|done|done|].
  - intros ->. pose proof (list_path_native conv Hconv Hallow) as Hnone.
    split_and!; [by apply Hlist|done|]. rewrite (Hnat Hnone). by vm_compute.
  - unfold r. cbn [normalizeAdvancedCustomRoute route_auth]. rewrite Ha. cbn [fmap option_fmap option_map].
    apply (auth_valid parse_url (Some _)).
     clear -Hstd.
    repeat (apply elem_of_cons in Hstd as [->|Hstd]; [by vm_compute|]). by apply elem_of_nil in Hstd.
Qed.
End chosen.

(** choosing a registered converter in the editor of a route always gives a
    route the validation accepts: the path is replaced where the converter does
    not allow it, and the suggested upstream path and authentication are
    complete. *)
Theorem chosen_converter_accepted parse_url route conv :
  conv ∈ co_value <$> ADVANCED_CUSTOM_CONVERTER_OPTIONS →
  clean_path (text_or (incoming_path route)
    (getDefaultAdvancedCustomIncomingPath (text_or (converter route) NONE))) →
  NoDup (models_of route) → Forall (λ m, ¬ empty_regex m) (models_of route) →
  (path_of (setConverter route conv) = ADVANCED_CUSTOM_MODEL_LIST_PATH → models_of route = []) →
  validateAdvancedCustomConfig parse_url (Some (mkRoutesConfig (Some [setConverter route conv]))) = None.
Proof.
  intros Hc Hp Hnd Hre Hl. pose proof (chosen_route_ok parse_url route conv Hc Hp Hnd Hre Hl) as Hok.
  pose proof (validate_spec parse_url (mkRoutesConfig (Some [setConverter route conv]))) as H.
  destruct (validateAdvancedCustomConfig _ _) as [e|]; [exfalso|done].
  destruct H as [[H _]|(i & _ & Hi & _ & Hno)]; [done|].
  destruct i as [|i]; [|cbn in Hi; lia].
  apply Hno. change (routes_ok parse_url ([] ++ [normalizeAdvancedCustomRoute (setConverter route conv)])).
  apply routes_ok_snoc. split; [apply routes_ok_nil|done].
Qed.

Lemma chosen_converter_accepted_witness :
  validateAdvancedCustomConfig no_url
    (Some (mkRoutesConfig (Some [setConverter (with_models "/v1/rerank" ["gpt-5"; "re:^o3"])
                                   responses_to_gemini]))) = None.
Proof.
  apply chosen_converter_accepted.
  - apply (bool_decide_unpack _). vm_compute. exact I.
  - repeat split; try (apply (bool_decide_unpack _)); vm_compute; (exact I || reflexivity).
  - apply (bool_decide_unpack _). vm_compute. exact I.
  - apply (bool_decide_unpack _). vm_compute. exact I.
  - intros H. vm_compute in H. discriminate H.
Defined.

(** every template of the editor, the table it starts from and the table of
    an unknown template key are accepted. *)
Theorem offered_tables_accepted parse_url key :
  validateAdvancedCustomConfig parse_url (getAdvancedCustomTemplateConfig key) = None
  ∧ validateAdvancedCustomConfig parse_url (Some createAdvancedCustomConfig) = None.
Proof.
  split; [|by vm_compute]. unfold getAdvancedCustomTemplateConfig.
  assert (Forall (λ t, validateAdvancedCustomConfig parse_url (Some (tpl_config t)) = None)
            ADVANCED_CUSTOM_TEMPLATE_OPTIONS) as Hall.
  { repeat (apply Forall_cons; split; [by vm_compute|]). done. }
  destruct (list_find _ _) as [[i t]|] eqn:E; [|by vm_compute].
  apply list_find_Some in E as (Hl & _). rewrite Forall_lookup in Hall. by eapply Hall.
Qed.
