(* ===== verification/JsArray.v ===== *)
(** Arrays: [Array.prototype.sort] with a comparison function.

    The comparison returns a number; a negative one puts its first argument
    first, and zero and NaN keep the order of the array, since the sort is
    stable.  For comparisons that are no order the language leaves the result
    open; the model inserts elements from the left. *)

From Stdlib Require Import ZArith NArith SpecFloat Sorted.
From S2P Require Import Prelude JsString JsNumber.

(** [a || b] on numbers *)
Definition or_num (a b : num) : num := if num_truthy a then a else b.

Section sort.
Context {A : Type} (cmp : A → A → num).
Implicit Types (x y : A) (l acc : list A).

Fixpoint insert_sorted x l : list A :=
  match l with
  | [] => [x]
  | y :: l' => if num_ltb (cmp x y) num_0 then x :: l else y :: insert_sorted x l'
  end.

Definition sort_by l : list A := foldl (λ acc x, insert_sorted x acc) [] l.

Lemma insert_sorted_perm x l : insert_sorted x l ≡ₚ x :: l.
Proof.
  induction l as [|y l IH]; cbn [insert_sorted]; [done|]. case_match; [done|].
  rewrite IH. apply Permutation_swap.
Qed.

Lemma sort_by_perm l : sort_by l ≡ₚ l.
Proof.
  unfold sort_by. enough (∀ acc, foldl (λ acc x, insert_sorted x acc) acc l ≡ₚ acc ++ l) as H
    by exact (H []).
  induction l as [|x l IH]; intros acc; cbn [foldl]; [by rewrite app_nil_r|].
  rewrite IH, insert_sorted_perm. cbn [app]. apply Permutation_middle.
Qed.

Lemma elem_of_sort_by x l : x ∈ sort_by l ↔ x ∈ l.
Proof. by rewrite sort_by_perm. Qed.

Lemma length_sort_by l : length (sort_by l) = length l.
Proof. apply Permutation_length, sort_by_perm. Qed.

(** The result is sorted for a relation that the comparison decides on the
    elements. *)
Section sorted.
Context (P : A → Prop) (R : A → A → Prop) `{!Transitive R}.
Context (Hlt : ∀ x y, P x → P y → num_ltb (cmp x y) num_0 = true → R x y).
Context (Hge : ∀ x y, P x → P y → num_ltb (cmp x y) num_0 = false → R y x).

Lemma insert_sorted_sorted x l :
  P x → Forall P l → StronglySorted R l → StronglySorted R (insert_sorted x l).
Proof.
  intros Hx Hl Hs. induction Hs as [|y l Hs IH Hy]; cbn [insert_sorted]; [by repeat constructor|].
  apply Forall_cons_1 in Hl as [HPy HPl]. destruct (num_ltb (cmp x y) num_0) eqn:E.
  - constructor; [by constructor|]. constructor; [by apply Hlt|].
    eapply Forall_impl; [exact Hy|]. intros z Hz. etrans; [by apply Hlt|done].
  - constructor; [by apply IH|]. rewrite insert_sorted_perm. constructor; [by apply Hge|done].
Qed.

Lemma sort_by_sorted l : Forall P l → StronglySorted R (sort_by l).
Proof.
  intros Hl. unfold sort_by.
  enough (∀ acc, Forall P acc → StronglySorted R acc → StronglySorted R (foldl (λ acc x, insert_sorted x acc) acc l))
    as H by (apply H; constructor).
  induction Hl as [|x l Hx Hl IH]; intros acc Hacc Hs; cbn [foldl]; [done|].
  apply IH; [|by apply insert_sorted_sorted]. rewrite insert_sorted_perm. by constructor.
Qed.
End sorted.

(** A sorted list stays as it is. *)
Lemma insert_sorted_last x l : Forall (λ y, num_ltb (cmp x y) num_0 = false) l → insert_sorted x l = l ++ [x].
Proof. induction 1 as [|y l Hy Hl IH]; cbn [insert_sorted app]; [done|]. by rewrite Hy, IH. Qed.
End sort.

(** * The order of numbers

    [<] on numbers other than NaN is the lexicographic order of sign, exponent
    and mantissa. *)

Definition num_key (x : num) : Z * Z * Z :=
  match x with
  | S754_zero _ | S754_nan => (0, 0, 0)%Z
  | S754_infinity s => (if s then -2 else 2, 0, 0)%Z
  | S754_finite s m e => (if s then (-1, -e, Z.neg m) else (1, e, Z.pos m))%Z
  end.

Definition key_lt (a b : Z * Z * Z) : Prop :=
  let '(a1, a2, a3) := a in
  let '(b1, b2, b3) := b in
  (a1 < b1 ∨ (a1 = b1 ∧ (a2 < b2 ∨ (a2 = b2 ∧ a3 < b3))))%Z.

Definition is_nan (x : num) : bool := match x with S754_nan => true | _ => false end.

Lemma num_ltb_key x y :
  num_ltb x y = true ↔ is_nan x = false ∧ is_nan y = false ∧ key_lt (num_key x) (num_key y).
Proof.
  assert (∀ (c : bool) (P : Prop), (c = true → P) → (P → c = true) → c = true ↔ false = false ∧ false = false ∧ P)
    as Hcase by tauto.
  unfold num_ltb, SFltb.
  destruct x as [[]|[]| |[] m e], y as [[]|[]| |[] m' e']; cbn [SFcompare is_nan num_key key_lt];
    try (split; [discriminate|intros (H1 & H2 & _); discriminate]);
    apply Hcase; try (intros; first [discriminate | reflexivity | lia]); cbn.
  all: destruct (Z.compare_spec e e'); try (change (Pos.compare_cont Eq m m') with (Pos.compare m m');
    destruct (Pos.compare_spec m m')); cbn; subst; intros; first [discriminate | reflexivity | lia].
Qed.

Lemma num_ltb_irrefl x : num_ltb x x = false.
Proof.
  destruct (num_ltb x x) eqn:E; [|done]. apply num_ltb_key in E as (_ & _ & E).
  destruct (num_key x) as [[]]; cbn in E; lia.
Qed.

Lemma num_ltb_trans x y z : num_ltb x y = true → num_ltb y z = true → num_ltb x z = true.
Proof.
  rewrite !num_ltb_key. destruct (num_key x) as [[]], (num_key y) as [[]], (num_key z) as [[]]; cbn.
  intros (? & ? & ?) (? & ? & ?). split_and!; [done|done|lia].
Qed.

(** What is not below [x] is not below anything smaller. *)
Lemma num_nlt_trans x y z :
  is_nan z = false → num_ltb x z = false → num_ltb x y = true → num_ltb y z = false.
Proof.
  intros Hz Hxz Hxy. destruct (num_ltb y z) eqn:E; [|done].
  by rewrite (num_ltb_trans x y z) in Hxz.
Qed.

Lemma num_leb_ltb x y : is_nan x = false → is_nan y = false → num_leb x y = negb (num_ltb y x).
Proof.
  unfold num_leb, num_ltb, SFleb, SFltb. intros Hx Hy.
  destruct x as [[]|[]| |[] m e], y as [[]|[]| |[] m' e']; try done; cbn.
  all: rewrite (Z.compare_antisym e e'); destruct (Z.compare_spec e e'); cbn; try done.
  all: change (Pos.compare_cont Eq m m') with (Pos.compare m m');
    change (Pos.compare_cont Eq m' m) with (Pos.compare m' m);
    rewrite (Pos.compare_antisym m m'); by destruct (Pos.compare_spec m m').
Qed.

Lemma isFinite_not_nan x : isFinite x = true → is_nan x = false.
Proof. by destruct x. Qed.

Lemma num_le_lt_trans x y z :
  is_nan z = false → num_ltb x z = false → num_ltb x y = true → num_ltb z y = true.
Proof.
  intros Hz Hxz Hxy. apply num_ltb_key in Hxy as (Hx & Hy & Hlt). apply num_ltb_key. split_and!; [done|done|].
  assert (¬ key_lt (num_key x) (num_key z)) as Hn.
  { intros Hk. by rewrite (proj2 (num_ltb_key x z)) in Hxz. }
  revert Hlt Hn. destruct (num_key x) as [[]], (num_key y) as [[]], (num_key z) as [[]]; cbn. lia.
Qed.
