(* ===== verification/Flow.v ===== *)
(** Flow graphs of the dashboard: [web/src/features/dashboard/lib/flow.ts].

    Usage rows become paths through the visible stages; the paths are limited to
    the largest nodes of each stage, added up into nodes and links, masked,
    highlighted, sorted and coloured.  The order of texts ([localeCompare]), the
    format of numbers ([Intl]) and the colour schemes of the chart library are
    parameters.  The chart specification built from a graph is not modelled. *)

From Stdlib Require Import ZArith NArith SpecFloat.
From S2P Require Import Prelude JsString JsNumber JsValue JsArray.

(** * Data *)

Inductive FlowNodeKind := KUser | KNode | KToken | KGroup | KModel | KChannel.
Inductive FlowMetric := MQuota | MTokens | MRequests.
Inductive FlowOverflowMode := Aggregate | Hide.
Inductive FlowRole := RoleUser | RoleAdmin | RoleRoot.

#[global] Instance kind_eq_dec : EqDecision FlowNodeKind.
Proof. solve_decision. Defined.

Definition kind_name (k : FlowNodeKind) : jstr :=
  match k with
  | KUser => js "user" | KNode => js "node" | KToken => js "token"
  | KGroup => js "group" | KModel => js "model" | KChannel => js "channel"
  end.

Record FlowQuotaDataItem := mkRow {
  user_id : option num;
  username : option jstr;
  node_name : option jstr;
  use_group : option jstr;
  token_id : option num;
  token_name : option jstr;
  channel_id : option num;
  channel_name : option jstr;
  model_name : option jstr;
  token_used : option num;
  row_count : option num;
  row_quota : option num;
}.

Record FlowMetrics := mkMetrics { quota : num; tokens : num; requests : num }.

Record FlowPathNode := mkPathNode { pn_id : jstr; pn_label : jstr; pn_kind : FlowNodeKind }.

Record FlowNodeFilter := mkNodeFilter { nf_kind : FlowNodeKind; nf_id : jstr }.
Record FlowLinkSelection := mkLinkSelection { ls_source : jstr; ls_target : jstr }.

Record DashboardFlowNode := mkFlowNode {
  n_id : jstr;
  n_label : jstr;
  n_kind : FlowNodeKind;
  n_value : num;
  n_metrics : FlowMetrics;
  n_color : jstr;
  n_colorKey : jstr;
  n_highlighted : option bool;
  n_dimmed : option bool;
}.

Record DashboardFlowLink := mkFlowLink {
  l_source : jstr;
  l_target : jstr;
  l_value : num;
  l_metrics : FlowMetrics;
  sourceLabel : jstr;
  targetLabel : jstr;
  l_color : jstr;
  linkColor : jstr;
  linkAlpha : num;
  hoverColor : jstr;
  l_colorKey : jstr;
  share : num;
  l_highlighted : option bool;
  l_dimmed : option bool;
}.

Record DashboardFlowGraph := mkGraph {
  g_nodes : list DashboardFlowNode;
  g_links : list DashboardFlowLink;
}.

Definition FLOW_NODE_KINDS : list FlowNodeKind := [KUser; KNode; KToken; KGroup; KModel; KChannel].

Definition OTHER_FLOW_NODE_IDS (k : FlowNodeKind) : jstr := kind_name k ++ js ":__other__".

Definition DEFAULT_OTHER_FLOW_NODE_LABELS (k : FlowNodeKind) : jstr :=
  match k with
  | KUser => js "Other users" | KNode => js "Other nodes" | KToken => js "Other tokens"
  | KGroup => js "Other groups" | KModel => js "Other models" | KChannel => js "Other channels"
  end.

Definition SENSITIVE_FLOW_KINDS : list FlowNodeKind := [KUser; KNode; KToken; KGroup; KChannel].

Definition OTHER_FLOW_NODE_ID_SET : list jstr := OTHER_FLOW_NODE_IDS <$> FLOW_NODE_KINDS.

(** * Rows and their nodes *)

(** [Number(undefined)] is not finite. *)
Definition numberValue (value : option num) : num :=
  match value with Some n => if isFinite n then n else num_0 | None => num_0 end.

Definition rowMetrics (row : FlowQuotaDataItem) : FlowMetrics :=
  mkMetrics (numberValue (row_quota row)) (numberValue (token_used row)) (numberValue (row_count row)).

Definition metricValue (m : FlowMetrics) (metric : FlowMetric) : num :=
  match metric with MRequests => requests m | MTokens => tokens m | MQuota => quota m end.

(** [s || d] *)
Definition or_text (s : option jstr) (d : jstr) : jstr :=
  match s with Some s => if truthy s then s else d | None => d end.

Definition positive (n : num) : bool := num_ltb num_0 n.

(** [{ deletedTokenLabel? }] *)
Definition FlowPathContext : Type := option (num → jstr).
Definition EMPTY_FLOW_PATH_CONTEXT : FlowPathContext := None.

Definition userNode (row : FlowQuotaDataItem) : FlowPathNode :=
  let userID := numberValue (user_id row) in
  mkPathNode
    (js "user:" ++ if positive userID then string_of_num userID
                   else or_text (username row) (js "unknown"))
    (or_text (username row)
       (if positive userID then js "user-" ++ string_of_num userID else js "Unknown User"))
    KUser.

Definition nodeNameNode (row : FlowQuotaDataItem) : FlowPathNode :=
  let nodeName := or_text (node_name row) (js "default-node") in
  mkPathNode (js "node:" ++ nodeName) nodeName KNode.

Definition deletedTokenLabel (tokenID : num) (ctx : FlowPathContext) : jstr :=
  if num_leb tokenID num_0 then js "Unknown Token"
  else match ctx with Some f => f tokenID | None => js "token-" ++ string_of_num tokenID end.

Definition tokenNode (row : FlowQuotaDataItem) (ctx : FlowPathContext) : FlowPathNode :=
  let tokenID := numberValue (token_id row) in
  mkPathNode
    (js "token:" ++ if positive tokenID then string_of_num tokenID
                    else or_text (token_name row) (js "unknown"))
    (or_text (token_name row) (deletedTokenLabel tokenID ctx))
    KToken.

Definition groupNode (row : FlowQuotaDataItem) : FlowPathNode :=
  let useGroup := or_text (use_group row) (js "unknown") in
  mkPathNode (js "group:" ++ useGroup) useGroup KGroup.

Definition modelNode (row : FlowQuotaDataItem) : FlowPathNode :=
  let model := or_text (model_name row) (js "unknown") in
  mkPathNode (js "model:" ++ model) (or_text (model_name row) (js "Unknown Model")) KModel.

Definition channelNode (row : FlowQuotaDataItem) : FlowPathNode :=
  let channelID := numberValue (channel_id row) in
  mkPathNode
    (js "channel:" ++ if positive channelID then string_of_num channelID
                      else or_text (channel_name row) (js "unknown"))
    (or_text (channel_name row)
       (if positive channelID then js "channel-" ++ string_of_num channelID else js "Unknown"))
    KChannel.

Definition NODE_BUILDERS (k : FlowNodeKind) (row : FlowQuotaDataItem) (ctx : FlowPathContext) :
    FlowPathNode :=
  match k with
  | KUser => userNode row | KNode => nodeNameNode row | KToken => tokenNode row ctx
  | KGroup => groupNode row | KModel => modelNode row | KChannel => channelNode row
  end.

Definition getFlowStages (role : FlowRole) : list FlowNodeKind :=
  match role with
  | RoleRoot => [KUser; KNode; KToken; KGroup; KModel; KChannel]
  | RoleAdmin => [KUser; KGroup; KModel; KChannel]
  | RoleUser => [KToken; KGroup; KModel]
  end.

Definition MIN_FLOW_STAGES : nat := 2.

Definition resolveVisibleStages (role : FlowRole) (visibleStages : option (list FlowNodeKind)) :
    list FlowNodeKind :=
  let stages := getFlowStages role in
  match visibleStages with
  | None => stages
  | Some visible =>
      let filtered := filter (λ k, k ∈ visible) stages in
      if (MIN_FLOW_STAGES <=? length filtered)%nat then filtered else stages
  end.

Definition flowPathForStages (row : FlowQuotaDataItem) (stages : list FlowNodeKind)
    (ctx : FlowPathContext) : list FlowPathNode :=
  (λ k, NODE_BUILDERS k row ctx) <$> stages.

(** * Filters *)

Definition filterRows (rows : list FlowQuotaDataItem) (selectedUsers : list jstr) :
    list FlowQuotaDataItem :=
  if decide (selectedUsers = []) then rows
  else filter (λ row, pn_id (userNode row) ∈ selectedUsers) rows.

(** Maps from kinds to sets of identifiers *)
Definition KindSets : Type := list (FlowNodeKind * list jstr).

Definition add_to (sets : KindSets) (k : FlowNodeKind) (id : jstr) : KindSets :=
  omap.set sets k (set_add (default [] (omap.get sets k)) id).

Definition normalizeSelectedNodeFilters (selectedNodes : list FlowNodeFilter)
    (stages : list FlowNodeKind) : KindSets :=
  foldl (λ filters f, if decide (nf_kind f ∈ stages) then add_to filters (nf_kind f) (nf_id f)
                      else filters) [] selectedNodes.

Definition pathMatchesNodeFilters (path : list FlowPathNode) (filters : KindSets) : bool :=
  let pathNodesByKind := foldl (λ m n, add_to m (pn_kind n) (pn_id n)) [] path in
  forallb (λ '(kind, selectedIds),
    match omap.get pathNodesByKind kind with
    | None => false
    | Some pathIds => existsb (λ id, bool_decide (id ∈ pathIds)) selectedIds
    end) filters.

Definition filterRowsByNodes (rows : list FlowQuotaDataItem) (selectedNodes : list FlowNodeFilter)
    (stages : list FlowNodeKind) (ctx : FlowPathContext) : list FlowQuotaDataItem :=
  let filters := normalizeSelectedNodeFilters selectedNodes stages in
  match filters with
  | [] => rows
  | _ => filter (λ row, pathMatchesNodeFilters (flowPathForStages row stages ctx) filters = true) rows
  end.

Definition selectedNodeFiltersExceptKind (selectedNodes : list FlowNodeFilter) (kind : FlowNodeKind) :
    list FlowNodeFilter :=
  filter (λ f, nf_kind f ≠ kind) selectedNodes.

(** * Adding up *)

Definition add_metrics (a b : FlowMetrics) : FlowMetrics :=
  mkMetrics (num_add (quota a) (quota b)) (num_add (tokens a) (tokens b))
    (num_add (requests a) (requests b)).
Definition no_metrics : FlowMetrics := mkMetrics num_0 num_0 num_0.

Definition addNode (map : list (jstr * DashboardFlowNode)) (pathNode : FlowPathNode)
    (metrics : FlowMetrics) (metric : FlowMetric) (color colorKey : jstr) :
    list (jstr * DashboardFlowNode) :=
  let previous :=
    default (mkFlowNode (pn_id pathNode) (pn_label pathNode) (pn_kind pathNode) num_0 no_metrics
               color colorKey None None) (omap.get map (pn_id pathNode)) in
  omap.set map (pn_id pathNode)
    (mkFlowNode (n_id previous) (n_label previous) (n_kind previous)
       (num_add (n_value previous) (metricValue metrics metric))
       (add_metrics (n_metrics previous) metrics)
       (n_color previous) (n_colorKey previous) (n_highlighted previous) (n_dimmed previous)).

(** Identifiers joined by the null unit *)
Definition joined (a b : jstr) : jstr := a ++ 0%N :: b.

Definition addLink (map : list (jstr * DashboardFlowLink)) (source target : FlowPathNode)
    (metrics : FlowMetrics) (metric : FlowMetric) (color colorKey : jstr) :
    list (jstr * DashboardFlowLink) :=
  let key := joined (pn_id source) (pn_id target) in
  let previous :=
    default (mkFlowLink (pn_id source) (pn_id target) num_0 no_metrics (pn_label source)
               (pn_label target) color color (num_of_Z 1) color colorKey num_0 None None)
      (omap.get map key) in
  omap.set map key
    (mkFlowLink (l_source previous) (l_target previous)
       (num_add (l_value previous) (metricValue metrics metric))
       (add_metrics (l_metrics previous) metrics)
       (sourceLabel previous) (targetLabel previous) (l_color previous) (linkColor previous)
       (linkAlpha previous) (hoverColor previous) (l_colorKey previous) (share previous)
       (l_highlighted previous) (l_dimmed previous)).

Definition linkStableKey (link : DashboardFlowLink) : jstr := joined (l_source link) (l_target link).
Definition pathLinkKey (source target : FlowPathNode) : jstr := joined (pn_id source) (pn_id target).

(** [path[i]], [path[i + 1]] for [i < path.length - 1] *)
Definition hops (path : list FlowPathNode) : list (FlowPathNode * FlowPathNode) :=
  zip path (drop 1 path).

Definition buildSummary (rows : list FlowQuotaDataItem) : FlowMetrics :=
  foldl (λ s row, add_metrics s (rowMetrics row)) no_metrics rows.

(** * The largest nodes of each stage *)

(** The integer part of a positive number *)
Definition nat_of_num (n : num) : nat :=
  match n with
  | S754_finite false m e => Z.to_nat (Z.shiftl (Z.pos m) e)
  | _ => 0
  end.

(** [undefined], or a positive integer *)
Definition normalizeTopNodeLimit (limit : option num) : option nat :=
  match limit with
  | None => None
  | Some l =>
      let parsed := num_floor l in
      if isFinite parsed && positive parsed then Some (nat_of_num parsed) else None
  end.

Definition otherFlowNode (kind : FlowNodeKind) (labeler : option (FlowNodeKind → jstr)) : FlowPathNode :=
  mkPathNode (OTHER_FLOW_NODE_IDS kind)
    (match labeler with Some f => f kind | None => DEFAULT_OTHER_FLOW_NODE_LABELS kind end) kind.

Record FlowNodeRank := mkRank { rank_node : FlowPathNode; rank_value : num }.

(** Totals of each stage, by identifier *)
Definition StageTotals : Type := list (FlowNodeKind * list (jstr * FlowNodeRank)).

Definition rank_add (value : num) (totals : StageTotals) (node : FlowPathNode) : StageTotals :=
  match omap.get totals (pn_kind node) with
  | None => totals
  | Some stageTotals =>
      let current := default (mkRank node num_0) (omap.get stageTotals (pn_id node)) in
      omap.set totals (pn_kind node)
        (omap.set stageTotals (pn_id node)
           (mkRank (rank_node current) (num_add (rank_value current) value)))
  end.

Definition isTopFlowNode (node : FlowPathNode) (topNodeSets : option KindSets) : bool :=
  match sets ← topNodeSets; omap.get sets (pn_kind node) with
  | None => true
  | Some topNodes => bool_decide (pn_id node ∈ topNodes)
  end.

(** [None] leaves the row out. *)
Definition applyTopNodeLimit (path : list FlowPathNode) (topNodeSets : option KindSets)
    (mode : FlowOverflowMode) (labeler : option (FlowNodeKind → jstr)) : option (list FlowPathNode) :=
  match topNodeSets with
  | None => Some path
  | Some _ =>
      if negb (existsb (λ n, negb (isTopFlowNode n topNodeSets)) path) then Some path
      else
        match mode with
        | Hide => None
        | Aggregate =>
            Some ((λ n, if isTopFlowNode n topNodeSets then n else otherFlowNode (pn_kind n) labeler)
                  <$> path)
        end
  end.

(** * Highlights and masks *)

Definition pathContainsFlowNode (path : list FlowPathNode) (f : FlowNodeFilter) : bool :=
  existsb (λ n, bool_decide (pn_kind n = nf_kind f) && bool_decide (pn_id n = nf_id f)) path.

Definition pathContainsFlowLink (path : list FlowPathNode) (l : FlowLinkSelection) : bool :=
  existsb (λ '(a, b), bool_decide (pn_id a = ls_source l) && bool_decide (pn_id b = ls_target l))
    (hops path).

Record PreparedFlowPath := mkPrepared { prep_path : list FlowPathNode; prep_metrics : FlowMetrics }.

Record FlowHighlightSets := mkHighlights { hl_nodes : list jstr; hl_links : list jstr }.

Definition matches_path (activeNode : option FlowNodeFilter) (activeLink : option FlowLinkSelection)
    (path : list FlowPathNode) : bool :=
  match activeLink with
  | Some l => pathContainsFlowLink path l
  | None => match activeNode with Some f => pathContainsFlowNode path f | None => false end
  end.

Definition buildFlowHighlightSets (preparedPaths : list PreparedFlowPath)
    (activeNode : option FlowNodeFilter) (activeLink : option FlowLinkSelection)
    (stages : list FlowNodeKind) : option FlowHighlightSets :=
  let nodeActive := match activeNode with Some f => bool_decide (nf_kind f ∈ stages) | None => false end in
  if negb nodeActive && match activeLink with None => true | Some _ => false end then None
  else
    let hit := filter (λ p, matches_path activeNode activeLink (prep_path p) = true) preparedPaths in
    let nodes := uniq (p ← hit; pn_id <$> prep_path p) in
    let links := uniq (p ← hit; (λ '(a, b), pathLinkKey a b) <$> hops (prep_path p)) in
    if decide (nodes = []) then None else Some (mkHighlights nodes links).

Definition FLOW_MASK_TEXT : jstr := [8226; 8226; 8226; 8226]%N.

Definition maskFlowLabel (label : jstr) : jstr :=
  match label with [] => label | _ => FLOW_MASK_TEXT end.

(** The nodes whose label is masked *)
Definition is_masked (n : DashboardFlowNode) : bool :=
  bool_decide (n_kind n ∈ SENSITIVE_FLOW_KINDS) && negb (bool_decide (n_id n ∈ OTHER_FLOW_NODE_ID_SET)).

Definition set_n_label (s : jstr) (n : DashboardFlowNode) : DashboardFlowNode :=
  mkFlowNode (n_id n) s (n_kind n) (n_value n) (n_metrics n) (n_color n) (n_colorKey n)
    (n_highlighted n) (n_dimmed n).

Definition set_l_labels (s t : jstr) (l : DashboardFlowLink) : DashboardFlowLink :=
  mkFlowLink (l_source l) (l_target l) (l_value l) (l_metrics l) s t (l_color l) (linkColor l)
    (linkAlpha l) (hoverColor l) (l_colorKey l) (share l) (l_highlighted l) (l_dimmed l).

Definition maskFlowGraphLabels (nodes : list (jstr * DashboardFlowNode))
    (links : list (jstr * DashboardFlowLink)) :
    list (jstr * DashboardFlowNode) * list (jstr * DashboardFlowLink) :=
  let mask n := if is_masked n then set_n_label (maskFlowLabel (n_label n)) n else n in
  let maskedById :=
    foldl (λ m n, if is_masked n then omap.set m (n_id n) (maskFlowLabel (n_label n)) else m)
      [] nodes.*2 in
  (prod_map id mask <$> nodes,
   prod_map id (λ l, set_l_labels (default (sourceLabel l) (omap.get maskedById (l_source l)))
                       (default (targetLabel l) (omap.get maskedById (l_target l))) l) <$> links).

Definition set_n_highlight (b : bool) (n : DashboardFlowNode) : DashboardFlowNode :=
  mkFlowNode (n_id n) (n_label n) (n_kind n) (n_value n) (n_metrics n) (n_color n) (n_colorKey n)
    (Some b) (Some (negb b)).

Definition set_l_highlight (b : bool) (l : DashboardFlowLink) : DashboardFlowLink :=
  mkFlowLink (l_source l) (l_target l) (l_value l) (l_metrics l) (sourceLabel l) (targetLabel l)
    (l_color l) (linkColor l) (linkAlpha l) (hoverColor l) (l_colorKey l) (share l)
    (Some b) (Some (negb b)).

Definition applyFlowHighlights (nodes : list (jstr * DashboardFlowNode))
    (links : list (jstr * DashboardFlowLink)) (highlightSets : option FlowHighlightSets) :
    list (jstr * DashboardFlowNode) * list (jstr * DashboardFlowLink) :=
  match highlightSets with
  | None => (nodes, links)
  | Some hs =>
      (prod_map id (λ n, set_n_highlight (bool_decide (n_id n ∈ hl_nodes hs)) n) <$> nodes,
       prod_map id (λ l, set_l_highlight (bool_decide (linkStableKey l ∈ hl_links hs)) l) <$> links)
  end.

(** * Colours *)

Definition DEFAULT_FLOW_CHART_COLOR : jstr := js "#1664FF".

Definition is_hex (c : N) : bool :=
  is_digit c || ((65 <=? c) && (c <=? 70))%N || ((97 <=? c) && (c <=? 102))%N.

Definition hex_unit (c : N) : Z :=
  if is_digit c then Z.of_N c - 48 else if (c <? 97)%N then Z.of_N c - 55 else Z.of_N c - 87.

(** [Number.parseInt(hex, 16)] on hexadecimal digits *)
Definition parse_hex (s : jstr) : Z := foldl (λ v c, v * 16 + hex_unit c)%Z 0%Z s.

Definition alphaColor (color : jstr) (alpha : num) : jstr * num :=
  let normalized := trim color in
  let hex := if startsWith normalized (js "#") then slice_from normalized 1 else normalized in
  if negb ((length hex =? 6)%nat && forallb is_hex hex) then (normalized, alpha)
  else
    let value := parse_hex hex in
    let red := Z.land (Z.shiftr value 16) 255 in
    let green := Z.land (Z.shiftr value 8) 255 in
    let blue := Z.land value 255 in
    (js "rgba(" ++ string_of_Z red ++ js ", " ++ string_of_Z green ++ js ", " ++ string_of_Z blue
     ++ js ", " ++ toFixed 2 alpha ++ js ")", num_of_Z 1).

(** A colour scheme of the chart library; entries that are no texts are skipped. *)
Record ChartScheme := mkScheme { maxDomainLength : option num; scheme_colors : list jsval }.

Section flow.
(** The platform's order of texts, its number format, and the schemes of the
    chart library, of which there is at least one *)
Context (localeCompare : jstr → jstr → num) (formatNumber : num → jstr).
Context (earlierSchemes : list ChartScheme) (lastScheme : ChartScheme).

Definition getDashboardChartColors (domainLength : nat) : list jstr :=
  let fits s :=
    match maxDomainLength s with
    | None => true
    | Some m => negb (num_truthy m) || num_leb (num_of_Z (Z.of_nat domainLength)) m
    end in
  let scheme :=
    match list_find (λ s, fits s = true) (earlierSchemes ++ [lastScheme]) with
    | Some (_, s) => s
    | None => lastScheme
    end in
  base.omap (λ v, match v with VStr s => Some s | _ => None end) (scheme_colors scheme).

(** [palette && palette.length > 0] *)
Definition colorAt (index : nat) (palette : list jstr) : jstr :=
  let colors := match palette with [] => getDashboardChartColors (S index) | _ => palette end in
  match colors with
  | [] => DEFAULT_FLOW_CHART_COLOR
  | _ => default DEFAULT_FLOW_CHART_COLOR (colors !! (index mod length colors)%nat)
  end.

Definition colorPalette (colorCount : nat) (palette : list jstr) : list jstr :=
  match palette with
  | _ :: _ => palette
  | [] =>
      match getDashboardChartColors colorCount with
      | [] => [DEFAULT_FLOW_CHART_COLOR]
      | colors => colors
      end
  end.

Definition stableColorMap (keys : list jstr) (palette : list jstr) : list (jstr * jstr) :=
  let uniqueKeys := uniq keys in
  let colors := colorPalette (length uniqueKeys) palette in
  imap (λ index key, (key, colorAt index colors)) uniqueKeys.

(** * Ranks *)

Definition by_rank (a b : FlowNodeRank) : num :=
  or_num (num_sub (rank_value b) (rank_value a))
    (or_num (localeCompare (pn_label (rank_node a)) (pn_label (rank_node b)))
       (localeCompare (pn_id (rank_node a)) (pn_id (rank_node b)))).

(** [None] when there is no limit *)
Definition buildTopNodeSets (rows : list FlowQuotaDataItem) (metric : FlowMetric)
    (stages : list FlowNodeKind) (limit : option nat) (ctx : FlowPathContext) : option KindSets :=
  match limit with
  | None => None
  | Some limit =>
      let totals : StageTotals := foldl (λ m k, omap.set m k []) [] stages in
      let totals :=
        foldl (λ totals row,
          foldl (rank_add (metricValue (rowMetrics row) metric)) totals
            (flowPathForStages row stages ctx)) totals rows in
      Some ((λ '(kind, stageTotals),
               (kind, (λ r, pn_id (rank_node r)) <$> take limit (sort_by by_rank stageTotals.*2)))
            <$> totals)
  end.

(** * Links on display *)

Definition set_l_colors (color : jstr) (alpha : num) (hover : jstr) (l : DashboardFlowLink) :
    DashboardFlowLink :=
  mkFlowLink (l_source l) (l_target l) (l_value l) (l_metrics l) (sourceLabel l) (targetLabel l)
    (l_color l) color alpha hover (l_colorKey l) (share l) (l_highlighted l) (l_dimmed l).

Definition by_link_value (a b : DashboardFlowLink) : num :=
  or_num (num_sub (l_value b) (l_value a)) (localeCompare (linkStableKey a) (linkStableKey b)).

(** The alpha of the link at [index] among the [count] of its source *)
Definition link_alpha (count index : nat) : num :=
  if (count =? 1)%nat then num_of_decimal 34 (-2)
  else num_add (num_of_decimal 24 (-2))
         (num_mul (num_div (num_of_Z (Z.of_nat index)) (num_of_Z (Z.of_nat (Nat.max (count - 1) 1))))
            (num_of_decimal 2 (-1))).

(** Each link has its place among the links of its source. *)
Definition assignLinkDisplayColors (links : list DashboardFlowLink) : list DashboardFlowLink :=
  (λ l,
     let sortedLinks := sort_by by_link_value (filter (λ l', l_source l' = l_source l) links) in
     let index :=
       match list_find (λ l', linkStableKey l' = linkStableKey l) sortedLinks with
       | Some (i, _) => i
       | None => 0
       end in
     let '(color, alpha) := alphaColor (l_color l) (link_alpha (length sortedLinks) index) in
     set_l_colors color alpha (l_color l) l) <$> links.

Definition byValueThenLabel (a b : DashboardFlowNode) : num :=
  or_num (num_sub (n_value b) (n_value a)) (localeCompare (n_label a) (n_label b)).

Definition by_ends (a b : DashboardFlowLink) : num :=
  or_num (localeCompare (l_source a) (l_source b)) (localeCompare (l_target a) (l_target b)).

Definition set_share (s : num) (l : DashboardFlowLink) : DashboardFlowLink :=
  mkFlowLink (l_source l) (l_target l) (l_value l) (l_metrics l) (sourceLabel l) (targetLabel l)
    (l_color l) (linkColor l) (linkAlpha l) (hoverColor l) (l_colorKey l) s (l_highlighted l)
    (l_dimmed l).

(** * The graph *)

Record FlowGraphOptions := mkGraphOptions {
  topNodeLimit : option num;
  overflowMode : option FlowOverflowMode;
  otherNodeLabel : option (FlowNodeKind → jstr);
  activeNode : option FlowNodeFilter;
  activeLink : option FlowLinkSelection;
  maskSensitive : bool;
}.

(** The rows as limited paths *)
Definition prepare_paths (rows : list FlowQuotaDataItem) (metric : FlowMetric)
    (stages : list FlowNodeKind) (ctx : FlowPathContext) (options : FlowGraphOptions) :
    list PreparedFlowPath :=
  let topNodeSets :=
    buildTopNodeSets rows metric stages (normalizeTopNodeLimit (topNodeLimit options)) ctx in
  base.omap (λ row,
    (λ path, mkPrepared path (rowMetrics row)) <$>
      applyTopNodeLimit (flowPathForStages row stages ctx) topNodeSets
        (default Aggregate (overflowMode options)) (otherNodeLabel options)) rows.

(** The identifiers of the first nodes *)
Definition root_ids (paths : list PreparedFlowPath) : list jstr :=
  filter (λ s, s ≠ []) (base.omap (λ p, pn_id <$> head (prep_path p)) paths).

(** One path added to the nodes and links *)
Definition add_path (metric : FlowMetric) (color colorKey : jstr) (p : PreparedFlowPath)
    (g : list (jstr * DashboardFlowNode) * list (jstr * DashboardFlowLink)) :
    list (jstr * DashboardFlowNode) * list (jstr * DashboardFlowLink) :=
  (foldl (λ m n, addNode m n (prep_metrics p) metric color colorKey) g.1 (prep_path p),
   foldl (λ m '(a, b), addLink m a b (prep_metrics p) metric color colorKey) g.2 (hops (prep_path p))).

Definition add_paths (metric : FlowMetric) (colors : list (jstr * jstr)) (palette : list jstr)
    (paths : list PreparedFlowPath) :
    list (jstr * DashboardFlowNode) * list (jstr * DashboardFlowLink) :=
  foldl (λ g p,
    match head (prep_path p) with
    | None => g
    | Some root =>
        add_path metric (default (colorAt 0 palette) (omap.get colors (pn_id root))) (pn_id root) p g
    end) ([], []) paths.

(** Order, shares and colours of the links *)
Definition finish_links (paths : list PreparedFlowPath) (links : list DashboardFlowLink) :
    list DashboardFlowLink :=
  let flowLinks := sort_by by_ends links in
  let firstStepSources := uniq (root_ids paths) in
  let total :=
    foldl (λ sum l, num_add sum (l_value l)) num_0
      (filter (λ l, l_source l ∈ firstStepSources) flowLinks) in
  assignLinkDisplayColors
    ((λ l, set_share (if num_ltb num_0 total then num_div (l_value l) total else num_0) l)
     <$> flowLinks).

Definition buildFlowGraph (rows : list FlowQuotaDataItem) (metric : FlowMetric) (role : FlowRole)
    (palette : list jstr) (visibleStages : option (list FlowNodeKind)) (ctx : FlowPathContext)
    (options : FlowGraphOptions) : DashboardFlowGraph :=
  let stages := resolveVisibleStages role visibleStages in
  let preparedPaths := prepare_paths rows metric stages ctx options in
  let colors := stableColorMap (sort_by localeCompare (root_ids preparedPaths)) palette in
  let '(nodes, links) := add_paths metric colors palette preparedPaths in
  let '(nodes, links) :=
    if maskSensitive options then maskFlowGraphLabels nodes links else (nodes, links) in
  let '(nodes, links) :=
    applyFlowHighlights nodes links
      (buildFlowHighlightSets preparedPaths (activeNode options) (activeLink options) stages) in
  mkGraph (sort_by byValueThenLabel nodes.*2) (finish_links preparedPaths links.*2).

(** * Filter options *)

Record FlowUserFilterOption := mkUserOption {
  uo_value : jstr; uo_label : jstr; uo_valueLabel : jstr; uo_valueRaw : num; uo_color : jstr }.

Record FlowNodeFilterOption := mkNodeOption {
  no_kind : FlowNodeKind; no_value : jstr; no_label : jstr; no_valueLabel : jstr;
  no_valueRaw : num; no_color : jstr }.

Record FlowFilterOptions := mkFilterOptions {
  fo_users : list FlowUserFilterOption;
  fo_nodes : list FlowNodeFilterOption;
}.

(** [!row.user_id && !row.username] *)
Definition anonymous_row (row : FlowQuotaDataItem) : bool :=
  negb (match user_id row with Some n => num_truthy n | None => false end)
  && negb (match username row with Some s => truthy s | None => false end).

Definition buildUserFilterOptions (rows : list FlowQuotaDataItem) (metric : FlowMetric)
    (palette : list jstr) : list FlowUserFilterOption :=
  let colors :=
    stableColorMap (sort_by localeCompare ((λ r, pn_id (userNode r)) <$> rows)) palette in
  let users :=
    foldl (λ users row,
      if anonymous_row row then users
      else
        let user := userNode row in
        let '(label, value, color) :=
          default (pn_label user, num_0, default (colorAt 0 palette) (omap.get colors (pn_id user)))
            (omap.get users (pn_id user)) in
        omap.set users (pn_id user)
          (label, num_add value (metricValue (rowMetrics row) metric), color))
      [] rows in
  sort_by (λ a b, or_num (num_sub (uo_valueRaw b) (uo_valueRaw a))
                    (localeCompare (uo_label a) (uo_label b)))
    ((λ '(id, (label, value, color)), mkUserOption id label (formatNumber value) value color)
     <$> (users : list (jstr * (jstr * num * jstr)))).

Definition nodeFilterKey (f : FlowNodeFilter) : jstr := joined (kind_name (nf_kind f)) (nf_id f).

(** The options of one stage: the selection at the other stages applies. *)
Definition stage_totals (rows : list FlowQuotaDataItem) (metric : FlowMetric)
    (stages : list FlowNodeKind) (ctx : FlowPathContext) (selectedNodes : list FlowNodeFilter)
    (stage : FlowNodeKind) : list (jstr * FlowNodeRank) :=
  foldl (λ totals row,
    let node := NODE_BUILDERS stage row ctx in
    let key := nodeFilterKey (mkNodeFilter (pn_kind node) (pn_id node)) in
    let current := default (mkRank node num_0) (omap.get totals key) in
    omap.set totals key
      (mkRank (rank_node current) (num_add (rank_value current) (metricValue (rowMetrics row) metric))))
    [] (filterRowsByNodes rows (selectedNodeFiltersExceptKind selectedNodes stage) stages ctx).

Definition stage_index (stages : list FlowNodeKind) (k : FlowNodeKind) : num :=
  match list_find (λ k', k' = k) stages with
  | Some (i, _) => num_of_Z (Z.of_nat i)
  | None => num_0
  end.

Definition buildNodeFilterOptions (rows : list FlowQuotaDataItem) (metric : FlowMetric)
    (role : FlowRole) (visibleStages : option (list FlowNodeKind)) (palette : list jstr)
    (ctx : FlowPathContext) (selectedNodes : list FlowNodeFilter) : list FlowNodeFilterOption :=
  let stages := resolveVisibleStages role visibleStages in
  let colorIds := uniq (row ← rows; pn_id <$> flowPathForStages row stages ctx) in
  let colors := stableColorMap (sort_by localeCompare colorIds) palette in
  sort_by
    (λ a b, or_num (num_sub (stage_index stages (no_kind a)) (stage_index stages (no_kind b)))
              (or_num (num_sub (no_valueRaw b) (no_valueRaw a))
                 (or_num (localeCompare (no_label a) (no_label b))
                    (localeCompare (no_value a) (no_value b)))))
    (stage ← stages;
     (λ '((_, rank) : jstr * FlowNodeRank),
        let node := rank_node rank in
        mkNodeOption (pn_kind node) (pn_id node) (pn_label node) (formatNumber (rank_value rank))
          (rank_value rank) (default (colorAt 0 palette) (omap.get colors (pn_id node))))
     <$> stage_totals rows metric stages ctx selectedNodes stage).

Definition buildFlowFilterOptions (rows : list FlowQuotaDataItem) (metric : FlowMetric)
    (palette : list jstr) (role : FlowRole) (visibleStages : option (list FlowNodeKind))
    (selectedNodes : list FlowNodeFilter) : FlowFilterOptions :=
  mkFilterOptions (buildUserFilterOptions rows metric palette)
    (buildNodeFilterOptions rows metric role visibleStages palette EMPTY_FLOW_PATH_CONTEXT
       selectedNodes).

(** * The whole view *)

Record FlowBuildOptions := mkBuildOptions {
  role : option FlowRole;
  selectedUsers : list jstr;
  selectedNodes : list FlowNodeFilter;
  graph_colorPalette : list jstr;
  visibleStages : option (list FlowNodeKind);
  deleted_label : FlowPathContext;
  graph_options : FlowGraphOptions;
}.

Record ProcessedFlowData := mkProcessed {
  summary : FlowMetrics;
  flow_graph : DashboardFlowGraph;
  filterOptions : FlowFilterOptions;
}.

Definition buildDashboardFlowData (rows : list FlowQuotaDataItem) (metric : FlowMetric)
    (options : FlowBuildOptions) : ProcessedFlowData :=
  let role := default RoleUser (role options) in
  let palette := graph_colorPalette options in
  let ctx := deleted_label options in
  let stages := resolveVisibleStages role (visibleStages options) in
  let userFilteredRows := filterRows rows (selectedUsers options) in
  let filteredRows := filterRowsByNodes userFilteredRows (selectedNodes options) stages ctx in
  mkProcessed (buildSummary filteredRows)
    (buildFlowGraph filteredRows metric role palette (visibleStages options) ctx
       (graph_options options))
    (mkFilterOptions (buildUserFilterOptions rows metric palette)
       (buildNodeFilterOptions userFilteredRows metric role (visibleStages options) palette ctx
          (selectedNodes options))).
End flow.

(** ** Example *)

Definition demo_row (u g m : string) (q : Z) : FlowQuotaDataItem :=
  mkRow None (Some (js u)) None (Some (js g)) None (Some (js u)) None None (Some (js m))
    (Some (num_of_Z 10)) (Some (num_of_Z 1)) (Some (num_of_Z q)).

Definition demo_options (limit : option num) : FlowGraphOptions :=
  mkGraphOptions limit None None None None false.

(** An order of texts by their units *)
Definition unit_order (a b : jstr) : num :=
  match units_compare a b with Lt => num_of_Z (-1) | Eq => num_0 | Gt => num_of_Z 1 end.

Definition demo_rows : list FlowQuotaDataItem :=
  [demo_row "ann" "vip" "gpt" 5; demo_row "bob" "vip" "gpt" 7; demo_row "ann" "std" "o3" 4;
   demo_row "cyd" "std" "gpt" 1].

Example flow_example :
  let g := buildFlowGraph unit_order [] (mkScheme None []) demo_rows MQuota RoleUser []
             None None (demo_options (Some (num_of_Z 1))) in
  ((λ n, (n_label n, n_value n)) <$> g_nodes g,
   (λ l, (sourceLabel l, targetLabel l, l_value l)) <$> g_links g)
  = ([(js "gpt", num_of_Z 13); (js "vip", num_of_Z 12); (js "ann", num_of_Z 9);
      (js "Other tokens", num_of_Z 8); (js "Other groups", num_of_Z 5); (js "Other models", num_of_Z 4)],
     [(js "Other groups", js "Other models", num_of_Z 4); (js "Other groups", js "gpt", num_of_Z 1);
      (js "vip", js "gpt", num_of_Z 12); (js "Other tokens", js "Other groups", num_of_Z 1);
      (js "Other tokens", js "vip", num_of_Z 7); (js "ann", js "Other groups", num_of_Z 4);
      (js "ann", js "vip", num_of_Z 5)]).
Proof. vm_compute. reflexivity. Qed.
