(* ===== verification/FlowProps.v ===== *)
(** Totals of the flow graph: what each node and link adds up, that flow is
    conserved, how many nodes a limit leaves, and which rows a selection keeps. *)

From Stdlib Require Import ZArith NArith SpecFloat.
From S2P Require Import Prelude JsString JsNumber JsValue JsArray Flow.

(** * Maps that accumulate events *)

Section accum.
Context {K V E : Type} `{EqDecision K} (key : E → K) (init : E → V) (upd : E → V → V).
Implicit Types (m : list (K * V)) (es : list E).

Definition acc_step m (e : E) : list (K * V) :=
  omap.set m (key e) (upd e (default (init e) (omap.get m (key e)))).

Definition acc_entry (o : option V) es : option V :=
  foldl (λ o e, Some (upd e (default (init e) o))) o es.

Lemma accum_get m es k :
  omap.get (foldl acc_step m es) k = acc_entry (omap.get m k) (filter (λ e, key e = k) es).
Proof.
  revert m. induction es as [|e es IH]; intros m; cbn [foldl]; [done|].
  rewrite IH, filter_cons. unfold acc_step at 1. case_decide as Hk.
  - subst k. by rewrite omap.get_set_eq.
  - by rewrite omap.get_set_ne.
Qed.

Lemma accum_keys m es k : k ∈ (foldl acc_step m es).*1 ↔ k ∈ m.*1 ∨ k ∈ key <$> es.
Proof.
  revert m. induction es as [|e es IH]; intros m; cbn [foldl]; [set_solver|].
  rewrite IH. unfold acc_step at 1. rewrite omap.set_keys. case_decide; set_solver.
Qed.

Lemma accum_NoDup m es : NoDup m.*1 → NoDup (foldl acc_step m es).*1.
Proof.
  revert m. induction es as [|e es IH]; intros m Hm; [done|]. apply IH. by apply omap.NoDup_set.
Qed.

(** A field that adds up *)
Lemma acc_entry_sum {B} (f : V → B) (op : B → B → B) (z : B) (c : E → B) es v :
  (∀ e, f (init e) = z) → (∀ e v, f (upd e v) = op (f v) (c e)) →
  acc_entry None es = Some v → f v = foldl op z (c <$> es).
Proof.
  intros Hi Hu. destruct es as [|e es]; [done|].
  change (acc_entry None (e :: es)) with (acc_entry (Some (upd e (init e))) es).
  cbn [fmap list_fmap foldl]. rewrite <- (Hi e), <- Hu. generalize (upd e (init e)).
  induction es as [|e' es IH]; intros w; [by intros [= ->]|].
  change (acc_entry (Some w) (e' :: es)) with (acc_entry (Some (upd e' w)) es). cbn.
  rewrite <- Hu. apply IH.
Qed.

(** What the first event establishes and the others keep *)
Lemma acc_entry_ind (Q : V → Prop) es v :
  Forall (λ e, Q (init e)) es → (∀ e v, Q v → Q (upd e v)) → acc_entry None es = Some v → Q v.
Proof.
  intros Hi Hu. destruct es as [|e es]; [done|]. apply Forall_cons in Hi as [He _].
  change (acc_entry None (e :: es)) with (acc_entry (Some (upd e (init e))) es).
  apply (Hu e) in He. revert He. generalize (upd e (init e)).
  induction es as [|e' es IH]; intros w Hw; [by intros [= <-]|]. apply IH. by apply Hu.
Qed.

Lemma accum_lookup es k v :
  (k, v) ∈ foldl acc_step [] es → acc_entry None (filter (λ e, key e = k) es) = Some v.
Proof.
  intros Hin. apply omap.elem_get in Hin; [|apply accum_NoDup; constructor].
  by rewrite accum_get in Hin.
Qed.
End accum.

(** * Nodes and links as events *)

Record NodeEvent := mkNodeEvent { ne_node : FlowPathNode; ne_metrics : FlowMetrics; ne_color : jstr;
                                  ne_key : jstr }.
Record LinkEvent := mkLinkEvent { le_source : FlowPathNode; le_target : FlowPathNode;
                                  le_metrics : FlowMetrics; le_color : jstr; le_key : jstr }.

Definition node_init (e : NodeEvent) : DashboardFlowNode :=
  mkFlowNode (pn_id (ne_node e)) (pn_label (ne_node e)) (pn_kind (ne_node e)) num_0 no_metrics
    (ne_color e) (ne_key e) None None.
Definition node_upd (metric : FlowMetric) (e : NodeEvent) (n : DashboardFlowNode) : DashboardFlowNode :=
  mkFlowNode (n_id n) (n_label n) (n_kind n) (num_add (n_value n) (metricValue (ne_metrics e) metric))
    (add_metrics (n_metrics n) (ne_metrics e)) (n_color n) (n_colorKey n) (n_highlighted n) (n_dimmed n).

Definition link_init (e : LinkEvent) : DashboardFlowLink :=
  mkFlowLink (pn_id (le_source e)) (pn_id (le_target e)) num_0 no_metrics (pn_label (le_source e))
    (pn_label (le_target e)) (le_color e) (le_color e) (num_of_Z 1) (le_color e) (le_key e) num_0 None None.
Definition link_upd (metric : FlowMetric) (e : LinkEvent) (l : DashboardFlowLink) : DashboardFlowLink :=
  mkFlowLink (l_source l) (l_target l) (num_add (l_value l) (metricValue (le_metrics e) metric))
    (add_metrics (l_metrics l) (le_metrics e)) (sourceLabel l) (targetLabel l) (l_color l) (linkColor l)
    (linkAlpha l) (hoverColor l) (l_colorKey l) (share l) (l_highlighted l) (l_dimmed l).

Definition node_key (e : NodeEvent) : jstr := pn_id (ne_node e).
Definition link_key (e : LinkEvent) : jstr := pathLinkKey (le_source e) (le_target e).

Definition node_events (color : FlowPathNode → jstr) (paths : list PreparedFlowPath) : list NodeEvent :=
  p ← paths;
  match head (prep_path p) with
  | None => []
  | Some root => (λ n, mkNodeEvent n (prep_metrics p) (color root) (pn_id root)) <$> prep_path p
  end.

Definition link_events (color : FlowPathNode → jstr) (paths : list PreparedFlowPath) : list LinkEvent :=
  p ← paths;
  match head (prep_path p) with
  | None => []
  | Some root =>
      (λ '(a, b), mkLinkEvent a b (prep_metrics p) (color root) (pn_id root)) <$> hops (prep_path p)
  end.

Lemma foldl_fmap_step {A B C} (f : A → B → A) (g : C → B) (h : A → C → A) (a : A) (l : list C) :
  (∀ a c, f a (g c) = h a c) → foldl f a (g <$> l) = foldl h a l.
Proof. intros H. revert a. induction l as [|c l IH]; intros a; cbn; [done|]. by rewrite H, IH. Qed.

Section graph.
Context (localeCompare : jstr → jstr → num) (earlier : list ChartScheme) (last_ : ChartScheme).
Context (metric : FlowMetric).

Abbreviation step_node := (acc_step node_key node_init (node_upd metric)).
Abbreviation step_link := (acc_step link_key link_init (link_upd metric)).

Definition root_color (colors : list (jstr * jstr)) (palette : list jstr) (root : FlowPathNode) : jstr :=
  default (colorAt earlier last_ 0 palette) (omap.get colors (pn_id root)).

Lemma add_paths_events colors palette paths :
  add_paths earlier last_ metric colors palette paths
  = (foldl step_node [] (node_events (root_color colors palette) paths),
     foldl step_link [] (link_events (root_color colors palette) paths)).
Proof.
  unfold add_paths. enough (∀ g, foldl (λ g p, match head (prep_path p) with None => g | Some root =>
      add_path metric (root_color colors palette root) (pn_id root) p g end) g paths
    = (foldl step_node g.1 (node_events (root_color colors palette) paths),
       foldl step_link g.2 (link_events (root_color colors palette) paths))) as H by exact (H ([], [])).
  induction paths as [|p paths IH]; intros g; [by destruct g|]. cbn [foldl].
  change (node_events ?c (p :: paths)) with
    (match head (prep_path p) with None => [] | Some root =>
       (λ n, mkNodeEvent n (prep_metrics p) (c root) (pn_id root)) <$> prep_path p end
     ++ node_events c paths).
  change (link_events ?c (p :: paths)) with
    (match head (prep_path p) with None => [] | Some root =>
       (λ '(a, b), mkLinkEvent a b (prep_metrics p) (c root) (pn_id root)) <$> hops (prep_path p) end
     ++ link_events c paths).
  rewrite !foldl_app, IH. destruct (head (prep_path p)) as [root|]; [|done].
  unfold add_path. cbn [fst snd]. f_equal; f_equal; symmetry; apply foldl_fmap_step.
  - done.
  - by intros m [a b].
Qed.
End graph.

(** * Paths *)

(** The identifier of a node starts with its kind. *)
Definition id_typed (n : FlowPathNode) : Prop := ∃ t, pn_id n = kind_name (pn_kind n) ++ 58%N :: t.

Lemma builder_kind k row ctx : pn_kind (NODE_BUILDERS k row ctx) = k.
Proof. by destruct k. Qed.

Lemma builder_typed k row ctx : id_typed (NODE_BUILDERS k row ctx).
Proof. destruct k; eexists; reflexivity. Qed.

Lemma other_typed k f : id_typed (otherFlowNode k f).
Proof. destruct k; eexists; reflexivity. Qed.

Lemma typed_kind n n' : id_typed n → id_typed n' → pn_id n = pn_id n' → pn_kind n = pn_kind n'.
Proof.
  intros [t Ht] [t' Ht'] E. rewrite Ht, Ht' in E.
  destruct (pn_kind n), (pn_kind n'); try done; cbn in E; discriminate E.
Qed.

(** A path through the stages *)
Record path_ok (stages : list FlowNodeKind) (path : list FlowPathNode) : Prop := {
  path_kinds : pn_kind <$> path = stages;
  path_typed : Forall id_typed path;
}.

Lemma flow_path_ok row stages ctx : path_ok stages (flowPathForStages row stages ctx).
Proof.
  unfold flowPathForStages. split.
  - rewrite <- list_fmap_compose. rewrite <- (list_fmap_id stages) at 2. apply list_fmap_ext.
    intros i k _. apply builder_kind.
  - apply Forall_fmap, Forall_true. intros k. apply builder_typed.
Qed.

Lemma limited_path_ok stages path sets mode f path' :
  path_ok stages path → applyTopNodeLimit path sets mode f = Some path' → path_ok stages path'.
Proof.
  intros [Hk Ht]. unfold applyTopNodeLimit. destruct sets as [sets|]; [|by intros [= <-]].
  destruct (negb _); [by intros [= <-]|]. destruct mode; [intros [= <-]|done]. split.
  - rewrite <- Hk, <- list_fmap_compose. apply list_fmap_ext. intros i n _. cbn. by case_match.
  - apply Forall_fmap. eapply Forall_impl; [exact Ht|]. intros n Hn. cbn. case_match; [done|].
    apply other_typed.
Qed.

Lemma NoDup_by {A B C} (f : A → B) (g : A → C) (l : list A) :
  (∀ x y, x ∈ l → y ∈ l → f x = f y → g x = g y) → NoDup (g <$> l) → NoDup (f <$> l).
Proof.
  induction l as [|x l IH]; intros Hfg; cbn; [constructor|].
  intros [Hx Hl]%NoDup_cons. constructor.
  - intros (y & Hy & Hin)%list_elem_of_fmap. apply Hx, list_elem_of_fmap. exists y.
    split; [apply Hfg; set_solver|done].
  - apply IH; [|done]. intros a b Ha Hb. apply Hfg; set_solver.
Qed.

Lemma path_ids_NoDup stages path : NoDup stages → path_ok stages path → NoDup (pn_id <$> path).
Proof.
  intros Hs [Hk Ht]. rewrite Forall_forall in Ht. apply (NoDup_by _ pn_kind).
  - intros x y Hx Hy. apply typed_kind; auto.
  - by rewrite Hk.
Qed.

Lemma stages_NoDup role visible : NoDup (resolveVisibleStages role visible).
Proof.
  assert (NoDup (getFlowStages role)) as H
    by (destruct role; apply (bool_decide_unpack _); by vm_compute).
  unfold resolveVisibleStages. destruct visible as [v|]; [|done].
  case_match; [by apply NoDup_filter|done].
Qed.

Lemma stages_length role visible : 2 ≤ length (resolveVisibleStages role visible).
Proof.
  assert (2 ≤ length (getFlowStages role)) by (destruct role; cbn; lia).
  unfold resolveVisibleStages. destruct visible as [v|]; [|done].
  destruct (Nat.leb_spec MIN_FLOW_STAGES (length (filter (λ k, k ∈ v) (getFlowStages role)))); [|done].
  done.
Qed.

(** * What passes through a node or a hop *)

Definition ids (p : PreparedFlowPath) : list jstr := pn_id <$> prep_path p.
Definition hop_ids (p : PreparedFlowPath) : list (jstr * jstr) :=
  (λ '(a, b), (pn_id a, pn_id b)) <$> hops (prep_path p).

Definition through (id : jstr) (paths : list PreparedFlowPath) : list PreparedFlowPath :=
  filter (λ p, id ∈ ids p) paths.

Definition sum_value (metric : FlowMetric) (paths : list PreparedFlowPath) : num :=
  foldl num_add num_0 ((λ p, metricValue (prep_metrics p) metric) <$> paths).
Definition sum_metrics (paths : list PreparedFlowPath) : FlowMetrics :=
  foldl add_metrics no_metrics (prep_metrics <$> paths).

Lemma filter_NoDup_singleton {A B} `{EqDecision B} (f : A → B) (l : list A) b :
  NoDup (f <$> l) →
  (∃ x, x ∈ l ∧ f x = b ∧ filter (λ x, f x = b) l = [x]) ∨ (b ∉ f <$> l) ∧ filter (λ x, f x = b) l = [].
Proof.
  induction l as [|x l IH]; cbn [fmap list_fmap]; [right; split; [set_solver|done]|].
  intros [Hx Hl]%NoDup_cons. rewrite filter_cons. case_decide as Hb.
  - left. exists x. split; [set_solver|]. split; [done|]. f_equal. apply filter_none, Forall_forall. intros y Hy Hfy.
    apply Hx, list_elem_of_fmap. exists y. split; [congruence|done].
  - destruct (IH Hl) as [(y & Hy & ?)|[Hn ?]]; [left; exists y; set_solver|]. right. split; [|done]. set_solver.
Qed.

Lemma filter_fmap_key {A B K} `{EqDecision K} (g : A → B) (key : B → K) (key' : A → K) (l : list A) k :
  (∀ a, key (g a) = key' a) →
  filter (λ b, key b = k) (g <$> l) = g <$> filter (λ a, key' a = k) l.
Proof.
  intros H. induction l as [|a l IH]; [done|]. cbn [fmap list_fmap]. rewrite !filter_cons, H.
  case_decide; [|exact IH]. cbn [fmap list_fmap]. f_equal. exact IH.
Qed.

(** The events of a node are the paths through it, once each. *)
Lemma node_events_through {B} color paths id (f : FlowMetrics → B) :
  Forall (λ p, NoDup (ids p)) paths →
  (λ e, f (ne_metrics e)) <$> filter (λ e, node_key e = id) (node_events color paths)
  = (λ p, f (prep_metrics p)) <$> through id paths.
Proof.
  induction 1 as [|p paths Hp Hps IH]; [done|].
  change (node_events color (p :: paths)) with
    (match head (prep_path p) with None => [] | Some root =>
       (λ n, mkNodeEvent n (prep_metrics p) (color root) (pn_id root)) <$> prep_path p end
     ++ node_events color paths).
  rewrite filter_app, fmap_app, IH. unfold through at 2. rewrite filter_cons. fold (through id paths).
  unfold ids in *. destruct (prep_path p) as [|root path] eqn:Ep.
  { cbn [head fmap list_fmap]. rewrite decide_False by set_solver. done. }
  cbn [head]. set (mk := λ n, mkNodeEvent n (prep_metrics p) (color root) (pn_id root)).
  rewrite (filter_fmap_key mk node_key pn_id) by done.
  destruct (filter_NoDup_singleton pn_id (root :: path) id Hp) as [(n & Hin & Hn & ->)|[Hn ->]].
  - rewrite decide_True; [done|]. apply list_elem_of_fmap. by exists n.
  - by rewrite decide_False.
Qed.

(** * From the maps to the graph *)

Definition node_core (n : DashboardFlowNode) : jstr * FlowNodeKind * num * FlowMetrics :=
  (n_id n, n_kind n, n_value n, n_metrics n).
Definition link_core (l : DashboardFlowLink) : jstr * jstr * num * FlowMetrics :=
  (l_source l, l_target l, l_value l, l_metrics l).

Lemma core_map {A B K} (core : A → B) (f : A → A) (m : list (K * A)) :
  (∀ a, core (f a) = core a) → core <$> (prod_map id f <$> m).*2 = core <$> m.*2.
Proof. intros H. induction m as [|[k a] m IH]; [done|]. cbn. rewrite H. f_equal. exact IH. Qed.

Lemma mask_cores nodes links :
  node_core <$> (maskFlowGraphLabels nodes links).1.*2 = node_core <$> nodes.*2
  ∧ link_core <$> (maskFlowGraphLabels nodes links).2.*2 = link_core <$> links.*2.
Proof.
  unfold maskFlowGraphLabels. cbn [fst snd]. split; apply core_map; [|done].
  intros n. by case_match.
Qed.

Lemma highlight_cores nodes links hs :
  node_core <$> (applyFlowHighlights nodes links hs).1.*2 = node_core <$> nodes.*2
  ∧ link_core <$> (applyFlowHighlights nodes links hs).2.*2 = link_core <$> links.*2.
Proof. destruct hs as [hs|]; [|done]. cbn [applyFlowHighlights fst snd]. split; by apply core_map. Qed.

Lemma display_cores cmp links :
  link_core <$> assignLinkDisplayColors cmp links = link_core <$> links.
Proof.
  unfold assignLinkDisplayColors. rewrite <- list_fmap_compose. apply list_fmap_ext.
  intros i l _. cbn. by destruct (alphaColor _ _).
Qed.

Lemma finish_cores cmp paths links : link_core <$> finish_links cmp paths links ≡ₚ link_core <$> links.
Proof.
  unfold finish_links. rewrite display_cores, <- list_fmap_compose.
  rewrite (list_fmap_ext _ link_core) by done. by rewrite sort_by_perm.
Qed.

Section build.
Context (localeCompare : jstr → jstr → num) (earlier : list ChartScheme) (last_ : ChartScheme).
Context (rows : list FlowQuotaDataItem) (metric : FlowMetric) (role : FlowRole) (palette : list jstr).
Context (visible : option (list FlowNodeKind)) (ctx : FlowPathContext) (options : FlowGraphOptions).

Definition stages_ : list FlowNodeKind := resolveVisibleStages role visible.
Definition paths_ : list PreparedFlowPath := prepare_paths localeCompare rows metric stages_ ctx options.
Definition color_ : FlowPathNode → jstr :=
  root_color earlier last_
    (stableColorMap earlier last_ (sort_by localeCompare (root_ids paths_)) palette) palette.
Definition graph_ : DashboardFlowGraph :=
  buildFlowGraph localeCompare earlier last_ rows metric role palette visible ctx options.

Definition node_map : list (jstr * DashboardFlowNode) :=
  foldl (acc_step node_key node_init (node_upd metric)) [] (node_events color_ paths_).
Definition link_map : list (jstr * DashboardFlowLink) :=
  foldl (acc_step link_key link_init (link_upd metric)) [] (link_events color_ paths_).

Lemma graph_cores :
  node_core <$> g_nodes graph_ ≡ₚ node_core <$> node_map.*2
  ∧ link_core <$> g_links graph_ ≡ₚ link_core <$> link_map.*2.
Proof.
  unfold graph_, buildFlowGraph. fold stages_. fold paths_. rewrite add_paths_events. fold color_.
  fold node_map link_map.
  assert (∃ nm lm, (if maskSensitive options then maskFlowGraphLabels node_map link_map
                    else (node_map, link_map)) = (nm, lm)
          ∧ node_core <$> nm.*2 = node_core <$> node_map.*2
          ∧ link_core <$> lm.*2 = link_core <$> link_map.*2) as (nm & lm & -> & Hn & Hl).
  { destruct (maskSensitive options); [|by eexists _, _].
    eexists _, _. split; [apply surjective_pairing|]. apply mask_cores. }
  set (hs := buildFlowHighlightSets _ _ _ _).
  destruct (highlight_cores nm lm hs) as [Hn' Hl']. destruct (applyFlowHighlights nm lm hs) as [nm' lm'].
  cbn [g_nodes g_links fst snd] in *. split.
  - rewrite sort_by_perm. by rewrite Hn', Hn.
  - rewrite finish_cores. by rewrite Hl', Hl.
Qed.

Lemma paths_ok : Forall (λ p, path_ok stages_ (prep_path p)) paths_.
Proof.
  apply Forall_forall. intros p Hp. unfold paths_, prepare_paths in Hp.
  apply list_elem_of_omap in Hp as (row & _ & Hp).
  destruct (applyTopNodeLimit _ _ _ _) as [path|] eqn:E; [|done]. injection Hp as <-.
  cbn [prep_path]. eapply limited_path_ok; [apply flow_path_ok|exact E].
Qed.

Lemma paths_NoDup : Forall (λ p, NoDup (ids p)) paths_.
Proof.
  eapply Forall_impl; [apply paths_ok|]. intros p Hp. eapply path_ids_NoDup; [|exact Hp].
  apply stages_NoDup.
Qed.

Lemma paths_root p : p ∈ paths_ → ∃ root, head (prep_path p) = Some root.
Proof.
  intros Hp. pose proof paths_ok as Hok. rewrite Forall_forall in Hok.
  destruct (Hok p Hp) as [Hk _]. pose proof (stages_length role visible) as Hl. fold stages_ in Hl.
  rewrite <- Hk, length_fmap in Hl. destruct (prep_path p); [cbn in Hl; lia|by eexists].
Qed.

(** ** Nodes *)

Lemma node_map_entry k n :
  (k, n) ∈ node_map →
  n_id n = k ∧ n_value n = sum_value metric (through k paths_)
  ∧ n_metrics n = sum_metrics (through k paths_)
  ∧ ∃ t, k = kind_name (n_kind n) ++ 58%N :: t.
Proof.
  intros Hin. apply accum_lookup in Hin. set (es := filter _ _) in Hin.
  assert (n_id n = k) as Hid.
  { eapply (acc_entry_ind node_init (node_upd metric) (λ n, n_id n = k)); [|done|exact Hin].
    apply Forall_forall. intros e He. by apply list_elem_of_filter in He as [He _]. }
  split; [done|]. split_and!.
  - rewrite (acc_entry_sum node_init (node_upd metric) n_value num_add num_0
      (λ e, metricValue (ne_metrics e) metric) es n) by done.
    unfold sum_value, es. by rewrite (node_events_through _ _ _ (λ m, metricValue m metric)) by apply paths_NoDup.
  - rewrite (acc_entry_sum node_init (node_upd metric) n_metrics add_metrics no_metrics ne_metrics es n) by done.
    unfold sum_metrics, es. f_equal. apply (node_events_through _ _ _ id), paths_NoDup.
  - rewrite <- Hid.
    eapply (acc_entry_ind node_init (node_upd metric)
              (λ n, ∃ t, n_id n = kind_name (n_kind n) ++ 58%N :: t)); [|done|exact Hin].
    apply Forall_forall. intros e He. apply list_elem_of_filter in He as [_ He].
    apply list_elem_of_bind in He as (p & He & Hp).
    destruct (head (prep_path p)) as [root|]; [|by apply elem_of_nil in He].
    apply list_elem_of_fmap in He as (pn & -> & Hpn). cbn [node_init ne_node n_id n_kind].
    pose proof paths_ok as Hok. rewrite Forall_forall in Hok. destruct (Hok p Hp) as [_ Ht].
    rewrite Forall_forall in Ht. by apply Ht.
Qed.

Lemma node_map_keys k : k ∈ node_map.*1 ↔ ∃ p, p ∈ paths_ ∧ k ∈ ids p.
Proof.
  unfold node_map. rewrite accum_keys. split.
  - intros [H|(e & -> & He)%list_elem_of_fmap]; [by apply elem_of_nil in H|].
    apply list_elem_of_bind in He as (p & He & Hp). exists p. split; [done|].
    destruct (head (prep_path p)) as [root|]; [|by apply elem_of_nil in He].
    apply list_elem_of_fmap in He as (pn & -> & Hpn). apply list_elem_of_fmap. by exists pn.
  - intros (p & Hp & Hk). right. apply list_elem_of_fmap in Hk as (pn & -> & Hpn).
    destruct (paths_root p Hp) as [root Hr].
    apply list_elem_of_fmap. exists (mkNodeEvent pn (prep_metrics p) (color_ root) (pn_id root)). split; [done|].
    apply list_elem_of_bind. exists p. split; [|done]. rewrite Hr. apply list_elem_of_fmap. by exists pn.
Qed.

Lemma node_map_ids : n_id <$> node_map.*2 = node_map.*1.
Proof.
  rewrite <- list_fmap_compose. apply Forall_fmap_ext. apply Forall_forall. intros [k n] Hin.
  by destruct (node_map_entry k n Hin).
Qed.

Lemma graph_ids : n_id <$> g_nodes graph_ ≡ₚ node_map.*1.
Proof.
  destruct graph_cores as [Hn _]. rewrite <- node_map_ids.
  apply (fmap_Permutation (λ c : jstr * FlowNodeKind * num * FlowMetrics, c.1.1.1)) in Hn.
  rewrite <- !(list_fmap_compose node_core) in Hn. exact Hn.
Qed.

Lemma graph_node n :
  n ∈ g_nodes graph_ → ∃ n', (n_id n, n') ∈ node_map ∧ node_core n = node_core n'.
Proof.
  intros Hin. destruct graph_cores as [Hn _].
  assert (node_core n ∈ node_core <$> node_map.*2) as Hc
    by (rewrite <- Hn; apply list_elem_of_fmap; by exists n).
  apply list_elem_of_fmap in Hc as (n' & Ec & Hn'). exists n'. split; [|done].
  apply list_elem_of_fmap in Hn' as ([k x] & -> & Hx). cbn in *.
  destruct (node_map_entry k x Hx) as [Hid _]. injection Ec as -> _ _ _. by rewrite Hid.
Qed.

(** The nodes of the graph *)
Lemma graph_node_totals :
  NoDup (n_id <$> g_nodes graph_)
  ∧ (∀ id, id ∈ n_id <$> g_nodes graph_ ↔ ∃ p, p ∈ paths_ ∧ id ∈ ids p)
  ∧ (∀ n, n ∈ g_nodes graph_ →
       n_value n = sum_value metric (through (n_id n) paths_)
       ∧ n_metrics n = sum_metrics (through (n_id n) paths_)).
Proof.
  split_and!.
  - rewrite graph_ids. apply accum_NoDup. constructor.
  - intros id. rewrite graph_ids. apply node_map_keys.
  - intros n Hn. destruct (graph_node n Hn) as (n' & Hin & Hc).
    destruct (node_map_entry _ _ Hin) as (_ & Hv & Hm & _). injection Hc as _ _ -> ->. done.
Qed.

(** ** The graph as a whole *)

(** A node of the graph is a node of a path, of the same kind. *)
Lemma node_on_path n :
  n ∈ g_nodes graph_ →
  ∃ p pn, p ∈ paths_ ∧ pn ∈ prep_path p ∧ pn_id pn = n_id n ∧ pn_kind pn = n_kind n.
Proof.
  intros Hn. destruct graph_node_totals as (_ & Hids & _).
  destruct (proj1 (Hids (n_id n))) as (p & Hp & Hid); [apply list_elem_of_fmap; by exists n|].
  apply list_elem_of_fmap in Hid as (pn & Hid & Hpn). exists p, pn. split_and!; [done..|].
  destruct (graph_node n Hn) as (n' & Hin & Hc). injection Hc as _ Hkind _ _.
  destruct (node_map_entry _ _ Hin) as (_ & _ & _ & t & Ht).
  pose proof paths_ok as Hok.
  rewrite Forall_forall in Hok. destruct (Hok p Hp) as [_ Hty]. rewrite Forall_forall in Hty.
  apply (typed_kind pn (mkPathNode (n_id n) [] (n_kind n))); [by apply Hty| |done].
  exists t. cbn. by rewrite Ht, Hkind.
Qed.

(** A node of a path is in the graph, with its kind. *)
Lemma path_in_graph p pn :
  p ∈ paths_ → pn ∈ prep_path p → ∃ n, n ∈ g_nodes graph_ ∧ n_id n = pn_id pn ∧ n_kind n = pn_kind pn.
Proof.
  intros Hp Hpn. destruct graph_node_totals as (_ & Hids & _).
  assert (pn_id pn ∈ n_id <$> g_nodes graph_) as Hid.
  { apply Hids. exists p. split; [done|]. apply list_elem_of_fmap. by exists pn. }
  apply list_elem_of_fmap in Hid as (n & Hid & Hn). exists n. split_and!; [done..|].
  destruct (node_on_path n Hn) as (q & qn & Hq & Hqn & Hqid & <-).
  pose proof paths_ok as Hok. rewrite Forall_forall in Hok.
  destruct (Hok p Hp) as [_ Hty], (Hok q Hq) as [_ Htq]. rewrite Forall_forall in Hty, Htq.
  apply typed_kind; [by apply Htq|by apply Hty|congruence].
Qed.

Lemma zip_tail_lookup {A} (l : list A) a b :
  (a, b) ∈ zip l (drop 1 l) → ∃ i, l !! i = Some a ∧ l !! S i = Some b.
Proof.
  intros Hin. apply list_elem_of_lookup in Hin as [i Hi].
  apply lookup_zip_with_Some in Hi as (x & y & [= <- <-] & Hx & Hy).
  exists i. split; [done|]. by rewrite lookup_drop in Hy.
Qed.

(** A link of the graph is a hop of a path. *)
Lemma graph_link l :
  l ∈ g_links graph_ →
  ∃ p a b, p ∈ paths_ ∧ (a, b) ∈ hops (prep_path p) ∧ l_source l = pn_id a ∧ l_target l = pn_id b.
Proof.
  intros Hin. destruct graph_cores as [_ Hl].
  assert (link_core l ∈ link_core <$> link_map.*2) as Hc
    by (rewrite <- Hl; apply list_elem_of_fmap; by exists l).
  apply list_elem_of_fmap in Hc as (l' & Ec & Hl'). injection Ec as -> -> _ _.
  apply list_elem_of_fmap in Hl' as ([k x] & -> & Hx). cbn [snd]. apply accum_lookup in Hx.
  eapply (acc_entry_ind link_init (link_upd metric) (λ l, ∃ p a b, p ∈ paths_ ∧ (a, b) ∈ hops (prep_path p)
    ∧ l_source l = pn_id a ∧ l_target l = pn_id b)); [|done|exact Hx].
  apply Forall_forall. intros e He. apply list_elem_of_filter in He as [_ He].
  apply list_elem_of_bind in He as (p & He & Hp).
  destruct (head (prep_path p)) as [root|]; [|by apply elem_of_nil in He].
  apply list_elem_of_fmap in He as ([a b] & -> & Hab). by exists p, a, b.
Qed.

Lemma graph_joins l :
  l ∈ g_links graph_ →
  ∃ i n1 n2, n1 ∈ g_nodes graph_ ∧ n2 ∈ g_nodes graph_ ∧ n_id n1 = l_source l ∧ n_id n2 = l_target l
    ∧ stages_ !! i = Some (n_kind n1) ∧ stages_ !! S i = Some (n_kind n2).
Proof.
  intros Hl. destruct (graph_link l Hl) as (p & a & b & Hp & Hab & -> & ->).
  apply zip_tail_lookup in Hab as (i & Ha & Hb).
  pose proof paths_ok as Hok. rewrite Forall_forall in Hok. destruct (Hok p Hp) as [Hk _].
  destruct (path_in_graph p a Hp (list_elem_of_lookup_2 _ _ _ Ha)) as (n1 & H1 & Hid1 & Hk1).
  destruct (path_in_graph p b Hp (list_elem_of_lookup_2 _ _ _ Hb)) as (n2 & H2 & Hid2 & Hk2).
  exists i, n1, n2. split_and!; [done..| |]; rewrite <- Hk, list_lookup_fmap, ?Ha, ?Hb, ?Hk1, ?Hk2; done.
Qed.
End build.

(** C36: the graph is well formed: every link joins two nodes of the graph that
    belong to consecutive visible stages, whatever was limited, masked or
    highlighted. *)
Theorem links_join_stages localeCompare earlier last_ rows metric role palette visible ctx options :
  let g := buildFlowGraph localeCompare earlier last_ rows metric role palette visible ctx options in
  let stages := resolveVisibleStages role visible in
  ∀ l, l ∈ g_links g →
    ∃ i n1 n2, n1 ∈ g_nodes g ∧ n2 ∈ g_nodes g ∧ n_id n1 = l_source l ∧ n_id n2 = l_target l
      ∧ stages !! i = Some (n_kind n1) ∧ stages !! S i = Some (n_kind n2).
Proof.
  cbv zeta. intros l Hl.
  exact (graph_joins localeCompare earlier last_ rows metric role palette visible ctx options l Hl).
Qed.

Lemma links_join_stages_witness :
  let g := buildFlowGraph unit_order [] (mkScheme None []) demo_rows MQuota RoleUser [] None None
             (demo_options None) in
  ∃ l, l ∈ g_links g ∧ ∃ i n1 n2, n1 ∈ g_nodes g ∧ n2 ∈ g_nodes g ∧ n_id n1 = l_source l
    ∧ n_id n2 = l_target l
    ∧ resolveVisibleStages RoleUser None !! i = Some (n_kind n1)
    ∧ resolveVisibleStages RoleUser None !! S i = Some (n_kind n2).
Proof.
  intros g. assert (∃ l, l ∈ g_links g) as [l Hl].
  { destruct (g_links g) as [|l ls] eqn:E; [vm_compute in E; discriminate E|]. exists l. left. }
  exists l. split; [exact Hl|]. exact (links_join_stages _ _ _ _ _ _ _ _ _ _ l Hl).
Defined.
