(* ===== verification/FlowConserve.v ===== *)
(** Conservation of flow: with integral amounts whose total is exact in doubles,
    what enters a node of the graph, what leaves it and what it shows agree. *)

From Stdlib Require Import ZArith NArith SpecFloat.
From S2P Require Import Prelude JsString JsNumber JsValue JsArray Flow FlowProps.

(** * Exact sums *)

Definition zsum (l : list Z) : Z := foldr Z.add 0%Z l.

Lemma zsum_app l k : zsum (l ++ k) = (zsum l + zsum k)%Z.
Proof. induction l as [|x l IH]; [done|]. cbn. fold (zsum (l ++ k)) (zsum l). lia. Qed.

#[global] Instance zsum_perm : Proper (Permutation ==> eq) zsum.
Proof. unfold zsum. induction 1; cbn [foldr]; lia. Qed.

Lemma zsum_nonneg l : Forall (λ z, 0 ≤ z)%Z l → (0 ≤ zsum l)%Z.
Proof. induction 1 as [|z l Hz Hl IH]; [done|]. cbn. fold (zsum l). lia. Qed.

Lemma zsum_sublist l k : l `sublist_of` k → Forall (λ z, 0 ≤ z)%Z k → (zsum l ≤ zsum k)%Z.
Proof.
  induction 1 as [|x l k Hs IH|x l k Hs IH]; [done|..]; intros [Hx Hk]%Forall_cons; cbn;
    fold (zsum l) (zsum k); specialize (IH Hk); lia.
Qed.

Lemma Forall_sublist {A} (P : A → Prop) l k : l `sublist_of` k → Forall P k → Forall P l.
Proof. induction 1; [done|..]; intros [? ?]%Forall_cons; auto. Qed.

Lemma sublist_fmap {A B} (f : A → B) l k : l `sublist_of` k → f <$> l `sublist_of` f <$> k.
Proof. induction 1; cbn [fmap list_fmap]; [done|by apply sublist_skip|by apply sublist_cons]. Qed.

Lemma filter_ext_in {A} (P Q : A → Prop) `{!∀ x, Decision (P x)} `{!∀ x, Decision (Q x)} (l : list A) :
  (∀ x, x ∈ l → P x ↔ Q x) → filter P l = filter Q l.
Proof.
  induction l as [|x l IH]; intros Hiff; [done|]. rewrite !filter_cons.
  destruct (Hiff x) as [H1 H2]; [set_solver|].
  repeat case_decide; try tauto; rewrite IH; set_solver.
Qed.

Lemma sublist_filter_impl {A} (P Q : A → Prop) `{!∀ x, Decision (P x)} `{!∀ x, Decision (Q x)} (l : list A) :
  (∀ x, P x → Q x) → filter P l `sublist_of` filter Q l.
Proof.
  intros Himpl. induction l as [|x l IH]; [done|]. rewrite !filter_cons.
  repeat case_decide; [by apply sublist_skip|naive_solver|by apply sublist_cons|done].
Qed.

Lemma elem_of_tail {A} (x : A) l : x ∈ drop 1 l → x ∈ l.
Proof. destruct l; [done|]. cbn. rewrite drop_0. set_solver. Qed.

(** A non-negative integral amount *)
Definition integral (n : num) : Prop := n = num_of_Z (the_Z n) ∧ (0 ≤ the_Z n)%Z.

Lemma sum_exact vs :
  Forall integral vs → (zsum (the_Z <$> vs) ≤ MAX_SAFE_INTEGER)%Z →
  foldl num_add num_0 vs = num_of_Z (zsum (the_Z <$> vs)).
Proof.
  intros Hvs Hmax. change num_0 with (num_of_Z 0).
  enough (∀ a, (0 ≤ a)%Z → (a + zsum (the_Z <$> vs) ≤ MAX_SAFE_INTEGER)%Z →
    foldl num_add (num_of_Z a) vs = num_of_Z (a + zsum (the_Z <$> vs))) as H by (apply H; lia).
  clear Hmax. induction Hvs as [|v vs [Hv Hpos] Hvs IH]; intros a Ha Hmax; cbn [foldl fmap list_fmap].
  { by rewrite Z.add_0_r. }
  cbn in Hmax. fold (zsum (the_Z <$> vs)) in Hmax.
  assert (0 ≤ zsum (the_Z <$> vs))%Z.
  { apply zsum_nonneg, Forall_fmap. eapply Forall_impl; [exact Hvs|]. by intros x [_ ?]. }
  change (zsum (the_Z v :: (the_Z <$> vs))) with (the_Z v + zsum (the_Z <$> vs))%Z.
  rewrite Hv at 1. rewrite num_add_of_Z by (unfold safe; lia). rewrite IH by lia. f_equal. lia.
Qed.

(** ** Sums by key *)

Lemma zsum_add {A} (f g : A → Z) (l : list A) :
  zsum ((λ a, f a + g a)%Z <$> l) = (zsum (f <$> l) + zsum (g <$> l))%Z.
Proof.
  induction l as [|a l IH]; [done|]. cbn [fmap list_fmap zsum foldr].
  fold (zsum ((λ a, f a + g a)%Z <$> l)) (zsum (f <$> l)) (zsum (g <$> l)). lia.
Qed.

Lemma zsum_indicator {K} `{EqDecision K} (k : K) (x : Z) (ks : list K) :
  NoDup ks → zsum ((λ k', if decide (k = k') then x else 0%Z) <$> ks) = if decide (k ∈ ks) then x else 0%Z.
Proof.
  induction 1 as [|k' ks Hk Hks IH]; [by rewrite decide_False by apply not_elem_of_nil|].
  cbn [fmap list_fmap zsum foldr]. fold (zsum ((λ k', if decide (k = k') then x else 0%Z) <$> ks)).
  rewrite IH. destruct (decide (k = k')) as [->|Hn].
  - rewrite decide_False by done. rewrite decide_True by set_solver. lia.
  - destruct (decide (k ∈ ks)); [rewrite decide_True by set_solver|rewrite decide_False by set_solver]; lia.
Qed.

Lemma zsum_group {E K} `{EqDecision K} (key : E → K) (c : E → Z) (P : K → Prop)
    `{!∀ k, Decision (P k)} (ks : list K) (es : list E) :
  NoDup ks → Forall (λ e, key e ∈ ks) es →
  zsum ((λ k, zsum (c <$> filter (λ e, key e = k) es)) <$> filter P ks)
  = zsum (c <$> filter (λ e, P (key e)) es).
Proof.
  intros Hks. induction 1 as [|e es He Hes IH].
  { induction (filter P ks) as [|k l IH]; [done|]. cbn. exact IH. }
  transitivity (zsum ((λ k, (if decide (key e = k) then c e else 0)
                            + zsum (c <$> filter (λ e, key e = k) es))%Z <$> filter P ks)).
  { f_equal. apply list_fmap_ext. intros i k _. rewrite filter_cons. by case_decide. }
  rewrite zsum_add, IH, zsum_indicator by (by apply NoDup_filter).
  rewrite filter_cons. destruct (decide (P (key e))) as [HP|HP].
  - rewrite decide_True by (by apply list_elem_of_filter). done.
  - rewrite decide_False by (intros [? _]%list_elem_of_filter; done). done.
Qed.

(** ** The ends of a key *)

Definition key_source (k : jstr) : jstr := take (default 0 (indexOf k [0%N])) k.
Definition key_target (k : jstr) : jstr := drop (S (default 0 (indexOf k [0%N]))) k.

Lemma indexOf_joined a b : (0%N ∉ a) → indexOf (joined a b) [0%N] = Some (length a).
Proof.
  unfold joined. induction a as [|c a IH]; intros Ha; [done|].
  cbn [app]. rewrite not_elem_of_cons in Ha. destruct Ha as [Hc Ha].
  change (indexOf (c :: a ++ 0%N :: b) [0%N]) with
    (if bool_decide ([0%N] `prefix_of` c :: a ++ 0%N :: b) then Some 0
     else S <$> indexOf (a ++ 0%N :: b) [0%N]).
  rewrite bool_decide_false, (IH Ha); [done|]. by intros [t [= ->]].
Qed.

Lemma key_ends a b : (0%N ∉ a) → key_source (joined a b) = a ∧ key_target (joined a b) = b.
Proof.
  intros Ha. unfold key_source, key_target. rewrite indexOf_joined by done. cbn [default from_option id].
  unfold joined. split; [by rewrite take_app_length|].
  replace (S (length a)) with (length a + 1) by lia. by rewrite <- drop_drop, drop_app_length.
Qed.

(** * Conservation *)

(** One end of a hop, an event, a link and a key *)
Record End_ := mkEnd {
  of_hop : FlowPathNode * FlowPathNode → FlowPathNode;
  of_link : DashboardFlowLink → jstr;
  of_key : jstr → jstr;
}.
Definition source_end : End_ := mkEnd fst l_source key_source.
Definition target_end : End_ := mkEnd snd l_target key_target.

Definition of_event (d : End_) (e : LinkEvent) : jstr := pn_id (of_hop d (le_source e, le_target e)).

(** What the links show at one of their ends *)
Definition flow_at (d : End_) (g : DashboardFlowGraph) (id : jstr) : num :=
  foldl num_add num_0 (l_value <$> filter (λ l, of_link d l = id) (g_links g)).

Section conserve.
Context (localeCompare : jstr → jstr → num) (earlier : list ChartScheme) (last_ : ChartScheme).
Context (rows : list FlowQuotaDataItem) (metric : FlowMetric) (role : FlowRole) (palette : list jstr).
Context (visible : option (list FlowNodeKind)) (ctx : FlowPathContext) (options : FlowGraphOptions).

Abbreviation stages := (stages_ role visible).
Abbreviation paths := (paths_ localeCompare rows metric role visible ctx options).
Abbreviation graph := (graph_ localeCompare earlier last_ rows metric role palette visible ctx options).
Abbreviation links := (link_map localeCompare earlier last_ rows metric role palette visible ctx options).
Abbreviation events :=
  (link_events (color_ localeCompare earlier last_ rows metric role palette visible ctx options) paths).

Definition row_amount (row : FlowQuotaDataItem) : num := metricValue (rowMetrics row) metric.

(** Integral amounts with an exact total, and identifiers without null units *)
Context (Hint : Forall (λ row, integral (row_amount row)) rows).
Context (Hmax : (zsum ((λ row, the_Z (row_amount row)) <$> rows) ≤ MAX_SAFE_INTEGER)%Z).
Context (Hnul : ∀ row k, row ∈ rows → 0%N ∉ pn_id (NODE_BUILDERS k row ctx)).

Definition amount (p : PreparedFlowPath) : num := metricValue (prep_metrics p) metric.

Lemma paths_amounts : amount <$> paths `sublist_of` row_amount <$> rows.
Proof.
  unfold paths_, prepare_paths. generalize (buildTopNodeSets localeCompare rows metric stages
    (normalizeTopNodeLimit (topNodeLimit options)) ctx). intros sets. clear.
  induction rows as [|row rows' IH]; [done|]. cbn [base.omap list_omap fmap list_fmap].
  destruct (applyTopNodeLimit _ _ _ _) as [path|]; [apply sublist_skip, IH|apply sublist_cons, IH].
Qed.

Lemma amounts_integral : Forall integral (amount <$> paths).
Proof. eapply Forall_sublist; [apply paths_amounts|]. by apply Forall_fmap. Qed.

Lemma amounts_max : (zsum ((λ p, the_Z (amount p)) <$> paths) ≤ MAX_SAFE_INTEGER)%Z.
Proof.
  etrans; [|exact Hmax].
  rewrite (list_fmap_compose amount the_Z), (list_fmap_compose row_amount the_Z).
  apply zsum_sublist; [apply sublist_fmap, paths_amounts|].
  rewrite <- list_fmap_compose. apply Forall_fmap. eapply Forall_impl; [exact Hint|]. by intros r [_ ?].
Qed.

Lemma sub_exact (ps : list PreparedFlowPath) :
  ps `sublist_of` paths → sum_value metric ps = num_of_Z (zsum ((λ p, the_Z (amount p)) <$> ps)).
Proof.
  intros Hs. unfold sum_value. fold amount. rewrite sum_exact.
  - by rewrite <- list_fmap_compose.
  - eapply Forall_sublist; [apply sublist_fmap, Hs|apply amounts_integral].
  - rewrite <- list_fmap_compose. etrans; [|apply amounts_max].
    apply zsum_sublist; [by apply sublist_fmap|]. apply Forall_fmap.
    pose proof amounts_integral as H. rewrite Forall_fmap in H. eapply Forall_impl; [exact H|]. by intros p [_ ?].
Qed.

Lemma path_nul p n : p ∈ paths → n ∈ prep_path p → 0%N ∉ pn_id n.
Proof.
  intros Hp Hn. unfold paths_, prepare_paths in Hp.
  apply list_elem_of_omap in Hp as (row & Hrow & Hp).
  destruct (applyTopNodeLimit _ _ _ _) as [path|] eqn:E; [|done]. injection Hp as <-. cbn [prep_path] in Hn.
  assert (∀ m, m ∈ flowPathForStages row stages ctx → 0%N ∉ pn_id m) as Hrowok.
  { intros m Hm. apply list_elem_of_fmap in Hm as (k & -> & _). by apply Hnul. }
  unfold applyTopNodeLimit in E. destruct (buildTopNodeSets _ _ _ _ _ _) as [sets|];
    [|injection E as <-; by apply Hrowok].
  destruct (negb _); [injection E as <-; by apply Hrowok|]. destruct (default _ _); [|done].
  injection E as <-. apply list_elem_of_fmap in Hn as (m & -> & Hm). case_match; [by apply Hrowok|].
  destruct (pn_kind m); apply (bool_decide_unpack _); by vm_compute.
Qed.

Lemma event_ends e : e ∈ events → 
  (∃ p, p ∈ paths ∧ le_source e ∈ prep_path p ∧ le_target e ∈ prep_path p)
  ∧ key_source (link_key e) = pn_id (le_source e) ∧ key_target (link_key e) = pn_id (le_target e).
Proof.
  intros He. apply list_elem_of_bind in He as (p & He & Hp).
  destruct (head (prep_path p)) as [root|]; [|by apply elem_of_nil in He].
  apply list_elem_of_fmap in He as ([a b] & -> & Hab). cbn [le_source le_target link_key].
  unfold hops in Hab. apply elem_of_zip_l in Hab as Ha. apply elem_of_zip_r in Hab.
  apply elem_of_tail in Hab.
  split; [by exists p|]. apply key_ends. by eapply path_nul.
Qed.

Lemma link_entry k l :
  (k, l) ∈ links →
  l_source l = key_source k ∧ l_target l = key_target k
  ∧ l_value l
    = foldl num_add num_0 ((λ e, metricValue (le_metrics e) metric) <$> filter (λ e, link_key e = k) events).
Proof.
  intros Hin. apply accum_lookup in Hin. set (es := filter _ _) in Hin.
  assert (∀ e, e ∈ es → e ∈ events ∧ link_key e = k) as Hes.
  { intros e He. apply list_elem_of_filter in He. naive_solver. }
  assert (l_source l = key_source k ∧ l_target l = key_target k) as [H1 H2].
  { eapply (acc_entry_ind link_init (link_upd metric)
              (λ l, l_source l = key_source k ∧ l_target l = key_target k)); [|done|exact Hin].
    apply Forall_forall. intros e He. destruct (Hes e He) as [Hev <-].
    destruct (event_ends e Hev) as (_ & -> & ->). done. }
  split_and!; [done|done|].
  by rewrite (acc_entry_sum link_init (link_upd metric) l_value num_add num_0
    (λ e, metricValue (le_metrics e) metric) es l).
Qed.

Lemma link_keys e : e ∈ events → link_key e ∈ links.*1.
Proof. intros He. unfold link_map. rewrite accum_keys. right. apply list_elem_of_fmap. by exists e. Qed.

Lemma links_NoDup : NoDup links.*1.
Proof. apply accum_NoDup. constructor. Qed.

Section side.
Context (d : End_) (Hd : d = source_end ∨ d = target_end).

Definition event_amount (e : LinkEvent) : Z := the_Z (metricValue (le_metrics e) metric).
Definition end_ids (p : PreparedFlowPath) : list jstr := (λ h, pn_id (of_hop d h)) <$> hops (prep_path p).

Lemma end_ids_sublist p : end_ids p `sublist_of` ids p.
Proof.
  unfold end_ids, ids, hops. destruct Hd as [-> | ->]; cbn [of_hop source_end target_end].
  - change (λ h, pn_id h.1) with (pn_id ∘ (fst : FlowPathNode * FlowPathNode → _)).
    rewrite (list_fmap_compose fst pn_id). apply sublist_fmap.
    generalize (prep_path p) as l, (drop 1 (prep_path p)) as k. induction l as [|a l IH]; intros k; [done|].
    destruct k as [|b k]; [apply sublist_nil_l|]. cbn. apply sublist_skip, IH.
  - change (λ h, pn_id h.2) with (pn_id ∘ (snd : FlowPathNode * FlowPathNode → _)).
    rewrite (list_fmap_compose snd pn_id). apply sublist_fmap.
    trans (drop 1 (prep_path p)); [|apply sublist_drop].
    generalize (prep_path p) as l, (drop 1 (prep_path p)) as k. induction l as [|a l IH]; intros k;
      [apply sublist_nil_l|]. destruct k as [|b k]; [done|]. cbn. apply sublist_skip, IH.
Qed.

Lemma key_end e : e ∈ events → of_key d (link_key e) = of_event d e.
Proof. intros He. destruct (event_ends e He) as (_ & H1 & H2). by destruct Hd as [-> | ->]. Qed.

(** The events at one end are the paths with that end, once each. *)
Lemma events_at id :
  zsum (event_amount <$> filter (λ e, of_event d e = id) events)
  = zsum ((λ p, the_Z (amount p)) <$> filter (λ p, id ∈ end_ids p) paths).
Proof.
  pose proof (paths_NoDup localeCompare rows metric role visible ctx options) as Hnd.
  generalize (color_ localeCompare earlier last_ rows metric role palette visible ctx options) as color.
  intros color. induction Hnd as [|p ps Hp Hps IH]; [done|].
  change (link_events color (p :: ps)) with
    (match head (prep_path p) with None => [] | Some root =>
       (λ '(a, b), mkLinkEvent a b (prep_metrics p) (color root) (pn_id root)) <$> hops (prep_path p) end
     ++ link_events color ps).
  rewrite filter_app, fmap_app, zsum_app, IH, filter_cons.
  destruct (prep_path p) as [|root path] eqn:Ep.
  { rewrite decide_False; [done|]. unfold end_ids. rewrite Ep. apply not_elem_of_nil. }
  cbn [head]. rewrite <- Ep.
  rewrite (filter_fmap_key _ (of_event d) (λ h, pn_id (of_hop d h))) by (by intros [a b]).
  assert (NoDup (end_ids p)) as Hend by (eapply sublist_NoDup; [exact Hp|apply end_ids_sublist]).
  destruct (filter_NoDup_singleton _ _ id Hend) as [(h & Hin & Hh & ->)|[Hn ->]].
  - rewrite decide_True by (apply list_elem_of_fmap; by exists h).
    destruct h as [a b]. cbn. unfold event_amount, amount, zsum. cbn [le_metrics]. lia.
  - by rewrite decide_False.
Qed.

Lemma events_end_filter id :
  filter (λ e, of_key d (link_key e) = id) events = filter (λ e, of_event d e = id) events.
Proof.
  apply filter_ext_in. intros e He. by rewrite key_end.
Qed.

(** The amount under one key *)
Definition key_amount (k : jstr) : Z := zsum (event_amount <$> filter (λ e, link_key e = k) events).

Lemma event_integral e : e ∈ events → integral (metricValue (le_metrics e) metric).
Proof.
  intros He. apply list_elem_of_bind in He as (p & He & Hp).
  destruct (head (prep_path p)) as [root|]; [|by apply elem_of_nil in He].
  apply list_elem_of_fmap in He as ([a b] & -> & _). cbn [le_metrics].
  pose proof amounts_integral as H. rewrite Forall_fmap, Forall_forall in H. exact (H p Hp).
Qed.

Lemma events_nonneg (P : LinkEvent → Prop) `{!∀ e, Decision (P e)} :
  Forall (λ z, 0 ≤ z)%Z (event_amount <$> filter P events).
Proof.
  apply Forall_fmap, Forall_forall. intros e He. apply list_elem_of_filter in He as [_ He].
  by destruct (event_integral e He).
Qed.

Lemma at_end_max id :
  (zsum (event_amount <$> filter (λ e, of_key d (link_key e) = id) events) ≤ MAX_SAFE_INTEGER)%Z.
Proof.
  rewrite events_end_filter, events_at. etrans; [|apply amounts_max].
  apply zsum_sublist; [apply sublist_fmap, sublist_filter|].
  pose proof amounts_integral as H. rewrite Forall_fmap in H. apply Forall_fmap.
  eapply Forall_impl; [exact H|]. by intros p [_ ?].
Qed.

Lemma key_amount_max k : (0 ≤ key_amount k ≤ MAX_SAFE_INTEGER)%Z.
Proof.
  split; [apply zsum_nonneg, events_nonneg|]. etrans; [|apply (at_end_max (of_key d k))].
  apply zsum_sublist; [|apply events_nonneg]. apply sublist_fmap, sublist_filter_impl.
  by intros e ->.
Qed.

Lemma link_exact k l : (k, l) ∈ links → l_value l = num_of_Z (key_amount k).
Proof.
  intros Hin. destruct (link_entry k l Hin) as (_ & _ & ->). unfold key_amount, event_amount.
  rewrite sum_exact.
  - by rewrite <- list_fmap_compose.
  - apply Forall_fmap, Forall_forall. intros e [_ He]%list_elem_of_filter. by apply event_integral.
  - rewrite <- list_fmap_compose. apply (key_amount_max k).
Qed.

Lemma link_end k l : (k, l) ∈ links → of_link d l = of_key d k.
Proof. intros Hin. destruct (link_entry k l Hin) as (H1 & H2 & _). by destruct Hd as [-> | ->]. Qed.

Lemma values_by_key id :
  l_value <$> filter (λ l, of_link d l = id) links.*2
  = (λ k, num_of_Z (key_amount k)) <$> filter (λ k, of_key d k = id) links.*1.
Proof.
  assert (Forall (λ kl, of_link d kl.2 = of_key d kl.1 ∧ l_value kl.2 = num_of_Z (key_amount kl.1)) links)
    as H by (apply Forall_forall; intros [k l] Hin; split; [by apply link_end|by apply link_exact]).
  induction H as [|[k l] kls [H1 H2] Hs IH]; [done|]. cbn [fmap list_fmap fst snd] in *.
  rewrite !filter_cons, H1. case_decide; [|exact IH]. cbn [fmap list_fmap]. rewrite H2. f_equal. exact IH.
Qed.

Lemma graph_values id :
  l_value <$> filter (λ l, of_link d l = id) (g_links graph)
  ≡ₚ l_value <$> filter (λ l, of_link d l = id) links.*2.
Proof.
  destruct (graph_cores localeCompare earlier last_ rows metric role palette visible ctx options) as [_ Hl].
  set (oc := λ c : jstr * jstr * num * FlowMetrics, of_link d (mkFlowLink c.1.1.1 c.1.1.2 num_0 no_metrics
    [] [] [] [] num_0 [] [] num_0 None None)).
  assert (∀ ls : list DashboardFlowLink, l_value <$> filter (λ l, of_link d l = id) ls
                = (λ c : jstr * jstr * num * FlowMetrics, c.1.2) <$> filter (λ c, oc c = id) (link_core <$> ls)) as E.
  { intros ls. rewrite (filter_fmap_key link_core oc (of_link d)); [by rewrite <- list_fmap_compose|].
    intros l. unfold oc. by destruct Hd as [-> | ->]. }
  rewrite !E. by rewrite Hl.
Qed.

Lemma flow_exact id :
  flow_at d graph id
  = num_of_Z (zsum ((λ p, the_Z (amount p)) <$> filter (λ p, id ∈ end_ids p) paths)).
Proof.
  unfold flow_at.
  assert (zsum (the_Z <$> (l_value <$> filter (λ l, of_link d l = id) (g_links graph)))
          = zsum ((λ p, the_Z (amount p)) <$> filter (λ p, id ∈ end_ids p) paths)) as Hsum.
  { rewrite graph_values, values_by_key, <- events_at, <- events_end_filter.
    etrans; [|refine (zsum_group link_key event_amount (λ k, of_key d k = id) links.*1 events _ _)].
    - rewrite <- list_fmap_compose. f_equal. apply list_fmap_ext. intros i k _.
      change (the_Z (num_of_Z (key_amount k)) = key_amount k). apply the_Z_of_Z. pose proof (key_amount_max k). unfold safe. lia.
    - apply links_NoDup.
    - apply Forall_forall. intros e. apply link_keys. }
  rewrite sum_exact; [by rewrite Hsum| |].
  - rewrite graph_values, values_by_key. apply Forall_fmap, Forall_true. intros k.
    pose proof (key_amount_max k). change (integral (num_of_Z (key_amount k))). unfold integral.
    rewrite the_Z_of_Z by (unfold safe; lia). split; [done|lia].
  - rewrite Hsum, <- events_at, <- events_end_filter. apply at_end_max.
Qed.
End side.
End conserve.

(** * Ends of a path *)

Lemma zip_tail_snd {A} (l : list A) : (zip l (drop 1 l)).*2 = drop 1 l.
Proof.
  destruct l as [|a l]; [done|]. cbn. rewrite drop_0. revert a.
  induction l as [|b l IH]; intros a; [done|]. cbn. f_equal. exact (IH b).
Qed.

Lemma zip_tail_fst {A} (l : list A) x : last l = Some x → (zip l (drop 1 l)).*1 ++ [x] = l.
Proof.
  destruct l as [|a l]; [done|]. cbn [drop]. rewrite drop_0. revert a.
  induction l as [|b l IH]; intros a; [by intros [= ->]|]. intros Hl. cbn. f_equal. exact (IH b Hl).
Qed.

Lemma target_ids p root :
  head (prep_path p) = Some root → ids p = pn_id root :: end_ids target_end p.
Proof.
  intros Hr. unfold ids, end_ids. cbn [of_hop target_end].
  change (λ h, pn_id h.2) with (pn_id ∘ (snd : FlowPathNode * FlowPathNode → _)).
  rewrite list_fmap_compose. unfold hops. rewrite zip_tail_snd.
  destruct (prep_path p); [done|]. injection Hr as ->. cbn. by rewrite drop_0.
Qed.

Lemma source_ids p leaf :
  last (prep_path p) = Some leaf → ids p = end_ids source_end p ++ [pn_id leaf].
Proof.
  intros Hl. unfold ids, end_ids. cbn [of_hop source_end].
  change (λ h, pn_id h.1) with (pn_id ∘ (fst : FlowPathNode * FlowPathNode → _)).
  rewrite list_fmap_compose. unfold hops. rewrite <- (zip_tail_fst _ _ Hl) at 1. by rewrite fmap_app.
Qed.

Section theorem.
Context (localeCompare : jstr → jstr → num) (earlier : list ChartScheme) (last_ : ChartScheme).
Context (rows : list FlowQuotaDataItem) (metric : FlowMetric) (role : FlowRole) (palette : list jstr).
Context (visible : option (list FlowNodeKind)) (ctx : FlowPathContext) (options : FlowGraphOptions).

Abbreviation stages := (stages_ role visible).
Abbreviation paths := (paths_ localeCompare rows metric role visible ctx options).
Abbreviation graph := (graph_ localeCompare earlier last_ rows metric role palette visible ctx options).

Context (Hint : Forall (λ row, integral (row_amount metric row)) rows).
Context (Hmax : (zsum ((λ row, the_Z (row_amount metric row)) <$> rows) ≤ MAX_SAFE_INTEGER)%Z).
Context (Hnul : ∀ row k, row ∈ rows → 0%N ∉ pn_id (NODE_BUILDERS k row ctx)).

(** A node of another kind has another identifier. *)
Lemma kind_apart p pn n :
  p ∈ paths → pn ∈ prep_path p → n ∈ g_nodes graph → pn_kind pn ≠ n_kind n → n_id n ≠ pn_id pn.
Proof.
  intros Hp Hpn Hn Hk E. apply Hk.
  destruct (node_on_path _ _ _ _ _ _ _ _ _ _ n Hn) as (q & qn & Hq & Hqn & Hqid & <-).
  pose proof (paths_ok localeCompare rows metric role visible ctx options) as Hok.
  rewrite Forall_forall in Hok. destruct (Hok p Hp) as [_ Hty], (Hok q Hq) as [_ Htq].
  rewrite Forall_forall in Hty, Htq. apply typed_kind; [by apply Hty|by apply Htq|congruence].
Qed.

Lemma flow_is_value d n :
  d = source_end ∨ d = target_end → n ∈ g_nodes graph →
  (∀ p, p ∈ paths → n_id n ∈ end_ids d p ↔ n_id n ∈ ids p) →
  flow_at d graph (n_id n) = n_value n.
Proof.
  intros Hd Hn Hends.
  destruct (graph_node_totals localeCompare earlier last_ rows metric role palette visible ctx options)
    as (_ & _ & Hv). destruct (Hv n Hn) as [-> _].
  rewrite (flow_exact localeCompare earlier last_ rows metric role palette visible ctx options Hint Hmax Hnul d Hd).
  rewrite (sub_exact localeCompare rows metric role visible ctx options Hint Hmax)
    by (apply sublist_filter).
  do 2 f_equal. unfold through. f_equal. by apply filter_ext_in.
Qed.

Lemma conserved n :
  n ∈ g_nodes graph →
  (head stages ≠ Some (n_kind n) → flow_at target_end graph (n_id n) = n_value n)
  ∧ (last stages ≠ Some (n_kind n) → flow_at source_end graph (n_id n) = n_value n).
Proof.
  intros Hn. pose proof (paths_ok localeCompare rows metric role visible ctx options) as Hok.
  rewrite Forall_forall in Hok.
  split; intros Hk; apply flow_is_value; auto; intros p Hp; destruct (Hok p Hp) as [Hkinds _].
  - destruct (paths_root _ _ _ _ _ _ _ p Hp) as [root Hr].
    rewrite (target_ids p root Hr), elem_of_cons.
    assert (n_id n ≠ pn_id root); [|tauto]. eapply kind_apart; [exact Hp| |exact Hn|].
    + by apply head_Some_elem_of.
    + intros E. apply Hk. rewrite <- Hkinds, <- E.
      destruct (prep_path p); [done|]. by injection Hr as ->.
  - destruct (last (prep_path p)) as [leaf|] eqn:Hl.
    2:{ apply last_None in Hl. destruct (paths_root _ _ _ _ _ _ _ p Hp) as [root Hr]. by rewrite Hl in Hr. }
    rewrite (source_ids p leaf Hl), elem_of_app, list_elem_of_singleton.
    assert (n_id n ≠ pn_id leaf); [|tauto]. eapply kind_apart; [exact Hp| |exact Hn|].
    + by apply last_Some_elem_of.
    + intros E. apply Hk. rewrite <- Hkinds, <- E. by rewrite fmap_last, Hl.
Qed.
End theorem.

(** every node of the graph shows the sum, in the order of the rows, of what
    the rows through it carry, and the nodes are those the rows pass through,
    each once. *)
Theorem node_totals localeCompare earlier last_ rows metric role palette visible ctx options :
  let g := buildFlowGraph localeCompare earlier last_ rows metric role palette visible ctx options in
  let paths := prepare_paths localeCompare rows metric (resolveVisibleStages role visible) ctx options in
  NoDup (n_id <$> g_nodes g)
  ∧ (∀ id, id ∈ n_id <$> g_nodes g ↔ ∃ p, p ∈ paths ∧ id ∈ pn_id <$> prep_path p)
  ∧ ∀ n, n ∈ g_nodes g →
      let passing := filter (λ p, n_id n ∈ pn_id <$> prep_path p) paths in
      n_value n = foldl num_add num_0 ((λ p, metricValue (prep_metrics p) metric) <$> passing)
      ∧ n_metrics n = foldl add_metrics no_metrics (prep_metrics <$> passing).
Proof. exact (graph_node_totals localeCompare earlier last_ rows metric role palette visible ctx options). Qed.

(** C34: with integral amounts whose total is exact in a double, flow is conserved:
    what the links carry into a node after the first stage, and what they carry
    out of a node before the last stage, is the value the node shows. *)
Theorem flow_conserved localeCompare earlier last_ rows metric role palette visible ctx options :
  Forall (λ row, integral (metricValue (rowMetrics row) metric)) rows →
  (zsum ((λ row, the_Z (metricValue (rowMetrics row) metric)) <$> rows) ≤ MAX_SAFE_INTEGER)%Z →
  (∀ row k, row ∈ rows → 0%N ∉ pn_id (NODE_BUILDERS k row ctx)) →
  let g := buildFlowGraph localeCompare earlier last_ rows metric role palette visible ctx options in
  let stages := resolveVisibleStages role visible in
  ∀ n, n ∈ g_nodes g →
    (head stages ≠ Some (n_kind n) → flow_at target_end g (n_id n) = n_value n)
    ∧ (last stages ≠ Some (n_kind n) → flow_at source_end g (n_id n) = n_value n).
Proof. intros Hint Hmax Hnul. cbv zeta. intros n Hn. by apply conserved. Qed.

Lemma flow_conserved_witness :
  let g := buildFlowGraph unit_order [] (mkScheme None []) demo_rows MQuota RoleUser [] None None
             (demo_options (Some (num_of_Z 1))) in
  g_links g ≠ [] ∧
  (∀ n, n ∈ g_nodes g →
    (head (resolveVisibleStages RoleUser None) ≠ Some (n_kind n) →
       flow_at target_end g (n_id n) = n_value n)
    ∧ (last (resolveVisibleStages RoleUser None) ≠ Some (n_kind n) →
         flow_at source_end g (n_id n) = n_value n)).
Proof.
  split; [vm_compute; discriminate|]. apply flow_conserved.
  - repeat (apply Forall_cons; split; [split; vm_compute; [reflexivity|discriminate]|]). constructor.
  - vm_compute. discriminate.
  - intros row k Hrow. unfold demo_rows in Hrow.
    repeat (apply elem_of_cons in Hrow as [->|Hrow];
      [destruct k; apply (bool_decide_unpack _); vm_compute; exact I|]).
    destruct (proj1 (elem_of_nil row) Hrow).
Defined.
