(* ===== verification/FlowSelect.v ===== *)
(** Which rows a selection keeps, and how many nodes a limit leaves. *)

From Stdlib Require Import ZArith NArith SpecFloat.
From S2P Require Import Prelude JsString JsNumber JsValue JsArray Flow FlowProps.

(** * Selection *)

(** Adding identifiers under their kinds *)
Definition add_all (sets : KindSets) (es : list (FlowNodeKind * jstr)) : KindSets :=
  foldl (λ m '(k, id), add_to m k id) sets es.

Lemma add_to_get sets k id k' :
  omap.get (add_to sets k id) k'
  = if decide (k = k') then Some (set_add (default [] (omap.get sets k)) id) else omap.get sets k'.
Proof.
  unfold add_to. case_decide; [subst; apply omap.get_set_eq|by apply omap.get_set_ne].
Qed.

Lemma add_all_elem es sets k id :
  id ∈ default [] (omap.get (add_all sets es) k) ↔ id ∈ default [] (omap.get sets k) ∨ (k, id) ∈ es.
Proof.
  revert sets. induction es as [|[k' id'] es IH]; intros sets; cbn [add_all foldl]; [set_solver|].
  fold (add_all (add_to sets k' id') es). rewrite IH, add_to_get, elem_of_cons.
  case_decide as E; [|naive_solver]. subst k'. cbn. rewrite elem_of_set_add.
  naive_solver.
Qed.

Lemma add_all_Some es sets k :
  is_Some (omap.get (add_all sets es) k) ↔ is_Some (omap.get sets k) ∨ k ∈ es.*1.
Proof.
  revert sets. induction es as [|[k' id'] es IH]; intros sets; cbn [add_all foldl]; [set_solver|].
  fold (add_all (add_to sets k' id') es). rewrite IH, add_to_get. cbn. rewrite elem_of_cons.
  case_decide; subst; naive_solver.
Qed.

Lemma add_all_NoDup es sets : NoDup sets.*1 → NoDup (add_all sets es).*1.
Proof.
  revert sets. induction es as [|[k id] es IH]; intros sets Hs; [done|]. apply IH. by apply omap.NoDup_set.
Qed.

(** The selections of the visible stages *)
Definition visible_filters (sel : list FlowNodeFilter) (stages : list FlowNodeKind) :
    list (FlowNodeKind * jstr) :=
  (λ f, (nf_kind f, nf_id f)) <$> filter (λ f, nf_kind f ∈ stages) sel.

Lemma normalize_filters sel stages :
  normalizeSelectedNodeFilters sel stages = add_all [] (visible_filters sel stages).
Proof.
  unfold normalizeSelectedNodeFilters, add_all, visible_filters. generalize ([] : KindSets).
  induction sel as [|f sel IH]; intros m; [done|]. cbn [foldl]. rewrite IH, filter_cons. by case_decide.
Qed.

(** At every stage where something is selected, the row's node is selected. *)
Definition selected_row (sel : list FlowNodeFilter) (stages : list FlowNodeKind) (ctx : FlowPathContext)
    (row : FlowQuotaDataItem) : Prop :=
  Forall (λ k, Exists (λ f, nf_kind f = k) sel →
               Exists (λ f, nf_kind f = k ∧ nf_id f = pn_id (NODE_BUILDERS k row ctx)) sel) stages.

#[global] Instance selected_row_dec sel stages ctx row : Decision (selected_row sel stages ctx row).
Proof. apply _. Defined.

Lemma path_by_kind row stages ctx k id :
  NoDup stages → k ∈ stages →
  (id ∈ default [] (omap.get (foldl (λ m n, add_to m (pn_kind n) (pn_id n)) []
                               (flowPathForStages row stages ctx)) k)
   ↔ id = pn_id (NODE_BUILDERS k row ctx))
  ∧ is_Some (omap.get (foldl (λ m n, add_to m (pn_kind n) (pn_id n)) []
                         (flowPathForStages row stages ctx)) k).
Proof.
  intros Hnd Hk.
  assert (foldl (λ m n, add_to m (pn_kind n) (pn_id n)) [] (flowPathForStages row stages ctx)
          = add_all [] ((λ k, (k, pn_id (NODE_BUILDERS k row ctx))) <$> stages)) as ->.
  { unfold flowPathForStages, add_all. generalize ([] : KindSets). clear.
    induction stages as [|k ks IH]; intros m; [done|]. cbn [fmap list_fmap foldl].
    rewrite builder_kind. apply IH. }
  rewrite add_all_elem, add_all_Some. cbn.
  split.
  - rewrite list_elem_of_fmap. split; [|intros ->; right; by exists k].
    intros [H|(k' & [= -> ->] & _)]; [by apply elem_of_nil in H|done].
  - right. apply list_elem_of_fmap. exists (k, pn_id (NODE_BUILDERS k row ctx)). split; [done|].
    apply list_elem_of_fmap. by exists k.
Qed.

Lemma path_matches row sel stages ctx :
  NoDup stages →
  pathMatchesNodeFilters (flowPathForStages row stages ctx) (normalizeSelectedNodeFilters sel stages) = true
  ↔ selected_row sel stages ctx row.
Proof.
  intros Hnd. rewrite normalize_filters. unfold pathMatchesNodeFilters, selected_row.
  rewrite forallb_forall, Forall_forall. setoid_rewrite <- list_elem_of_In.
  assert (∀ k id, (k, id) ∈ visible_filters sel stages ↔ k ∈ stages ∧ ∃ f, f ∈ sel ∧ nf_kind f = k ∧ nf_id f = id) as Hv.
  { intros k id. unfold visible_filters. rewrite list_elem_of_fmap. setoid_rewrite list_elem_of_filter.
    naive_solver. }
  pose proof (add_all_NoDup (visible_filters sel stages) [] (NoDup_nil_2)) as HndF.
  split.
  - intros H k Hk Hex. rewrite Exists_exists in Hex. destruct Hex as (f & Hf & Hfk).
    destruct (omap.get (add_all [] (visible_filters sel stages)) k) as [ids|] eqn:E.
    2:{ assert (is_Some (omap.get (add_all [] (visible_filters sel stages)) k)) as [? ?]; [|congruence].
        apply add_all_Some. right. apply list_elem_of_fmap. exists (k, nf_id f). split; [done|].
        apply Hv. naive_solver. }
    specialize (H (k, ids) (omap.get_Some_elem _ _ _ E)). cbn in H.
    destruct (path_by_kind row stages ctx k (pn_id (NODE_BUILDERS k row ctx)) Hnd Hk) as [_ [pids Hp]].
    rewrite Hp in H. apply existsb_exists in H as (id & Hin & Hid). apply list_elem_of_In in Hin.
    apply bool_decide_eq_true in Hid.
    destruct (path_by_kind row stages ctx k id Hnd Hk) as [Hiff _]. rewrite Hp in Hiff. apply Hiff in Hid.
    assert (id ∈ default [] (omap.get (add_all [] (visible_filters sel stages)) k)) as Hsel by (by rewrite E).
    apply add_all_elem in Hsel as [Hsel|Hsel]; [by apply elem_of_nil in Hsel|].
    apply Hv in Hsel as (_ & g & Hg & Hgk & Hgid). apply Exists_exists. exists g. subst. done.
  - intros H [k ids] Hin. apply omap.elem_get in Hin; [|done].
    assert (k ∈ stages ∧ ∃ f, f ∈ sel ∧ nf_kind f = k) as [Hk Hf].
    { assert (is_Some (omap.get (add_all [] (visible_filters sel stages)) k)) as Hs by (by eexists).
      apply add_all_Some in Hs as [[? ?]|Hs]; [done|]. apply list_elem_of_fmap in Hs as ([k' id] & -> & Hs).
      apply Hv in Hs. naive_solver. }
    specialize (H k Hk ltac:(by apply Exists_exists)). apply Exists_exists in H as (g & Hg & Hgk & Hgid).
    destruct (path_by_kind row stages ctx k (nf_id g) Hnd Hk) as [Hiff [pids Hp]]. rewrite Hp in *.
    apply existsb_exists. exists (nf_id g). split; [|by apply bool_decide_eq_true, Hiff].
    apply list_elem_of_In. change (nf_id g ∈ default [] (Some ids)). rewrite <- Hin.
    apply add_all_elem. right. apply Hv. naive_solver.
Qed.

Lemma filter_by_nodes rows sel stages ctx :
  NoDup stages → filterRowsByNodes rows sel stages ctx = filter (selected_row sel stages ctx) rows.
Proof.
  intros Hnd. unfold filterRowsByNodes. destruct (normalizeSelectedNodeFilters sel stages) as [|kf fs] eqn:E.
  - symmetry. apply filter_id, Forall_forall. intros row _. apply path_matches; [done|]. by rewrite E.
  - rewrite <- E. induction rows as [|row rows IH]; [done|]. rewrite !filter_cons, IH.
    pose proof (path_matches row sel stages ctx Hnd). repeat case_decide; tauto.
Qed.

(** the view is built from exactly the rows that the selection keeps: those of
    a selected user, if users are selected, whose node is selected at every
    visible stage where something is selected; the totals are theirs, in order. *)
Theorem view_of_selected_rows localeCompare formatNumber earlier last_ rows metric options :
  let role_ := default RoleUser (role options) in
  let stages := resolveVisibleStages role_ (visibleStages options) in
  let kept := filter (λ row,
    (selectedUsers options = [] ∨ pn_id (userNode row) ∈ selectedUsers options)
    ∧ selected_row (selectedNodes options) stages (deleted_label options) row) rows in
  let view := buildDashboardFlowData localeCompare formatNumber earlier last_ rows metric options in
  summary view = foldl add_metrics no_metrics (rowMetrics <$> kept)
  ∧ flow_graph view
    = buildFlowGraph localeCompare earlier last_ kept metric role_ (graph_colorPalette options)
        (visibleStages options) (deleted_label options) (graph_options options).
Proof.
  cbv zeta. set (stages := resolveVisibleStages _ _). set (kept := filter _ rows).
  assert (filterRowsByNodes (filterRows rows (selectedUsers options)) (selectedNodes options) stages
            (deleted_label options) = kept) as E.
  { rewrite filter_by_nodes by apply stages_NoDup. unfold filterRows, kept.
    case_decide as Hu.
    - induction rows as [|row rows' IH]; [done|]. rewrite !filter_cons, IH. repeat case_decide; tauto.
    - induction rows as [|row rows' IH]; [done|]. rewrite !filter_cons.
      case_decide; rewrite ?filter_cons, IH; repeat case_decide; tauto. }
  unfold buildDashboardFlowData. fold stages. rewrite E. cbn [summary flow_graph]. split; [|done].
  unfold buildSummary. clear E. clearbody kept. generalize no_metrics.
  induction kept as [|row kept IH]; intros m; [done|]. cbn. apply IH.
Qed.

(** * Limits *)

Lemma sublist_fmap_filter {A B} (f : A → B) (P : A → Prop) `{!∀ x, Decision (P x)} (l : list A) :
  f <$> filter P l `sublist_of` f <$> l.
Proof.
  induction l as [|x l IH]; [done|]. rewrite filter_cons.
  case_decide; cbn [fmap list_fmap]; [apply sublist_skip, IH|apply sublist_cons, IH].
Qed.

Lemma get_fmap {K V W} `{EqDecision K} (f : V → W) (m : list (K * V)) k :
  omap.get ((λ '(k, v), (k, f v)) <$> m) k = f <$> omap.get m k.
Proof. induction m as [|[k' v] m IH]; [done|]. cbn. by case_decide. Qed.

Lemma rank_add_Some v totals node k :
  is_Some (omap.get totals k) → is_Some (omap.get (rank_add v totals node) k).
Proof.
  unfold rank_add. intros H. destruct (omap.get totals (pn_kind node)) as [st|] eqn:E; [|done].
  destruct (decide (pn_kind node = k)) as [<-|Hn]; [by rewrite omap.get_set_eq|by rewrite omap.get_set_ne].
Qed.

Section limit.
Context (localeCompare : jstr → jstr → num) (rows : list FlowQuotaDataItem) (metric : FlowMetric).
Context (stages : list FlowNodeKind) (ctx : FlowPathContext) (limit : nat).

Abbreviation sets := (buildTopNodeSets localeCompare rows metric stages (Some limit) ctx).

Lemma top_sets k :
  k ∈ stages → ∃ ts, (sets ≫= λ s, omap.get s k) = Some ts ∧ length ts ≤ limit.
Proof.
  intros Hk. unfold buildTopNodeSets. cbn [mbind option_bind].
  set (t0 := foldl _ [] stages). 
  set (totals := foldl (λ (totals : StageTotals) row,
    foldl (rank_add (metricValue (rowMetrics row) metric)) totals (flowPathForStages row stages ctx)) t0 rows).
  assert (is_Some (omap.get t0 k)) as H0.
  { unfold t0. clear -Hk. generalize ([] : StageTotals). revert Hk.
    induction stages as [|k' ks IH]; [set_solver|]. intros Hk m. cbn [foldl].
    destruct (decide (k ∈ ks)) as [Hin|Hout]; [by apply IH|].
    assert (k = k') as -> by set_solver. clear IH Hk.
    assert (is_Some (omap.get (omap.set m k' []) k')) as Hs by (rewrite omap.get_set_eq; by eexists).
    revert Hs. generalize (omap.set m k' [] : StageTotals). clear m Hout.
    induction ks as [|j ks IH]; intros m Hs; [done|]. cbn [foldl]. apply IH.
    destruct (decide (j = k')) as [->|]; [rewrite omap.get_set_eq; by eexists|by rewrite omap.get_set_ne]. }
  assert (is_Some (omap.get totals k)) as [st Hst].
  { unfold totals. clear totals. clearbody t0. clear Hk. revert t0 H0. induction rows as [|row rs IH]; intros t0 H0; [done|].
    cbn [foldl]. apply IH. generalize (metricValue (rowMetrics row) metric). intros v. clear IH.
    revert t0 H0. induction (flowPathForStages row stages ctx) as [|n path IH]; intros t0 H0; [done|].
    cbn [foldl]. by apply IH, rank_add_Some. }
  exists ((λ r, pn_id (rank_node r)) <$> take limit (sort_by (by_rank localeCompare) st.*2)).
  split.
  - etrans; [apply (get_fmap (λ st : list (jstr * FlowNodeRank),
      (λ r, pn_id (rank_node r)) <$> take limit (sort_by (by_rank localeCompare) st.*2)))|].
    by rewrite Hst.
  - rewrite length_fmap, length_take. lia.
Qed.

Lemma limited_nodes path mode f path' n :
  path_ok stages path → applyTopNodeLimit path sets mode f = Some path' → n ∈ path' →
  isTopFlowNode n sets = true ∨ mode = Aggregate ∧ pn_id n = OTHER_FLOW_NODE_IDS (pn_kind n).
Proof.
  intros _ Happ Hn. unfold applyTopNodeLimit in Happ. destruct sets as [ss|] eqn:Es; [|discriminate Es].
  destruct (existsb _ path) eqn:Eo; cbn [negb] in Happ.
  - destruct mode; [|done]. injection Happ as <-. apply list_elem_of_fmap in Hn as (m & -> & Hm).
    destruct (isTopFlowNode m (Some ss)) eqn:Em; [by left|right; by destruct (pn_kind m)].
  - injection Happ as <-. left. destruct (isTopFlowNode n (Some ss)) eqn:En; [done|]. exfalso.
    assert (existsb (λ n, negb (isTopFlowNode n (Some ss))) path = true) as Ht; [|congruence].
    apply existsb_exists. exists n. split; [by apply list_elem_of_In|]. by rewrite En.
Qed.
End limit.

(** The nodes of one kind are among the largest of their stage, with the one that
    stands for the others when rows are not hidden. *)
Section bound.
Context (localeCompare : jstr → jstr → num) (earlier : list ChartScheme) (last_ : ChartScheme).
Context (rows : list FlowQuotaDataItem) (metric : FlowMetric) (role : FlowRole) (palette : list jstr).
Context (visible : option (list FlowNodeKind)) (ctx : FlowPathContext) (options : FlowGraphOptions).
Context (limit : nat) (Hlimit : normalizeTopNodeLimit (topNodeLimit options) = Some limit).

Abbreviation stages := (stages_ role visible).
Abbreviation paths := (paths_ localeCompare rows metric role visible ctx options).
Abbreviation graph := (graph_ localeCompare earlier last_ rows metric role palette visible ctx options).
Definition overflow : FlowOverflowMode := default Aggregate (overflowMode options).

Definition spare : nat := match overflow with Aggregate => 1 | Hide => 0 end.

Lemma kind_bound k : length (filter (λ n, n_kind n = k) (g_nodes graph)) ≤ limit + spare.
Proof.
  destruct (decide (k ∈ stages)) as [Hk|Hk].
  2:{ rewrite filter_none; [cbn; lia|]. apply Forall_forall. intros n Hn <-. apply Hk.
      destruct (node_on_path _ _ _ _ _ _ _ _ _ _ n Hn) as (p & pn & Hp & Hpn & _ & <-).
      pose proof (paths_ok localeCompare rows metric role visible ctx options) as Hok.
      rewrite Forall_forall in Hok. destruct (Hok p Hp) as [<- _]. apply list_elem_of_fmap. by exists pn. }
  destruct (top_sets localeCompare rows metric stages ctx limit k Hk) as (ts & Hts & Hlen).
  set (ok := ts ++ match overflow with Aggregate => [OTHER_FLOW_NODE_IDS k] | Hide => [] end).
  trans (length ok); [|unfold ok, spare; rewrite length_app; destruct overflow; cbn; lia].
  rewrite <- (length_fmap n_id). apply submseteq_length, NoDup_submseteq.
  - apply (sublist_NoDup _ (n_id <$> g_nodes graph)); [|apply sublist_fmap_filter].
    apply (graph_node_totals localeCompare earlier last_ rows metric role palette visible ctx options).
  - intros id Hid. apply list_elem_of_fmap in Hid as (n & -> & Hn). apply list_elem_of_filter in Hn as [Hkn Hn].
    destruct (node_on_path _ _ _ _ _ _ _ _ _ _ n Hn) as (p & pn & Hp & Hpn & Hid & Hkind). rewrite <- Hid. subst k.
    unfold paths_, prepare_paths in Hp. rewrite Hlimit in Hp.
    apply list_elem_of_omap in Hp as (row & _ & Hp).
    destruct (applyTopNodeLimit _ _ _ _) as [path|] eqn:E; [|done]. injection Hp as <-. cbn [prep_path] in Hpn.
    unfold ok. rewrite elem_of_app.
    destruct (limited_nodes _ _ _ _ _ _ _ _ _ _ _ (flow_path_ok row stages ctx) E Hpn) as [Htop|[Hm Hother]].
    + left. unfold isTopFlowNode in Htop. rewrite Hkind, Hts in Htop. by apply bool_decide_eq_true in Htop.
    + right. unfold overflow. rewrite Hm, Hother, Hkind. set_solver.
Qed.

(** Rows are only left out when they are to be hidden. *)
Lemma aggregate_keeps : overflow = Aggregate → prep_metrics <$> paths = rowMetrics <$> rows.
Proof.
  unfold overflow. intros Hm. unfold paths_, prepare_paths. rewrite Hm.
  generalize (buildTopNodeSets localeCompare rows metric stages
    (normalizeTopNodeLimit (topNodeLimit options)) ctx). intros sets. clear.
  induction rows as [|row rs IH]; [done|]. cbn [base.omap list_omap fmap list_fmap].
  assert (∃ path, applyTopNodeLimit (flowPathForStages row stages ctx) sets Aggregate (otherNodeLabel options)
                  = Some path) as [path ->].
  { unfold applyTopNodeLimit. destruct sets; [|by eexists]. destruct (negb _); by eexists. }
  cbn [fmap list_fmap option_fmap option_map prep_metrics]. f_equal. exact IH.
Qed.
End bound.

(** C35: with a limit, no stage shows more nodes than the limit, and one more for the
    others when they are aggregated; then no row is left out. *)
Theorem limit_bounds_stages localeCompare earlier last_ rows metric role palette visible ctx options limit :
  normalizeTopNodeLimit (topNodeLimit options) = Some limit →
  let g := buildFlowGraph localeCompare earlier last_ rows metric role palette visible ctx options in
  let stages := resolveVisibleStages role visible in
  match default Aggregate (overflowMode options) with
  | Hide => ∀ k, length (filter (λ n, n_kind n = k) (g_nodes g)) ≤ limit
  | Aggregate =>
      (∀ k, length (filter (λ n, n_kind n = k) (g_nodes g)) ≤ limit + 1)
      ∧ prep_metrics <$> prepare_paths localeCompare rows metric stages ctx options
        = rowMetrics <$> rows
  end.
Proof.
  intros Hl. cbv zeta.
  pose proof (kind_bound localeCompare earlier last_ rows metric role palette visible ctx options limit Hl) as Hb.
  pose proof (aggregate_keeps localeCompare rows metric role visible ctx options) as Ha.
  unfold spare, overflow in *. destruct (default Aggregate (overflowMode options)).
  - split; [exact Hb|by apply Ha].
  - intros k. rewrite <- (Nat.add_0_r limit). apply Hb.
Qed.

Lemma limit_bounds_stages_witness :
  let options := demo_options (Some (num_of_Z 2)) in
  (∀ k, length (filter (λ n, n_kind n = k)
          (g_nodes (buildFlowGraph unit_order [] (mkScheme None []) demo_rows MQuota RoleUser [] None None
                      options))) ≤ 2 + 1)
  ∧ prep_metrics <$> prepare_paths unit_order demo_rows MQuota (resolveVisibleStages RoleUser None) None
                       options = rowMetrics <$> demo_rows.
Proof.
  apply (limit_bounds_stages unit_order [] (mkScheme None []) demo_rows MQuota RoleUser [] None None
           (demo_options (Some (num_of_Z 2))) 2). vm_compute. reflexivity.
Defined.
