(* ===== verification/RatioSync.v ===== *)
(** The synchronisation of prices with upstream channels:
    [features/system-settings/models/upstream-ratio-sync-helpers.ts], the bulk
    selection of [upstream-ratio-sync-table.tsx] and the application of
    [upstream-ratio-sync.tsx].

    Objects that are only read and written by key are finite maps; objects whose
    entries are listed keep their order. *)

From Stdlib Require Import ZArith NArith SpecFloat.
From stdpp Require Import gmap.
From S2P Require Import Prelude JsString JsNumber JsValue.

(** * Fields and values *)

Inductive RatioType :=
  | model_ratio
  | completion_ratio
  | cache_ratio
  | create_cache_ratio
  | image_ratio
  | audio_ratio
  | audio_completion_ratio
  | model_price
  | billing_mode
  | billing_expr.

#[export] Instance RatioType_eq_dec : EqDecision RatioType.
Proof. solve_decision. Defined.

Definition RATIO_SYNC_FIELDS : list RatioType :=
  [model_ratio; completion_ratio; cache_ratio; create_cache_ratio; image_ratio; audio_ratio;
   audio_completion_ratio].

Definition SYNC_FIELD_ORDER : list RatioType :=
  RATIO_SYNC_FIELDS ++ [model_price; billing_mode; billing_expr].

#[export] Program Instance RatioType_finite : finite.Finite RatioType :=
  {| finite.enum := SYNC_FIELD_ORDER |}.
Next Obligation. apply (bool_decide_unpack _). by vm_compute. Qed.
Next Obligation. intros []; apply (bool_decide_unpack _); by vm_compute. Qed.

Definition NUMERIC_SYNC_FIELDS : list RatioType := RATIO_SYNC_FIELDS ++ [model_price].

(** The literal of the union *)
Definition ratio_name (f : RatioType) : jstr :=
  match f with
  | model_ratio => js "model_ratio"
  | completion_ratio => js "completion_ratio"
  | cache_ratio => js "cache_ratio"
  | create_cache_ratio => js "create_cache_ratio"
  | image_ratio => js "image_ratio"
  | audio_ratio => js "audio_ratio"
  | audio_completion_ratio => js "audio_completion_ratio"
  | model_price => js "model_price"
  | billing_mode => js "billing_mode"
  | billing_expr => js "billing_expr"
  end.

(** [number | string] *)
Inductive SyncValue :=
  | SNum (n : num)
  | SStr (s : jstr).

#[export] Instance SyncValue_eq_dec : EqDecision SyncValue.
Proof. solve_decision. Defined.

(** [a === b] *)
Definition sync_eqb (a b : SyncValue) : bool :=
  match a, b with
  | SNum x, SNum y => num_eqb x y
  | SStr s, SStr t => bool_decide (s = t)
  | _, _ => false
  end.

(** [Number(v)] *)
Definition Number_of_sync (v : SyncValue) : num :=
  match v with SNum n => n | SStr s => Number_of_string s end.

(** A [null] entry of [upstreams] is [None]. *)
Record RatioDifferenceEntry := mkDifference {
  current : option SyncValue;
  upstreams : list (jstr * option SyncValue);
  confidence : list (jstr * bool);
}.

Abbreviation RatioTypes := (list (RatioType * RatioDifferenceEntry)).
Abbreviation DifferencesMap := (list (jstr * list (RatioType * RatioDifferenceEntry))).

Record ModelRow := mkRow {
  row_key : jstr;
  row_model : jstr;
  row_ratioTypes : RatioTypes;
  billingConflict : bool;
}.

Abbreviation Resolution := (gmap RatioType SyncValue).
Abbreviation ResolutionsMap := (gmap jstr (gmap RatioType SyncValue)).

Record ResolutionSelection := mkSelection {
  model : jstr;
  ratioType : RatioType;
  value : SyncValue;
  sourceName : jstr;
}.

Record ResolutionRemoval := mkRemoval {
  removed_model : jstr;
  removed_type : RatioType;
}.

(** [Map<string, Set<RatioType>>] *)
Abbreviation ResolutionRemovalPlan := (list (jstr * list RatioType)).

(** * Which fields a source offers *)

(** [ratioTypes[f]?.upstreams?.[sourceName]]; [None] is [undefined] or [null]. *)
Definition upstream_value (ratioTypes : RatioTypes) (f : RatioType) (sourceName : jstr)
    : option SyncValue :=
  e ← omap.get ratioTypes f; v ← omap.get (upstreams e) sourceName; v.

Definition isSelectableUpstreamValue (v : option SyncValue) : bool :=
  match v with
  | None => false
  | Some (SStr s) => negb (bool_decide (s = js "same"))
  | Some (SNum _) => true
  end.

Definition no_filter (filter_ : jstr) : bool :=
  negb (truthy filter_) || bool_decide (filter_ = js "__all__").

Definition getOrderedRatioTypes (ratioTypes : RatioTypes) (filter_ : jstr) : list RatioType :=
  let keys := ratioTypes.*1 in
  let ordered := filter (λ f, f ∈ keys) SYNC_FIELD_ORDER
                 ++ filter (λ f, f ∉ SYNC_FIELD_ORDER) keys in
  if no_filter filter_ then ordered else filter (λ f, ratio_name f = filter_) ordered.

Definition getPreferredSyncField (ratioTypes : RatioTypes) (f : RatioType) (sourceName : jstr)
    : RatioType :=
  let exprValue := upstream_value ratioTypes billing_expr sourceName in
  if negb (bool_decide (f = billing_expr)) && isSelectableUpstreamValue exprValue
  then billing_expr else f.

Definition getVisibleRatioTypesForSource (ratioTypes : RatioTypes) (sourceName filter_ : jstr)
    : list RatioType :=
  filter (λ f, getPreferredSyncField ratioTypes f sourceName = f)
    (getOrderedRatioTypes ratioTypes filter_).

Definition getAlignedRatioTypes (ratioTypes : RatioTypes) (sourceNames : list jstr) (filter_ : jstr)
    : list RatioType :=
  let ordered := getOrderedRatioTypes ratioTypes filter_ in
  match sourceNames with
  | [] => ordered
  | _ =>
      let visible := foldl (λ acc s, foldl set_add acc (getVisibleRatioTypesForSource ratioTypes s filter_))
                       [] sourceNames in
      filter (λ f, f ∈ visible) ordered
  end.

(** The labels of the fields; [t] translates. *)
Definition RATIO_TYPE_OPTIONS : list (jstr * jstr) :=
  [(js "Model ratio", js "model_ratio"); (js "Completion ratio", js "completion_ratio");
   (js "Cache ratio", js "cache_ratio"); (js "Create cache ratio", js "create_cache_ratio");
   (js "Image ratio", js "image_ratio"); (js "Audio ratio", js "audio_ratio");
   (js "Audio completion ratio", js "audio_completion_ratio"); (js "Fixed price", js "model_price");
   (js "Expression billing", js "billing_expr")].

Definition getSyncFieldLabel (t : jstr → jstr) (f : jstr) : jstr :=
  match list_find (λ o, o.2 = f) RATIO_TYPE_OPTIONS with
  | Some (_, (label, _)) => t label
  | None => f
  end.

Definition getUpstreamDisplayName (sourceName : jstr) : jstr :=
  let presets := [(js "官方倍率预设", (-100)%Z); (js "models.dev 价格预设", (-101)%Z)] in
  match list_find (λ '(name, id), sourceName = name ++ js "(" ++ string_of_Z id ++ js ")") presets with
  | Some (_, (name, _)) => name
  | None => sourceName
  end.

Inductive BillingCategory := CatPrice | CatRatio | CatTiered.

#[export] Instance BillingCategory_eq_dec : EqDecision BillingCategory.
Proof. solve_decision. Defined.

Definition getBillingCategory (f : RatioType) : BillingCategory :=
  match f with
  | model_price => CatPrice
  | billing_mode | billing_expr => CatTiered
  | _ => CatRatio
  end.

(** Whether an upstream's value is the one that is selected; numeric fields
    compare as numbers. *)
Definition isSelectedResolutionValue (resolutions : ResolutionsMap) (m : jstr) (f : RatioType)
    (upstreamValue : option SyncValue) : bool :=
  match upstreamValue with
  | Some v =>
      isSelectableUpstreamValue upstreamValue
      && match resolutions !! m ≫= (.!! f) with
         | None => false
         | Some selectedValue =>
             if bool_decide (f ∈ NUMERIC_SYNC_FIELDS) then
               let selectedNumber := Number_of_sync selectedValue in
               let upstreamNumber := Number_of_sync v in
               isFinite selectedNumber && isFinite upstreamNumber && num_eqb selectedNumber upstreamNumber
             else sync_eqb selectedValue v
         end
  | None => false
  end.

(** * Selecting *)

(** The field and value that a selection stands for *)
Definition preferred (modelDiffs : option RatioTypes) (s : ResolutionSelection) : RatioType * SyncValue :=
  let preferredType := getPreferredSyncField (default [] modelDiffs) (ratioType s) (sourceName s) in
  (preferredType,
   if bool_decide (preferredType = ratioType s) then value s
   else default (value s) (d ← modelDiffs; upstream_value d preferredType (sourceName s))).

Definition resolveResolutionSelection (differences : DifferencesMap) (s : ResolutionSelection)
    : ResolutionSelection :=
  let '(f, v) := preferred (omap.get differences (model s)) s in
  mkSelection (model s) f v (sourceName s).

(** A field of another kind of billing than [category]; expressions go with both. *)
Definition conflicting (category : BillingCategory) (f : RatioType) : bool :=
  negb (bool_decide (category = CatTiered))
  && negb (bool_decide (getBillingCategory f = CatTiered))
  && negb (bool_decide (getBillingCategory f = category)).

(** The changes to one draft, once it is found *)
Definition select_field (modelDiffs : option RatioTypes) (s : ResolutionSelection) (draft : Resolution)
    : Resolution :=
  let '(finalType, finalValue) := preferred modelDiffs s in
  let category := getBillingCategory finalType in
  let draft := filter (λ e, conflicting category e.1 = false) draft in
  let draft := <[finalType := finalValue]> draft in
  match category, modelDiffs with
  | CatTiered, Some d =>
      let modeVal := upstream_value d billing_mode (sourceName s) in
      let exprVal := upstream_value d billing_expr (sourceName s) in
      let draft :=
        match modeVal, isSelectableUpstreamValue modeVal with
        | Some v, true => <[billing_mode := v]> draft
        | _, _ =>
            if bool_decide (finalType = billing_expr)
            then <[billing_mode := SStr (js "tiered_expr")]> draft else draft
        end in
      match exprVal, isSelectableUpstreamValue exprVal with
      | Some v, true => <[billing_expr := v]> draft
      | _, _ => draft
      end
  | _, _ => draft
  end.

(** The draft of a model: the one under way, or a copy of what is resolved *)
Definition getDraftModelResolution (drafts resolutions : ResolutionsMap) (m : jstr) : Resolution :=
  match drafts !! m with
  | Some existingDraft => existingDraft
  | None => default ∅ (resolutions !! m)
  end.

Definition applyResolutionSelectionToDraft (resolutions : ResolutionsMap) (differences : DifferencesMap)
    (drafts : ResolutionsMap) (s : ResolutionSelection) : ResolutionsMap :=
  <[model s := select_field (omap.get differences (model s)) s
                 (getDraftModelResolution drafts resolutions (model s))]> drafts.

(** [if (Object.keys(draft).length === 0) delete next[m] else next[m] = draft] *)
Definition put_draft (m : jstr) (draft : Resolution) (next : ResolutionsMap) : ResolutionsMap :=
  if bool_decide (draft = ∅) then delete m next else <[m := draft]> next.

Definition applyResolutionSelections (resolutions : ResolutionsMap) (differences : DifferencesMap)
    (selections : list ResolutionSelection) : ResolutionsMap :=
  match selections with
  | [] => resolutions
  | _ =>
      map_fold put_draft resolutions
        (foldl (applyResolutionSelectionToDraft resolutions differences) ∅ selections)
  end.

Definition applyResolutionSelection (resolutions : ResolutionsMap) (differences : DifferencesMap)
    (s : ResolutionSelection) : ResolutionsMap :=
  applyResolutionSelections resolutions differences [s].

(** The key of the map is the pair of model and field. *)
Definition add_effective (differences : DifferencesMap)
    (effectiveByKey : list (jstr * RatioType * ResolutionSelection)) (s : ResolutionSelection)
    : list (jstr * RatioType * ResolutionSelection) :=
  let resolved := resolveResolutionSelection differences s in
  let category := getBillingCategory (ratioType resolved) in
  omap.set
    (filter (λ e, ¬ (model e.2 = model resolved ∧ conflicting category (ratioType e.2) = true))
       effectiveByKey)
    (model resolved, ratioType resolved) resolved.

Definition getEffectiveResolutionSelections (differences : DifferencesMap)
    (selections : list ResolutionSelection) : list ResolutionSelection :=
  (foldl (add_effective differences) [] selections).*2.

(** * Removing *)

Definition remove_fields (ratioTypes : list RatioType) (draft : Resolution) : Resolution :=
  foldl (λ draft f,
    let draft := delete f draft in
    let draft := if bool_decide (f = billing_expr) then delete billing_mode draft else draft in
    if bool_decide (f = billing_mode) then delete billing_expr draft else draft) draft ratioTypes.

Definition remove_step (resolutions next : ResolutionsMap) (e : jstr * list RatioType) : ResolutionsMap :=
  match resolutions !! e.1 with
  | None => next
  | Some current => put_draft e.1 (remove_fields e.2 current) next
  end.

Definition applyResolutionRemovalPlan (resolutions : ResolutionsMap) (plan : ResolutionRemovalPlan)
    : ResolutionsMap :=
  foldl (remove_step resolutions) resolutions plan.

(** [plan.get(m).add(f)] or a new set *)
Definition plan_add (plan : ResolutionRemovalPlan) (m : jstr) (f : RatioType) : ResolutionRemovalPlan :=
  omap.set plan m (match omap.get plan m with Some fs => set_add fs f | None => [f] end).

Definition applyResolutionRemovals (resolutions : ResolutionsMap) (removals : list ResolutionRemoval)
    : ResolutionsMap :=
  applyResolutionRemovalPlan resolutions
    (foldl (λ plan r, plan_add plan (removed_model r) (removed_type r)) [] removals).

Definition deleteResolutionField (resolutions : ResolutionsMap) (m : jstr) (f : RatioType)
    : ResolutionsMap :=
  applyResolutionRemovals resolutions [mkRemoval m f].

(** * The table *)

Section table.
Context (toLowerCase : jstr → jstr).

(** [rt in ratioTypes] *)
Definition has_field (ratioTypes : RatioTypes) (f : RatioType) : bool := bool_decide (f ∈ ratioTypes.*1).

Definition dataSource (differences : DifferencesMap) : list ModelRow :=
  (λ '(m, ratioTypes),
     mkRow m m ratioTypes
       (has_field ratioTypes model_price && existsb (has_field ratioTypes) RATIO_SYNC_FIELDS))
  <$> entries differences.

Definition filteredData (differences : DifferencesMap) (search ratioTypeFilter : jstr) : list ModelRow :=
  let data := dataSource differences in
  let data :=
    if truthy (trim search) then
      filter (λ row, includes (toLowerCase (row_model row)) (toLowerCase search) = true) data
    else data in
  if no_filter ratioTypeFilter then data
  else filter (λ row, ratioTypeFilter ∈ ratio_name <$> (row_ratioTypes row).*1) data.

Definition upstreamNames (rows : list ModelRow) (ratioTypeFilter : jstr) : list jstr :=
  foldl (λ acc row,
    foldl (λ acc f,
      foldl set_add acc
        (keys (match omap.get (row_ratioTypes row) f with Some e => upstreams e | None => [] end)))
      acc (getOrderedRatioTypes (row_ratioTypes row) ratioTypeFilter)) [] rows.
End table.

(** What a bulk selection of a source selects, and what its removal removes *)
Definition row_selections (upstreamName ratioTypeFilter : jstr) (row : ModelRow) : list ResolutionSelection :=
  base.omap (λ f,
    match upstream_value (row_ratioTypes row) f upstreamName with
    | Some v =>
        if isSelectableUpstreamValue (Some v) then Some (mkSelection (row_model row) f v upstreamName)
        else None
    | None => None
    end) (getAlignedRatioTypes (row_ratioTypes row) [upstreamName] ratioTypeFilter).

Record UpstreamBulkSelectState := mkBulk {
  displayName : jstr;
  selections : list ResolutionSelection;
  removalPlan : ResolutionRemovalPlan;
  selectableCount : nat;
  selectedCount : nat;
}.

Definition bulkSelectState (differences : DifferencesMap) (resolutions : ResolutionsMap)
    (rows : list ModelRow) (ratioTypeFilter upstreamName : jstr) : UpstreamBulkSelectState :=
  let selected := rows ≫= row_selections upstreamName ratioTypeFilter in
  let plan := foldl (λ plan s, plan_add plan (model s) (ratioType s)) [] selected in
  let effective := getEffectiveResolutionSelections differences selected in
  mkBulk (getUpstreamDisplayName upstreamName) effective plan (length effective)
    (length (filter (λ s,
       isSelectedResolutionValue resolutions (model s) (ratioType s) (Some (value s)) = true) effective)).

(** * Applying *)

(** The saved options: for each option key the values by model *)
Abbreviation Ratios := (gmap jstr (gmap jstr SyncValue)).

Definition capitalize (word : jstr) : jstr :=
  match word with
  | [] => []
  | c :: r => (if ((97 <=? c) && (c <=? 122))%N then (c - 32)%N else c) :: r
  end.

Definition optionKeyBySyncField (f : RatioType) : jstr :=
  match f with
  | billing_mode => js "billing_setting.billing_mode"
  | billing_expr => js "billing_setting.billing_expr"
  | _ => concat (capitalize <$> split_unit 95 (ratio_name f))
  end.

(** [delete finalRatios[key][m]] and [finalRatios[key][m] = v]; [None] is the
    error of an option that is not there. *)
Definition delete_ratio (m : jstr) (finalRatios : option Ratios) (f : RatioType) : option Ratios :=
  r ← finalRatios; o ← r !! optionKeyBySyncField f;
  Some (<[optionKeyBySyncField f := delete m o]> r).

Definition set_ratio (m : jstr) (finalRatios : option Ratios) (e : RatioType * SyncValue) : option Ratios :=
  let '(f, v) := e in
  r ← finalRatios; o ← r !! optionKeyBySyncField f;
  Some (<[optionKeyBySyncField f :=
            <[m := if bool_decide (f ∈ NUMERIC_SYNC_FIELDS) then SNum (Number_of_sync v) else v]> o]> r).

Definition sync_model (finalRatios : option Ratios) (e : jstr * Resolution) : option Ratios :=
  let '(m, ratios) := e in
  let hasPrice := bool_decide (is_Some (ratios !! model_price)) in
  let hasRatio := existsb (λ f, bool_decide (is_Some (ratios !! f))) RATIO_SYNC_FIELDS in
  let r := if hasPrice then foldl (delete_ratio m) finalRatios RATIO_SYNC_FIELDS else finalRatios in
  let r := if hasRatio then delete_ratio m r model_price else r in
  foldl (set_ratio m) r (map_to_list ratios).

(** The options that [performSync] sends *)
Definition performSync (resolutions : ResolutionsMap) (currentRatios : Ratios) : option Ratios :=
  foldl sync_model (Some currentRatios) (map_to_list resolutions).

Definition getLocalBillingCategory (m : jstr) (currentRatios : Ratios) : option BillingCategory :=
  let has f := bool_decide (is_Some (currentRatios !! optionKeyBySyncField f ≫= (.!! m))) in
  if has model_price then Some CatPrice
  else if existsb has RATIO_SYNC_FIELDS then Some CatRatio else None.

(** The models for which [handleApplySync] asks first *)
Definition new_category (ratios : Resolution) : BillingCategory :=
  if bool_decide (is_Some (ratios !! model_price)) then CatPrice
  else if existsb (λ f, bool_decide (is_Some (ratios !! f))) RATIO_SYNC_FIELDS then CatRatio
  else CatTiered.

Definition changes_category (currentRatios : Ratios) (m : jstr) (ratios : Resolution) : bool :=
  match getLocalBillingCategory m currentRatios with
  | Some localCat =>
      negb (bool_decide (new_category ratios = CatTiered)) && negb (bool_decide (localCat = new_category ratios))
  | None => false
  end.

Example labels :
  getUpstreamDisplayName (js "models.dev 价格预设(-101)") = js "models.dev 价格预设"
  ∧ getUpstreamDisplayName (js "mine(-101)") = js "mine(-101)"
  ∧ getSyncFieldLabel id (js "model_price") = js "Fixed price".
Proof. by vm_compute. Qed.

Example option_keys :
  optionKeyBySyncField <$> SYNC_FIELD_ORDER
  = js <$> ["ModelRatio"; "CompletionRatio"; "CacheRatio"; "CreateCacheRatio"; "ImageRatio"; "AudioRatio";
            "AudioCompletionRatio"; "ModelPrice"; "billing_setting.billing_mode";
            "billing_setting.billing_expr"].
Proof. by vm_compute. Qed.

(** * The page *)

Record Page := mkPage {
  p_differences : DifferencesMap;
  p_resolutions : ResolutionsMap;
}.

Inductive Action :=
  | Fetched (differences : DifferencesMap)
  | SelectValue (s : ResolutionSelection)
  | SelectValues (ss : list ResolutionSelection)
  | UnselectValue (m : jstr) (f : RatioType)
  | UnselectValues (plan : ResolutionRemovalPlan)
  | Synced.

Definition without {K V} `{EqDecision K} (o : list (K * V)) (k : K) : list (K * V) :=
  filter (λ e, e.1 ≠ k) o.

(** A difference that was synchronised is settled, and a model without
    differences leaves the list. *)
Definition settle_difference (m : jstr) (diffs : DifferencesMap) (f : RatioType) : DifferencesMap :=
  match omap.get diffs m with
  | Some ratioTypes =>
      if has_field ratioTypes f then
        match without ratioTypes f with
        | [] => without diffs m
        | rest => omap.set diffs m rest
        end
      else diffs
  | None => diffs
  end.

Definition settle_differences (diffs : DifferencesMap) (resolutions : ResolutionsMap) : DifferencesMap :=
  foldl (λ diffs e, foldl (settle_difference e.1) diffs (map_to_list e.2).*1) diffs
    (map_to_list resolutions).

Definition page_step (a : Action) (p : Page) : Page :=
  let '(mkPage d r) := p in
  match a with
  | Fetched d' => mkPage d' ∅
  | SelectValue s => mkPage d (applyResolutionSelection r d s)
  | SelectValues ss => mkPage d (applyResolutionSelections r d ss)
  | UnselectValue m f => mkPage d (deleteResolutionField r m f)
  | UnselectValues plan => mkPage d (applyResolutionRemovalPlan r plan)
  | Synced => mkPage (settle_differences d r) ∅
  end.

(** The table offers selections of the models it lists. *)
Definition offered (a : Action) (p : Page) : Prop :=
  match a with
  | SelectValue s => is_Some (omap.get (p_differences p) (model s))
  | SelectValues ss => Forall (λ s, is_Some (omap.get (p_differences p) (model s))) ss
  | UnselectValues plan => NoDup plan.*1
  | _ => True
  end.

Inductive reachable : Page → Prop :=
  | reachable_initial : reachable (mkPage [] ∅)
  | reachable_step p a : reachable p → offered a p → reachable (page_step a p).
