(* ===== verification/RatioSyncProps.v ===== *)
(** Properties of the synchronisation of prices: selecting in bulk is selecting
    one by one, what is selected never mixes two kinds of billing, the options
    sent carry exactly the selection, and the bulk checkboxes tell the truth. *)

From Stdlib Require Import ZArith NArith SpecFloat.
From stdpp Require Import gmap.
From S2P Require Import Prelude JsString JsNumber JsValue RatioSync.

(** * Drafts *)

Implicit Types (fs : list RatioType) (f g : RatioType) (draft : Resolution).
Implicit Types (m : jstr) (r : ResolutionsMap) (d : DifferencesMap) (s : ResolutionSelection) (ss : list ResolutionSelection).

Lemma lookup_put_draft m (draft : Resolution) (next : ResolutionsMap) m' :
  put_draft m draft next !! m'
  = if decide (m = m') then (if bool_decide (draft = ∅) then None else Some draft) else next !! m'.
Proof.
  unfold put_draft. destruct (decide (m = m')) as [->|Hm]; case_bool_decide;
    rewrite ?lookup_delete_eq, ?lookup_insert_eq, ?lookup_delete_ne, ?lookup_insert_ne by done; done.
Qed.

Lemma lookup_put_drafts (next drafts : ResolutionsMap) m :
  map_fold put_draft next drafts !! m
  = match drafts !! m with
    | Some d => if bool_decide (d = ∅) then None else Some d
    | None => next !! m
    end.
Proof.
  apply (map_fold_weak_ind (λ r drafts, r !! m = match drafts !! m with
    | Some d => if bool_decide (d = ∅) then None else Some d | None => next !! m end)); [done|].
  intros m' draft ds r Hm' IH. rewrite lookup_put_draft, IH.
  destruct (decide (m' = m)) as [->|Hm]; [by rewrite lookup_insert_eq|by rewrite lookup_insert_ne].
Qed.

(** The field that was chosen is set. *)
Lemma select_field_final modelDiffs s draft :
  is_Some (select_field modelDiffs s draft !! (preferred modelDiffs s).1).
Proof.
  unfold select_field. destruct (preferred modelDiffs s) as [f v]. cbn [fst].
  assert (∀ (d : Resolution) g w, is_Some (d !! f) → is_Some (<[g := w]> d !! f)) as Hi.
  { intros d g w Hd. by apply lookup_insert_is_Some'; right. }
  assert (∀ d : Resolution, is_Some (<[f := v]> d !! f)) as Hf.
  { intros d. by rewrite lookup_insert_eq. }
  repeat case_match; auto.
Qed.

Lemma select_field_nonempty modelDiffs s draft : select_field modelDiffs s draft ≠ ∅.
Proof.
  intros He. destruct (select_field_final modelDiffs s draft) as [x Hx]. by rewrite He in Hx.
Qed.

(** The selections of one model, applied in order *)
Definition select_all (differences : DifferencesMap) (m : jstr) (ss : list ResolutionSelection)
    (draft : Resolution) : Resolution :=
  foldl (λ draft s, select_field (omap.get differences m) s draft) draft
    (filter (λ s, model s = m) ss).

Lemma lookup_drafts r d ss m :
  foldl (applyResolutionSelectionToDraft r d) ∅ ss !! m
  = if decide (filter (λ s, model s = m) ss = []) then None
    else Some (select_all d m ss (default ∅ (r !! m))).
Proof.
  unfold select_all. induction ss as [|s ss IH] using rev_ind.
  { by rewrite decide_True. }
  rewrite foldl_app, filter_app. cbn [foldl]. unfold applyResolutionSelectionToDraft at 1.
  rewrite filter_cons. destruct (decide (model s = m)) as [Hs|Hs].
  - rewrite decide_False by (by intros [_ ?]%app_nil).
    rewrite <- Hs, lookup_insert_eq, foldl_app. cbn [foldl]. do 2 f_equal.
    unfold getDraftModelResolution. rewrite Hs, IH. case_decide as E; [by rewrite E|done].
  - rewrite lookup_insert_ne by done. by rewrite app_nil_r.
Qed.

Lemma select_all_nonempty d m ss draft :
  filter (λ s, model s = m) ss ≠ [] → select_all d m ss draft ≠ ∅.
Proof.
  unfold select_all. intros Hne.
  destruct (filter (λ s, model s = m) ss) as [|s ss' _] using rev_ind; [done|].
  rewrite foldl_app. apply select_field_nonempty.
Qed.

Lemma lookup_selections r d ss m :
  applyResolutionSelections r d ss !! m
  = if decide (filter (λ s, model s = m) ss = []) then r !! m
    else Some (select_all d m ss (default ∅ (r !! m))).
Proof.
  assert (applyResolutionSelections r d ss
          = map_fold put_draft r (foldl (applyResolutionSelectionToDraft r d) ∅ ss)) as ->.
  { destruct ss; [|done]. cbn [foldl]. by rewrite map_fold_empty. }
  rewrite lookup_put_drafts, lookup_drafts. case_decide as Hf; [done|].
  by rewrite bool_decide_false by (by apply select_all_nonempty).
Qed.

Lemma selections_app r d ss1 ss2 :
  applyResolutionSelections r d (ss1 ++ ss2)
  = applyResolutionSelections (applyResolutionSelections r d ss1) d ss2.
Proof.
  apply map_eq. intros m. rewrite !lookup_selections. unfold select_all. rewrite filter_app, foldl_app.
  destruct (decide (filter (λ s, model s = m) ss1 = [])) as [E1|E1],
    (decide (filter (λ s, model s = m) ss2 = [])) as [E2|E2]; rewrite ?E1, ?E2, ?app_nil_r; cbn [foldl];
    [by rewrite decide_True|by rewrite decide_False by done|by rewrite decide_False by done|].
  rewrite decide_False; [done|]. by intros [? _]%app_nil.
Qed.

(** Selecting a list of values at once has the effect of selecting them
    one after the other, whatever was resolved before. *)
Theorem selections_compose r d ss :
  applyResolutionSelections r d ss = foldl (λ r s, applyResolutionSelection r d s) r ss.
Proof.
  revert r. induction ss as [|s ss IH]; intros r; [done|]. cbn [foldl].
  rewrite <- IH. apply (selections_app r d [s] ss).
Qed.

(** * Removals *)

(** A field goes with its partner. *)
Definition goes_with (g f : RatioType) : bool :=
  bool_decide (f = g)
  || match g, f with billing_expr, billing_mode | billing_mode, billing_expr => true | _, _ => false end.

Definition removed_by (fs : list RatioType) (f : RatioType) : bool := existsb (λ g, goes_with g f) fs.

Lemma lookup_remove_fields fs draft f :
  remove_fields fs draft !! f = if removed_by fs f then None else draft !! f.
Proof.
  unfold remove_fields. revert draft. induction fs as [|g fs IH]; intros draft; [done|]. cbn [foldl].
  rewrite IH. cbn [removed_by existsb]. fold (removed_by fs f).
  destruct (removed_by fs f); [by rewrite orb_true_r|]. rewrite orb_false_r. clear IH.
  unfold goes_with. destruct (bool_decide_reflect (f = g)) as [<-|Hfg].
  - cbn [orb]. repeat case_bool_decide; subst; try done;
      repeat rewrite lookup_delete_ne by done; by rewrite lookup_delete_eq.
  - cbn [orb]. repeat case_bool_decide; subst; try done;
      destruct f; try done; rewrite ?lookup_delete_eq; repeat rewrite lookup_delete_ne by done; try done.
    all: by destruct g.
Qed.

Lemma lookup_removal_plan r (plan : ResolutionRemovalPlan) m :
  NoDup plan.*1 →
  applyResolutionRemovalPlan r plan !! m
  = match omap.get plan m, r !! m with
    | Some fs, Some cur =>
        if bool_decide (remove_fields fs cur = ∅) then None else Some (remove_fields fs cur)
    | _, _ => r !! m
    end.
Proof.
  unfold applyResolutionRemovalPlan. intros Hnd.
  assert (∀ next, foldl (remove_step r) next plan !! m
    = match omap.get plan m, r !! m with
      | Some fs, Some cur =>
          if bool_decide (remove_fields fs cur = ∅) then None else Some (remove_fields fs cur)
      | _, _ => next !! m
      end) as Hgen; [|rewrite Hgen; repeat case_match; done].
  induction plan as [|[m' fs] plan IH]; intros next; [done|]. cbn [foldl].
  cbn in Hnd. apply NoDup_cons in Hnd as [Hm' Hnd]. rewrite IH by done. clear IH.
  cbn [omap.get]. unfold remove_step. cbn [fst snd]. destruct (decide (m = m')) as [->|Hm].
  - apply omap.get_None in Hm'. rewrite Hm'. destruct (r !! m') as [cur|]; [|done].
    by rewrite lookup_put_draft, decide_True.
  - destruct (r !! m') as [cur|]; [|done]. rewrite lookup_put_draft, decide_False by done. done.
Qed.

(** * Coherence

    A resolution is coherent when it sets something, does not set a price and a
    ratio together, and sets the mode with the expression. *)

Definition unmixed (res : Resolution) : Prop :=
  (∀ f, is_Some (res !! model_price) → is_Some (res !! f) → getBillingCategory f ≠ CatRatio)
  ∧ (is_Some (res !! billing_expr) → is_Some (res !! billing_mode)).

Definition coherent (r : ResolutionsMap) : Prop :=
  ∀ m res, r !! m = Some res → res ≠ ∅ ∧ unmixed res.

Lemma unmixed_empty : unmixed ∅.
Proof. split; [intros f|]; rewrite lookup_empty; by intros [? ?]. Qed.

Lemma select_field_keys modelDiffs s draft f :
  let final := (preferred modelDiffs s).1 in
  is_Some (select_field modelDiffs s draft !! f) →
  f = final ∨ (getBillingCategory final = CatTiered ∧ getBillingCategory f = CatTiered)
  ∨ (is_Some (draft !! f) ∧ conflicting (getBillingCategory final) f = false).
Proof.
  unfold select_field. destruct (preferred modelDiffs s) as [final v]. cbn [fst].
  set (base := <[final := v]> (filter _ draft)).
  assert (is_Some (base !! f) → f = final ∨ (is_Some (draft !! f) ∧ conflicting (getBillingCategory final) f = false))
    as Hbase.
  { subst base. intros [->|[_ [x Hx]]]%lookup_insert_is_Some; [by left|right].
    apply map_lookup_filter_Some in Hx as [Hx Hc]. split; [by exists x|done]. }
  clearbody base. intros Hf.
  destruct (decide (getBillingCategory f = CatTiered)) as [Hft|Hft].
  - destruct (getBillingCategory final) eqn:Hc; [tauto|tauto|right; left; done].
  - destruct (getBillingCategory final) eqn:Hc; [tauto|tauto|]. destruct modelDiffs as [d|]; [|tauto].
    destruct (Hbase) as [?|?]; [|tauto|tauto].
    repeat case_match; repeat (apply lookup_insert_is_Some' in Hf as [<-|Hf]; [by destruct Hft|]); done.
Qed.

Lemma select_field_keeps modelDiffs s draft f :
  is_Some (draft !! f) → conflicting (getBillingCategory (preferred modelDiffs s).1) f = false →
  is_Some (select_field modelDiffs s draft !! f).
Proof.
  unfold select_field. destruct (preferred modelDiffs s) as [final v]. cbn [fst]. intros [x Hx] Hc.
  set (base := <[final := v]> (filter _ draft)).
  assert (is_Some (base !! f)) as Hbase.
  { apply lookup_insert_is_Some'. right. exists x. by apply map_lookup_filter_Some. }
  clearbody base. repeat case_match; rewrite ?lookup_insert_is_Some'; tauto.
Qed.

(** An expression is never set without its mode. *)
Lemma select_field_mode (d : RatioTypes) s draft :
  (preferred (Some d) s).1 = billing_expr → is_Some (select_field (Some d) s draft !! billing_mode).
Proof.
  unfold select_field. destruct (preferred (Some d) s) as [final v]. cbn [fst]. intros ->.
  cbn [getBillingCategory]. rewrite bool_decide_true by done.
  repeat case_match; rewrite ?lookup_insert_is_Some'; tauto.
Qed.

Lemma select_field_unmixed (d : RatioTypes) s draft : unmixed draft → unmixed (select_field (Some d) s draft).
Proof.
  intros [Hp He]. split.
  - intros f Hprice Hf Hr. apply select_field_keys in Hprice, Hf.
    destruct (preferred (Some d) s).1 eqn:E; cbn in *; destruct f; naive_solver.
  - intros Hexpr. destruct (decide ((preferred (Some d) s).1 = billing_expr)) as [E|E].
    { by apply select_field_mode. }
    pose proof (select_field_final (Some d) s draft) as Hfin.
    apply select_field_keys in Hexpr as [?|[[Ht _]|[Hd _]]]; [done| |].
    + destruct (preferred (Some d) s).1; done.
    + apply select_field_keeps; [by apply He|]. by destruct (preferred (Some d) s).1.
Qed.

Lemma remove_fields_unmixed fs draft : unmixed draft → unmixed (remove_fields fs draft).
Proof.
  intros [Hp He]. split.
  - intros f. rewrite !lookup_remove_fields. repeat case_match; try (by intros [? ?]); try (by intros ? [? ?]).
    apply Hp.
  - rewrite !lookup_remove_fields. unfold removed_by.
    assert (existsb (λ g, goes_with g billing_mode) fs = existsb (λ g, goes_with g billing_expr) fs) as ->.
    { induction fs as [|g fs IH]; [done|]. cbn [existsb]. rewrite IH. by destruct g. }
    case_match; [by intros [? ?]|done].
Qed.

Lemma select_all_unmixed d m ss draft :
  Forall (λ s, is_Some (omap.get d (model s))) ss → unmixed draft → unmixed (select_all d m ss draft).
Proof.
  unfold select_all. intros Hss. revert draft.
  induction Hss as [|s ss Hs Hss IH]; intros draft Hd; [done|]. rewrite filter_cons.
  case_decide as Hm; [|by apply IH]. cbn [foldl]. apply IH. subst m.
  destruct Hs as [rt ->]. by apply select_field_unmixed.
Qed.

Lemma coherent_draft r m : coherent r → unmixed (default ∅ (r !! m)).
Proof.
  intros Hr. destruct (r !! m) as [res|] eqn:E; [by apply (Hr m res)|apply unmixed_empty].
Qed.

Lemma selections_coherent r d ss :
  coherent r → Forall (λ s, is_Some (omap.get d (model s))) ss →
  coherent (applyResolutionSelections r d ss).
Proof.
  intros Hr Hss m res. rewrite lookup_selections. case_decide as Hf; [by apply Hr|].
  intros [= <-]. split; [by apply select_all_nonempty|].
  apply select_all_unmixed; [done|]. by apply coherent_draft.
Qed.

Lemma removals_coherent r (plan : ResolutionRemovalPlan) :
  coherent r → NoDup plan.*1 → coherent (applyResolutionRemovalPlan r plan).
Proof.
  intros Hr Hnd m res. rewrite lookup_removal_plan by done.
  destruct (omap.get plan m) as [fs|], (r !! m) as [cur|] eqn:E; try (by intros; simplify_eq);
    [|intros [= <-]; by apply (Hr m)].
  case_bool_decide as He; [done|]. intros [= <-]. split; [done|].
  apply remove_fields_unmixed. by apply (Hr m cur).
Qed.

Lemma reachable_coherent p : reachable p → coherent (p_resolutions p).
Proof.
  induction 1 as [|[d r] a Hp IH Ho]; [by intros m res|]. cbn [p_resolutions p_differences] in *.
  destruct a as [d'|s|ss|m f|plan|]; cbn [page_step p_resolutions]; cbn in Ho.
  - by intros m res.
  - apply selections_coherent; [done|]. by constructor.
  - by apply selections_coherent.
  - apply removals_coherent; [done|]. apply NoDup_singleton.
  - by apply removals_coherent.
  - by intros m res.
Qed.

(** C38: Whatever was fetched, selected, unselected and synchronised, no model
    is resolved to nothing, to a price and a ratio at once, or to an expression
    without its billing mode. *)
Theorem resolutions_coherent p m res :
  reachable p → p_resolutions p !! m = Some res →
  res ≠ ∅
  ∧ ¬ (is_Some (res !! model_price) ∧ ∃ f, f ∈ RATIO_SYNC_FIELDS ∧ is_Some (res !! f))
  ∧ (is_Some (res !! billing_expr) → is_Some (res !! billing_mode)).
Proof.
  intros Hp Hm. destruct (reachable_coherent p Hp m res Hm) as (Hne & Hmix & Hmode).
  split_and!; [done| |done]. intros (Hprice & f & Hf & Hs). apply (Hmix f Hprice Hs).
  revert Hf. unfold RATIO_SYNC_FIELDS. rewrite !elem_of_cons, elem_of_nil. intros Hf.
  repeat (destruct Hf as [->|Hf]; [reflexivity|]). done.
Qed.

(** A page on which the price of one model was chosen, then a ratio *)
Definition demo_differences : DifferencesMap :=
  let offers (v : SyncValue) := mkDifference None [(js "up", Some v)] [] in
  [(js "m", [(model_ratio, offers (SNum (num_of_Z 2))); (model_price, offers (SNum (num_of_Z 7)))]);
   (js "n", [(billing_expr, offers (SStr (js "p * 2")))])].

Definition demo_page : Page :=
  page_step (SelectValues [mkSelection (js "m") model_price (SNum (num_of_Z 7)) (js "up");
                           mkSelection (js "m") model_ratio (SNum (num_of_Z 2)) (js "up");
                           mkSelection (js "n") billing_expr (SStr (js "p * 2")) (js "up")])
    (page_step (Fetched demo_differences) (mkPage [] ∅)).

Lemma demo_reachable : reachable demo_page.
Proof.
  apply reachable_step; [by apply reachable_step; [apply reachable_initial|]|].
  repeat (apply Forall_cons; split; [vm_compute; by eexists|]). by apply Forall_nil.
Qed.

Lemma resolutions_coherent_witness :
  ∃ res, p_resolutions demo_page !! js "n" = Some res ∧ is_Some (res !! billing_mode).
Proof.
  assert (p_resolutions demo_page !! js "n" ≫= (.!! billing_expr) = Some (SStr (js "p * 2"))) as Hexpr
    by (vm_compute; reflexivity).
  destruct (p_resolutions demo_page !! js "n") as [res|] eqn:E; [|discriminate Hexpr].
  exists res. split; [reflexivity|].
  apply (resolutions_coherent demo_page (js "n") res demo_reachable E).
  exists (SStr (js "p * 2")). exact Hexpr.
Defined.

(** * What is sent *)

Implicit Types (c : Ratios) (o : option Ratios) (F : RatioType → jstr → option SyncValue).

Definition ratio_at c f m : option SyncValue := c !! optionKeyBySyncField f ≫= (.!! m).

(** Every option is there. *)
Definition complete c : Prop := ∀ f, is_Some (c !! optionKeyBySyncField f).

(** A model has a price or ratios, not both. *)
Definition billed_once c m : Prop :=
  is_Some (ratio_at c model_price m) → ∀ f, getBillingCategory f = CatRatio → ratio_at c f m = None.

#[export] Instance optionKeyBySyncField_inj : Inj (=) (=) optionKeyBySyncField.
Proof. intros [] []; intros Hk; try reflexivity; vm_compute in Hk; discriminate Hk. Qed.

Definition gives (o : option Ratios) (F : RatioType → jstr → option SyncValue) : Prop :=
  ∃ c, o = Some c ∧ complete c ∧ ∀ f m, ratio_at c f m = F f m.

Lemma gives_ext o F G : gives o F → (∀ f m, F f m = G f m) → gives o G.
Proof. intros (c & Ho & Hc & HF) HG. exists c. split_and!; [done..|]. intros. by rewrite HF. Qed.

Lemma gives_update o F m f (h : gmap jstr SyncValue → gmap jstr SyncValue) :
  (∀ x m', m' ≠ m → h x !! m' = x !! m') →
  gives o F →
  ∃ x, F f m = x !! m ∧
  gives (c ← o; x ← c !! optionKeyBySyncField f; Some (<[optionKeyBySyncField f := h x]> c))
    (λ f' m', if decide (f' = f ∧ m' = m) then h x !! m else F f' m').
Proof.
  intros Hh (c & -> & Hc & HF). destruct (Hc f) as [x Hx]. exists x. split.
  { rewrite <- HF. unfold ratio_at. by rewrite Hx. }
  cbn [mbind option_bind]. rewrite Hx. cbn [mbind option_bind]. eexists. split; [done|]. split.
  - intros g. apply lookup_insert_is_Some'. by right.
  - intros f' m'. unfold ratio_at. destruct (decide (f' = f)) as [->|Hf].
    + rewrite lookup_insert_eq. cbn [mbind option_bind]. destruct (decide (m' = m)) as [->|Hm].
      * by rewrite decide_True.
      * rewrite decide_False by tauto. rewrite Hh by done. rewrite <- HF. unfold ratio_at. by rewrite Hx.
    + rewrite decide_False by tauto. rewrite lookup_insert_ne by (by intros ?%(inj _)). apply HF.
Qed.

(** The value that is stored for a field *)
Definition stored f (v : SyncValue) : SyncValue :=
  if bool_decide (f ∈ NUMERIC_SYNC_FIELDS) then SNum (Number_of_sync v) else v.

Lemma gives_delete o F m f :
  gives o F → gives (delete_ratio m o f) (λ f' m', if decide (f' = f ∧ m' = m) then None else F f' m').
Proof.
  intros Ho. destruct (gives_update o F m f (delete m)) as (x & Hx & Hg); [|done|].
  { intros y m' Hm. by rewrite lookup_delete_ne. }
  unfold delete_ratio. eapply gives_ext; [exact Hg|]. intros. cbn. case_decide; [|done].
  by rewrite lookup_delete_eq.
Qed.

Lemma gives_set o F m f v :
  gives o F →
  gives (set_ratio m o (f, v)) (λ f' m', if decide (f' = f ∧ m' = m) then Some (stored f v) else F f' m').
Proof.
  intros Ho. destruct (gives_update o F m f (<[m := stored f v]>)) as (x & Hx & Hg); [|done|].
  { intros y m' Hm. by rewrite lookup_insert_ne. }
  unfold set_ratio. eapply gives_ext; [exact Hg|]. intros. cbn. case_decide; [|done].
  by rewrite lookup_insert_eq.
Qed.

Lemma gives_deletes o F m fs :
  gives o F →
  gives (foldl (delete_ratio m) o fs) (λ f' m', if decide (f' ∈ fs ∧ m' = m) then None else F f' m').
Proof.
  revert o F. induction fs as [|f fs IH]; intros o F Ho; cbn [foldl].
  { eapply gives_ext; [exact Ho|]. intros. rewrite decide_False; [done|]. by intros [?%not_elem_of_nil _]. }
  eapply gives_ext; [apply IH, gives_delete, Ho|]. intros f' m'. cbn.
  repeat case_decide; set_solver.
Qed.

Lemma gives_sets o F m (es : list (RatioType * SyncValue)) :
  NoDup es.*1 → gives o F →
  gives (foldl (set_ratio m) o es)
    (λ f' m', if decide (m' = m)
              then match omap.get es f' with Some v => Some (stored f' v) | None => F f' m' end
              else F f' m').
Proof.
  revert o F. induction es as [|[f v] es IH]; intros o F Hnd Ho; cbn [foldl].
  { eapply gives_ext; [exact Ho|]. intros. by case_decide. }
  cbn in Hnd. apply NoDup_cons in Hnd as [Hf Hnd].
  eapply gives_ext; [apply IH, gives_set, Ho; done|]. intros f' m'. cbn [omap.get].
  destruct (decide (m' = m)) as [->|Hm]; [|by rewrite decide_False by tauto].
  destruct (decide (f' = f)) as [->|Hf'].
  - apply omap.get_None in Hf. rewrite Hf. by rewrite decide_True.
  - case_match; [done|]. by rewrite decide_False by tauto.
Qed.

Lemma get_map_to_list `{Countable K} {V} (x : gmap K V) (k : K) :
  omap.get (map_to_list x) k = x !! k.
Proof.
  destruct (x !! k) as [v|] eqn:E.
  - apply omap.elem_get; [apply NoDup_fst_map_to_list|]. by apply elem_of_map_to_list.
  - apply omap.get_None. intros ([k' v] & -> & He)%list_elem_of_fmap.
    apply elem_of_map_to_list in He. cbn in E. congruence.
Qed.

Definition sets_ratio (res : Resolution) : bool :=
  existsb (λ f, bool_decide (is_Some (res !! f))) RATIO_SYNC_FIELDS.

Lemma sets_ratio_true (res : Resolution) f :
  getBillingCategory f = CatRatio → is_Some (res !! f) → sets_ratio res = true.
Proof.
  intros Hf Hs. apply existsb_exists. exists f. split; [|by apply bool_decide_eq_true].
  destruct f; try done; cbn; tauto.
Qed.

(** The other kind of billing is dropped. *)
Definition dropped (res : Resolution) f : bool :=
  match getBillingCategory f with
  | CatRatio => bool_decide (is_Some (res !! model_price))
  | CatPrice => sets_ratio res
  | CatTiered => false
  end.

Definition synced (res : Resolution) f (saved : option SyncValue) : option SyncValue :=
  match res !! f with
  | Some v => Some (stored f v)
  | None => if dropped res f then None else saved
  end.

Lemma gives_sync_model o F m res :
  gives o F →
  gives (sync_model o (m, res)) (λ f' m', if decide (m' = m) then synced res f' (F f' m') else F f' m').
Proof.
  intros Ho. unfold sync_model. fold (sets_ratio res).
  set (o1 := if bool_decide _ then _ else o).
  assert (gives o1 (λ f' m', if decide (m' = m ∧ f' ∈ RATIO_SYNC_FIELDS ∧ is_Some (res !! model_price))
                             then None else F f' m')) as H1.
  { subst o1. case_bool_decide as Hp.
    - eapply gives_ext; [by apply gives_deletes|]. intros f' m'. cbn.
      destruct (decide (m' = m)), (decide (f' ∈ RATIO_SYNC_FIELDS)); repeat case_decide; tauto.
    - eapply gives_ext; [exact Ho|]. intros. rewrite decide_False; tauto. }
  clearbody o1. set (o2 := if sets_ratio res then _ else o1).
  assert (gives o2 (λ f' m', if decide (m' = m) then (if dropped res f' then None else F f' m')
                             else F f' m')) as H2.
  { subst o2. destruct (sets_ratio res) eqn:Hr.
    - eapply gives_ext; [by apply gives_delete|]. intros f' m'. cbn. unfold dropped.
      destruct (decide (m' = m)) as [->|Hm]; [|repeat (rewrite decide_False by tauto); done].
      rewrite Hr. destruct f'; cbn; repeat case_decide; repeat case_bool_decide; set_solver.
    - eapply gives_ext; [exact H1|]. intros f' m'. cbn. unfold dropped.
      destruct (decide (m' = m)) as [->|Hm]; [|by rewrite decide_False by tauto].
      rewrite Hr. destruct f'; cbn; repeat case_decide; repeat case_bool_decide; set_solver. }
  clearbody o2. eapply gives_ext; [apply gives_sets, H2; apply NoDup_fst_map_to_list|].
  intros f' m'. cbn. rewrite get_map_to_list. unfold synced. by repeat case_decide.
Qed.

Lemma gives_sync_models o F (es : list (jstr * Resolution)) :
  NoDup es.*1 → gives o F →
  gives (foldl sync_model o es)
    (λ f' m', match omap.get es m' with Some res => synced res f' (F f' m') | None => F f' m' end).
Proof.
  revert o F. induction es as [|[m res] es IH]; intros o F Hnd Ho; cbn [foldl]; [done|].
  cbn in Hnd. apply NoDup_cons in Hnd as [Hm Hnd].
  eapply gives_ext; [apply IH, gives_sync_model, Ho; done|]. intros f' m'. cbn [omap.get].
  destruct (decide (m' = m)) as [->|Hm']; [|done]. apply omap.get_None in Hm. by rewrite Hm.
Qed.

(** Applying what the page has resolved never fails, sends for every
    resolved field the chosen value and for every other the saved one, except
    that the kind of billing that was left is dropped, and so leaves every model
    billed in at most one way when that was so before. *)
Theorem sync_result p c :
  reachable p → complete c →
  ∃ c', performSync (p_resolutions p) c = Some c'
  ∧ (∀ f m, ratio_at c' f m = match p_resolutions p !! m with
                              | Some res => synced res f (ratio_at c f m)
                              | None => ratio_at c f m
                              end)
  ∧ (∀ m, billed_once c m → billed_once c' m).
Proof.
  intros Hp Hc. apply reachable_coherent in Hp.
  destruct (gives_sync_models (Some c) (ratio_at c) (map_to_list (p_resolutions p))) as (c' & Hs & _ & HF).
  { apply NoDup_fst_map_to_list. }
  { by exists c. }
  exists c'. split; [done|]. assert (∀ f m, ratio_at c' f m = match p_resolutions p !! m with
     | Some res => synced res f (ratio_at c f m) | None => ratio_at c f m end) as HF'.
  { intros f m. by rewrite HF, get_map_to_list. }
  split; [done|]. intros m Hm Hprice f Hf. revert Hprice. rewrite !HF'.
  destruct (p_resolutions p !! m) as [res|] eqn:E; [|intros; by apply Hm].
  destruct (Hp m res E) as [_ [Hmix _]]. unfold synced, dropped. rewrite Hf. cbn [getBillingCategory].
  intros Hprice. destruct (res !! f) as [v|] eqn:Ef.
  - destruct (res !! model_price) as [w|] eqn:Ep; [by destruct (Hmix f)|].
    rewrite (sets_ratio_true res f) in Hprice by done. by destruct Hprice.
  - case_bool_decide as Hp'; [done|]. destruct (res !! model_price) eqn:Ep; [by destruct Hp'|].
    destruct (sets_ratio res); [by destruct Hprice|]. by apply Hm.
Qed.

Definition demo_saved : Ratios :=
  <[js "ModelPrice" := {[js "m" := SNum (num_of_Z 5)]}]>
    (list_to_map ((λ f, (optionKeyBySyncField f, ∅)) <$> SYNC_FIELD_ORDER)).

Lemma sync_result_witness :
  ∃ c', performSync (p_resolutions demo_page) demo_saved = Some c'
        ∧ ratio_at c' model_price (js "m") = None
        ∧ ratio_at c' model_ratio (js "m") = Some (SNum (num_of_Z 2)).
Proof.
  destruct (sync_result demo_page demo_saved demo_reachable) as (c' & Hs & HF & _).
  { intros []; vm_compute; by eexists. }
  exists c'. split; [exact Hs|]. rewrite !HF. split; vm_compute; reflexivity.
Defined.

(** * Bulk selection *)

Implicit Types (rt : RatioTypes) (src flt : jstr).

(** The selections that the table makes: a field that the source itself offers,
    with the source's value *)
Definition genuine rt src s : Prop :=
  sourceName s = src ∧ upstream_value rt (ratioType s) src = Some (value s)
  ∧ isSelectableUpstreamValue (Some (value s)) = true
  ∧ getPreferredSyncField rt (ratioType s) src = ratioType s.

Lemma genuine_preferred rt src s : genuine rt src s → preferred (Some rt) s = (ratioType s, value s).
Proof.
  intros (Hsrc & _ & _ & Hp). unfold preferred. cbn [default]. rewrite Hsrc. unfold id.
  by rewrite Hp, bool_decide_true.
Qed.

Lemma genuine_resolved d rt src s :
  omap.get d (model s) = Some rt → genuine rt src s → resolveResolutionSelection d s = s.
Proof.
  intros Hd Hg. unfold resolveResolutionSelection. rewrite Hd, (genuine_preferred rt src) by done.
  by destruct s.
Qed.

(** Selecting a genuine selection stores its value. *)
Lemma select_field_value rt src s draft :
  genuine rt src s → select_field (Some rt) s draft !! ratioType s = Some (value s).
Proof.
  intros Hg. unfold select_field. rewrite (genuine_preferred rt src) by done.
  destruct Hg as (Hsrc & Hv & Hsel & _). rewrite Hsrc.
  destruct (ratioType s) eqn:Ef; cbn [getBillingCategory]; try (by rewrite lookup_insert_eq).
  - rewrite Hv, Hsel. case_match; [case_match|]; rewrite ?lookup_insert_ne by done; by rewrite lookup_insert_eq.
  - rewrite Hv, Hsel. by rewrite lookup_insert_eq.
Qed.

(** A stored value of the source survives the source's other selections. *)
Lemma select_field_preserves rt src s draft f v :
  genuine rt src s → upstream_value rt f src = Some v → isSelectableUpstreamValue (Some v) = true →
  conflicting (getBillingCategory (ratioType s)) f = false →
  draft !! f = Some v → select_field (Some rt) s draft !! f = Some v.
Proof.
  intros Hg Hv Hsel Hc Hf. unfold select_field. rewrite (genuine_preferred rt src) by done.
  destruct Hg as (Hsrc & Hs & _ & _). rewrite Hsrc.
  set (base := <[ratioType s := value s]> _).
  assert (base !! f = Some v) as Hbase.
  { subst base. destruct (decide (f = ratioType s)) as [->|Hne].
    - rewrite lookup_insert_eq. congruence.
    - rewrite lookup_insert_ne by done. by apply map_lookup_filter_Some. }
  clearbody base. destruct (getBillingCategory (ratioType s)); [done..|].
  set (base2 := match upstream_value rt billing_mode src with Some _ => _ | None => _ end).
  assert (base2 !! f = Some v) as Hbase2.
  { subst base2. destruct (decide (f = billing_mode)) as [->|Hne].
    - rewrite Hv, Hsel. by rewrite lookup_insert_eq.
    - repeat case_match; rewrite ?lookup_insert_ne by done; done. }
  clearbody base2. destruct (decide (f = billing_expr)) as [->|Hne].
  - rewrite Hv, Hsel. by rewrite lookup_insert_eq.
  - repeat case_match; rewrite ?lookup_insert_ne by done; done.
Qed.

(** ** The effective selections *)

Lemma elem_of_set {K V} `{EqDecision K} (l : list (K * V)) k v e : e ∈ omap.set l k v → e = (k, v) ∨ e ∈ l.
Proof.
  induction l as [|[k' v'] l IH]; cbn [omap.set].
  - intros ->%list_elem_of_singleton. by left.
  - case_decide; intros [->|He]%elem_of_cons; rewrite ?elem_of_cons; auto. destruct (IH He); auto.
Qed.

Lemma conflicting_sym f g :
  conflicting (getBillingCategory f) g = conflicting (getBillingCategory g) f.
Proof. by destruct f, g. Qed.

Definition compatible (es : list ResolutionSelection) : Prop :=
  ∀ e1 e2, e1 ∈ es → e2 ∈ es → model e1 = model e2 →
    conflicting (getBillingCategory (ratioType e1)) (ratioType e2) = false.

Lemma effective_selections d ss :
  Forall (λ s, resolveResolutionSelection d s = s) ss →
  (∀ e, e ∈ getEffectiveResolutionSelections d ss → e ∈ ss)
  ∧ compatible (getEffectiveResolutionSelections d ss).
Proof.
  unfold getEffectiveResolutionSelections. induction ss as [|s ss IH] using rev_ind.
  { intros _. split; [done|]. by intros e1 e2 ?%not_elem_of_nil. }
  intros [Hss [Hs _]%Forall_cons]%Forall_app. destruct (IH Hss) as [Hin Hc]. clear IH.
  rewrite foldl_app. cbn [foldl]. revert Hin Hc. generalize (foldl (add_effective d) [] ss). intros es Hin Hc.
  unfold add_effective. rewrite Hs.
  assert (∀ e, e ∈ (omap.set (filter (λ e, ¬ (model e.2 = model s
     ∧ conflicting (getBillingCategory (ratioType s)) (ratioType e.2) = true)) es)
     (model s, ratioType s) s).*2 →
     e = s ∨ (e ∈ es.*2 ∧ (model e = model s → conflicting (getBillingCategory (ratioType s)) (ratioType e) = false)))
    as Hnew.
  { intros e ([k e'] & -> & He)%list_elem_of_fmap. apply elem_of_set in He as [[= -> ->]|He]; [by left|right].
    apply list_elem_of_filter in He as [Hn He]. cbn [snd] in *. split.
    - apply list_elem_of_fmap. by exists (k, e').
    - intros Hm. by destruct (conflicting _ _) eqn:E; [destruct Hn|]. }
  split.
  - intros e [->|[He _]]%Hnew; apply elem_of_app; [right; by left|left; auto].
  - intros e1 e2 [->|[He1 H1]]%Hnew [->|[He2 H2]]%Hnew Hm.
    + by destruct (ratioType s).
    + by apply H2.
    + rewrite conflicting_sym. by apply H1.
    + by apply Hc.
Qed.

Lemma selected_values d r rt src m (es : list ResolutionSelection) s :
  omap.get d m = Some rt → Forall (λ e, model e = m → genuine rt src e) es → compatible es →
  s ∈ es → model s = m →
  applyResolutionSelections r d es !! m ≫= (.!! ratioType s) = Some (value s).
Proof.
  intros Hd Hg Hc Hs Hm. rewrite lookup_selections.
  assert (s ∈ filter (λ s, model s = m) es) as Hin by (by apply list_elem_of_filter).
  rewrite decide_False by (by intros E; rewrite E in Hin; apply not_elem_of_nil in Hin).
  cbn [mbind option_bind]. unfold select_all. rewrite Hd.
  assert (Forall (genuine rt src) (filter (λ s, model s = m) es)) as Hg'.
  { apply Forall_forall. intros e [He ?]%list_elem_of_filter. rewrite Forall_forall in Hg. by apply Hg. }
  assert (∀ e1 e2, e1 ∈ filter (λ s, model s = m) es → e2 ∈ filter (λ s, model s = m) es →
    conflicting (getBillingCategory (ratioType e1)) (ratioType e2) = false) as Hc'.
  { intros e1 e2 [??]%list_elem_of_filter [??]%list_elem_of_filter. apply Hc; congruence. }
  revert Hg' Hc' Hin. generalize (filter (λ s, model s = m) es). clear Hg Hc Hs es. intros es Hg Hc Hin.
  induction es as [|e es IH] using rev_ind; [by apply not_elem_of_nil in Hin|].
  rewrite foldl_app. cbn [foldl]. apply Forall_app in Hg as [Hg [He _]%Forall_cons].
  apply elem_of_app in Hin as [Hin| ->%list_elem_of_singleton].
  - eapply select_field_preserves; [done| | | |apply IH; [done| |done]].
    + rewrite Forall_forall in Hg. by apply Hg.
    + rewrite Forall_forall in Hg. by apply Hg.
    + apply Hc; apply elem_of_app; [right; by left|by left].
    + intros e1 e2 H1 H2. apply Hc; apply elem_of_app; by left.
  - by eapply select_field_value.
Qed.

(** ** The rows of the table *)

Definition row_of d (row : ModelRow) : Prop := omap.get d (row_model row) = Some (row_ratioTypes row).

Lemma filteredData_rows toLowerCase d search flt :
  NoDup d.*1 → Forall (row_of d) (filteredData toLowerCase d search flt).
Proof.
  intros Hnd. assert (Forall (row_of d) (dataSource d)) as Hd.
  { apply Forall_fmap, Forall_forall. intros [m rt] He. unfold row_of. cbn.
    apply omap.elem_get; [done|]. by apply elem_of_entries. }
  unfold filteredData. repeat case_match; rewrite Forall_forall in *;
    repeat setoid_rewrite list_elem_of_filter; naive_solver.
Qed.

Lemma row_selections_genuine src flt row s :
  s ∈ row_selections src flt row → model s = row_model row ∧ genuine (row_ratioTypes row) src s.
Proof.
  unfold row_selections. intros (f & Hf & Hs)%list_elem_of_omap.
  destruct (upstream_value (row_ratioTypes row) f src) as [v|] eqn:Ev; [|done].
  destruct (isSelectableUpstreamValue (Some v)) eqn:Esel; [|done]. injection Hs as <-. cbn.
  split; [done|]. split_and!; [done..|]. cbn [ratioType].
  unfold getAlignedRatioTypes in Hf. apply list_elem_of_filter in Hf as [Hf _]. cbn [foldl] in Hf.
  apply elem_of_foldl_set_add in Hf as [?%not_elem_of_nil|Hf]; [done|].
  by apply list_elem_of_filter in Hf as [Hf _].
Qed.

Definition bulk_selections (rows : list ModelRow) src flt : list ResolutionSelection :=
  rows ≫= row_selections src flt.

Lemma bulk_genuine d rows src flt s :
  Forall (row_of d) rows → s ∈ bulk_selections rows src flt →
  ∃ rt, omap.get d (model s) = Some rt ∧ genuine rt src s.
Proof.
  intros Hrows (row & Hs & Hrow)%list_elem_of_bind. apply row_selections_genuine in Hs as [-> Hg].
  rewrite Forall_forall in Hrows. exists (row_ratioTypes row). split; [by apply Hrows|done].
Qed.

Lemma bulk_effective d rows src flt :
  Forall (row_of d) rows →
  let es := getEffectiveResolutionSelections d (bulk_selections rows src flt) in
  (∀ e, e ∈ es → e ∈ bulk_selections rows src flt) ∧ compatible es.
Proof.
  intros Hrows. apply effective_selections, Forall_forall. intros s Hs.
  destruct (bulk_genuine d rows src flt s) as (rt & Hd & Hg); [done..|]. by eapply genuine_resolved.
Qed.

Lemma bulk_values d r rows src flt s :
  Forall (row_of d) rows →
  let es := getEffectiveResolutionSelections d (bulk_selections rows src flt) in
  s ∈ es → applyResolutionSelections r d es !! model s ≫= (.!! ratioType s) = Some (value s).
Proof.
  intros Hrows es Hs. destruct (bulk_effective d rows src flt Hrows) as [Hin Hc]. fold es in Hin, Hc.
  destruct (bulk_genuine d rows src flt s) as (rt & Hd & Hg); [done|by apply Hin|].
  eapply selected_values; try done. apply Forall_forall. intros e He Hm.
  destruct (bulk_genuine d rows src flt e) as (rt' & Hd' & Hg'); [done|by apply Hin|]. rewrite Hm in Hd'. by simplify_eq.
Qed.

(** ** The removal plan *)

Lemma plan_add_spec (plan : ResolutionRemovalPlan) m f m' f' :
  (∃ fs, omap.get (plan_add plan m f) m' = Some fs ∧ f' ∈ fs)
  ↔ (m = m' ∧ f = f') ∨ (∃ fs, omap.get plan m' = Some fs ∧ f' ∈ fs).
Proof.
  unfold plan_add. destruct (decide (m = m')) as [->|Hm].
  - rewrite omap.get_set_eq. destruct (omap.get plan m') as [fs|] eqn:E.
    + setoid_rewrite (inj_iff Some). split.
      * intros (? & <- & [?|?]%elem_of_set_add); [right; eauto|by left].
      * intros [[_ <-]|(? & <- & ?)]; eexists; (split; [done|]); apply elem_of_set_add; auto.
    + setoid_rewrite (inj_iff Some). split.
      * intros (? & <- & ->%list_elem_of_singleton). by left.
      * intros [[_ <-]|(? & ? & _)]; [|done]. eexists. split; [done|by left].
  - rewrite omap.get_set_ne by done. naive_solver.
Qed.

Lemma plan_of_selections (ss : list ResolutionSelection) :
  let plan := foldl (λ plan s, plan_add plan (model s) (ratioType s)) [] ss in
  NoDup plan.*1 ∧ ∀ s, s ∈ ss → ∃ fs, omap.get plan (model s) = Some fs ∧ ratioType s ∈ fs.
Proof.
  induction ss as [|s ss IH] using rev_ind; cbn zeta.
  { split; [constructor|]. by intros s ?%not_elem_of_nil. }
  rewrite foldl_app. cbn [foldl]. destruct IH as [Hnd Hin]. split; [by apply omap.NoDup_set|].
  intros s' [Hs| ->%list_elem_of_singleton]%elem_of_app; apply plan_add_spec; [right; by apply Hin|by left].
Qed.

Lemma removed_field r (plan : ResolutionRemovalPlan) m f fs :
  NoDup plan.*1 → omap.get plan m = Some fs → f ∈ fs →
  applyResolutionRemovalPlan r plan !! m ≫= (.!! f) = None.
Proof.
  intros Hnd Hm Hf. rewrite lookup_removal_plan, Hm by done.
  destruct (r !! m) as [cur|] eqn:E; [|done]. case_bool_decide; [done|]. cbn [mbind option_bind].
  rewrite lookup_remove_fields. enough (removed_by fs f = true) as -> by done.
  apply existsb_exists. exists f. split; [by apply list_elem_of_In|].
  unfold goes_with. by rewrite bool_decide_true.
Qed.

(** ** The checkboxes *)

(** Numbers that came out of JSON are finite, and the texts that stand for
    numbers are numerals. *)
Definition plain_values d : Prop :=
  ∀ m rt f src v, omap.get d m = Some rt → upstream_value rt f src = Some v →
    isSelectableUpstreamValue (Some v) = true →
    match v with
    | SNum n => isFinite n = true
    | SStr s => f ∈ NUMERIC_SYNC_FIELDS → isFinite (Number_of_string s) = true
    end.

Lemma num_eqb_refl n : isFinite n = true → num_eqb n n = true.
Proof.
  destruct n as [s|s| |s m e]; try done. intros _. unfold num_eqb, SFeqb. cbn [SFcompare].
  by destruct s; rewrite Z.compare_refl, Pos.compare_cont_refl.
Qed.

Lemma selected_shows d rt r src s :
  plain_values d → omap.get d (model s) = Some rt → genuine rt src s →
  r !! model s ≫= (.!! ratioType s) = Some (value s) →
  isSelectedResolutionValue r (model s) (ratioType s) (Some (value s)) = true.
Proof.
  intros Hp Hd (_ & Hv & Hsel & _) Hr. unfold isSelectedResolutionValue. rewrite Hsel, Hr. cbn [andb].
  specialize (Hp _ _ _ _ _ Hd Hv Hsel). case_bool_decide as Hn.
  - assert (isFinite (Number_of_sync (value s)) = true) as Hfin.
    { destruct (value s); [done|by apply Hp]. }
    by rewrite Hfin, num_eqb_refl.
  - destruct (value s) as [n|t]; cbn [sync_eqb]; [by apply num_eqb_refl|by apply bool_decide_eq_true].
Qed.

(** Ticking the box of a source selects everything it counts, so that
    the box shows as fully ticked, and unticking it then leaves nothing of it
    selected, whatever was selected before and however the table is searched and
    filtered. *)
Theorem bulk_box_truthful toLowerCase d r search flt src :
  NoDup d.*1 → plain_values d →
  let rows := filteredData toLowerCase d search flt in
  let box r := bulkSelectState d r rows flt src in
  let ticked := applyResolutionSelections r d (selections (box r)) in
  let unticked := applyResolutionRemovalPlan ticked (removalPlan (box ticked)) in
  selectedCount (box ticked) = selectableCount (box ticked) ∧ selectedCount (box unticked) = 0.
Proof.
  intros Hnd Hplain rows box ticked unticked.
  assert (Forall (row_of d) rows) as Hrows by (by apply filteredData_rows).
  destruct (bulk_effective d rows src flt Hrows) as [Hin _]. split.
  - unfold box, bulkSelectState. cbn [selectedCount selectableCount]. f_equal.
    apply filter_id, Forall_forall. intros s Hs.
    destruct (bulk_genuine d rows src flt s) as (rt & Hd & Hg); [done|by apply Hin|].
    eapply selected_shows; [done..|]. by apply bulk_values.
  - unfold box, bulkSelectState. cbn [selectedCount]. rewrite filter_none; [done|].
    apply Forall_forall. intros s Hs. apply Hin in Hs.
    destruct (plan_of_selections (bulk_selections rows src flt)) as [Hpnd Hp].
    destruct (Hp s Hs) as (fs & Hfs & Hf). unfold isSelectedResolutionValue, unticked.
    erewrite removed_field by done. by rewrite andb_false_r.
Qed.

Lemma bulk_box_truthful_witness :
  let rows := filteredData id demo_differences (js "") (js "") in
  let box r := bulkSelectState demo_differences r rows (js "") (js "up") in
  let ticked := applyResolutionSelections ∅ demo_differences (selections (box ∅)) in
  let unticked := applyResolutionRemovalPlan ticked (removalPlan (box ticked)) in
  (selectedCount (box ticked) = selectableCount (box ticked) ∧ selectedCount (box unticked) = 0)
  ∧ selectableCount (bulkSelectState demo_differences ∅ (filteredData id demo_differences (js "") (js ""))
                       (js "") (js "up")) = 2.
Proof.
  refine (conj (bulk_box_truthful id demo_differences ∅ (js "") (js "") (js "up") _ _) _).
  - apply (bool_decide_unpack _). vm_compute. exact I.
  - intros m rt f src v Hm. cbn in Hm. revert Hm.
    repeat case_decide; intros [= <-] Hv; unfold upstream_value in Hv; cbn in Hv; revert Hv;
      repeat (case_decide; cbn); intros [= <-] _; vm_compute; try reflexivity;
      subst; intros Hf; repeat (apply elem_of_cons in Hf as [Hf|Hf]; [discriminate Hf|]);
      by apply not_elem_of_nil in Hf.
  - vm_compute. reflexivity.
Defined.
