(* ===== verification/Sidebar.v ===== *)
(** The entries of the sidebar: [hooks/use-sidebar-config.ts].

    An administrator's setting decides what exists, a user's setting may hide
    more.  Both are JSON texts that may hold anything, so they are kept as
    values; reading a property of [null] or [undefined] and writing one on a
    primitive throw, which is [None]. *)

From Stdlib Require Import ZArith NArith.
From S2P Require Import Prelude JsString JsNumber JsValue.

(** * Objects *)

(** [v.k] *)
Definition get_prop (v : jsval) (k : jstr) : option jsval :=
  match v with VUndef | VNull => None | _ => Some (prop v k) end.

(** [v?.k] *)
Definition opt_prop (v : jsval) (k : jstr) : jsval := default VUndef (get_prop v k).

(** [a ?? b] *)
Definition nullish (a b : jsval) : jsval := match a with VUndef | VNull => b | _ => a end.

(** The properties that [{...v}] copies *)
Definition spread (v : jsval) : list (jstr * jsval) :=
  match v with
  | VObj o => o
  | VArr l => imap (λ i x, (digits (N.of_nat i), x)) l
  | VStr s => imap (λ i c, (digits (N.of_nat i), VStr [c])) s
  | _ => []
  end.

(** [{...o, ...o']}] *)
Definition merge_props (o o' : list (jstr * jsval)) : list (jstr * jsval) :=
  foldl (λ o e, omap.set o e.1 e.2) o o'.

(** [v.k = x] in strict mode; an array keeps its elements as numbered
    properties. *)
Definition set_prop (v : jsval) (k : jstr) (x : jsval) : option jsval :=
  match v with
  | VObj _ | VArr _ => Some (VObj (omap.set (spread v) k x))
  | _ => None
  end.

Definition delete_prop (v : jsval) (k : jstr) : jsval :=
  match v with VObj o => VObj (filter (λ e, e.1 ≠ k) o) | _ => v end.

(** * Settings *)

Definition all_on (ks : list jstr) : list (jstr * jsval) := (λ k, (k, VBool true)) <$> ks.

Definition DEFAULT_SIDEBAR_MODULES : list (jstr * list (jstr * jsval)) :=
  [(js "chat", all_on [js "enabled"; js "playground"; js "canvas"; js "chat"]);
   (js "console",
     all_on [js "enabled"; js "detail"; js "token"; js "log"; js "midjourney"; js "task"]
     ++ [(js "channel_status", VBool false)]);
   (js "personal",
     all_on [js "enabled"; js "topup"; js "subscription"; js "subscription_usage"; js "affiliate";
             js "affiliate_cdk"; js "personal"]);
   (js "admin",
     all_on [js "enabled"; js "channel"; js "channel_monitor"; js "models"; js "redemption"; js "user";
             js "setting"; js "subscription"; js "affiliate"])].

Definition default_config : jsval := VObj ((λ '(k, s), (k, VObj s)) <$> DEFAULT_SIDEBAR_MODULES).

Definition merge_section (merged : list (jstr * jsval)) (e : jstr * list (jstr * jsval))
    : list (jstr * jsval) :=
  let '(sectionKey, defaultSection) := e in
  let existingSection := default VUndef (omap.get merged sectionKey) in
  if negb (truthy_val existingSection) then omap.set merged sectionKey (VObj defaultSection)
  else
    let section := merge_props defaultSection (spread existingSection) in
    let section :=
      foldl (λ section d,
        match omap.get section d.1 with
        | None | Some VUndef => omap.set section d.1 d.2
        | Some _ => section
        end) section defaultSection in
    omap.set merged sectionKey (VObj section).

Definition mergeWithDefaultSidebarModules (config : jsval) : jsval :=
  VObj (foldl merge_section (spread config) DEFAULT_SIDEBAR_MODULES).

(** The settings of older versions: the channel status was a personal module,
    and subscriptions went with the wallet. *)
Definition migrate_channel_status (config : jsval) : option jsval :=
  personal ← get_prop config (js "personal");
  let personalChannelStatus := opt_prop personal (js "channel_status") in
  if bool_decide (personalChannelStatus = VUndef) then Some config
  else
    console ← get_prop config (js "console");
    let consoleSection := nullish console (VObj [(js "enabled", VBool true)]) in
    status ← get_prop consoleSection (js "channel_status");
    config ← set_prop config (js "console")
               (VObj (omap.set (spread consoleSection) (js "channel_status")
                        (nullish status personalChannelStatus)));
    set_prop config (js "personal") (delete_prop personal (js "channel_status")).

Definition migrateSidebarModulesConfig (config : jsval) : option jsval :=
  config ← migrate_channel_status config;
  personal ← get_prop config (js "personal");
  let personalSection := nullish personal (VObj (all_on [js "enabled"; js "topup"])) in
  personalSection ←
    (if bool_decide (prop personalSection (js "subscription") = VUndef) then
       set_prop personalSection (js "subscription")
         (VBool (negb (bool_decide (prop personalSection (js "topup") = VBool false))))
     else Some personalSection);
  set_prop config (js "personal") personalSection.

Definition parseSidebarConfig (value : option jstr) : jsval :=
  match value with
  | None => default_config
  | Some text =>
      if negb (truthy text) || negb (truthy (trim text)) then default_config
      else
        default default_config
          (parsed ← JSON_parse text; config ← migrateSidebarModulesConfig parsed;
           Some (mergeWithDefaultSidebarModules config))
  end.

(** [None] is [null]: do not narrow. *)
Definition parseUserSidebarConfig (value : option jstr) : option jsval :=
  text ← value;
  if negb (truthy text) || negb (truthy (trim text)) then None
  else
    parsed ← JSON_parse text;
    if negb (truthy_val parsed) || negb (typeof_object parsed) then None
    else migrateSidebarModulesConfig parsed.

(** * Entries *)

Definition URL_TO_CONFIG_MAP : list (jstr * (jstr * jstr)) :=
  [(js "/playground", (js "chat", js "playground"));
   (js "/canvas", (js "chat", js "canvas"));
   (js "/dashboard", (js "console", js "detail"));
   (js "/dashboard/overview", (js "console", js "detail"));
   (js "/dashboard/models", (js "console", js "detail"));
   (js "/dashboard/users", (js "console", js "detail"));
   (js "/keys", (js "console", js "token"));
   (js "/usage-logs", (js "console", js "log"));
   (js "/usage-logs/common", (js "console", js "log"));
   (js "/usage-logs/drawing", (js "console", js "midjourney"));
   (js "/usage-logs/task", (js "console", js "task"));
   (js "/channel-status", (js "console", js "channel_status"));
   (js "/wallet", (js "personal", js "topup"));
   (js "/subscription-plans", (js "personal", js "subscription"));
   (js "/subscription-usage", (js "personal", js "subscription_usage"));
   (js "/affiliate", (js "personal", js "affiliate"));
   (js "/affiliate-cdk", (js "personal", js "affiliate_cdk"));
   (js "/profile", (js "personal", js "personal"));
   (js "/channels", (js "admin", js "channel"));
   (js "/video-accounts", (js "admin", js "channel"));
   (js "/channel-monitors", (js "admin", js "channel_monitor"));
   (js "/models", (js "admin", js "models"));
   (js "/models/metadata", (js "admin", js "models"));
   (js "/models/deployments", (js "admin", js "models"));
   (js "/users", (js "admin", js "user"));
   (js "/redemption-codes", (js "admin", js "redemption"));
   (js "/subscriptions", (js "admin", js "subscription"));
   (js "/affiliate-commissions", (js "admin", js "affiliate"));
   (js "/system-settings", (js "admin", js "setting"));
   (js "/system-settings/site", (js "admin", js "setting"))].

(** The two layers of a section and a module *)
Definition admin_allows (adminConfig : jsval) (section module : jstr) : bool :=
  let adminSection := prop adminConfig section in
  truthy_val adminSection && truthy_val (opt_prop adminSection (js "enabled"))
  && bool_decide (opt_prop adminSection module = VBool true).

Definition user_allows (userConfig : option jsval) (section module : jstr) : bool :=
  match userConfig with
  | None => true
  | Some u =>
      let userSection := prop u section in
      if negb (truthy_val userSection) then true
      else if bool_decide (opt_prop userSection (js "enabled") = VBool false) then false
      else negb (bool_decide (opt_prop userSection module = VBool false))
  end.

Definition isModuleEnabled (url : jstr) (adminConfig : jsval) (userConfig : option jsval)
    (canAccessAffiliateCdkModule : bool) : bool :=
  if bool_decide (url = js "/affiliate-cdk") && negb canAccessAffiliateCdkModule then false
  else
    match omap.get URL_TO_CONFIG_MAP url with
    | None => true
    | Some (section, module) =>
        if negb (admin_allows adminConfig section module) then false
        else user_allows userConfig section module
    end.

(** A sub-item of a collapsible item, with the part that does not matter here
    as its title *)
Record NavSubItem := mkSub { sub_title : jstr; sub_url : jstr }.

Inductive NavItem :=
  | NavLink (title url : jstr) (configUrls : option (list jstr))
  | NavCollapsible (title : jstr) (items : list NavSubItem)
  | NavChatPresets (title : jstr).

Record NavGroup := mkGroup {
  group_title : jstr;
  group_items : list NavItem;
}.

Section visible.
Context (adminConfig : jsval) (userConfig : option jsval) (canAccessAffiliateCdkModule : bool).

Abbreviation enabled url := (isModuleEnabled url adminConfig userConfig canAccessAffiliateCdkModule).

Definition isNavItemVisible (item : NavItem) : bool :=
  match item with
  | NavChatPresets _ =>
      admin_allows adminConfig (js "chat") (js "chat") && user_allows userConfig (js "chat") (js "chat")
  | NavLink _ url configUrls =>
      if truthy url then existsb (λ url, enabled url) (default [url] configUrls) else true
  | NavCollapsible _ items => existsb (λ sub, enabled (sub_url sub)) items
  end.

Definition filterNavItems (items : list NavItem) : list NavItem :=
  filter (λ item, isNavItemVisible item = true)
    ((λ item,
        match item with
        | NavCollapsible title items =>
            NavCollapsible title (filter (λ sub, enabled (sub_url sub) = true) items)
        | _ => item
        end) <$> items).

Definition filterNavGroups (navGroups : list NavGroup) : list NavGroup :=
  filter (λ g, group_items g ≠ [])
    ((λ g, mkGroup (group_title g) (filterNavItems (group_items g))) <$> navGroups).
End visible.

(** What the hook reads of the status and of the signed-in user *)
Record SidebarInput := mkInput {
  SidebarModulesAdmin : option jstr;
  affiliate_cdk_open_to_all : jsval;
  sidebar_settings : jsval;
  sidebar_modules : option jstr;
  affiliate_cdk_enabled : jsval;
}.

Definition user_config (i : SidebarInput) : option jsval :=
  if bool_decide (sidebar_settings i = VBool false) then None else parseUserSidebarConfig (sidebar_modules i).

Definition can_access_cdk (i : SidebarInput) : bool :=
  bool_decide (affiliate_cdk_open_to_all i = VBool true) || bool_decide (affiliate_cdk_enabled i = VBool true).

Definition useSidebarConfig (i : SidebarInput) (navGroups : list NavGroup) : list NavGroup :=
  filterNavGroups (parseSidebarConfig (SidebarModulesAdmin i)) (user_config i) (can_access_cdk i) navGroups.

Definition useIsSidebarModuleVisible (i : SidebarInput) (url : jstr) : bool :=
  isModuleEnabled url (parseSidebarConfig (SidebarModulesAdmin i)) (user_config i) (can_access_cdk i).
