(* ===== verification/SidebarProps.v ===== *)
(** Properties of the sidebar: exactly the enabled entries are shown, a user's
    setting only hides, and settings that are missing fall back to the defaults. *)

From Stdlib Require Import ZArith NArith.
From S2P Require Import Prelude JsString JsNumber JsValue Sidebar.

(** * What is shown *)

(** The entries one can see: a link with the addresses that decide about it, a
    sub-item below the title of its item, the list of chat presets *)
Inductive SidebarEntry :=
  | EntryLink (title url : jstr) (configUrls : option (list jstr))
  | EntrySub (parent : jstr) (sub : NavSubItem)
  | EntryPresets (title : jstr).

Definition item_entries (item : NavItem) : list SidebarEntry :=
  match item with
  | NavLink title url configUrls => [EntryLink title url configUrls]
  | NavCollapsible title items => EntrySub title <$> items
  | NavChatPresets title => [EntryPresets title]
  end.

(** With the title of the group they are in *)
Definition group_entries (g : NavGroup) : list (jstr * SidebarEntry) :=
  (λ e, (group_title g, e)) <$> (group_items g ≫= item_entries).

(** The input without the user's own setting *)
Definition drop_user (i : SidebarInput) : SidebarInput :=
  mkInput (SidebarModulesAdmin i) (affiliate_cdk_open_to_all i) (sidebar_settings i) None
    (affiliate_cdk_enabled i).

(** ** When an entry is enabled *)

(** The administrator's section is on and sets the module to [true]. *)
Definition admin_on (A : jsval) (section module : jstr) : Prop :=
  truthy_val (prop A section) = true
  ∧ truthy_val (opt_prop (prop A section) (js "enabled")) = true
  ∧ opt_prop (prop A section) module = VBool true.

(** The user has a setting with this section, and it sets the section or the
    module to [false]. *)
Definition user_hides (U : option jsval) (section module : jstr) : Prop :=
  match U with
  | None => False
  | Some u =>
      truthy_val (prop u section) = true
      ∧ (opt_prop (prop u section) (js "enabled") = VBool false
         ∨ opt_prop (prop u section) module = VBool false)
  end.

Definition module_on A U section module : Prop :=
  admin_on A section module ∧ ¬ user_hides U section module.

(** An address without a module is always on. *)
Definition url_on A U (can : bool) (url : jstr) : Prop :=
  (url = js "/affiliate-cdk" → can = true)
  ∧ match omap.get URL_TO_CONFIG_MAP url with
    | Some (section, module) => module_on A U section module
    | None => True
    end.

(** A link is on with any of the addresses that decide about it. *)
Definition entry_on A U can (e : SidebarEntry) : Prop :=
  match e with
  | EntryLink _ url configUrls => url = [] ∨ Exists (url_on A U can) (default [url] configUrls)
  | EntrySub _ sub => url_on A U can (sub_url sub)
  | EntryPresets _ => module_on A U (js "chat") (js "chat")
  end.

#[export] Instance user_hides_dec U s m : Decision (user_hides U s m).
Proof. destruct U; apply _. Defined.

#[export] Instance url_on_dec A U can url : Decision (url_on A U can url).
Proof.
  unfold url_on, module_on, admin_on. destruct (omap.get _ _) as [[]|]; apply _.
Defined.

#[export] Instance entry_on_dec A U can e : Decision (entry_on A U can e).
Proof. destruct e; unfold entry_on, module_on, admin_on; apply _. Defined.

(** What the administrator has switched off *)
Definition switched_off A (e : SidebarEntry) : Prop :=
  let off url := ∃ section module,
    omap.get URL_TO_CONFIG_MAP url = Some (section, module) ∧ ¬ admin_on A section module in
  match e with
  | EntryLink _ url configUrls => url ≠ [] ∧ Forall off (default [url] configUrls)
  | EntrySub _ sub => off (sub_url sub)
  | EntryPresets _ => ¬ admin_on A (js "chat") (js "chat")
  end.

Section filters.
Context (A : jsval) (U : option jsval) (can : bool).

Lemma module_on_iff section module :
  admin_allows A section module && user_allows U section module = true ↔ module_on A U section module.
Proof.
  unfold admin_allows, user_allows, module_on, admin_on, user_hides.
  rewrite !andb_true_iff, bool_decide_eq_true.
  destruct U as [u|]; [|naive_solver].
  destruct (truthy_val (prop u section)); cbn [negb]; [|naive_solver].
  repeat case_bool_decide; cbn; naive_solver.
Qed.

Lemma url_on_iff url : isModuleEnabled url A U can = true ↔ url_on A U can url.
Proof.
  unfold isModuleEnabled, url_on. case_bool_decide as Hu; cbn [andb].
  - destruct can; cbn [negb]; [|by split; [|intros [H _]; discriminate (H Hu)]].
    destruct (omap.get _ _) as [[s m]|]; [|done].
    rewrite <- module_on_iff. destruct (admin_allows A s m); cbn; naive_solver.
  - destruct (omap.get _ _) as [[s m]|]; [|done].
    rewrite <- module_on_iff. destruct (admin_allows A s m); cbn; naive_solver.
Qed.

Lemma existsb_url_on urls :
  existsb (λ url, isModuleEnabled url A U can) urls = true ↔ Exists (url_on A U can) urls.
Proof.
  induction urls as [|url urls IH]; cbn; [by rewrite Exists_nil|].
  by rewrite orb_true_iff, Exists_cons, IH, url_on_iff.
Qed.

Lemma sub_items_on title (items : list NavSubItem) :
  filter (entry_on A U can) (EntrySub title <$> items)
  = EntrySub title <$> filter (λ sub, isModuleEnabled (sub_url sub) A U can = true) items.
Proof.
  induction items as [|s items IH]; [done|]. rewrite fmap_cons, !filter_cons, IH.
  assert (entry_on A U can (EntrySub title s) ↔ isModuleEnabled (sub_url s) A U can = true)
    by (by rewrite url_on_iff).
  repeat case_decide; try done; naive_solver.
Qed.

Lemma filterNavItems_entries items :
  filterNavItems A U can items ≫= item_entries = filter (entry_on A U can) (items ≫= item_entries).
Proof.
  unfold filterNavItems. induction items as [|item items IH]; [done|].
  rewrite fmap_cons, filter_cons, bind_cons, filter_app, <- IH. clear IH.
  destruct item as [t url cs|t subs|t]; cbn [item_entries].
  - assert (isNavItemVisible A U can (NavLink t url cs) = true ↔ entry_on A U can (EntryLink t url cs)) as Hv.
    { cbn [isNavItemVisible entry_on]. rewrite <- existsb_url_on. destruct url; cbn; naive_solver. }
    rewrite filter_cons, filter_nil. repeat case_decide; try (by rewrite bind_cons); naive_solver.
  - rewrite sub_items_on. case_decide as Hv; [by rewrite bind_cons|].
    destruct (filter _ subs) as [|s l] eqn:E; [done|]. destruct Hv. cbn [isNavItemVisible existsb].
    assert (s ∈ filter (λ sub, isModuleEnabled (sub_url sub) A U can = true) subs)
      as [-> _]%list_elem_of_filter by (rewrite E; left). done.
  - assert (isNavItemVisible A U can (NavChatPresets t) = true ↔ entry_on A U can (EntryPresets t)) as Hv
      by apply module_on_iff.
    rewrite filter_cons, filter_nil. repeat case_decide; try (by rewrite bind_cons); naive_solver.
Qed.

Lemma group_entries_filter g :
  group_entries (mkGroup (group_title g) (filterNavItems A U can (group_items g)))
  = filter (λ x, entry_on A U can x.2) (group_entries g).
Proof.
  unfold group_entries. cbn [group_items group_title]. rewrite filterNavItems_entries.
  induction (group_items g ≫= item_entries) as [|e l IH]; [done|].
  rewrite fmap_cons, !filter_cons. cbn [snd]. case_decide; by rewrite ?fmap_cons, IH.
Qed.

Lemma filterNavGroups_entries gs :
  filterNavGroups A U can gs ≫= group_entries
  = filter (λ x, entry_on A U can x.2) (gs ≫= group_entries).
Proof.
  unfold filterNavGroups. induction gs as [|g gs IH]; [done|].
  rewrite fmap_cons, filter_cons, bind_cons, filter_app, <- IH, <- group_entries_filter.
  case_decide as Hne; [done|]. cbn [group_items] in Hne. by rewrite Hne.
Qed.

Lemma filterNavGroups_nonempty gs g :
  g ∈ filterNavGroups A U can gs →
  group_items g ≠ [] ∧ ∀ t, NavCollapsible t [] ∉ group_items g.
Proof.
  unfold filterNavGroups. intros [Hne (g' & -> & Hg')%list_elem_of_fmap]%list_elem_of_filter.
  split; [done|]. cbn [group_items]. intros t [Hv _]%list_elem_of_filter. done.
Qed.

Lemma entry_on_without_user e : entry_on A U can e → entry_on A None can e.
Proof.
  assert (∀ url, url_on A U can url → url_on A None can url) as H.
  { intros url [Hc Hm]. split; [done|]. destruct (omap.get _ _) as [[s m]|]; [|done].
    destruct Hm as [? _]. by split; [|intros []]. }
  destruct e; cbn; [|apply H|by intros [? _]; split; [|intros []]].
  intros [?|?]; [by left|right; eauto using Exists_impl].
Qed.

Lemma switched_off_not_on e : switched_off A e → ¬ entry_on A U can e.
Proof.
  assert (∀ url, (∃ s m, omap.get URL_TO_CONFIG_MAP url = Some (s, m) ∧ ¬ admin_on A s m) →
                 ¬ url_on A U can url) as H.
  { intros url (s & m & E & Hoff) [_ Hm]. rewrite E in Hm. by destruct Hm. }
  destruct e as [t url cs|p sub|t]; cbn; [|by apply H|by intros Hoff [? _]].
  intros [Hne Hoff] [?|(c & Hc & Hon)%Exists_exists]; [done|].
  rewrite Forall_forall in Hoff. exact (H c (Hoff c Hc) Hon).
Qed.
End filters.

(** C39: the sidebar shows exactly the entries that are enabled, each under the
    title of its group and in the given order: a link when one of the addresses
    that decide about it (its [configUrls], else its own) is on, or when it has no
    address; a sub-item when its address is on; the chat presets when the module
    for chats is on.  A module is on when the administrator's section is on and
    sets it to [true] and the user's setting does not set the section or the module
    to [false].  No group and no collapsible item is shown empty; a user's setting
    only hides; and an entry the administrator switched off is shown to nobody. *)
Theorem sidebar_shows_enabled i gs :
  let A := parseSidebarConfig (SidebarModulesAdmin i) in
  useSidebarConfig i gs ≫= group_entries
    = filter (λ x, entry_on A (user_config i) (can_access_cdk i) x.2) (gs ≫= group_entries)
  ∧ (∀ url, useIsSidebarModuleVisible i url = true ↔ url_on A (user_config i) (can_access_cdk i) url)
  ∧ (∀ g, g ∈ useSidebarConfig i gs → group_items g ≠ [] ∧ ∀ t, NavCollapsible t [] ∉ group_items g)
  ∧ (useSidebarConfig i gs ≫= group_entries) `sublist_of` (useSidebarConfig (drop_user i) gs ≫= group_entries)
  ∧ (∀ x, switched_off A x.2 → x ∉ useSidebarConfig i gs ≫= group_entries).
Proof.
  intros A. unfold useSidebarConfig. fold A. rewrite !filterNavGroups_entries. split_and!; [done| | | |].
  - intros url. apply url_on_iff.
  - intros g. apply filterNavGroups_nonempty.
  - assert (user_config (drop_user i) = None) as -> by (unfold user_config; by case_bool_decide).
    change (can_access_cdk (drop_user i)) with (can_access_cdk i).
    change (parseSidebarConfig (SidebarModulesAdmin (drop_user i))) with A.
    induction (gs ≫= group_entries) as [|x l IH]; [done|]. rewrite !filter_cons.
    pose proof (entry_on_without_user A (user_config i) (can_access_cdk i) x.2).
    repeat case_decide; [by constructor|naive_solver|by constructor|done].
  - intros x Hoff [Hon _]%list_elem_of_filter. by eapply switched_off_not_on.
Qed.

(** * Settings

    The setting of a module in a configuration, [undefined] when it is not
    given. *)

Implicit Types (o p : list (jstr * jsval)) (s m : jstr).

Definition setting o s m : jsval := prop (default VUndef (omap.get o s)) m.

Definition bools o : Prop := NoDup o.*1 ∧ ∀ m v, omap.get o m = Some v → ∃ b, v = VBool b.

(** A configuration as the type declares it: sections of booleans *)
Definition well_formed o : Prop := ∀ s v, omap.get o s = Some v → ∃ p, v = VObj p ∧ bools p.

Lemma get_filter_ne o k k' :
  omap.get (filter (λ e, e.1 ≠ k) o) k' = if decide (k = k') then None else omap.get o k'.
Proof.
  induction o as [|[k1 v] o IH]; [by case_decide|]. rewrite filter_cons. cbn [fst omap.get].
  destruct (decide (k1 = k)) as [->|Hk].
  - rewrite decide_False by (intros Hn; by apply Hn). rewrite IH.
    destruct (decide (k = k')) as [->|]; [done|]. by rewrite decide_False by congruence.
  - rewrite decide_True by done. cbn [omap.get]. rewrite IH. repeat case_decide; congruence.
Qed.

Lemma get_set o k v k' : omap.get (omap.set o k v) k' = if decide (k = k') then Some v else omap.get o k'.
Proof. case_decide; subst; [apply omap.get_set_eq|by apply omap.get_set_ne]. Qed.

Lemma bools_set p m (b : bool) : bools p → bools (omap.set p m (VBool b)).
Proof.
  intros [Hnd Hb]. split; [by apply omap.NoDup_set|]. intros m' v. rewrite get_set.
  case_decide; [intros [= <-]; by eexists|apply Hb].
Qed.

Lemma bools_delete p m : bools p → bools (filter (λ e, e.1 ≠ m) p).
Proof.
  intros [Hnd Hb]. split.
  - assert (filter (λ e : jstr * jsval, e.1 ≠ m) p `sublist_of` p) as Hs by apply sublist_filter.
    eapply sublist_NoDup; [exact Hnd|by apply fmap_sublist].
  - intros m' v. rewrite get_filter_ne. case_decide; [done|apply Hb].
Qed.

Lemma well_formed_set o s p : well_formed o → bools p → well_formed (omap.set o s (VObj p)).
Proof.
  intros Ho Hp s' v. rewrite get_set. case_decide; [|apply Ho]. intros [= <-]. by exists p.
Qed.

Lemma setting_set o s p s' m :
  setting (omap.set o s (VObj p)) s' m
  = if decide (s = s') then default VUndef (omap.get p m) else setting o s' m.
Proof. unfold setting. rewrite get_set. by case_decide. Qed.

(** The section of a well-formed configuration, empty when it is absent *)
Lemma section_cases o s :
  well_formed o →
  (omap.get o s = None ∧ ∀ m, setting o s m = VUndef)
  ∨ ∃ p, omap.get o s = Some (VObj p) ∧ bools p ∧ ∀ m, setting o s m = default VUndef (omap.get p m).
Proof.
  intros Ho. unfold setting. destruct (omap.get o s) as [v|] eqn:E; [right|by left].
  destruct (Ho s v E) as (p & -> & Hp). by exists p.
Qed.

Lemma setting_bool o s m : well_formed o → setting o s m ≠ VUndef → ∃ b, setting o s m = VBool b.
Proof.
  intros Ho Hs. destruct (section_cases o s Ho) as [[_ Hn]|(p & _ & [_ Hp] & Hn)]; rewrite Hn in *; [done|].
  destruct (omap.get p m) as [v|] eqn:E; [by apply (Hp m)|done].
Qed.

(** ** Migration *)

Lemma console_not_personal : js "console" ≠ js "personal".
Proof. by vm_compute. Qed.

(** A setting that was not touched, or that was missing and is switched on with
    its section *)
Definition kept o o' s m : Prop :=
  setting o' s m = setting o s m
  ∨ ((m = js "enabled" ∨ m = js "topup") ∧ setting o s m = VUndef ∧ setting o' s m = VBool true).

Lemma get_all_on ks m : omap.get (all_on ks) m = if decide (m ∈ ks) then Some (VBool true) else None.
Proof.
  unfold all_on. induction ks as [|k ks IH]; [by rewrite decide_False by apply not_elem_of_nil|].
  rewrite fmap_cons. cbn [omap.get]. rewrite IH. destruct (decide (m = k)) as [->|Hm].
  - rewrite decide_True; [done|]. left.
  - destruct (decide (m ∈ ks)).
    + rewrite decide_True; [done|]. by right.
    + rewrite decide_False; [done|]. by rewrite not_elem_of_cons.
Qed.

(** A section, or the one that is made when it is absent *)
Lemma section_or o s ks :
  well_formed o → NoDup ks →
  ∃ q, nullish (default VUndef (omap.get o s)) (VObj (all_on ks)) = VObj q ∧ bools q
  ∧ ∀ m, default VUndef (omap.get q m) = setting o s m
         ∨ (m ∈ ks ∧ setting o s m = VUndef ∧ default VUndef (omap.get q m) = VBool true).
Proof.
  intros Ho Hks. destruct (section_cases o s Ho) as [[E Hn]|(q & E & Hq & Hsq)]; rewrite E.
  - exists (all_on ks). split; [done|]. split.
    + split; [|intros m v; rewrite get_all_on; case_decide; [|done]; intros [= <-]; by eexists].
      unfold all_on. rewrite <- list_fmap_compose. cbn. by rewrite list_fmap_id.
    + intros m. rewrite Hn, get_all_on. case_decide; [by right|by left].
  - exists q. split_and!; [done..|]. intros m. left. by rewrite Hsq.
Qed.

Lemma migrate_channel_status_spec o :
  well_formed o →
  ∃ o', migrate_channel_status (VObj o) = Some (VObj o') ∧ well_formed o'
  ∧ (∀ s m, m ≠ js "channel_status" → kept o o' s m)
  ∧ setting o' (js "console") (js "channel_status")
    = (if decide (setting o (js "console") (js "channel_status") = VUndef)
       then setting o (js "personal") (js "channel_status")
       else setting o (js "console") (js "channel_status")).
Proof.
  intros Ho. unfold migrate_channel_status. cbn [get_prop mbind option_bind prop].
  assert (opt_prop (default VUndef (omap.get o (js "personal"))) (js "channel_status")
          = setting o (js "personal") (js "channel_status")) as ->.
  { unfold setting, opt_prop. destruct (omap.get o (js "personal")) as [[]|]; done. }
  case_bool_decide as Hpcs.
  { exists o. split_and!; [done|done|by left|]. case_decide; congruence. }
  destruct (setting_bool o _ _ Ho Hpcs) as [b Hb]. rewrite Hb.
  destruct (section_cases o (js "personal") Ho) as [[_ Hn]|(p & Ep & Hp & Hsp)]; [by rewrite Hn in Hpcs|].
  rewrite Ep. cbn [default id delete_prop].
  change [(js "enabled", VBool true)] with (all_on [js "enabled"]).
  destruct (section_or o (js "console") [js "enabled"] Ho (NoDup_singleton _)) as (q & -> & Hq & Hsq).
  cbn [get_prop mbind option_bind prop set_prop spread].
  assert (nullish (default VUndef (omap.get q (js "channel_status"))) (VBool b)
          = if decide (setting o (js "console") (js "channel_status") = VUndef) then VBool b
            else setting o (js "console") (js "channel_status")) as Hstatus.
  { destruct (Hsq (js "channel_status")) as [E|[E%list_elem_of_singleton _]]; [rewrite E|by vm_compute in E].
    case_decide as Hd; [by rewrite Hd|]. by destruct (setting_bool o _ _ Ho Hd) as [b' ->]. }
  rewrite Hstatus. clear Hstatus.
  assert (∃ b', (if decide (setting o (js "console") (js "channel_status") = VUndef) then VBool b
            else setting o (js "console") (js "channel_status")) = VBool b') as [b' Hb'].
  { case_decide as Hd; [by eexists|by apply setting_bool]. }
  rewrite Hb'. eexists. split; [reflexivity|]. split_and!.
  - by apply well_formed_set; [apply well_formed_set; [|apply bools_set]|apply bools_delete].
  - intros s m Hm. unfold kept. rewrite !setting_set, get_filter_ne, get_set.
    rewrite !(decide_False (P := js "channel_status" = m)) by done.
    destruct (decide (js "personal" = s)) as [<-|]; [left; by rewrite Hsp|].
    destruct (decide (js "console" = s)) as [<-|]; [|by left].
    destruct (Hsq m) as [->|(->%list_elem_of_singleton & Hu & ->)]; [by left|right; by auto].
  - rewrite !setting_set, get_set. rewrite decide_False by (intros E; by apply console_not_personal).
    by rewrite !decide_True.
Qed.

Definition subscription_setting o : jsval :=
  if decide (setting o (js "personal") (js "subscription") = VUndef)
  then VBool (negb (bool_decide (setting o (js "personal") (js "topup") = VBool false)))
  else setting o (js "personal") (js "subscription").

Definition channel_status_setting o : jsval :=
  if decide (setting o (js "console") (js "channel_status") = VUndef)
  then setting o (js "personal") (js "channel_status")
  else setting o (js "console") (js "channel_status").

Lemma kept_trans o o1 o2 s m : kept o o1 s m → kept o1 o2 s m → kept o o2 s m.
Proof.
  unfold kept. intros [E|(Hm & Hu & E)] [E'|(Hm' & Hu' & E')]; [left|right|right|]; try congruence;
    (split_and!; [done|congruence|congruence]).
Qed.

Lemma migrate_spec o :
  well_formed o →
  ∃ o', migrateSidebarModulesConfig (VObj o) = Some (VObj o') ∧ well_formed o'
  ∧ (∀ s m, m ≠ js "channel_status" → (s = js "personal" → m ≠ js "subscription") → kept o o' s m)
  ∧ setting o' (js "console") (js "channel_status") = channel_status_setting o
  ∧ setting o' (js "personal") (js "subscription") = subscription_setting o.
Proof.
  intros Ho. destruct (migrate_channel_status_spec o Ho) as (o1 & E1 & Ho1 & Hk & Hcs).
  unfold migrateSidebarModulesConfig. rewrite E1. cbn [mbind option_bind get_prop prop].
  assert (NoDup [js "enabled"; js "topup"]) as Hnd by (apply (bool_decide_unpack _); by vm_compute).
  destruct (section_or o1 (js "personal") _ Ho1 Hnd) as (q & -> & Hq & Hsq). clear Hnd.
  assert (∀ m, default VUndef (omap.get q m) = setting o (js "personal") m
     ∨ ((m = js "enabled" ∨ m = js "topup") ∧ setting o (js "personal") m = VUndef
        ∧ default VUndef (omap.get q m) = VBool true) ∨ m = js "channel_status") as Hsq'.
  { intros m. destruct (decide (m = js "channel_status")) as [Hm|Hm]; [by auto|].
    destruct (Hk (js "personal") m Hm) as [E|(? & ? & E)], (Hsq m) as [E'|(Hin & ? & E')];
      rewrite ?E', ?E in *; [by left|right; left|by auto|congruence].
    split_and!; [|congruence|done]. apply elem_of_cons in Hin as [->| ->%list_elem_of_singleton]; auto. }
  assert (default VUndef (omap.get q (js "subscription")) = setting o (js "personal") (js "subscription"))
    as Hsub.
  { destruct (Hsq' (js "subscription")) as [E|[[[E|E] _]|E]]; [done|by vm_compute in E..]. }
  assert (bool_decide (default VUndef (omap.get q (js "topup")) = VBool false)
          = bool_decide (setting o (js "personal") (js "topup") = VBool false)) as Htop.
  { destruct (Hsq' (js "topup")) as [E|[(_ & E & E')|E]]; [by rewrite E|by rewrite E, E'|by vm_compute in E]. }
  cbn [prop]. rewrite Hsub, Htop. cbn [set_prop spread].
  assert (∃ q', (if bool_decide (setting o (js "personal") (js "subscription") = VUndef)
     then Some (VObj (omap.set q (js "subscription")
            (VBool (negb (bool_decide (setting o (js "personal") (js "topup") = VBool false))))))
     else Some (VObj q)) = Some (VObj q') ∧ bools q'
     ∧ default VUndef (omap.get q' (js "subscription")) = subscription_setting o
     ∧ ∀ m, m ≠ js "subscription" → omap.get q' m = omap.get q m) as (q' & -> & Hq' & Hs' & Hm').
  { unfold subscription_setting.
    destruct (bool_decide_reflect (setting o (js "personal") (js "subscription") = VUndef)) as [Hd|Hd].
    - eexists. split_and!; [reflexivity|by apply bools_set| |].
      + by rewrite get_set, !decide_True.
      + intros m Hm. by rewrite get_set, decide_False.
    - exists q. rewrite decide_False by done. by split_and!. }
  cbn [mbind option_bind]. eexists. split; [reflexivity|]. split_and!.
  - by apply well_formed_set.
  - intros s m Hm Hne. apply (kept_trans o o1); [by apply Hk|]. unfold kept. rewrite setting_set.
    destruct (decide (js "personal" = s)) as [<-|Hs]; [|left; reflexivity]. rewrite Hm' by auto.
    destruct (Hsq m) as [->|(Hin & Hu & ->)]; [by left|right]. split_and!; [|done..].
    apply elem_of_cons in Hin as [->| ->%list_elem_of_singleton]; auto.
  - rewrite setting_set, decide_False by (intros E; by apply console_not_personal). done.
  - by rewrite setting_set, decide_True.
Qed.

(** ** Merging with the defaults *)

Lemma get_merge_props p p' m :
  NoDup p'.*1 →
  omap.get (merge_props p p') m = match omap.get p' m with Some v => Some v | None => omap.get p m end.
Proof.
  unfold merge_props. revert p. induction p' as [|[k v] p' IH]; intros p Hnd; [done|].
  cbn in Hnd. apply NoDup_cons in Hnd as [Hk Hnd]. cbn [foldl fst snd omap.get]. rewrite IH by done.
  rewrite get_set. destruct (decide (m = k)) as [->|Hm].
  - apply omap.get_None in Hk. by rewrite Hk, decide_True.
  - case_match; [done|]. by rewrite decide_False by congruence.
Qed.

(** The section that the merge writes *)
Definition merged_section (existing : jsval) (ds : list (jstr * jsval)) : list (jstr * jsval) :=
  if negb (truthy_val existing) then ds else merge_props ds (spread existing).

Definition default_section (ds : list (jstr * jsval)) : Prop :=
  NoDup ds.*1 ∧ Forall (λ e, e.2 ≠ VUndef) ds.

Lemma get_default_section ds m d :
  default_section ds → (m, d) ∈ ds → omap.get ds m = Some d ∧ d ≠ VUndef.
Proof.
  intros [Hnd Hd] Hin. split; [by apply omap.elem_get|]. rewrite Forall_forall in Hd. by apply (Hd (m, d)).
Qed.

Lemma merge_section_eq merged s ds :
  default_section ds →
  (∀ v, omap.get merged s = Some v → ∃ p, v = VObj p ∧ bools p) →
  merge_section merged (s, ds)
  = omap.set merged s (VObj (merged_section (default VUndef (omap.get merged s)) ds)).
Proof.
  intros Hds Hv. unfold merge_section, merged_section.
  destruct (omap.get merged s) as [v|]; [|done]. destruct (Hv v eq_refl) as (p & -> & Hnd & Hp).
  cbn [default id truthy_val negb spread]. do 2 f_equal.
  assert (∀ e, e ∈ ds → ∃ v, omap.get (merge_props ds p) e.1 = Some v ∧ v ≠ VUndef) as Hfull.
  { intros [m d] He. cbn [fst]. rewrite get_merge_props by done.
    destruct (get_default_section ds m d Hds He) as [-> Hd].
    destruct (omap.get p m) as [v|] eqn:E; [|by exists d]. exists v. split; [done|].
    by destruct (Hp m v E) as [b ->]. }
  revert Hfull. generalize (merge_props ds p). intros section Hfull. clear Hds.
  induction ds as [|e ds IH]; [done|]. cbn [foldl].
  destruct (Hfull e) as (v & -> & Hne); [left|].
  assert (∀ e', e' ∈ ds → ∃ v, omap.get section e'.1 = Some v ∧ v ≠ VUndef) as Hrest.
  { intros e' He'. apply Hfull. by right. }
  destruct v; [done|by apply IH..].
Qed.

Lemma merge_sections l o s ds :
  NoDup l.*1 → Forall (λ e, default_section e.2) l → well_formed o → (s, ds) ∈ l →
  omap.get (foldl merge_section o l) s
  = Some (VObj (merged_section (default VUndef (omap.get o s)) ds)).
Proof.
  revert o. induction l as [|[s' ds'] l IH] using rev_ind; intros o Hnd Hds Ho Hin.
  { by apply not_elem_of_nil in Hin. }
  rewrite foldl_app. cbn [foldl].
  rewrite fmap_app in Hnd. apply NoDup_app in Hnd as (Hnd & Hdis & _).
  apply Forall_app in Hds as [Hds [Hd' _]%Forall_cons]. cbn [snd] in Hd'.
  assert (∀ k, k ∉ l.*1 → omap.get (foldl merge_section o l) k = omap.get o k) as Hother.
  { clear -Hds Ho. induction l as [|[k' d'] l IH] using rev_ind; [done|]. intros k Hk.
    rewrite fmap_app, not_elem_of_app in Hk. destruct Hk as [Hk Hk'].
    apply Forall_app in Hds as [Hds _].
    rewrite foldl_app. cbn [foldl]. unfold merge_section at 1.
    assert (k' ≠ k) as Hne by (intros ->; apply Hk'; left).
    case_match; rewrite omap.get_set_ne by done; by apply IH. }
  assert (s' ∉ l.*1) as Hs' by (intros Hs'; apply (Hdis s' Hs'); left).
  rewrite merge_section_eq; [|done|].
  - rewrite get_set. apply elem_of_app in Hin as [Hin|[= -> ->]%list_elem_of_singleton].
    + rewrite decide_False; [by apply IH|]. intros ->. apply Hs', list_elem_of_fmap. by exists (s, ds).
    + by rewrite decide_True, Hother.
  - intros v. rewrite Hother by done. apply Ho.
Qed.

Lemma defaults_well_formed :
  NoDup DEFAULT_SIDEBAR_MODULES.*1 ∧ Forall (λ e, default_section e.2) DEFAULT_SIDEBAR_MODULES
  ∧ Forall (λ e, Forall (λ d, d.1 = js "enabled" ∨ d.1 = js "topup" → d.2 = VBool true) e.2)
      DEFAULT_SIDEBAR_MODULES.
Proof. unfold default_section. split_and!; apply (bool_decide_unpack _); by vm_compute. Qed.

Lemma merged_setting o s ds m d :
  well_formed o → (s, ds) ∈ DEFAULT_SIDEBAR_MODULES → (m, d) ∈ ds →
  prop (prop (mergeWithDefaultSidebarModules (VObj o)) s) m
  = if decide (setting o s m = VUndef) then d else setting o s m.
Proof.
  intros Ho Hs Hm. destruct defaults_well_formed as (Hnd & Hds & _).
  unfold mergeWithDefaultSidebarModules. cbn [prop spread].
  rewrite (merge_sections _ o s ds) by done. cbn [default id prop].
  rewrite Forall_forall in Hds. specialize (Hds (s, ds) Hs). cbn [snd] in Hds.
  destruct (get_default_section ds m d Hds Hm) as [Ed Hd].
  unfold merged_section. destruct (section_cases o s Ho) as [[E Hn]|(p & E & [Hp Hb] & Hn)]; rewrite E, Hn.
  - cbn [default truthy_val negb]. by rewrite Ed.
  - cbn [default id truthy_val negb spread]. rewrite get_merge_props, Ed by done.
    destruct (omap.get p m) as [v|] eqn:Ev; [|done]. cbn [default]. unfold id.
    by destruct (Hb m v Ev) as [b ->].
Qed.

(** What an administrator's setting comes to: a module that the stored
    configuration mentions has the value it gives, any other has its default;
    only a subscription entry that is not mentioned goes with the wallet, and a
    channel status that is still stored as a personal module counts for the
    console. *)
Theorem settings_resolved text o s ds m d :
  JSON_parse text = Some (VObj o) → truthy (trim text) = true → well_formed o →
  (s, ds) ∈ DEFAULT_SIDEBAR_MODULES → (m, d) ∈ ds →
  prop (prop (parseSidebarConfig (Some text)) s) m
  = let x := if decide (s = js "personal" ∧ m = js "subscription") then subscription_setting o
             else if decide (s = js "console" ∧ m = js "channel_status") then channel_status_setting o
             else setting o s m in
    if decide (x = VUndef) then d else x.
Proof.
  intros Hparse Htrim Ho Hs Hm. unfold parseSidebarConfig.
  assert (truthy text = true) as -> by (by destruct text).
  rewrite Htrim, Hparse. cbn [negb orb mbind option_bind].
  destruct (migrate_spec o Ho) as (o' & -> & Ho' & Hk & Hcs & Hsub). cbn [mbind option_bind default id].
  rewrite (merged_setting o' s ds m d) by done. cbv zeta.
  destruct (decide (s = js "personal" ∧ m = js "subscription")) as [[-> ->]|H1]; [by rewrite Hsub|].
  destruct (decide (s = js "console" ∧ m = js "channel_status")) as [[-> ->]|H2]; [by rewrite Hcs|].
  assert (m ≠ js "channel_status") as Hne.
  { intros ->. destruct H2. split; [|done].
    assert (Forall (λ e, js "channel_status" ∈ e.2.*1 → e.1 = js "console") DEFAULT_SIDEBAR_MODULES) as Hall
      by (apply (bool_decide_unpack _); by vm_compute).
    rewrite Forall_forall in Hall. apply (Hall (s, ds) Hs). cbn [snd]. apply list_elem_of_fmap.
    by exists (js "channel_status", d). }
  destruct (Hk s m Hne) as [->|(Hm' & Hu & Hv)]; [by intros ? ?; apply H1|done|].
  rewrite Hu, Hv, decide_False, decide_True by done.
  destruct defaults_well_formed as (_ & _ & Hon). rewrite Forall_forall in Hon.
  specialize (Hon (s, ds) Hs). cbn [snd] in Hon. rewrite Forall_forall in Hon.
  symmetry. by apply (Hon (m, d)).
Qed.

Lemma settings_resolved_witness :
  prop (prop (parseSidebarConfig (Some (jq "{'personal':{'enabled':true,'topup':false}}"))) (js "personal"))
    (js "subscription") = VBool false.
Proof.
  rewrite (settings_resolved _
    [(js "personal", VObj [(js "enabled", VBool true); (js "topup", VBool false)])]
    (js "personal")
    (all_on [js "enabled"; js "topup"; js "subscription"; js "subscription_usage"; js "affiliate";
             js "affiliate_cdk"; js "personal"]) (js "subscription") (VBool true)).
  - vm_compute. reflexivity.
  - vm_compute. reflexivity.
  - vm_compute. reflexivity.
  - intros s v Hs. cbn in Hs. case_decide; [|discriminate Hs]. injection Hs as <-.
    eexists. split; [reflexivity|]. split; [apply (bool_decide_unpack _); vm_compute; exact I|].
    intros m v Hm. cbn in Hm. repeat case_decide; simplify_eq; eexists; reflexivity.
  - apply (bool_decide_unpack _). vm_compute. exact I.
  - apply (bool_decide_unpack _). vm_compute. exact I.
Defined.

(** The comment of the hook says that a module is hidden only when the user set
    it to [false]; a user who hid the wallet before subscriptions had an entry of
    their own does not see that entry either. *)
Lemma hidden_without_being_set :
  let i := mkInput None VUndef VUndef (Some (jq "{'personal':{'enabled':true,'topup':false}}")) VUndef in
  useIsSidebarModuleVisible (drop_user i) (js "/subscription-plans") = true
  ∧ useIsSidebarModuleVisible i (js "/subscription-plans") = false.
Proof. by vm_compute. Qed.
