(* ===== verification/TableState.v ===== *)
(** The state of tables in the address: [hooks/use-table-url-state.ts].

    The search parameters are an object of values; [navigate] replaces them, and
    a parameter set to [undefined] reads as one that is absent.  The hook's own
    states and the page size in the local storage are the other fields. *)

From Stdlib Require Import ZArith NArith SpecFloat.
From S2P Require Import Prelude JsString JsNumber JsValue.

(** * Page size *)

(** [parseInt(s, 10)] *)
Definition parseInt_text (s : jstr) : num :=
  let '(neg, r) := match trimStart s with
                   | 45%N :: r => (true, r)
                   | 43%N :: r => (false, r)
                   | r => (false, r)
                   end in
  let '(ds, _) := span_digits r in
  if truthy ds then
    let n := num_of_Z (Z.of_N (digits_value ds)) in if neg then SFopp n else n
  else NaN.

(** The entry of the local storage, [inl] when it cannot be reached *)
Definition Storage : Type := unit + option jstr.

Definition getStoredPageSize (st : Storage) : option num :=
  match st with
  | inl _ => None
  | inr item =>
      let n := parseInt_text (default [] item) in
      if num_ltb num_0 n then Some n else None
  end.

Definition setStoredPageSize (size : num) (st : Storage) : Storage :=
  match st with inl _ => st | inr _ => inr (Some (string_of_num size)) end.

(** * Configuration *)

Inductive FilterType := StringType | ArrayType.

Record ColumnFilter := mkColumn {
  columnId : jstr;
  searchKey : jstr;
  filterType : option FilterType;
  serialize : option (jsval → jsval);
  deserialize : option (jsval → jsval);
}.

Record TableConfig := mkTable {
  cfg_pageKey : option jstr;
  cfg_pageSizeKey : option jstr;
  cfg_defaultPage : option num;
  cfg_defaultPageSize : option num;
  cfg_globalEnabled : option bool;
  cfg_globalKey : option jstr;
  cfg_globalTrim : option bool;
  columnFiltersCfg : list ColumnFilter;
}.

Section table.
Context (cfg : TableConfig).

Definition pageKey : jstr := default (js "page") (cfg_pageKey cfg).
Definition pageSizeKey : jstr := default (js "pageSize") (cfg_pageSizeKey cfg).
Definition defaultPage : num := default (num_of_Z 1) (cfg_defaultPage cfg).
Definition defaultPageSize : num := default (num_of_Z 20) (cfg_defaultPageSize cfg).
Definition globalFilterKey : jstr := default (js "filter") (cfg_globalKey cfg).
Definition globalFilterEnabled : bool := default true (cfg_globalEnabled cfg).
Definition trimGlobal : bool := default true (cfg_globalTrim cfg).

Record TableState := mkState {
  search : list (jstr * jsval);
  columnFilters : list (jstr * jsval);
  globalFilter : option jstr;
  storage : Storage;
}.

(** [search[key]] *)
Definition param (search : list (jstr * jsval)) (key : jstr) : jsval := default VUndef (omap.get search key).

(** [v ?? d] *)
Definition or_value (v d : jsval) : jsval := match v with VUndef | VNull => d | _ => v end.

(** The filter of one column as the address gives it *)
Definition read_column (search : list (jstr * jsval)) (c : ColumnFilter) : option (jstr * jsval) :=
  let raw := param search (searchKey c) in
  let value := default id (deserialize c) raw in
  match filterType c with
  | Some StringType =>
      match or_value value (VStr []) with
      | VStr s => if truthy (trim s) then Some (columnId c, VStr s) else None
      | _ => None
      end
  | _ =>
      match or_value value (VArr []) with
      | VArr (x :: l) => Some (columnId c, VArr (x :: l))
      | _ => None
      end
  end.

Definition initialColumnFilters (search : list (jstr * jsval)) : list (jstr * jsval) :=
  base.omap (read_column search) (columnFiltersCfg cfg).

(** [pageIndex] and [pageSize] *)
Definition pagination (s : TableState) : num * num :=
  let pageNum := match param (search s) pageKey with VNum n => n | _ => defaultPage end in
  let pageSizeNum :=
    match param (search s) pageSizeKey with
    | VNum n => n
    | _ => default defaultPageSize (getStoredPageSize (storage s))
    end in
  (num_max num_0 (num_sub pageNum (num_of_Z 1)), pageSizeNum).

Definition initial (search : list (jstr * jsval)) (st : Storage) : TableState :=
  mkState search (initialColumnFilters search)
    (if globalFilterEnabled
     then Some (match param search globalFilterKey with VStr s => s | _ => [] end) else None)
    st.

(** [{...prev, ...patch}] *)
Definition patch_search (patch : list (jstr * jsval)) (prev : list (jstr * jsval)) : list (jstr * jsval) :=
  foldl (λ o e, omap.set o e.1 e.2) prev patch.

Definition navigate (patch : list (jstr * jsval)) (s : TableState) : TableState :=
  mkState (patch_search patch (search s)) (columnFilters s) (globalFilter s) (storage s).

(** The effect that runs when the address has changed *)
Definition sync_effect (s : TableState) : TableState :=
  mkState (search s) (initialColumnFilters (search s)) (globalFilter s) (storage s).

Definition onPaginationChange (updater : num * num → num * num) (s : TableState) : TableState :=
  let '(pageIndex, pageSize) := updater (pagination s) in
  let nextPage := num_add pageIndex (num_of_Z 1) in
  let st := if num_eqb pageSize (pagination s).2 then storage s else setStoredPageSize pageSize (storage s) in
  navigate
    [(pageKey, if num_leb nextPage defaultPage then VUndef else VNum nextPage); (pageSizeKey, VNum pageSize)]
    (mkState (search s) (columnFilters s) (globalFilter s) st).

(** Only there when the filter is enabled *)
Definition onGlobalFilterChange (updater : jstr → jstr) (s : TableState) : TableState :=
  if globalFilterEnabled then
    let next := updater (default [] (globalFilter s)) in
    let value := if trimGlobal then trim next else next in
    navigate [(pageKey, VUndef); (globalFilterKey, if truthy value then VStr value else VUndef)]
      (mkState (search s) (columnFilters s) (Some value) (storage s))
  else s.

(** What a column's filter writes into the address *)
Definition write_column (next : list (jstr * jsval)) (c : ColumnFilter) : jsval :=
  let found := snd <$> (snd <$> list_find (λ f, f.1 = columnId c) next) in
  let ser := default id (serialize c) in
  match filterType c with
  | Some StringType =>
      let value := match found with Some (VStr s) => s | _ => [] end in
      if truthy (trim value) then ser (VStr value) else VUndef
  | _ =>
      let value := match found with Some (VArr l) => l | _ => [] end in
      match value with [] => VUndef | _ => ser (VArr value) end
  end.

Definition onColumnFiltersChange (updater : list (jstr * jsval) → list (jstr * jsval)) (s : TableState)
    : TableState :=
  let next := updater (columnFilters s) in
  let patch := foldl (λ p c, omap.set p (searchKey c) (write_column next c)) [] (columnFiltersCfg cfg) in
  navigate ((pageKey, VUndef) :: patch) (mkState (search s) next (globalFilter s) (storage s)).

Inductive ResetTo := ResetFirst | ResetLast.

Definition ensurePageInRange (pageCount : num) (resetTo : option ResetTo) (s : TableState) : TableState :=
  let pageNum := match param (search s) pageKey with VNum n => n | _ => defaultPage end in
  if num_ltb num_0 pageCount && num_ltb pageCount pageNum then
    navigate [(pageKey, match resetTo with Some ResetLast => VNum pageCount | _ => VUndef end)] s
  else s.
End table.

(** * Tables *)

Definition LOG_TYPE_ALL_VALUE : jstr := js "0".

(** The types of logs in the address: a list, or one value; the one for all is no filter *)
Definition deserializeLogTypeFilter (value : jsval) : jsval :=
  let values := match value with VArr l => l | _ => if truthy_val value then [value] else [] end in
  VArr (filter (λ item, string_of_val item ≠ LOG_TYPE_ALL_VALUE) values).

(** The table of the usage logs *)
Definition UsageLogsTable (isMobile isAdmin : bool) : TableConfig :=
  let text id key := mkColumn id key (Some StringType) None None in
  mkTable None None (Some (num_of_Z 1)) (Some (num_of_Z (if isMobile then 20 else 100))) (Some false) None None
    ([mkColumn (js "created_at") (js "type") (Some ArrayType) None (Some deserializeLogTypeFilter);
      text (js "model_name") (js "model"); text (js "token_name") (js "token"); text (js "group") (js "group")]
     ++ if isAdmin then [text (js "channel") (js "channel"); text (js "username") (js "username")] else []).

(** The status of channels in the address, else the one that is [stored] *)
Definition deserializeStatusFilter (stored : option jstr) (value : jsval) : jsval :=
  match value with
  | VUndef =>
      if bool_decide (stored = Some (js "enabled") ∨ stored = Some (js "disabled")) then VArr [VStr (default [] stored)] else VArr []
  | _ => value
  end.

(** What the table of the channels stores when its filters change *)
Definition stored_status (next : list (jstr * jsval)) : jsval :=
  match snd <$> (snd <$> list_find (λ f, f.1 = js "status") next) with
  | Some (VArr (x :: _)) => or_value x (VStr (js "all"))
  | Some (VStr (c :: _)) => VStr [c]
  | _ => VStr (js "all")
  end.

Definition DEFAULT_PAGE_SIZE : num := num_of_Z 20.

(** The table of the channels, with what is stored of its status *)
Definition ChannelsTable (isMobile : bool) (stored : option jstr) : TableConfig :=
  mkTable None None (Some (num_of_Z 1)) (Some (if isMobile then num_of_Z 10 else DEFAULT_PAGE_SIZE)) (Some true) (Some (js "filter")) None
    [mkColumn (js "status") (js "status") (Some ArrayType) None (Some (deserializeStatusFilter stored));
     mkColumn (js "type") (js "type") (Some ArrayType) None None;
     mkColumn (js "group") (js "group") (Some ArrayType) None None;
     mkColumn (js "model") (js "model") (Some StringType) None None].

Example page_sizes :
  getStoredPageSize (inr (Some (js "50"))) = Some (num_of_Z 50)
  ∧ getStoredPageSize (inr (Some (js "-3"))) = None ∧ getStoredPageSize (inr None) = None
  ∧ getStoredPageSize (inr (Some (js " 12px"))) = Some (num_of_Z 12)
  ∧ getStoredPageSize (inl tt) = None.
Proof. by vm_compute. Qed.
