(* ===== verification/TableStateProps.v ===== *)
(** Properties of the tables' state: what a handler sets is what is read back
    from the address, so that reloading the page restores the table. *)

From Stdlib Require Import ZArith NArith SpecFloat.
From S2P Require Import Prelude JsString JsNumber JsValue TableState.

(** * Parameters *)

Lemma param_set (o : list (jstr * jsval)) k v k' :
  param (omap.set o k v) k' = if decide (k = k') then v else param o k'.
Proof.
  unfold param. destruct (decide (k = k')) as [->|Hk]; [by rewrite omap.get_set_eq|].
  by rewrite omap.get_set_ne.
Qed.

Lemma param_patch_fresh (patch prev : list (jstr * jsval)) k :
  k ∉ patch.*1 → param (patch_search patch prev) k = param prev k.
Proof.
  unfold patch_search. revert prev. induction patch as [|[k' v] patch IH]; intros prev Hk; [done|].
  cbn in Hk. rewrite not_elem_of_cons in Hk. destruct Hk as [Hne Hk].
  cbn [foldl fst snd]. rewrite IH by done. by rewrite param_set, decide_False.
Qed.

Lemma param_patch_in (patch prev : list (jstr * jsval)) k v :
  NoDup patch.*1 → (k, v) ∈ patch → param (patch_search patch prev) k = v.
Proof.
  revert prev. induction patch as [|[k' v'] patch IH]; intros prev Hnd Hin; [by apply not_elem_of_nil in Hin|].
  cbn in Hnd. apply NoDup_cons in Hnd as [Hk Hnd]. cbn [patch_search foldl fst snd].
  apply elem_of_cons in Hin as [[= -> ->]|Hin]; [|by apply IH].
  change (foldl _ _ patch) with (patch_search patch (omap.set prev k' v')).
  rewrite param_patch_fresh by done. by rewrite param_set, decide_True.
Qed.

(** Read the fields of a state. *)
Ltac fields := cbn [sync_effect navigate initial search columnFilters globalFilter storage].

Section props.
Context (cfg : TableConfig).
Abbreviation cols := (columnFiltersCfg cfg).

(** The parameters have names of their own, and the first page is the default. *)
Record sound_config : Prop := {
  sound_keys : NoDup (pageKey cfg :: pageSizeKey cfg :: globalFilterKey cfg :: (searchKey <$> cols));
  sound_page : defaultPage cfg = num_of_Z 1;
}.

Hypothesis sound : sound_config.

Lemma keys_apart :
  pageKey cfg ≠ pageSizeKey cfg ∧ pageKey cfg ≠ globalFilterKey cfg ∧ pageSizeKey cfg ≠ globalFilterKey cfg
  ∧ (pageKey cfg ∉ (searchKey <$> cols)) ∧ (pageSizeKey cfg ∉ (searchKey <$> cols))
  ∧ (globalFilterKey cfg ∉ (searchKey <$> cols)) ∧ NoDup (searchKey <$> cols).
Proof.
  destruct sound as [Hk _]. apply NoDup_cons in Hk as [H1 Hk]. apply NoDup_cons in Hk as [H2 Hk].
  apply NoDup_cons in Hk as [H3 Hk]. rewrite !not_elem_of_cons in H1. rewrite not_elem_of_cons in H2. tauto.
Qed.

(** ** What is read depends on few parameters *)

Lemma initialColumnFilters_ext (o o' : list (jstr * jsval)) :
  (∀ c, c ∈ cols → param o (searchKey c) = param o' (searchKey c)) →
  initialColumnFilters cfg o = initialColumnFilters cfg o'.
Proof.
  unfold initialColumnFilters. intros Hext. induction cols as [|c cs IH]; [done|].
  cbn [base.omap list_omap].
  assert (read_column o c = read_column o' c) as -> by (unfold read_column; by rewrite Hext by left).
  rewrite IH; [done|]. intros c' Hc'. apply Hext. by right.
Qed.

(** The state is what reloading the page would give. *)
Definition in_sync (s : TableState) : Prop := s = initial cfg (search s) (storage s).

Lemma in_sync_intro s :
  columnFilters s = initialColumnFilters cfg (search s) →
  globalFilter s = globalFilter (initial cfg (search s) (storage s)) → in_sync s.
Proof. destruct s as [o cf g st]. unfold in_sync, initial. cbn. by intros -> ->. Qed.

Lemma in_sync_columns s : in_sync s → columnFilters s = initialColumnFilters cfg (search s).
Proof. unfold in_sync. intros E. by rewrite E at 1. Qed.

Lemma in_sync_global s : in_sync s → globalFilter s = globalFilter (initial cfg (search s) (storage s)).
Proof. unfold in_sync. intros E. by rewrite E at 1. Qed.

(** A patch that leaves the columns and the global filter alone *)
Lemma sync_preserved patch s st :
  (∀ k, k ∈ patch.*1 → k = pageKey cfg ∨ k = pageSizeKey cfg) →
  in_sync s → in_sync (sync_effect cfg (navigate patch (mkState (search s) (columnFilters s) (globalFilter s) st))).
Proof.
  intros Hpatch Hs. destruct keys_apart as (? & ? & ? & Hp & Hps & Hg & _).
  apply in_sync_intro; [done|]. fields. rewrite (in_sync_global s Hs). fields. rewrite param_patch_fresh; [done|].
  intros [?|?]%Hpatch; congruence.
Qed.

(** * Pages *)

Lemma page_back n : (0 ≤ n)%Z → safe (n + 1) → num_max num_0 (num_sub (num_of_Z (n + 1)) (num_of_Z 1)) = num_of_Z n.
Proof.
  intros Hn Hs. assert (safe n ∧ safe 1 ∧ safe 0) as (Hsn & Hs1 & Hs0) by (unfold safe, MAX_SAFE_INTEGER in *; lia).
  rewrite num_sub_of_Z by (rewrite ?Z.add_simpl_r; done). rewrite Z.add_simpl_r.
  unfold num_max. change num_0 with (num_of_Z 0). rewrite compare_of_Z by done.
  destruct (Z.compare_spec 0 n) as [<-| |]; [done|done|lia].
Qed.

Lemma pagination_set s n size st :
  (0 ≤ n)%Z → safe (n + 1) →
  let nextPage := num_add (num_of_Z n) (num_of_Z 1) in
  pagination cfg (navigate
    [(pageKey cfg, if num_leb nextPage (defaultPage cfg) then VUndef else VNum nextPage);
     (pageSizeKey cfg, VNum size)] (mkState (search s) (columnFilters s) (globalFilter s) st))
  = (num_of_Z n, size).
Proof.
  intros Hn Hs nextPage. subst nextPage.
  assert (safe n ∧ safe 1) as (Hsn & Hs1) by (unfold safe, MAX_SAFE_INTEGER in *; lia).
  destruct keys_apart as (Hne & _). rewrite (sound_page sound), num_add_of_Z, num_leb_of_Z by done.
  unfold pagination, navigate, patch_search. cbn [search foldl fst snd].
  rewrite !param_set. rewrite (decide_False (P := pageSizeKey cfg = pageKey cfg)) by congruence.
  rewrite !(decide_True (P := pageKey cfg = pageKey cfg)), !(decide_True (P := pageSizeKey cfg = pageSizeKey cfg)) by done.
  f_equal. destruct (Z.leb_spec (n + 1) 1); [|by apply page_back].
  assert (n = 0)%Z as -> by lia. rewrite (sound_page sound). by vm_compute.
Qed.

(** A filter goes back to the first page and keeps the page size. *)
Lemma pagination_reset s patch cf g :
  NoDup patch.*1 → (pageKey cfg, VUndef) ∈ patch → pageSizeKey cfg ∉ patch.*1 →
  pagination cfg (navigate patch (mkState (search s) cf g (storage s)))
  = (num_of_Z 0, (pagination cfg s).2).
Proof.
  intros Hnd Hin Hps. unfold pagination, navigate. cbn [search storage snd].
  rewrite (param_patch_in patch (search s) (pageKey cfg) VUndef) by done.
  rewrite param_patch_fresh by done. rewrite (sound_page sound). f_equal.
Qed.

(** * Column filters *)

(** The filter of a column that a change asks for, when it is not blank *)
Definition asked (next : list (jstr * jsval)) (c : ColumnFilter) : option (jstr * jsval) :=
  match filterType c, snd <$> (snd <$> list_find (λ f, f.1 = columnId c) next) with
  | Some StringType, Some (VStr v) => if truthy (trim v) then Some (columnId c, VStr v) else None
  | Some StringType, _ => None
  | _, Some (VArr (x :: l)) => Some (columnId c, VArr (x :: l))
  | _, _ => None
  end.

(** A value that shows no filter *)
Definition no_filter (c : ColumnFilter) (v : jsval) : Prop :=
  match filterType c, v with
  | Some StringType, VStr s => truthy (trim s) = false
  | Some StringType, _ => True
  | _, VArr (_ :: _) => False
  | _, _ => True
  end.

(** The column can read what the change makes it write: the value that is asked for, or
    no filter from a parameter that is absent *)
Definition reads_back (next : list (jstr * jsval)) (c : ColumnFilter) : Prop :=
  match asked next c with
  | Some (_, v) => default id (deserialize c) (default id (serialize c) v) = v
  | None => no_filter c (default id (deserialize c) VUndef)
  end.

Lemma read_written o next c :
  reads_back next c → param o (searchKey c) = write_column next c → read_column o c = asked next c.
Proof.
  unfold reads_back, read_column. intros Hr ->. revert Hr. unfold write_column, asked, no_filter.
  generalize (default id (deserialize c)), (default id (serialize c)). intros des ser.
  generalize (snd <$> (snd <$> list_find (λ f, f.1 = columnId c) next)). intros found.
  assert (∀ v, match v with VStr s => truthy (trim s) = false | _ => True end →
    match or_value v (VStr []) with VStr s => if truthy (trim s) then Some (columnId c, VStr s) else None | _ => None end = None) as Htext.
  { intros [] Hv; try done. cbn. by rewrite Hv. }
  assert (∀ v, match v with VArr (_ :: _) => False | _ => True end →
    match or_value v (VArr []) with VArr (x :: l) => Some (columnId c, VArr (x :: l)) | _ => None end = None) as Hlist
    by (by intros [| | | | |[]|] Hv).
  destruct (filterType c) as [[]|].
  - destruct found as [[]|]; try (intros Hr; by apply Htext).
    destruct (truthy (trim s)) eqn:E; [|intros Hr; by apply Htext]. intros ->. cbn [or_value]. by rewrite E.
  - destruct found as [[| | | | |[]|]|]; intros Hr; rewrite ?Hr; first [done|by apply Hlist].
  - destruct found as [[| | | | |[]|]|]; intros Hr; rewrite ?Hr; first [done|by apply Hlist].
Qed.

Lemma written_patch next :
  foldl (λ p c, omap.set p (searchKey c) (write_column next c)) [] cols
  = (λ c, (searchKey c, write_column next c)) <$> cols.
Proof.
  destruct keys_apart as (_ & _ & _ & _ & _ & _ & Hnd). revert Hnd. generalize cols. intros cs.
  induction cs as [|c cs IH] using rev_ind; intros Hnd; [done|].
  rewrite foldl_app. cbn [foldl]. rewrite !fmap_app in *. cbn [fmap list_fmap] in *.
  apply NoDup_app in Hnd as (Hnd & Hdis & _). rewrite IH by done.
  apply omap.set_fresh, omap.get_None. rewrite <- list_fmap_compose. intros Hin.
  apply (Hdis (searchKey c) Hin). left.
Qed.

Lemma columns_read_back next s :
  Forall (reads_back next) cols →
  initialColumnFilters cfg (search (onColumnFiltersChange cfg (λ _, next) s)) = base.omap (asked next) cols.
Proof.
  intros Hback. rewrite Forall_forall in Hback. destruct keys_apart as (_ & _ & _ & Hp & _ & _ & Hnd).
  unfold onColumnFiltersChange. rewrite written_patch. cbn [navigate search]. unfold initialColumnFilters.
  set (o := patch_search _ _).
  assert (∀ c, c ∈ cols → param o (searchKey c) = write_column next c) as Ho.
  { intros c Hc. subst o. apply param_patch_in.
    - rewrite fmap_cons, <- list_fmap_compose. cbn. apply NoDup_cons. done.
    - right. apply list_elem_of_fmap. by exists c. }
  clearbody o. clear Hp Hnd.
  assert (∀ cs : list ColumnFilter, (∀ c, c ∈ cs → c ∈ cols) → base.omap (read_column o) cs = base.omap (asked next) cs) as Hgen;
    [|by apply Hgen].
  induction cs as [|c cs IH]; intros Hin; [done|]. cbn [base.omap list_omap].
  rewrite (read_written o next c), IH; [done| |by apply Hback, Hin; left|by apply Ho, Hin; left].
  intros c' Hc'. apply Hin. by right.
Qed.

(** C40: Take a table whose parameters have names of their own and whose default page is
    the first.  If it shows what its address says, every handler leads to a table that
    does, once the effect has run, so that reloading the page restores it.  A page (from
    zero, up to the safe integers) and a page size that are set are shown.  Setting the
    column filters leads back to the first page with the same page size, and shows
    exactly the filters asked for, except blank ones and those of columns without a
    parameter, provided that each column can read what it is made to write: it reads the
    value asked for back, or no filter from an absent parameter.  Setting the global
    filter shows its text, trimmed when the table trims it, and keeps the column filters. *)
Theorem table_restored s :
  in_sync s →
  (∀ n size, (0 ≤ n)%Z → safe (n + 1) →
     let s' := sync_effect cfg (onPaginationChange cfg (λ _, (num_of_Z n, size)) s) in
     in_sync s' ∧ pagination cfg s' = (num_of_Z n, size) ∧ columnFilters s' = columnFilters s)
  ∧ (∀ next,
     let s' := sync_effect cfg (onColumnFiltersChange cfg (λ _, next) s) in
     in_sync s' ∧ pagination cfg s' = (num_of_Z 0, (pagination cfg s).2)
     ∧ (Forall (reads_back next) cols → columnFilters s' = base.omap (asked next) cols))
  ∧ (∀ text, globalFilterEnabled cfg = true →
     let s' := sync_effect cfg (onGlobalFilterChange cfg (λ _, text) s) in
     in_sync s' ∧ pagination cfg s' = (num_of_Z 0, (pagination cfg s).2)
     ∧ globalFilter s' = Some (if trimGlobal cfg then trim text else text)
     ∧ columnFilters s' = columnFilters s)
  ∧ (∀ pageCount resetTo, in_sync (sync_effect cfg (ensurePageInRange cfg pageCount resetTo s))).
Proof.
  intros Hs. destruct keys_apart as (Hpp & Hpg & Hsg & Hp & Hps & Hg & Hnd).
  split_and!.
  - intros n size Hn Hsafe. unfold onPaginationChange. cbv zeta. split_and!.
    + apply sync_preserved; [|done]. cbn. intros k. rewrite !elem_of_cons, elem_of_nil. tauto.
    + by apply pagination_set.
    + fields. rewrite (in_sync_columns s Hs). apply initialColumnFilters_ext. intros c Hc.
      apply param_patch_fresh. cbn. rewrite !not_elem_of_cons.
      assert (searchKey c ∈ (searchKey <$> cols)) by (apply list_elem_of_fmap; by exists c).
      split_and!; [congruence|congruence|apply not_elem_of_nil].
  - intros next. cbv zeta. split_and!.
    + unfold onColumnFiltersChange. rewrite written_patch. cbv zeta.
      apply in_sync_intro; [done|]. fields. rewrite (in_sync_global s Hs). fields.
      rewrite param_patch_fresh; [done|]. rewrite fmap_cons, <- list_fmap_compose. cbn.
      rewrite not_elem_of_cons. split; [congruence|done].
    + unfold onColumnFiltersChange. rewrite written_patch. cbv zeta.
      apply (pagination_reset s _ (initialColumnFilters cfg _) (globalFilter s)).
      * rewrite fmap_cons, <- list_fmap_compose. cbn. by apply NoDup_cons.
      * left.
      * rewrite fmap_cons, <- list_fmap_compose. cbn. rewrite not_elem_of_cons. split; [congruence|done].
    + by apply columns_read_back.
  - intros text Hen. cbv zeta. unfold onGlobalFilterChange. rewrite Hen.
    set (v := if trimGlobal cfg then trim text else text).
    assert (NoDup [pageKey cfg; globalFilterKey cfg]) as Hnd2.
    { apply NoDup_cons. split; [|apply NoDup_singleton]. by rewrite list_elem_of_singleton. }
    split_and!.
    + apply in_sync_intro; [done|]. fields. rewrite Hen.
      rewrite (param_patch_in _ _ (globalFilterKey cfg) (if truthy v then VStr v else VUndef)); [|done|right; left].
      by destruct v.
    + apply (pagination_reset s _ (initialColumnFilters cfg _) (Some v)); [done|left|].
      cbn. rewrite !not_elem_of_cons. split_and!; [congruence|congruence|apply not_elem_of_nil].
    + done.
    + fields. rewrite (in_sync_columns s Hs). apply initialColumnFilters_ext. intros c Hc.
      apply param_patch_fresh. cbn. rewrite !not_elem_of_cons.
      assert (searchKey c ∈ (searchKey <$> cols)) by (apply list_elem_of_fmap; by exists c).
      split_and!; [congruence|congruence|apply not_elem_of_nil].
  - intros pageCount resetTo. unfold ensurePageInRange. case_match.
    + apply (sync_preserved _ s (storage s)); [|done]. cbn. intros k. rewrite elem_of_cons, elem_of_nil. tauto.
    + rewrite Hs. by apply in_sync_intro.
Qed.
End props.

(** ** Two tables *)

(** The usage logs restore every filter that does not ask for all types by name. *)
Lemma usage_logs_sound isMobile isAdmin : sound_config (UsageLogsTable isMobile isAdmin).
Proof. split; [|done]. apply (bool_decide_unpack _). destruct isAdmin; by vm_compute. Qed.

Lemma usage_logs_read_back isMobile isAdmin next :
  (∀ l, (js "created_at", VArr l) ∈ next → Forall (λ item, string_of_val item ≠ LOG_TYPE_ALL_VALUE) l) →
  Forall (reads_back next) (columnFiltersCfg (UsageLogsTable isMobile isAdmin)).
Proof.
  intros Hnext. assert (∀ id key, reads_back next (mkColumn id key (Some StringType) None None)) as Htext.
  { intros id key. unfold reads_back. destruct (asked _ _) as [[]|]; done. }
  unfold UsageLogsTable. cbn [columnFiltersCfg]. apply Forall_app. split; [|by destruct isAdmin; repeat constructor].
  apply Forall_cons. split; [|by repeat constructor]. unfold reads_back, asked. cbn [filterType columnId].
  destruct (list_find _ next) as [[i [k v]]|] eqn:E; [|done]. apply list_find_Some in E as (Hi & Ek & _). cbn in Ek. subst k.
  cbn [fmap option_fmap option_map snd]. destruct v as [| | | | |[|x l]|]; try done. cbn [default from_option deserialize serialize id].
  unfold deserializeLogTypeFilter. f_equal. apply filter_id. apply Hnext. by eapply list_elem_of_lookup_2.
Qed.

(** The channels store the status that is asked for, and then restore it. *)
Lemma channels_read_back isMobile next stored :
  stored_status next = VStr stored →
  Forall (λ f, f.1 = js "status" → ∃ l, f.2 = VArr l) next →
  Forall (reads_back next) (columnFiltersCfg (ChannelsTable isMobile (Some stored))).
Proof.
  intros Hst Hnext. assert (∀ id key t, reads_back next (mkColumn id key t None None)) as Hplain.
  { intros id key t. unfold reads_back, no_filter. cbn. destruct (asked _ _) as [[]|]; [done|]. by destruct t as [[]|]. }
  apply Forall_cons. split; [|by repeat constructor]. unfold reads_back, asked, stored_status in *. cbn [filterType columnId].
  destruct (list_find _ next) as [[i [k v]]|] eqn:E; cbn [fmap option_fmap option_map snd] in *.
  - apply list_find_Some in E as (Hi & Ek & _). apply list_elem_of_lookup_2 in Hi. rewrite Forall_forall in Hnext.
    destruct (Hnext _ Hi Ek) as [l El]. cbn in El. subst v. destruct l as [|x l]; [|done]. injection Hst as <-. by vm_compute.
  - injection Hst as <-. by vm_compute.
Qed.

Lemma table_restored_witness :
  let cfg := UsageLogsTable false true in
  let s := initial cfg [(js "page", VNum (num_of_Z 4)); (js "group", VStr (js "vip"))] (inr None) in
  let next := [(js "created_at", VArr [VStr (js "2")]); (js "group", VStr (js " "))] in
  let s' := sync_effect cfg (onColumnFiltersChange cfg (λ _, next) s) in
  in_sync cfg s' ∧ pagination cfg s' = (num_of_Z 0, num_of_Z 100)
  ∧ columnFilters s' = [(js "created_at", VArr [VStr (js "2")])].
Proof.
  intros cfg s next.
  destruct (table_restored cfg (usage_logs_sound false true) s eq_refl) as (_ & H & _).
  destruct (H next) as (H1 & H2 & H3). split; [exact H1|]. split; [exact H2|]. apply H3.
  apply usage_logs_read_back. intros l [E|[E|E%elem_of_nil]%elem_of_cons]%elem_of_cons; [|discriminate E|done].
  injection E as ->. apply (bool_decide_unpack _). by vm_compute.
Defined.

Definition demo_table : TableConfig :=
  mkTable None None None None None None None
    [mkColumn (js "status") (js "status") (Some ArrayType) None None;
     mkColumn (js "group") (js "group") (Some StringType) None None].

(** ** What the address does not restore *)

(** Going back in the history changes the address, but not the text of the
    global filter, although the address is meant to be the only source. *)
Lemma history_leaves_global_filter :
  let s := onGlobalFilterChange demo_table (λ _, js "gpt") (initial demo_table [] (inr None)) in
  let back := sync_effect demo_table (mkState [] (columnFilters s) (globalFilter s) (storage s)) in
  globalFilter back = Some (js "gpt") ∧ globalFilter (initial demo_table [] (inr None)) = Some [].
Proof. by vm_compute. Qed.

(** A column whose type is left out is declared to hold a text and read as a
    list: its filter never shows. *)
Lemma untyped_column_reads_lists :
  let cfg := mkTable None None None None None None None [mkColumn (js "name") (js "name") None None None] in
  initialColumnFilters cfg [(js "name", VStr (js "gpt"))] = [].
Proof. by vm_compute. Qed.

(** With a default page after the first, the pages before it cannot be shown. *)
Lemma pages_before_default_lost :
  let cfg := mkTable None None (Some (num_of_Z 3)) None None None None [] in
  let s := onPaginationChange cfg (λ _, (num_of_Z 0, num_of_Z 20)) (initial cfg [] (inr None)) in
  pagination cfg s = (num_of_Z 2, num_of_Z 20).
Proof. by vm_compute. Qed.
