(* ===== verification/Payment.v ===== *)
(** Topping up: [features/wallet/lib/payment.ts].

    A payment is dispatched to one of three processors; which one and with what
    is a value, and so is the form that is submitted. *)

From Stdlib Require Import ZArith NArith SpecFloat.
From S2P Require Import Prelude JsString JsNumber JsValue JsArray.

(** * Constants and data *)

Definition STRIPE : jstr := js "stripe".
Definition WAFFO : jstr := js "waffo".
Definition WAFFO_PANCAKE : jstr := js "waffo_pancake".
Definition DEFAULT_PAYMENT_TYPE : jstr := js "alipay".
Definition DEFAULT_PRESET_MULTIPLIERS : list Z := [1; 5; 10; 30; 50; 100; 300; 500]%Z.
Definition DEFAULT_DISCOUNT_RATE : num := num_of_Z 1.
Definition DEFAULT_MIN_TOPUP : num := num_of_Z 1.

Record PaymentMethod := mkMethod {
  method_name : jstr;
  method_type : jstr;
}.

(** What is read of the configuration; a number that may be missing is [None]. *)
Record TopupInfo := mkTopup {
  enable_online_topup : bool;
  enable_stripe_topup : bool;
  pay_methods : option (list PaymentMethod);
  min_topup : num;
  stripe_min_topup : num;
  enable_waffo_topup : bool;
  waffo_min_topup : option num;
  enable_waffo_pancake_topup : bool;
  waffo_pancake_min_topup : option num;
}.

Record PresetAmount := mkPreset {
  preset_value : num;
  preset_discount : option num;
}.

(** * The form *)

Record PaymentForm := mkForm {
  form_action : jstr;
  form_method : jstr;
  form_target : option jstr;
  form_inputs : list (jstr * jstr);
}.

Definition isSafariBrowser (userAgent : jstr) : bool :=
  includes userAgent (js "Safari") && negb (includes userAgent (js "Chrome")).

(** The form that [submitPaymentForm] submits *)
Definition submitPaymentForm (userAgent url : jstr) (params : list (jstr * jsval)) : PaymentForm :=
  mkForm url (js "POST") (if isSafariBrowser userAgent then None else Some (js "_blank"))
    ((λ '(key, value), (key, string_of_val value)) <$> entries params).

(** * Dispatch *)

Definition isStripePayment (t : jstr) : bool := bool_decide (t = STRIPE).
Definition isWaffoPayment (t : jstr) : bool := bool_decide (t = WAFFO).
Definition isWaffoPancakePayment (t : jstr) : bool := bool_decide (t = WAFFO_PANCAKE).

Inductive PaymentCall :=
  | Regular (topupAmount : num) (paymentType : jstr)
  | Waffo (topupAmount payMethodIndex : num)
  | WaffoPancake (topupAmount : num).

(** The processor that is called, whose answer is the result; [None] returns
    [false] without calling any. *)
Definition dispatchSelectedPayment (paymentMethod : PaymentMethod) (topupAmount : num)
    (waffoMethodIndex : option num) : option PaymentCall :=
  if isWaffoPayment (method_type paymentMethod) then Waffo topupAmount <$> waffoMethodIndex
  else if isWaffoPancakePayment (method_type paymentMethod) then Some (WaffoPancake topupAmount)
  else Some (Regular topupAmount (method_type paymentMethod)).

(** * Defaults *)

Definition getDefaultPaymentType (topupInfo : option TopupInfo) : jstr :=
  match topupInfo with
  | None => DEFAULT_PAYMENT_TYPE
  | Some i =>
      match pay_methods i with
      | Some (m :: _) => method_type m
      | _ =>
          if enable_stripe_topup i then STRIPE
          else if enable_waffo_topup i then WAFFO
          else if enable_waffo_pancake_topup i then WAFFO_PANCAKE
          else DEFAULT_PAYMENT_TYPE
      end
  end.

(** [v || d] *)
Definition num_or (v : option num) (d : num) : num :=
  match v with Some n => if num_truthy n then n else d | None => d end.

Definition getMinTopupAmount (topupInfo : option TopupInfo) : num :=
  match topupInfo with
  | None => DEFAULT_MIN_TOPUP
  | Some i =>
      if enable_online_topup i then min_topup i
      else if enable_stripe_topup i then stripe_min_topup i
      else if enable_waffo_topup i then num_or (waffo_min_topup i) DEFAULT_MIN_TOPUP
      else if enable_waffo_pancake_topup i then num_or (waffo_pancake_min_topup i) DEFAULT_MIN_TOPUP
      else DEFAULT_MIN_TOPUP
  end.

Definition generatePresetAmounts (minAmount : num) : list PresetAmount :=
  (λ multiplier, mkPreset (num_mul minAmount (num_of_Z multiplier)) None) <$> DEFAULT_PRESET_MULTIPLIERS.

(** * Discounts *)

(** Whether an entry counts for an amount: a threshold that the amount reaches,
    with a positive rate *)
Definition discount_applies (amount : num) (e : jstr * num) : bool :=
  let threshold := Number_of_string e.1 in
  let rate := e.2 in
  negb (negb (isFinite threshold) || negb (isFinite rate) || num_leb threshold num_0
        || num_ltb amount threshold || num_leb rate num_0).

(** One turn of the loop over [discount] and [matchedThreshold] *)
Definition discount_step (amount : num) (st : num * num) (e : jstr * num) : num * num :=
  let '(discount, matchedThreshold) := st in
  if discount_applies amount e then
    if num_ltb matchedThreshold (Number_of_string e.1) then (e.2, Number_of_string e.1)
    else st
  else st.

Definition resolveAmountDiscount (amount : num) (discounts : option (list (jstr * num))) : num :=
  (foldl (discount_step amount) (DEFAULT_DISCOUNT_RATE, num_0) (entries (default [] discounts))).1.

Definition mergePresetAmounts (amountOptions : option (list num)) (discounts : list (jstr * num))
    : list PresetAmount :=
  match amountOptions with
  | None | Some [] => []
  | Some options => (λ amount, mkPreset amount (Some (resolveAmountDiscount amount (Some discounts)))) <$> options
  end.

(** * Properties *)

Implicit Types (amount : num) (e : jstr * num) (es : list (jstr * num)).

Abbreviation threshold e := (Number_of_string e.1).

Lemma applies_finite amount e :
  discount_applies amount e = true →
  is_nan (threshold e) = false ∧ num_ltb num_0 (threshold e) = true
  ∧ isFinite e.2 = true ∧ num_ltb num_0 e.2 = true.
Proof.
  unfold discount_applies. intros Ha. apply negb_true_iff in Ha.
  repeat (apply orb_false_iff in Ha as [Ha ?]).
  repeat match goal with H : negb _ = false |- _ => apply negb_false_iff in H end.
  assert (is_nan (threshold e) = false) by (by apply isFinite_not_nan).
  assert (is_nan e.2 = false) by (by apply isFinite_not_nan).
  rewrite num_leb_ltb in * by done.
  repeat match goal with H : negb _ = false |- _ => apply negb_false_iff in H end. done.
Qed.

(** The state of the loop: the first entry with the highest threshold so far *)
Definition best amount es (st : num * num) : Prop :=
  (st = (DEFAULT_DISCOUNT_RATE, num_0) ∧ ∀ e, e ∈ es → discount_applies amount e = false)
  ∨ ∃ l1 e l2, es = l1 ++ e :: l2 ∧ st = (e.2, threshold e) ∧ discount_applies amount e = true
     ∧ (∀ e', e' ∈ l1 → discount_applies amount e' = true → num_ltb (threshold e') (threshold e) = true)
     ∧ (∀ e', e' ∈ l2 → discount_applies amount e' = true → num_ltb (threshold e) (threshold e') = false).

Lemma discount_loop amount es : best amount es (foldl (discount_step amount) (DEFAULT_DISCOUNT_RATE, num_0) es).
Proof.
  induction es as [|e es IH] using rev_ind.
  { left. split; [done|]. by intros e ?%not_elem_of_nil. }
  rewrite foldl_app. cbn [foldl]. destruct (foldl _ _ es) as [discount matched] eqn:E.
  unfold discount_step. destruct (discount_applies amount e) eqn:Ha.
  - destruct (applies_finite amount e Ha) as (Hnan & Hpos & _).
    destruct IH as [[[= -> ->] Hnone]|(l1 & b & l2 & -> & [= -> ->] & Hb & H1 & H2)].
    + rewrite Hpos. right. exists es, e, []. split_and!; try done.
      * intros e' He' Ha'. by rewrite Hnone in Ha'.
      * by intros e' ?%not_elem_of_nil.
    + destruct (applies_finite amount b Hb) as (Hbnan & _). destruct (num_ltb (threshold b) (threshold e)) eqn:Hlt.
      * right. exists (l1 ++ b :: l2), e, []. split_and!; try done; [|by intros e' ?%not_elem_of_nil].
        intros e' He' Ha'. destruct (applies_finite amount e' Ha') as (Hnan' & _).
        apply elem_of_app in He' as [He'|[->|He']%elem_of_cons]; [|done|].
        -- eapply num_ltb_trans; [by apply H1|done].
        -- eapply num_le_lt_trans; [done|by apply H2|done].
      * right. exists l1, b, (l2 ++ [e]). split_and!; try done; [by rewrite <- app_assoc|].
        intros e' [He'| ->%list_elem_of_singleton]%elem_of_app Ha'; [by apply H2|done].
  - destruct IH as [[[= -> ->] Hnone]|(l1 & b & l2 & -> & Hst & Hb & H1 & H2)].
    + left. split; [done|]. intros e' [He'| ->%list_elem_of_singleton]%elem_of_app; [by apply Hnone|done].
    + right. exists l1, b, (l2 ++ [e]). split_and!; try done; [by rewrite <- app_assoc|].
      intros e' [He'| ->%list_elem_of_singleton]%elem_of_app Ha'; [by apply H2|congruence].
Qed.

(** The discount of an amount is the rate of the highest threshold that the
    amount reaches, the first such entry when thresholds are equal, entries
    with a rate or a threshold that is not a positive number left out; without
    any there is no discount.  In every case it is a positive number. *)
Theorem discount_of_highest_threshold amount discounts :
  let rate := resolveAmountDiscount amount discounts in
  let es := entries (default [] discounts) in
  ((∀ e, e ∈ es → discount_applies amount e = false) ∧ rate = DEFAULT_DISCOUNT_RATE
   ∨ ∃ l1 e l2, es = l1 ++ e :: l2 ∧ rate = e.2 ∧ discount_applies amount e = true
     ∧ (∀ e', e' ∈ l1 → discount_applies amount e' = true → num_ltb (threshold e') (threshold e) = true)
     ∧ (∀ e', e' ∈ l2 → discount_applies amount e' = true → num_ltb (threshold e) (threshold e') = false))
  ∧ isFinite rate = true ∧ num_ltb num_0 rate = true.
Proof.
  cbv zeta. unfold resolveAmountDiscount.
  destruct (discount_loop amount (entries (default [] discounts))) as [[-> Hn]|(l1 & e & l2 & He & -> & Ha & H1 & H2)].
  - split; [by left|]. by vm_compute.
  - destruct (applies_finite amount e Ha) as (_ & _ & ? & ?). split; [|done].
    right. by exists l1, e, l2.
Qed.

Example discounts_by_threshold :
  let ds := Some [(js "50", num_of_decimal 9 (-1)); (js "100", num_of_decimal 8 (-1)); (js "x", num_of_Z 0);
                  (js "500", num_of_Z 0)] in
  resolveAmountDiscount (num_of_Z 99) ds = num_of_decimal 9 (-1)
  ∧ resolveAmountDiscount (num_of_Z 1000) ds = num_of_decimal 8 (-1)
  ∧ resolveAmountDiscount (num_of_Z 10) ds = num_of_Z 1.
Proof. by vm_compute. Qed.
