(* ===== verification/TierExpr.v ===== *)
(** The visual editor of tiered prices: [features/pricing/lib/tier-expr.ts].

    The editor shows an expression as a list of tiers when it has the shape that
    the editor itself writes.  The cost preview compiles an expression as code:
    running code is a parameter. *)

From Stdlib Require Import ZArith NArith Lia SpecFloat.
From S2P Require Import Prelude JsString JsNumber JsValue JsRegex BillingExpr.

(** * Data *)

Inductive CacheMode := Timed | Generic.

Inductive CondVar := VarP | VarC | VarLen.
Inductive CondOp := OpLt | OpLe | OpGt | OpGe.

#[export] Instance CondVar_eq_dec : EqDecision CondVar.
Proof. solve_decision. Defined.
#[export] Instance CondOp_eq_dec : EqDecision CondOp.
Proof. solve_decision. Defined.

Definition var_name (v : CondVar) : jstr :=
  match v with VarP => js "p" | VarC => js "c" | VarLen => js "len" end.
Definition op_name (o : CondOp) : jstr :=
  match o with OpLt => js "<" | OpLe => js "<=" | OpGt => js ">" | OpGe => js ">=" end.

(** [number | string] *)
Inductive CondValue := NumValue (n : num) | TextValue (s : jstr).

#[export] Instance CondValue_eq_dec : EqDecision CondValue.
Proof. solve_decision. Defined.

Record TierConditionInput := mkCond {
  cond_var_ : CondVar;
  cond_op_ : CondOp;
  cond_value : CondValue;
}.

(** The optional costs in the order of [BILLING_CACHE_VAR_MAP] *)
Record ExtraCosts := mkExtra {
  cache_read_unit_cost : num;
  cache_create_unit_cost : num;
  cache_create_1h_unit_cost : num;
  image_unit_cost : num;
  image_output_unit_cost : num;
  audio_input_unit_cost : num;
  audio_output_unit_cost : num;
}.

Record VisualTier := mkVisual {
  label : jstr;
  conditions_ : list TierConditionInput;
  input_unit_cost : num;
  output_unit_cost : num;
  cache_mode : CacheMode;
  extra_costs : ExtraCosts;
}.

(** [Partial<VisualTier>]: the extra costs that are given, by position *)
Record PartialTier := mkPartial {
  p_label : option jstr;
  p_conditions : option (list TierConditionInput);
  p_input : option num;
  p_output : option num;
  p_cache_mode : option CacheMode;
  p_extra : list (option num);
}.

Definition VisualConfig : Type := list VisualTier.

(** [BILLING_CACHE_VAR_MAP]: the variables of the optional costs *)
Definition BILLING_CACHE_VARS : list jstr := var_key <$> BILLING_EXTRA_VARS.

(** * Normalisation *)

(** [Number(v) || 0] *)
Definition cost_or_zero (v : option num) : num :=
  match v with Some n => if num_truthy n then n else num_0 | None => num_0 end.

Definition getTierCacheMode (mode : option CacheMode) (create_1h : option num) : CacheMode :=
  match mode with
  | Some Timed => Timed
  | Some Generic => Generic
  | None => if num_ltb num_0 (default NaN create_1h) then Timed else Generic
  end.

(** The given values override the defaults, except for the optional costs. *)
Definition normalizeVisualTier (tier : PartialTier) : VisualTier :=
  let extra i := default None (p_extra tier !! i) in
  mkVisual (default [] (p_label tier)) (default [] (p_conditions tier))
    (default num_0 (p_input tier)) (default num_0 (p_output tier))
    (getTierCacheMode (p_cache_mode tier) (extra 2))
    (mkExtra (cost_or_zero (extra 0)) (cost_or_zero (extra 1)) (cost_or_zero (extra 2))
       (cost_or_zero (extra 3)) (cost_or_zero (extra 4)) (cost_or_zero (extra 5)) (cost_or_zero (extra 6))).

Definition extras (x : ExtraCosts) : list num :=
  [cache_read_unit_cost x; cache_create_unit_cost x; cache_create_1h_unit_cost x; image_unit_cost x;
   image_output_unit_cost x; audio_input_unit_cost x; audio_output_unit_cost x].

Definition as_partial (t : VisualTier) : PartialTier :=
  mkPartial (Some (label t)) (Some (conditions_ t)) (Some (input_unit_cost t)) (Some (output_unit_cost t))
    (Some (cache_mode t)) (Some <$> extras (extra_costs t)).

Definition createDefaultVisualConfig : VisualConfig :=
  [normalizeVisualTier (mkPartial (Some (js "base")) (Some []) (Some num_0) (Some num_0) (Some Generic) [])].

Definition normalizeVisualConfig (config : option VisualConfig) : VisualConfig :=
  match config with
  | None | Some [] => createDefaultVisualConfig
  | Some tiers => (λ t, normalizeVisualTier (as_partial t)) <$> tiers
  end.

(** * Generation *)

Definition value_text (v : CondValue) : jstr :=
  match v with NumValue n => string_of_num n | TextValue s => s end.

Definition buildConditionStr (conditions : list TierConditionInput) : jstr :=
  join (js " && ")
    ((λ c, var_name (cond_var_ c) ++ js " " ++ op_name (cond_op_ c) ++ js " " ++ value_text (cond_value c))
     <$> filter (λ c, cond_value c ≠ TextValue []) conditions).

Definition buildTierBodyExpr (tier : VisualTier) : jstr :=
  let ic := cost_or_zero (Some (input_unit_cost tier)) in
  let oc := cost_or_zero (Some (output_unit_cost tier)) in
  join (js " + ")
    ((js "p * " ++ string_of_num ic) :: (js "c * " ++ string_of_num oc)
     :: base.omap (λ '((exprVar, v) : jstr * num),
          let v := cost_or_zero (Some v) in
          if num_eqb v num_0 then None else Some (exprVar ++ js " * " ++ string_of_num v))
          (zip BILLING_CACHE_VARS (extras (extra_costs tier)))).

Definition tier_call (label body : jstr) : jstr := jq "tier('" ++ label ++ jq "', " ++ body ++ js ")".

(** [a || b] on texts *)
Definition label_or (a b : jstr) : jstr := if truthy a then a else b.

(** One part of a chain of [n] tiers *)
Definition tier_part (n i : nat) (tier : VisualTier) : jstr :=
  let body := tier_call (label_or (label tier) (js "tier_" ++ digits (N.of_nat (S i)))) (buildTierBodyExpr tier) in
  let cond := buildConditionStr (conditions_ tier) in
  if (S i <? n)%nat && truthy cond then cond ++ js " ? " ++ body else body.

Definition generateExprFromVisualConfig (config : option VisualConfig) : jstr :=
  match config with
  | None | Some [] => js "p * 0 + c * 0"
  | Some [tier] =>
      let body := tier_call (label_or (label tier) (js "default")) (buildTierBodyExpr tier) in
      let cond := buildConditionStr (conditions_ tier) in
      if truthy cond then cond ++ js " ? " ++ body ++ js " : p * 0 + c * 0" else body
  | Some tiers => join (js " : ") (imap (tier_part (length tiers)) tiers)
  end.

(** * Parsing *)

(** The variable [v] times a number, which is group [n] *)
Definition coefficient_re (v : jstr) (n : nat) : list re :=
  [lit v; RStar ws; lit (js "*"); RStar ws; RGroup n num_text].

Definition plus_sign : list re := [RStar ws; lit (js "+"); RStar ws].

Definition opt_coefficient_re (v : jstr) (n : nat) : re := opt (seq (plus_sign ++ coefficient_re v n)).

(** [bodyPat], with its groups from [n] on *)
Definition body_re (n : nat) : list re :=
  coefficient_re (js "p") n ++ plus_sign ++ coefficient_re (js "c") (S n)
  ++ imap (λ i v, opt_coefficient_re v (n + 2 + i)) BILLING_CACHE_VARS.

(** The call of [tier] with its label and [bodyPat], with its groups from [n] on *)
Definition tier_call_re (n : nat) : list re :=
  [lit (jq "tier('"); RGroup n (RStar (not_unit QUOTE)); lit (jq "',"); RStar ws]
  ++ body_re (S n) ++ [lit (js ")")].

Definition single_re : re := seq (RBegin :: tier_call_re 1 ++ [REnd]).

Definition tier_chain_re : re :=
  seq (opt (seq [cond_group_re; RStar ws; lit (js "?"); RStar ws]) :: tier_call_re 2).

Definition version_body_re : re :=
  seq [RBegin; lit (js "v"); plus digit; lit (js ":"); RGroup 1 (RStar any); REnd].

Definition read_var (s : jstr) : CondVar :=
  if bool_decide (s = js "p") then VarP else if bool_decide (s = js "c") then VarC else VarLen.
Definition read_op (s : jstr) : CondOp :=
  if bool_decide (s = js "<") then OpLt else if bool_decide (s = js "<=") then OpLe
  else if bool_decide (s = js ">") then OpGt else OpGe.

Definition parse_conditions (condStr : jstr) : list TierConditionInput :=
  if negb (truthy condStr) then []
  else
    base.omap (λ cp,
      match exec cond_part_re (trim cp) with
      | Some (_, cm) => Some (mkCond (read_var (cap cm 1)) (read_op (cap cm 2)) (NumValue (Number_of_text (cap cm 3))))
      | None => None
      end) (split_matches condStr 0 (match_all and_re condStr)).

(** The tier of a match whose groups start at [n] *)
Definition matched_tier (n : nat) (conditions : list TierConditionInput) (res : rresult) : VisualTier :=
  normalizeVisualTier
    (mkPartial (Some (cap res n)) (Some conditions) (Some (Number_of_text (cap res (n + 1))))
       (Some (Number_of_text (cap res (n + 2)))) None
       (imap (λ i _, Number_of_text <$> group res (n + 3 + i)) BILLING_CACHE_VARS)).

Definition strip_ws (s : jstr) : jstr := replace_units is_ws [] s.

Definition tryParseVisualConfig (exprStr : option jstr) : option VisualConfig :=
  match exprStr with
  | None | Some [] => None
  | Some expr =>
      let body := match exec version_body_re expr with Some (_, res) => cap res 1 | None => expr end in
      match exec single_re body with
      | Some (_, simple) => Some (normalizeVisualConfig (Some [matched_tier 1 [] simple]))
      | None =>
          match (λ '((_, m) : nat * rresult), matched_tier 2 (parse_conditions (cap m 1)) m)
                <$> match_all tier_chain_re body with
          | [] => None
          | tiers =>
              let cfg := normalizeVisualConfig (Some tiers) in
              if bool_decide (strip_ws (generateExprFromVisualConfig (Some cfg)) = strip_ws body)
              then Some cfg else None
          end
      end
  end.

(** [ESTIMATOR_VARS] *)
Definition ESTIMATOR_VARS : list (jstr * jstr) :=
  [(js "cr", js "cacheReadTokens"); (js "cc", js "cacheCreateTokens"); (js "cc1h", js "cacheCreate1hTokens");
   (js "img", js "imageTokens"); (js "img_o", js "imageOutputTokens"); (js "ai", js "audioInputTokens");
   (js "ao", js "audioOutputTokens")].

(** * The cost preview *)

Inductive MathFn := MathMax | MathMin | MathAbs | MathCeil | MathFloor.

(** A value of the environment: a number, a function of [Math], or [tierFn] *)
Inductive EnvValue := EnvNum (n : num) | EnvMath (f : MathFn) | EnvTier.

Record EvalResult := mkEval { cost : num; matchedTier : jstr; error : option jstr }.

(** [n || 0] for a number that may be missing *)
Definition token_count (extraTokenValues : list (jstr * num)) (key : jstr) : num :=
  cost_or_zero (omap.get extraTokenValues key).

Definition eval_env (promptTokens completionTokens : num) (extraTokenValues : list (jstr * num)) :
    list (jstr * EnvValue) :=
  let cacheReadTokens := token_count extraTokenValues (js "cacheReadTokens") in
  let cacheCreateTokens := token_count extraTokenValues (js "cacheCreateTokens") in
  let cacheCreate1hTokens := token_count extraTokenValues (js "cacheCreate1hTokens") in
  let len := num_add (num_add (num_add promptTokens cacheReadTokens) cacheCreateTokens) cacheCreate1hTokens in
  foldl (λ env '((v, stateKey) : jstr * jstr), omap.set env v (EnvNum (token_count extraTokenValues stateKey)))
    [(js "p", EnvNum promptTokens); (js "c", EnvNum completionTokens); (js "len", EnvNum len);
     (js "tier", EnvTier); (js "max", EnvMath MathMax); (js "min", EnvMath MathMin);
     (js "abs", EnvMath MathAbs); (js "ceil", EnvMath MathCeil); (js "floor", EnvMath MathFloor)]
    ESTIMATOR_VARS.

Section evaluation.
(** Compiling and running a function body in an environment: the names that it
    calls [tier] with, in order, and the number it returns or the message of the
    error it throws *)
Context (run_code : list (jstr * EnvValue) → jstr → list jstr * (num + jstr)).

Definition evalExprLocally (exprStr : jstr) (promptTokens completionTokens : num)
    (extraTokenValues : list (jstr * num)) : EvalResult :=
  if negb (truthy exprStr) || negb (truthy (trim exprStr)) then mkEval num_0 [] None
  else
    let '(names, result) := run_code (eval_env promptTokens completionTokens extraTokenValues)
      (jq "'use strict'; return (" ++ exprStr ++ js ");") in
    match result with
    | inl value => mkEval (cost_or_zero (Some value)) (default [] (last names)) None
    | inr message => mkEval num_0 [] (Some message)
    end.
End evaluation.

Definition ESTIMATOR_EXTRA_FIELDS := ESTIMATOR_VARS.

Definition extra_vars_re : re :=
  seq [RWordBoundary; RGroup 1 (alt ((λ f, lit f.1) <$> ESTIMATOR_VARS)); RWordBoundary].

Definition exprUsesExtraVars (exprStr : jstr) : bool :=
  if negb (truthy exprStr) then false else test extra_vars_re exprStr.

(** ** Examples *)

Definition demo_tiers : VisualConfig :=
  [mkVisual (js "base") [mkCond VarLen OpLe (NumValue (num_of_Z 200000)); mkCond VarP OpGt (NumValue (num_of_Z 10))]
     (num_of_decimal 125 (-2)) (num_of_Z 10) Generic
     (mkExtra (num_of_decimal 5 (-1)) num_0 num_0 num_0 num_0 num_0 num_0);
   mkVisual (js "long") [] (num_of_decimal 25 (-1)) (num_of_Z 15) Timed
     (mkExtra num_0 num_0 (num_of_Z 3) num_0 num_0 (num_of_Z 7) num_0)].

Example tiers_text :
  generateExprFromVisualConfig (Some demo_tiers)
  = jq "len <= 200000 && p > 10 ? tier('base', p * 1.25 + c * 10 + cr * 0.5) : tier('long', p * 2.5 + c * 15 + cc1h * 3 + ai * 7)".
Proof. vm_compute. reflexivity. Qed.

Example tiers_read :
  tryParseVisualConfig (Some (generateExprFromVisualConfig (Some demo_tiers))) = Some demo_tiers
  ∧ tryParseVisualConfig (Some (js "v2:" ++ generateExprFromVisualConfig (Some demo_tiers))) = Some demo_tiers.
Proof. vm_compute. split; reflexivity. Qed.
