(* ===== verification/RegexPass.v ===== *)
(** Matches that succeed: when the first alternatives of an expression lead to a
    continuation that succeeds, they decide the match.  [passes r s t c c'] says
    that [r], before the text [t], takes exactly [s] and turns the captures [c]
    into [c'], whenever what follows succeeds there; [refuses r s c] says that
    [r] does not match at the start of [s] at all. *)

From Stdlib Require Import ZArith NArith Lia.
From S2P Require Import Prelude JsString JsRegex.

(** * Continuations *)

Lemma star_loop_ext {A} (body : (mstate → option A) → mstate → option A) (k k' : mstate → option A) n m :
  (∀ K K' m, (∀ m, K m = K' m) → body K m = body K' m) →
  (∀ m, k m = k' m) → star_loop body k n m = star_loop body k' n m.
Proof.
  intros Hb Hk. revert m. induction n as [|n IH]; intros m; cbn [star_loop]; [done|].
  erewrite Hb; [by rewrite Hk|]. intros m'. cbn. case_match; [apply IH|done].
Qed.

Lemma rmatch_ext {A} r (k k' : mstate → option A) m :
  (∀ m, k m = k' m) → rmatch r k m = rmatch r k' m.
Proof.
  revert k k' m. induction r as [|p|a IHa b IHb|a IHa b IHb|r IH|n r IH|n| | | | |]; intros k k' m Hk;
    cbn [rmatch]; try (by repeat case_match; rewrite ?Hk).
  - apply IHa. intros m'. by apply IHb.
  - by rewrite (IHa k k' m Hk), (IHb k k' m Hk).
  - apply star_loop_ext; [|done]. intros K K' m' HK. by apply IH.
  - apply IH. intros m'. apply Hk.
Qed.

(** No match succeeds before a continuation that always fails. *)
Lemma rmatch_none {A} r (k : mstate → option A) m : (∀ m, k m = None) → rmatch r k m = None.
Proof.
  revert k m. induction r as [|p|a IHa b IHb|a IHa b IHb|r IH|n r IH|n| | | | |]; intros k m Hk;
    cbn [rmatch]; try (by repeat case_match; rewrite ?Hk).
  - apply IHa. intros m'. by apply IHb.
  - by rewrite (IHa k m Hk), (IHb k m Hk).
  - generalize (length (rest m)). intros n. revert m. induction n as [|n IHn]; intros m; cbn [star_loop]; [done|].
    rewrite IH; [done|]. intros m'. by case_match.
  - apply IH. intros m'. apply Hk.
Qed.

Lemma star_nil {A} r (k : mstate → option A) n m : rest m = [] → star_loop (rmatch r) k n m = k m.
Proof.
  intros Hm. destruct n as [|n]; [done|]. cbn [star_loop].
  rewrite rmatch_none; [done|]. intros m'. rewrite Hm. cbn [length].
  by rewrite (proj2 (Nat.ltb_ge _ _)) by lia.
Qed.

(** A repetition needs no more turns than there are units. *)
Lemma star_fuel_eq {A} r (k : mstate → option A) n1 n2 m :
  length (rest m) ≤ n1 → length (rest m) ≤ n2 →
  star_loop (rmatch r) k n1 m = star_loop (rmatch r) k n2 m.
Proof.
  revert n2 m. induction n1 as [|n1 IH]; intros n2 m H1 H2.
  { rewrite (star_nil r k n2 m); [done|]. destruct (rest m); [done|cbn in *; lia]. }
  destruct n2 as [|n2].
  { rewrite (star_nil r k (S n1) m); [done|]. destruct (rest m); [done|cbn in *; lia]. }
  cbn [star_loop].
  rewrite (rmatch_ext r _ (λ m', if (length (rest m') <? length (rest m))%nat
                                 then star_loop (rmatch r) k n2 m' else None)); [done|].
  intros m'. destruct (Nat.ltb_spec (length (rest m')) (length (rest m))); [|done]. apply IH; lia.
Qed.

Lemma star_fuel {A} r (k : mstate → option A) n m :
  length (rest m) ≤ n → star_loop (rmatch r) k n m = star_loop (rmatch r) k (length (rest m)) m.
Proof. intros Hn. by apply star_fuel_eq. Qed.

(** * Passing *)

Definition accepts {A} (P : A → Prop) (k : mstate → option A) (t : jstr) (c : list (nat * jstr)) : Prop :=
  ∀ b, ∃ x, P x ∧ k (mkM b t c) = Some x.

Definition passes (r : re) (s t : jstr) (c c' : list (nat * jstr)) : Prop :=
  ∀ A (P : A → Prop) (k : mstate → option A), accepts P k t c' → accepts P (rmatch r k) (s ++ t) c.

Definition refuses (r : re) (t : jstr) : Prop :=
  ∀ A (k : mstate → option A) b c, rmatch r k (mkM b t c) = None.

Lemma passes_eps t c : passes REps [] t c c.
Proof. by intros A P k Hk. Qed.

Lemma passes_lit s t c : passes (lit s) s t c c.
Proof. intros A P k Hk b. rewrite rmatch_lit. apply Hk. Qed.

Lemma passes_seq r1 r2 s1 s2 t c c1 c2 :
  passes r1 s1 (s2 ++ t) c c1 → passes r2 s2 t c1 c2 → passes (RSeq r1 r2) (s1 ++ s2) t c c2.
Proof.
  intros H1 H2 A P k Hk. rewrite <- app_assoc. cbn [rmatch].
  apply (H1 A P (rmatch r2 k)). by apply H2.
Qed.

Lemma passes_alt_l r1 r2 s t c c' : passes r1 s t c c' → passes (RAlt r1 r2) s t c c'.
Proof.
  intros H1 A P k Hk b. destruct (H1 A P k Hk b) as (x & Hx & E). exists x. split; [done|].
  cbn [rmatch]. by rewrite E.
Qed.

Lemma passes_alt_r r1 r2 s t c c' :
  refuses r1 (s ++ t) → passes r2 s t c c' → passes (RAlt r1 r2) s t c c'.
Proof.
  intros H1 H2 A P k Hk b. destruct (H2 A P k Hk b) as (x & Hx & E). exists x. split; [done|].
  cbn [rmatch]. by rewrite H1.
Qed.

(** An alternative that is dropped for what follows it *)
Lemma passes_alt_seq_r r1 r2 r s t c c' :
  refuses (RSeq r1 r) (s ++ t) → passes (RSeq r2 r) s t c c' → passes (RSeq (RAlt r1 r2) r) s t c c'.
Proof.
  intros H1 H2 A P k Hk b. destruct (H2 A P k Hk b) as (x & Hx & E). exists x. split; [done|].
  specialize (H1 A k b c). cbn [rmatch] in *. by rewrite H1.
Qed.

Lemma passes_alt_seq_l r1 r2 r s t c c' :
  passes (RSeq r1 r) s t c c' → passes (RSeq (RAlt r1 r2) r) s t c c'.
Proof.
  intros H1 A P k Hk b. destruct (H1 A P k Hk b) as (x & Hx & E). exists x. split; [done|].
  cbn [rmatch] in *. by rewrite E.
Qed.

Lemma passes_group n r s t c c' : passes r s t c c' → passes (RGroup n r) s t c ((n, s) :: c').
Proof.
  intros Hr A P k Hk. cbn [rmatch]. intros b.
  refine (Hr A P (λ m', k (capture n (take (length (s ++ t) - length (rest m')) (s ++ t)) m')) _ b).
  intros b'. unfold capture. cbn [before rest caps]. rewrite length_app.
  replace (length s + length t - length t) with (length s) by lia. rewrite take_app_length. apply Hk.
Qed.

Lemma passes_class p d t c : p d = true → passes (RClass p) [d] t c c.
Proof. intros Hp A P k Hk b. cbn [app]. rewrite rmatch_class by done. apply Hk. Qed.

(** ** Repetitions *)

Lemma passes_star_nil r t c : refuses r t → passes (RStar r) [] t c c.
Proof.
  intros Hr A P k Hk b. destruct (Hk b) as (x & Hx & E). exists x. split; [done|].
  cbn [rmatch rest app]. destruct (length t); [done|]. cbn [star_loop]. by rewrite (Hr A).
Qed.

Lemma passes_star_cons r s1 s2 t c c1 c2 :
  s1 ≠ [] → passes r s1 (s2 ++ t) c c1 → passes (RStar r) s2 t c1 c2 →
  passes (RStar r) (s1 ++ s2) t c c2.
Proof.
  intros Hne H1 H2 A P k Hk b. cbn [rmatch rest]. rewrite <- app_assoc.
  destruct (length (s1 ++ s2 ++ t)) as [|n] eqn:En; [by destruct s1|]. cbn [star_loop].
  edestruct (H1 A P (λ m', if (length (rest m') <? length (s1 ++ s2 ++ t))%nat
                         then star_loop (rmatch r) k n m' else None)) as (x & Hx & E).
  { intros b'. cbn [rest]. assert (length (s2 ++ t) < length (s1 ++ s2 ++ t)) as Hlt.
    { rewrite (length_app s1). destruct s1; [done|]. cbn. lia. }
    apply Nat.ltb_lt in Hlt as Hlt'. rewrite Hlt', star_fuel by (cbn [rest]; lia).
    apply (H2 A P k Hk b'). }
  exists x. split; [done|]. cbn [rest]. by rewrite E.
Qed.

Lemma refuses_class p t : match t with d :: _ => p d = false | [] => True end → refuses (RClass p) t.
Proof. intros Ht A k b c. cbn. destruct t as [|d t]; [done|]. by rewrite Ht. Qed.

Lemma passes_run p run t c :
  Forall (λ d, p d = true) run → match t with d :: _ => p d = false | [] => True end →
  passes (RStar (RClass p)) run t c c.
Proof.
  intros Hrun Ht. induction Hrun as [|d run Hd Hrun IH].
  - by apply passes_star_nil, refuses_class.
  - by apply (passes_star_cons (RClass p) [d] run t c c c); [|apply passes_class|].
Qed.

Lemma passes_plus p run t c :
  run ≠ [] → Forall (λ d, p d = true) run → match t with d :: _ => p d = false | [] => True end →
  passes (plus (RClass p)) run t c c.
Proof.
  intros Hne Hrun Ht. destruct Hrun as [|d run Hd Hrun]; [done|].
  apply (passes_seq _ _ [d] run t c c c); [by apply passes_class|by apply passes_run].
Qed.

(** ** Sequences *)

Lemma rmatch_seq_cons {A} r l (k : mstate → option A) m :
  rmatch (seq (r :: l)) k m = rmatch r (rmatch (seq l) k) m.
Proof. by destruct l. Qed.

Lemma passes_nil t c : passes (seq []) [] t c c.
Proof. apply passes_eps. Qed.

Lemma passes_cons r l s1 s2 t c c1 c2 :
  passes r s1 (s2 ++ t) c c1 → passes (seq l) s2 t c1 c2 → passes (seq (r :: l)) (s1 ++ s2) t c c2.
Proof.
  intros H1 H2 A P k Hk b. rewrite rmatch_seq_cons. by apply (passes_seq r (seq l) s1 s2 t c c1 c2).
Qed.

Lemma passes_one r s t c c' : passes r s t c c' → passes (seq [r]) s t c c'.
Proof. done. Qed.

Lemma rmatch_seq_app {A} l1 l2 (k : mstate → option A) m :
  rmatch (seq (l1 ++ l2)) k m = rmatch (seq l1) (rmatch (seq l2) k) m.
Proof.
  revert m. induction l1 as [|r l1 IH]; intros m; [done|]. cbn [app]. rewrite !rmatch_seq_cons.
  by apply rmatch_ext.
Qed.

Lemma passes_app l1 l2 s1 s2 t c c1 c2 :
  passes (seq l1) s1 (s2 ++ t) c c1 → passes (seq l2) s2 t c1 c2 → passes (seq (l1 ++ l2)) (s1 ++ s2) t c c2.
Proof.
  intros H1 H2 A P k Hk b. rewrite rmatch_seq_app. by apply (passes_seq (seq l1) (seq l2) s1 s2 t c c1 c2).
Qed.

Lemma passes_opt_taken r s t c c' : passes r s t c c' → passes (opt r) s t c c'.
Proof. apply passes_alt_l. Qed.

Lemma passes_opt_skipped r t c : refuses r t → passes (opt r) [] t c c.
Proof. intros Hr. apply passes_alt_r; [done|apply passes_eps]. Qed.

(** * Refusing *)

Lemma refuses_seq r1 r2 t : refuses r1 t → refuses (RSeq r1 r2) t.
Proof. intros H1 A k b c. apply H1. Qed.

Lemma refuses_cons r l t : refuses r t → refuses (seq (r :: l)) t.
Proof. intros H1 A k b c. rewrite rmatch_seq_cons. apply H1. Qed.

Lemma refuses_alt r1 r2 t : refuses r1 t → refuses r2 t → refuses (RAlt r1 r2) t.
Proof. intros H1 H2 A k b c. cbn [rmatch]. by rewrite H1. Qed.

Lemma refuses_group n r t : refuses r t → refuses (RGroup n r) t.
Proof. intros H1 A k b c. apply H1. Qed.

Lemma refuses_plus r t : refuses r t → refuses (plus r) t.
Proof. apply refuses_seq. Qed.

Lemma refuses_lit x s t : head t ≠ Some x → refuses (lit (x :: s)) t.
Proof.
  intros Ht A k b c. destruct t as [|d t]; [done|]. apply rmatch_lit_ne. intros ->. by apply Ht.
Qed.

(** An optional part that refuses leaves the rest to decide. *)
Lemma refuses_opt_cons r l t : refuses r t → refuses (seq l) t → refuses (seq (opt r :: l)) t.
Proof. intros H1 H2 A k b c. rewrite rmatch_seq_cons. cbn [opt rmatch]. rewrite H1. apply H2. Qed.

(** White space before something that refuses every place of the run *)
Lemma refuses_ws_cons l run t :
  Forall (λ d, is_ws d = true) run → match t with d :: _ => is_ws d = false | [] => True end →
  (∀ q, q `suffix_of` run → refuses (seq l) (q ++ t)) →
  refuses (seq (RStar ws :: l)) (run ++ t).
Proof.
  intros Hrun Ht Hl A k b c. rewrite rmatch_seq_cons. cbn [rmatch rest].
  generalize (length (run ++ t)). intros n. revert n b. induction Hrun as [|d run Hd Hrun IH]; intros n b.
  - assert (rmatch (seq l) k (mkM b t c) = None) as Hk by (by apply (Hl [] (suffix_nil _))).
    destruct n as [|n]; cbn [star_loop app]; [done|].
    assert (refuses ws t) as Hw by (by apply refuses_class). by rewrite (Hw A).
  - assert (rmatch (seq l) k (mkM b ((d :: run) ++ t) c) = None) as Hk by (by apply (Hl (d :: run) (reflexivity _))).
    destruct n as [|n]; cbn [star_loop]; [done|]. unfold ws at 1. cbn [app]. rewrite rmatch_class by done.
    cbn [rest length]. rewrite ltb_succ. rewrite IH; [done|].
    intros q Hq. apply Hl. by apply suffix_cons_r.
Qed.

(** * Running *)

Lemma match_at_passes r s t c' b c :
  passes r s t [] c' → 
  ∃ res, match_at r (mkM b (s ++ t) c) = Some res ∧ r_text res = s ∧ r_caps res = c'
         ∧ rest (r_after res) = t ∧ caps (r_after res) = [].
Proof.
  intros Hr. unfold match_at. cbn [before rest].
  edestruct (Hr rresult (λ res, r_text res = s ∧ r_caps res = c' ∧ rest (r_after res) = t ∧ caps (r_after res) = [])
    (λ m', Some (mkResult (take (length (s ++ t) - length (rest m')) (s ++ t)) (caps m') (mkM (before m') (rest m') []))))
    as (res & Hres & E).
  { intros b'. eexists. split; [|reflexivity]. cbn. rewrite length_app.
    replace (length s + length t - length t) with (length s) by lia. by rewrite take_app_length. }
  exists res. by split.
Qed.

Lemma match_at_refuses r m : refuses r (rest m) → match_at r m = None.
Proof. intros Hr. unfold match_at. apply Hr. Qed.

(** The first match is behind the places that refuse. *)
Lemma find_match_skip r skipped_text s t c' b n i :
  (∀ q, q ≠ [] → q `suffix_of` skipped_text → refuses r (q ++ s ++ t)) →
  passes r s t [] c' → length skipped_text ≤ n →
  ∃ res, find_match r n i (mkM b (skipped_text ++ s ++ t) []) = Some (i + length skipped_text, res)
         ∧ r_text res = s ∧ r_caps res = c' ∧ rest (r_after res) = t ∧ caps (r_after res) = [].
Proof.
  revert b n i. induction skipped_text as [|d q IH]; intros b n i Hq Hr Hn.
  - destruct (match_at_passes r s t c' b [] Hr) as (res & E & Hres). exists res. split; [|done].
    cbn [app length]. rewrite Nat.add_0_r. destruct n; cbn [find_match]; by rewrite E.
  - destruct n as [|n]; [cbn in Hn; lia|]. cbn [find_match app].
    rewrite match_at_refuses by (apply (Hq (d :: q)); [done|reflexivity]).
    unfold advance. cbn [rest take drop last before caps].
    destruct (IH (Some d) n (S i)) as (res & E & Hres); [|done|cbn in Hn; lia|].
    + intros q' Hne Hq'. apply Hq; [done|]. by apply suffix_cons_r.
    + exists res. split; [|done]. cbn [length]. rewrite Nat.add_succ_r. exact E.
Qed.
