(* ===== verification/TierProps.v ===== *)
(** What the tier editor writes, it reads back: a list of tiers with plain labels
    and readable numbers survives [generateExprFromVisualConfig] and
    [tryParseVisualConfig]. *)

From Stdlib Require Import ZArith NArith Lia SpecFloat Sorted.
From S2P Require Import Prelude JsString JsNumber JsValue JsRegex BillingExpr TierExpr RegexPass.

(** * Readable tiers *)

(** The class of the numbers of a condition: no minus sign *)
Definition cond_unit (c : N) : bool := is_digit c || bool_decide (c ∈ js ".eE+").

(** The text of the number is of the class and reads back as the number. *)
Definition readable (p : N → bool) (x : num) : Prop :=
  string_of_num x ≠ [] ∧ Forall (λ c, p c = true) (string_of_num x)
  ∧ Number_of_text (string_of_num x) = x.

#[export] Instance readable_dec p x : Decision (readable p x).
Proof. apply _. Defined.

(** A cost that is neither NaN nor minus zero *)
Definition plain_cost (x : num) : Prop := cost_or_zero (Some x) = x ∧ readable num_unit x.

#[export] Instance plain_cost_dec x : Decision (plain_cost x).
Proof. apply _. Defined.

Definition plain_cond (c : TierConditionInput) : Prop :=
  match cond_value c with NumValue x => readable cond_unit x | TextValue _ => False end.

#[export] Instance plain_cond_dec c : Decision (plain_cond c).
Proof. unfold plain_cond. destruct (cond_value c); apply _. Defined.

Definition plain_tier (t : VisualTier) : Prop :=
  label t ≠ [] ∧ (QUOTE ∉ label t)
  ∧ plain_cost (input_unit_cost t) ∧ plain_cost (output_unit_cost t)
  ∧ Forall plain_cost (extras (extra_costs t))
  ∧ cache_mode t = getTierCacheMode None (Some (cache_create_1h_unit_cost (extra_costs t)))
  ∧ Forall plain_cond (conditions_ t).

#[export] Instance CacheMode_eq_dec : EqDecision CacheMode.
Proof. solve_decision. Defined.

#[export] Instance plain_tier_dec t : Decision (plain_tier t).
Proof. apply _. Defined.

(** Every tier but the last has a condition, and the last of several has none. *)
Fixpoint closed_chain (tiers : VisualConfig) : Prop :=
  match tiers with
  | [] => False
  | [t] => conditions_ t = []
  | t :: rest => conditions_ t ≠ [] ∧ closed_chain rest
  end.

#[export] Instance TierConditionInput_eq_dec : EqDecision TierConditionInput.
Proof. solve_decision. Defined.

#[export] Instance closed_chain_dec tiers : Decision (closed_chain tiers).
Proof. induction tiers as [|t [|u rest] IH]; cbn [closed_chain]; apply _. Defined.

(** A chain, or a single tier with conditions *)
Definition plain_config (tiers : VisualConfig) : Prop :=
  Forall plain_tier tiers ∧ (closed_chain tiers ∨ length tiers = 1).

#[export] Instance plain_config_dec tiers : Decision (plain_config tiers).
Proof. apply _. Defined.

(** * Classes of units *)

Lemma digit_class c l p :
  (∀ c, is_digit c = true → p c = true) → Forall (λ c, p c = true) l →
  is_digit c || bool_decide (c ∈ l) = true → p c = true.
Proof.
  intros Hd Hl [Hc|Hc]%orb_true_iff; [by apply Hd|]. apply bool_decide_eq_true in Hc.
  by eapply Forall_forall in Hl.
Qed.

Lemma num_unit_not_ws c : num_unit c = true → is_ws c = false.
Proof.
  intros Hc. apply negb_true_iff. revert Hc. apply (digit_class c (js ".eE+-") (λ c, negb (is_ws c))).
  - intros d Hd. by rewrite digit_not_ws.
  - apply (bool_decide_unpack _). by vm_compute.
Qed.

Lemma cond_unit_num c : cond_unit c = true → num_unit c = true.
Proof.
  apply (digit_class c (js ".eE+") num_unit).
  - intros d Hd. unfold num_unit. by rewrite Hd.
  - apply (bool_decide_unpack _). by vm_compute.
Qed.

Lemma readable_head p x :
  readable p x → ∃ d s, string_of_num x = d :: s ∧ p d = true.
Proof.
  intros (Hne & Hp & _). destruct (string_of_num x) as [|d s]; [done|].
  exists d, s. split; [done|]. by inversion Hp.
Qed.

(** * One coefficient *)

(** The texts of the literals between the parts *)
Definition times : jstr := js " * ".
Definition plus_ : jstr := js " + ".

Definition coefficient_text (v : jstr) (x : num) : jstr := v ++ times ++ string_of_num x.

Lemma passes_ws t c : match t with d :: _ => is_ws d = false | [] => True end → passes (RStar ws) (js " ") t c c.
Proof. intros Ht. apply passes_run; [|done]. apply (bool_decide_unpack _). by vm_compute. Qed.

Lemma passes_coefficient v n x t c :
  readable num_unit x → match t with d :: _ => num_unit d = false | [] => True end →
  passes (seq (coefficient_re v n)) (coefficient_text v x) t c ((n, string_of_num x) :: c).
Proof.
  intros Hx Ht. destruct (readable_head _ _ Hx) as (d & s & E & Hd). destruct Hx as (Hne & Hp & _).
  unfold coefficient_re, coefficient_text. change times with (js " " ++ js "*" ++ js " ").
  rewrite <- !app_assoc.
  eapply passes_cons; [apply passes_lit|]. eapply passes_cons; [by apply passes_ws|].
  eapply passes_cons; [apply passes_lit|].
  eapply passes_cons; [apply passes_ws; rewrite E; by apply num_unit_not_ws|].
  by apply passes_one, passes_group, passes_plus.
Qed.

Lemma passes_plus_sign d t c : is_ws d = false → passes (seq plus_sign) plus_ (d :: t) c c.
Proof.
  intros Hd. change plus_ with (js " " ++ js "+" ++ js " ").
  eapply passes_cons; [by apply passes_ws|]. eapply passes_cons; [apply passes_lit|].
  by apply passes_one, passes_ws.
Qed.

(** * The optional coefficients *)

Definition is_zero (x : num) : bool := num_eqb x num_0.

Fixpoint extras_text (vs : list jstr) (xs : list num) : jstr :=
  match vs, xs with
  | v :: vs, x :: xs =>
      (if is_zero x then [] else plus_ ++ coefficient_text v x) ++ extras_text vs xs
  | _, _ => []
  end.

(** The captures: each optional cost that is written has one, from [n] on *)
Fixpoint extras_caps (n : nat) (xs : list num) (c : list (nat * jstr)) : list (nat * jstr) :=
  match xs with
  | [] => c
  | x :: xs => extras_caps (S n) xs (if is_zero x then c else (n, string_of_num x) :: c)
  end.

(** A variable whose pattern is not mistaken for a later one *)
Definition apart (v w : jstr) : Prop := ∀ n t, refuses (seq (coefficient_re v n)) (w ++ times ++ t).

Lemma vars_apart : StronglySorted apart BILLING_CACHE_VARS.
Proof.
  unfold BILLING_CACHE_VARS. cbn.
  repeat first [apply SSorted_nil | apply SSorted_cons | apply List.Forall_nil | apply List.Forall_cons];
    intros n t A k b c; reflexivity.
Qed.

Lemma var_not_ws v : v ∈ BILLING_CACHE_VARS → ∃ d s, v = d :: s ∧ is_ws d = false.
Proof.
  intros Hv. assert (Forall (λ v, match v with d :: _ => negb (is_ws d) | [] => false end = true) BILLING_CACHE_VARS) as H
    by (apply (bool_decide_unpack _); by vm_compute).
  eapply Forall_forall in H; [|done]. destruct v as [|d s]; [done|]. exists d, s. split; [done|].
  by apply negb_true_iff.
Qed.

Lemma suffix_blank q : q `suffix_of` js " " → q = js " " ∨ q = [].
Proof.
  change (js " ") with [32%N]. intros [l E]. destruct l as [|d l]; [by left|]. right.
  injection E as _ E. by apply eq_sym, app_nil in E as [_ ->].
Qed.

Lemma refuses_blank l d t :
  is_ws d = false → refuses (seq l) (d :: t) → refuses (seq l) (js " " ++ d :: t) →
  refuses (seq (RStar ws :: l)) (js " " ++ d :: t).
Proof.
  intros Hd H1 H2. apply refuses_ws_cons; [apply (bool_decide_unpack _); by vm_compute|done|].
  by intros q [->| ->]%suffix_blank.
Qed.

(** A sign is refused when the coefficient behind it is. *)
Lemma refuses_plus_sign l d t :
  is_ws d = false → refuses (seq l) (d :: t) → (∀ t, refuses (seq l) (js " " ++ t)) →
  refuses (seq (plus_sign ++ l)) (plus_ ++ d :: t).
Proof.
  intros Hd Hl Hs. unfold plus_sign. cbn [app].
  change (plus_ ++ d :: t) with (js " " ++ (js "+" ++ js " " ++ d :: t)).
  change (js "+" ++ js " " ++ d :: t) with (43%N :: (js " " ++ d :: t)).
  apply refuses_blank; [done| |by apply refuses_cons, refuses_lit].
  intros A k b c. rewrite rmatch_seq_cons.
  change (43%N :: (js " " ++ d :: t)) with (js "+" ++ (js " " ++ d :: t)). rewrite rmatch_lit.
  by apply (refuses_blank l).
Qed.

Lemma extras_start vs xs :
  extras_text vs xs = [] ∨ ∃ w t, w ∈ vs ∧ extras_text vs xs = plus_ ++ w ++ times ++ t.
Proof.
  revert xs. induction vs as [|v vs IH]; intros [|x xs]; cbn [extras_text]; try (by left).
  destruct (is_zero x); cbn [app].
  - destruct (IH xs) as [->|(w & t & Hw & ->)]; [by left|]. right. exists w, t. split; [set_solver|done].
  - right. exists v, (string_of_num x ++ extras_text vs xs). split; [set_solver|].
    unfold coefficient_text. by rewrite <- !app_assoc.
Qed.

Lemma opt_skipped v vs xs n t :
  v ∈ BILLING_CACHE_VARS → Forall (λ w, w ∈ BILLING_CACHE_VARS) vs → Forall (apart v) vs →
  refuses (seq (plus_sign ++ coefficient_re v n)) (extras_text vs xs ++ js ")" ++ t).
Proof.
  intros Hv Hvs Hap. destruct (extras_start vs xs) as [->|(w & t' & Hw & ->)].
  { by intros A k b c. }
  assert (w ∈ BILLING_CACHE_VARS) as Hwv by (by eapply Forall_forall in Hvs).
  eapply Forall_forall in Hap; [|done].
  destruct (var_not_ws v Hv) as (dv & sv & -> & Hdv). destruct (var_not_ws w Hwv) as (d & s & -> & Hd).
  rewrite <- !app_assoc. cbn [app]. apply refuses_plus_sign; [done| |].
  - apply (Hap n (t' ++ js ")" ++ t)).
  - intros t0. apply refuses_cons, refuses_lit. change (head (js " " ++ t0)) with (Some 32%N).
    by intros [= <-].
Qed.

(** What follows a number in a tier *)
Lemma extras_stop vs xs t d s : extras_text vs xs ++ js ")" ++ t = d :: s → num_unit d = false.
Proof.
  destruct (extras_start vs xs) as [->|(w & t' & Hw & ->)].
  - intros E. change (41%N :: t = d :: s) in E. by injection E as <- _.
  - rewrite <- app_assoc. change plus_ with (32%N :: js "+ "). by intros [= <- _].
Qed.

Lemma extras_stop' vs xs t :
  match extras_text vs xs ++ js ")" ++ t with d :: _ => num_unit d = false | [] => True end.
Proof. destruct (_ ++ _) as [|d s] eqn:E; [done|]. by eapply extras_stop. Qed.

Lemma passes_extras n vs xs t c :
  Forall (λ w, w ∈ BILLING_CACHE_VARS) vs → StronglySorted apart vs → length xs = length vs →
  Forall (readable num_unit) xs →
  passes (seq (imap (λ i v, opt_coefficient_re v (n + i)) vs)) (extras_text vs xs) (js ")" ++ t) c
    (extras_caps n xs c).
Proof.
  intros Hvs Hap. revert n xs c. induction Hap as [|v vs Hap IH Hv]; intros n [|x xs] c Hlen Hxs; try done.
  { apply passes_nil. }
  inversion Hvs as [|? ? Hvv Hvs']; subst. inversion Hxs as [|? ? Hx Hxs']; subst.
  cbn [imap extras_text extras_caps]. rewrite Nat.add_0_r.
  rewrite (imap_ext _ (λ i v, opt_coefficient_re v (S n + i))) by (intros; cbn; f_equal; lia).
  eapply (passes_cons _ _ _ _ _ c (if is_zero x then c else (n, string_of_num x) :: c));
    [|apply IH; [done|by injection Hlen|done]].
  destruct (is_zero x).
  - apply passes_opt_skipped. by apply opt_skipped.
  - apply passes_opt_taken. destruct (var_not_ws v Hvv) as (d & s & E & Hd).
    apply passes_app with c; [|by apply passes_coefficient; [|apply extras_stop']].
    unfold coefficient_text. rewrite E. by apply passes_plus_sign.
Qed.

(** ** The captures *)

Lemma extras_caps_below n xs c m : m < n → omap.get (extras_caps n xs c) m = omap.get c m.
Proof.
  revert n c. induction xs as [|x xs IH]; intros n c Hm; cbn [extras_caps]; [done|].
  rewrite IH by lia. destruct (is_zero x); [done|]. cbn [omap.get]. by case_decide; [lia|].
Qed.

Lemma extras_caps_at n xs c i x :
  xs !! i = Some x →
  omap.get (extras_caps n xs c) (n + i) = if is_zero x then omap.get c (n + i) else Some (string_of_num x).
Proof.
  revert n c i. induction xs as [|y xs IH]; intros n c i Hi; [done|]. cbn [extras_caps].
  destruct i as [|i]; cbn in Hi.
  - injection Hi as ->. rewrite Nat.add_0_r, extras_caps_below by lia.
    destruct (is_zero x); [done|]. cbn [omap.get]. by case_decide.
  - rewrite <- Nat.add_succ_comm, IH by done. destruct (is_zero x); [|done].
    destruct (is_zero y); [done|]. cbn [omap.get]. by case_decide; [lia|].
Qed.

(** * A tier *)

Definition body_text (t : VisualTier) : jstr :=
  coefficient_text (js "p") (input_unit_cost t) ++ plus_
  ++ coefficient_text (js "c") (output_unit_cost t) ++ extras_text BILLING_CACHE_VARS (extras (extra_costs t)).

Definition body_caps (n : nat) (t : VisualTier) (c : list (nat * jstr)) : list (nat * jstr) :=
  extras_caps (n + 2) (extras (extra_costs t))
    ((S n, string_of_num (output_unit_cost t)) :: (n, string_of_num (input_unit_cost t)) :: c).

Lemma join_concat sep a l : join sep (a :: l) = a ++ concat (app sep <$> l).
Proof.
  revert a. induction l as [|b l IH]; intros a; [cbn; by rewrite app_nil_r|].
  change (join sep (a :: b :: l)) with (a ++ sep ++ join sep (b :: l)). rewrite IH. cbn.
  by rewrite <- app_assoc.
Qed.

Lemma extras_text_omap vs xs :
  Forall plain_cost xs → length xs = length vs →
  concat (app plus_ <$> base.omap (λ '((exprVar, v) : jstr * num),
      let v := cost_or_zero (Some v) in
      if num_eqb v num_0 then None else Some (exprVar ++ js " * " ++ string_of_num v)) (zip vs xs))
  = extras_text vs xs.
Proof.
  intros Hxs. revert vs. induction Hxs as [|x xs Hx Hxs IH]; intros [|v vs] Hlen; try done.
  injection Hlen as Hlen. specialize (IH _ Hlen). cbn [zip zip_with extras_text].
  destruct Hx as [Hx _]. rewrite <- IH. cbn [base.omap list_omap]. cbv zeta. rewrite Hx. unfold is_zero.
  by destruct (num_eqb x num_0).
Qed.

Lemma build_body t : plain_tier t → buildTierBodyExpr t = body_text t.
Proof.
  intros (_ & _ & [Hi _] & [Ho _] & Hx & _). unfold buildTierBodyExpr, body_text. cbv zeta.
  rewrite Hi, Ho, join_concat, fmap_cons. cbn [concat]. rewrite <- (extras_text_omap _ _ Hx) by done.
  unfold coefficient_text. by rewrite <- !app_assoc.
Qed.

Lemma plain_extras t : plain_tier t → Forall (readable num_unit) (extras (extra_costs t)).
Proof. intros (_ & _ & _ & _ & Hx & _). eapply Forall_impl; [exact Hx|]. by intros x [_ Hr]. Qed.

Lemma vars_in : Forall (λ w, w ∈ BILLING_CACHE_VARS) BILLING_CACHE_VARS.
Proof. by apply Forall_forall. Qed.

Lemma passes_body n t tl c :
  plain_tier t → passes (seq (body_re n)) (body_text t) (js ")" ++ tl) c (body_caps n t c).
Proof.
  intros Ht. pose proof (plain_extras t Ht) as Hx. destruct Ht as (_ & _ & [_ Hi] & [_ Ho] & _).
  unfold body_re, body_text, body_caps.
  eapply passes_app; [by apply passes_coefficient|].
  eapply passes_app; [by apply passes_plus_sign|].
  eapply passes_app; [apply passes_coefficient; [done|apply extras_stop']|].
  by apply passes_extras; [apply vars_in|apply vars_apart| |].
Qed.

Definition call_caps (n : nat) (t : VisualTier) (c : list (nat * jstr)) : list (nat * jstr) :=
  body_caps (S n) t ((n, label t) :: c).

Lemma passes_call n t tl c :
  plain_tier t →
  passes (seq (tier_call_re n)) (tier_call (label t) (body_text t)) tl c (call_caps n t c).
Proof.
  intros Ht. unfold tier_call_re, tier_call. cbn [app].
  change (jq "', ") with (jq "'," ++ js " "). rewrite <- app_assoc.
  eapply passes_cons; [apply passes_lit|].
  eapply passes_cons.
  { apply passes_group, passes_run; [|done]. destruct Ht as (_ & Hq & _). apply Forall_forall.
    intros d Hd. apply negb_true_iff, N.eqb_neq. by intros ->. }
  eapply passes_cons; [apply passes_lit|].
  eapply passes_cons; [by apply passes_ws|].
  eapply passes_app; [by apply passes_body|]. apply passes_one, passes_lit.
Qed.

(** ** What is read back *)

Lemma zero_plain x : plain_cost x → is_zero x = true → x = num_0.
Proof.
  intros [Hx _] Hz. rewrite <- Hx. unfold cost_or_zero. destruct (num_truthy x) eqn:E; [|done].
  exfalso. destruct x as [[]|[]| |[] m e]; done.
Qed.

Lemma group_extra n t c i x r :
  plain_tier t → extras (extra_costs t) !! i = Some x → r_caps r = call_caps n t c →
  (∀ m, n < m → omap.get c m = None) →
  cost_or_zero (Number_of_text <$> group r (n + 3 + i)) = x
  ∧ (x ≠ num_0 → Number_of_text <$> group r (n + 3 + i) = Some x).
Proof.
  intros Ht Hi Hr Hc. unfold group. rewrite Hr. unfold call_caps, body_caps.
  replace (n + 3 + i) with (S n + 2 + i) by lia. rewrite (extras_caps_at _ _ _ i x Hi).
  destruct Ht as (_ & _ & _ & _ & Hx & _). eapply Forall_lookup_1 in Hx; [|done].
  destruct (is_zero x) eqn:Hz.
  - apply zero_plain in Hz as ->; [|done].
    cbn [omap.get]. repeat (case_decide; [lia|]). rewrite Hc by lia. by split.
  - destruct Hx as (Hcz & _ & _ & Hn). cbn [fmap option_fmap option_map]. by rewrite Hn.
Qed.

Lemma read_call n t c r :
  plain_tier t → r_caps r = call_caps n t c → (∀ m, n < m → omap.get c m = None) →
  matched_tier n (conditions_ t) r = t.
Proof.
  intros Ht Hr Hc. pose proof (λ i x Hi, group_extra n t c i x r Ht Hi Hr Hc) as Hx.
  assert (∀ m, m < n + 3 → group r m =
    omap.get ((S (S n), string_of_num (output_unit_cost t)) :: (S n, string_of_num (input_unit_cost t))
              :: (n, label t) :: c) m) as Hlow.
  { intros m Hm. unfold group. rewrite Hr. unfold call_caps, body_caps. by rewrite extras_caps_below by lia. }
  destruct Ht as (_ & _ & (_ & _ & _ & Hi) & (_ & _ & _ & Ho) & _ & Hm & _).
  unfold matched_tier, cap. rewrite !Hlow by lia. cbn [omap.get]. repeat (case_decide; [try lia|try lia]).
  cbn [default from_option id]. rewrite Hi, Ho. unfold normalizeVisualTier. cbn [p_label p_conditions p_input p_output p_cache_mode p_extra default from_option id].
  assert (∀ i, i < 7 →
    default None (imap (λ i _, Number_of_text <$> group r (n + 3 + i)) BILLING_CACHE_VARS !! i)
    = Number_of_text <$> group r (n + 3 + i)) as Hget.
  { intros i Hix. rewrite list_lookup_imap. by do 7 (destruct i as [|i]; [done|]); lia. }
  rewrite !Hget by lia.
  destruct (Hx 0 _ eq_refl) as [-> _], (Hx 1 _ eq_refl) as [-> _], (Hx 3 _ eq_refl) as [-> _],
    (Hx 4 _ eq_refl) as [-> _], (Hx 5 _ eq_refl) as [-> _], (Hx 6 _ eq_refl) as [-> _].
  destruct (Hx 2 _ eq_refl) as [E1 E2]. rewrite E1.
  assert (getTierCacheMode None (Number_of_text <$> group r (n + 3 + 2)) = cache_mode t) as ->.
  { rewrite Hm. destruct (decide (cache_create_1h_unit_cost (extra_costs t) = num_0)) as [E|E].
    - rewrite E. rewrite E in E1. unfold cost_or_zero in E1.
      destruct (Number_of_text <$> _) as [y|]; [|done]. destruct (num_truthy y) eqn:Ey; [by subst|].
      by destruct y as [[]|[]| |[] m e].
    - by rewrite (E2 E). }
  by destruct t as [? ? ? ? ? []].
Qed.

(** * Conditions *)

Definition and_ : jstr := js " && ".

Definition cond_text (c : TierConditionInput) : jstr :=
  var_name (cond_var_ c) ++ js " " ++ op_name (cond_op_ c) ++ js " " ++ value_text (cond_value c).

Lemma build_conditions l : Forall plain_cond l → buildConditionStr l = join and_ (cond_text <$> l).
Proof.
  intros Hl. unfold buildConditionStr. do 2 f_equal.
  induction Hl as [|c l Hc Hl IH]; [done|]. rewrite filter_cons_True, IH; [done|].
  unfold plain_cond in Hc. by destruct (cond_value c).
Qed.

Lemma passes_alt_cons_l r1 r2 l s t c c' :
  passes (seq (r1 :: l)) s t c c' → passes (seq (RAlt r1 r2 :: l)) s t c c'.
Proof.
  intros H A P k Hk b. destruct (H A P k Hk b) as (x & Hx & E). exists x. split; [done|].
  rewrite rmatch_seq_cons in *. cbn [rmatch]. by rewrite E.
Qed.

Lemma passes_alt_cons_r r1 r2 l s t c c' :
  refuses (seq (r1 :: l)) (s ++ t) → passes (seq (r2 :: l)) s t c c' → passes (seq (RAlt r1 r2 :: l)) s t c c'.
Proof.
  intros H1 H A P k Hk b. destruct (H A P k Hk b) as (x & Hx & E). exists x. split; [done|].
  specialize (H1 A k b c). rewrite rmatch_seq_cons in *. cbn [rmatch]. by rewrite H1.
Qed.

Lemma passes_var v t c : passes cond_var (var_name v) t c c.
Proof.
  unfold cond_var. cbn [alt]. destruct v; cbn [var_name].
  - apply passes_alt_l, passes_lit.
  - apply passes_alt_r; [by apply refuses_lit|]. apply passes_alt_l, passes_lit.
  - apply passes_alt_r; [by apply refuses_lit|]. apply passes_alt_r; [by apply refuses_lit|]. apply passes_lit.
Qed.

(** The operator, in a group or not *)
Definition in_group (g : option nat) (r : re) : re := match g with Some n => RGroup n r | None => r end.
Definition with_group (g : option nat) (s : jstr) (c : list (nat * jstr)) : list (nat * jstr) :=
  match g with Some n => (n, s) :: c | None => c end.

Lemma passes_in_group g r s t c : passes r s t c c → passes (in_group g r) s t c (with_group g s c).
Proof. intros Hr. destruct g; [by apply passes_group|done]. Qed.

(** A group around alternatives is one around each. *)
Lemma passes_in_group_alt g r1 r2 l s t c c' :
  passes (seq (RAlt (in_group g r1) (in_group g r2) :: l)) s t c c' →
  passes (seq (in_group g (RAlt r1 r2) :: l)) s t c c'.
Proof.
  intros H A P k Hk b. specialize (H A P k Hk b). rewrite rmatch_seq_cons in *. by destruct g.
Qed.

Lemma refuses_in_group g y l s t :
  refuses (seq l) (s ++ t) → refuses (seq (in_group g (lit y) :: l)) (y ++ s ++ t).
Proof.
  intros Hl A k b c. rewrite rmatch_seq_cons. destruct g; cbn [in_group rmatch];
    rewrite rmatch_lit; [|apply Hl]. unfold capture. cbn [before rest caps]. apply Hl.
Qed.

Lemma refuses_in_group_lit g d y l t : head t ≠ Some d → refuses (seq (in_group g (lit (d :: y)) :: l)) t.
Proof.
  intros Ht. apply refuses_cons. destruct g; [apply refuses_group|]; by apply refuses_lit.
Qed.

Lemma passes_op g l o s t c c' :
  passes (seq l) s t (with_group g (op_name o) c) c' → (∀ t, refuses (seq l) (js "=" ++ t)) →
  passes (seq (in_group g cond_op :: l)) (op_name o ++ s) t c c'.
Proof.
  intros Hs Hr. assert (∀ y, y = op_name o → passes (seq (in_group g (lit y) :: l)) (op_name o ++ s) t c c') as Hy.
  { intros y ->. eapply passes_cons; [apply passes_in_group, passes_lit|done]. }
  assert (∀ y, op_name o = y ++ js "=" → refuses (seq (in_group g (lit y) :: l)) ((op_name o ++ s) ++ t)) as Hshort.
  { intros y ->. rewrite <- !app_assoc. apply (refuses_in_group g y l (js "=")), Hr. }
  unfold cond_op. cbn [alt]. apply passes_in_group_alt.
  destruct o; cbn [op_name] in *.
  - by apply passes_alt_cons_l, Hy.
  - apply passes_alt_cons_r; [by apply Hshort|]. apply passes_in_group_alt. by apply passes_alt_cons_l, Hy.
  - apply passes_alt_cons_r; [by apply refuses_in_group_lit|]. apply passes_in_group_alt.
    apply passes_alt_cons_r; [by apply refuses_in_group_lit|]. apply passes_in_group_alt.
    by apply passes_alt_cons_l, Hy.
  - apply passes_alt_cons_r; [by apply refuses_in_group_lit|]. apply passes_in_group_alt.
    apply passes_alt_cons_r; [by apply refuses_in_group_lit|]. apply passes_in_group_alt.
    apply passes_alt_cons_r; [by apply Hshort|]. by apply Hy.
Qed.

Lemma refuses_number g l d t :
  is_ws d = false → cond_unit d = false → refuses (seq (RStar ws :: in_group g cond_num :: l)) (d :: t).
Proof.
  intros Hw Hd. apply (refuses_ws_cons _ []); [done|done|]. intros q ->%suffix_nil_inv.
  apply refuses_cons. destruct g; [apply refuses_group|]; by apply refuses_plus, refuses_class.
Qed.

(** A condition, alone or in a list: what follows is no unit of a number *)
Lemma passes_cond_with gv go gn l c x s t c' :
  cond_value c = NumValue x → readable cond_unit x →
  match s ++ t with d :: _ => cond_unit d = false | [] => True end →
  (∀ c0, passes (seq l) s t
    (with_group gn (string_of_num x) (with_group go (op_name (cond_op_ c)) (with_group gv (var_name (cond_var_ c)) c0))) (c' c0)) →
  ∀ c0, passes (seq (in_group gv cond_var :: RStar ws :: in_group go cond_op :: RStar ws :: in_group gn cond_num :: l))
    (cond_text c ++ s) t c0 (c' c0).
Proof.
  intros Ev Hx Hst Hs c0. destruct (readable_head _ _ Hx) as (d & w & E & Hd). destruct Hx as (Hne & Hp & _).
  unfold cond_text. rewrite Ev. cbn [value_text]. rewrite <- !app_assoc.
  eapply passes_cons; [apply passes_in_group, passes_var|].
  eapply passes_cons; [apply passes_ws; by destruct (cond_op_ c)|].
  apply passes_op; [|intros t0; by apply refuses_number].
  eapply passes_cons; [apply passes_ws; rewrite E; by apply num_unit_not_ws, cond_unit_num|].
  eapply passes_cons; [|apply Hs]. by apply passes_in_group, passes_plus.
Qed.

Lemma passes_cond c t c0 :
  plain_cond c → match t with d :: _ => cond_unit d = false | [] => True end →
  passes cond_re (cond_text c) t c0 c0.
Proof.
  unfold plain_cond. destruct (cond_value c) as [x|] eqn:E; [|done]. intros Hx Ht.
  rewrite <- (app_nil_r (cond_text c)).
  apply (passes_cond_with None None None [] c x [] t id E Hx Ht). intros c1. apply passes_nil.
Qed.

(** ** One condition read *)

Lemma passes_end c : passes (seq [REnd]) [] [] c c.
Proof. intros A P k Hk. exact Hk. Qed.

Lemma cond_text_last c :
  plain_cond c → ∃ s d, cond_text c = s ++ [d] ∧ is_ws d = false.
Proof.
  unfold plain_cond, cond_text. destruct (cond_value c) as [x|]; [|done]. intros (Hne & Hp & _). cbn [value_text].
  destruct (List.exists_last Hne) as (s & d & E). rewrite E in *.
  exists (var_name (cond_var_ c) ++ js " " ++ op_name (cond_op_ c) ++ js " " ++ s), d.
  split; [by rewrite <- !app_assoc|]. apply Forall_app in Hp as [_ Hd]. apply Forall_cons_1 in Hd as [Hd _].
  by apply num_unit_not_ws, cond_unit_num.
Qed.

Lemma cond_text_trimmed c : plain_cond c → trim (cond_text c) = cond_text c.
Proof.
  intros Hc. apply trim_id. split.
  - unfold cond_text. by destruct (cond_var_ c).
  - destruct (cond_text_last c Hc) as (s & d & -> & Hd). rewrite reverse_snoc. exact Hd.
Qed.

Lemma read_cond c :
  plain_cond c →
  match exec cond_part_re (trim (cond_text c)) with
  | Some (_, cm) => Some (mkCond (read_var (cap cm 1)) (read_op (cap cm 2)) (NumValue (Number_of_text (cap cm 3))))
  | None => None
  end = Some c.
Proof.
  intros Hc. rewrite cond_text_trimmed by done. unfold plain_cond in Hc.
  destruct (cond_value c) as [x|] eqn:E; [|done].
  pose proof (passes_cond_with (Some 1) (Some 2) (Some 3) [REnd] c x [] []
    (λ c0, (3, string_of_num x) :: (2, op_name (cond_op_ c)) :: (1, var_name (cond_var_ c)) :: c0)
    E Hc I (λ c0, passes_end _) []) as Hp.
  destruct (match_at_passes _ _ _ _ None [] Hp) as (res & Hm & _ & Hcaps & _).
  rewrite !app_nil_r in Hm. unfold cond_part_re.
  assert (exec (RSeq RBegin (seq (in_group (Some 1) cond_var :: RStar ws :: in_group (Some 2) cond_op
    :: RStar ws :: in_group (Some 3) cond_num :: [REnd]))) (cond_text c) = Some (0, res)) as Hex.
  { rewrite exec_begin. unfold start_state. by rewrite Hm. }
  change (exec (seq _) _) with (exec (RSeq RBegin (seq (in_group (Some 1) cond_var :: RStar ws :: in_group (Some 2) cond_op
    :: RStar ws :: in_group (Some 3) cond_num :: [REnd]))) (cond_text c)). rewrite Hex.
  unfold cap, group. rewrite Hcaps. cbn [omap.get]. repeat (case_decide; [try done|try done]).
  cbn [default from_option id]. destruct Hc as (_ & _ & ->).
  destruct c as [v o y]. cbn [cond_value cond_var_ cond_op_] in *. subst y.
  by destruct v, o.
Qed.

(** ** A list of conditions *)

Definition conds_text (l : list TierConditionInput) : jstr := join and_ (cond_text <$> l).

Definition and_cond_re : re := seq [RStar ws; lit (js "&&"); RStar ws; cond_re].

Lemma cond_head_not_ws c s : ∃ d t, cond_text c ++ s = d :: t ∧ is_ws d = false ∧ d ≠ 38%N.
Proof.
  unfold cond_text. rewrite <- app_assoc. by destruct (cond_var_ c); cbn [var_name];
    eexists _, _; (split; [reflexivity|]).
Qed.

Lemma passes_and_conds l t c :
  Forall plain_cond l → refuses and_cond_re t → match t with d :: _ => cond_unit d = false | [] => True end →
  passes (RStar and_cond_re) (concat (app and_ <$> (cond_text <$> l))) t c c.
Proof.
  intros Hl Hr Ht. induction Hl as [|x l Hx Hl IH]; [by apply passes_star_nil|].
  rewrite !fmap_cons. cbn [concat].
  refine (passes_star_cons and_cond_re (and_ ++ cond_text x) _ t c c c _ _ IH); [done|].
  change and_ with (js " " ++ js "&&" ++ js " ") at 1. rewrite <- !app_assoc.
  eapply passes_cons; [by apply passes_ws|]. eapply passes_cons; [apply passes_lit|].
  eapply passes_cons.
  { apply passes_ws. destruct (cond_head_not_ws x (concat (app and_ <$> (cond_text <$> l)) ++ t)) as (d & s & -> & Hd & _). done. }
  apply passes_one, passes_cond; [done|]. by destruct l.
Qed.

Lemma passes_conds x l t c :
  Forall plain_cond (x :: l) →
  passes cond_group_re (conds_text (x :: l)) (js " ? " ++ t) c ((1, conds_text (x :: l)) :: c).
Proof.
  intros Hl. inversion Hl as [|? ? Hx Hl']; subst. unfold cond_group_re. apply passes_group.
  unfold conds_text. rewrite fmap_cons, join_concat.
  eapply passes_cons; [apply passes_cond; [done|by destruct l]|].
  apply passes_one, passes_and_conds; [done| |done].
  change (js " ? " ++ t) with (js " " ++ 63%N :: (js " " ++ t)).
  apply refuses_blank; [done|by apply refuses_cons, refuses_lit..].
Qed.

(** ** Splitting a list of conditions *)

(** No separator starts inside a text that ends with something else. *)
Lemma refuses_and q d t :
  (38%N ∉ q) → d ≠ 38%N → is_ws d = false → refuses and_re (q ++ d :: t).
Proof.
  intros Hq Hd Hw A k b c. unfold and_re. rewrite rmatch_seq_cons. cbn [rmatch rest].
  generalize (length (q ++ d :: t)). intros n. revert n b. induction q as [|e q IH]; intros n b.
  - destruct n as [|n]; cbn [star_loop app]; [by apply rmatch_lit_ne|].
    unfold ws at 1. cbn [rmatch rest]. rewrite Hw. by apply rmatch_lit_ne.
  - apply not_elem_of_cons in Hq as [He Hq]. specialize (IH Hq).
    assert (∀ b, rmatch (seq [lit (js "&&"); RStar ws]) k (mkM b ((e :: q) ++ d :: t) c) = None) as Hk.
    { intros b'. apply rmatch_lit_ne. exact (not_eq_sym He). }
    destruct n as [|n]; cbn [star_loop]; [done|]. unfold ws at 1. cbn [rmatch rest app].
    destruct (is_ws e); [|apply Hk]. cbn [rest length caps]. rewrite ltb_succ, IH. apply Hk.
Qed.

Lemma cond_no_amp c : plain_cond c → 38%N ∉ cond_text c.
Proof.
  unfold plain_cond, cond_text. destruct (cond_value c) as [x|]; [|done]. intros (_ & Hp & _) Hin.
  cbn [value_text] in Hin. rewrite !elem_of_app in Hin.
  destruct Hin as [Hin|[Hin|[Hin|[Hin|Hin]]]]; [by destruct (cond_var_ c); vm_compute in Hin; set_solver|..].
  - vm_compute in Hin. set_solver.
  - by destruct (cond_op_ c); vm_compute in Hin; set_solver.
  - vm_compute in Hin. set_solver.
  - eapply Forall_forall in Hp; [|exact Hin]. by vm_compute in Hp.
Qed.

Lemma cond_refuses_and c q t : plain_cond c → q ≠ [] → q `suffix_of` cond_text c → refuses and_re (q ++ t).
Proof.
  intros Hc Hne Hq. destruct (List.exists_last Hne) as (s & d & ->).
  pose proof (cond_no_amp c Hc) as Hamp. destruct (cond_text_last c Hc) as (s' & d' & E & Hw).
  destruct Hq as [l Hl]. rewrite Hl in Hamp. rewrite Hl, app_assoc in E. apply app_inj_tail in E as [_ ->].
  rewrite <- app_assoc. cbn [app]. apply refuses_and; set_solver.
Qed.

Lemma passes_and_re c t c0 : passes and_re and_ (cond_text c ++ t) c0 c0.
Proof.
  change and_ with (js " " ++ js "&&" ++ js " "). eapply passes_cons; [by apply passes_ws|].
  eapply passes_cons; [apply passes_lit|]. apply passes_one, passes_ws.
  by destruct (cond_head_not_ws c t) as (d & s & -> & Hd & _).
Qed.

(** The first separator is behind the first condition. *)
Lemma find_and c t b n :
  plain_cond c → t = [] ∨ (∃ c' t', t = and_ ++ cond_text c' ++ t') → length (cond_text c ++ t) = n →
  match t with
  | [] => find_match and_re n 0 (mkM b (cond_text c ++ t) []) = None
  | _ => ∃ res, find_match and_re n 0 (mkM b (cond_text c ++ t) []) = Some (length (cond_text c), res)
                ∧ r_text res = and_ ∧ ∃ b', r_after res = mkM b' (drop 4 t) []
  end.
Proof.
  intros Hc Ht Hn. destruct Ht as [->|(c' & t' & ->)].
  - rewrite app_nil_r in *. generalize 0 as i. revert Hn.
    assert (cond_text c `suffix_of` cond_text c) as Hq by done. revert Hq.
    generalize (cond_text c) at 1 3 4 as q. intros q. revert n b. induction q as [|d q IH]; intros n b Hq Hn i.
    { by subst n. }
    destruct n as [|n]; [cbn in Hn; lia|]. cbn [find_match].
    pose proof (cond_refuses_and c (d :: q) [] Hc ltac:(done) Hq) as Hr. rewrite app_nil_r in Hr.
    rewrite match_at_refuses by done. apply IH; [|cbn in Hn; lia].
    etrans; [|exact Hq]. by apply suffix_cons_r.
  - destruct (find_match_skip and_re (cond_text c) and_ (cond_text c' ++ t') [] b n 0)
      as (res & E & Ht & Hcap & Hrest & Hc0).
    + intros q Hne Hq. by eapply cond_refuses_and.
    + apply passes_and_re.
    + rewrite length_app in Hn. lia.
    + destruct and_ as [|x y] eqn:Ea; [done|]. rewrite <- Ea in *. cbn [app].
      exists res. split; [exact E|]. split; [done|]. exists (before (r_after res)).
      destruct (r_after res) as [b' rs cs]. cbn in *. subst.
      by injection Ea as <- <-.
Qed.

Lemma conds_text_cons c c' l : conds_text (c :: c' :: l) = cond_text c ++ and_ ++ conds_text (c' :: l).
Proof. done. Qed.

Lemma split_conds pre c l b n :
  Forall plain_cond (c :: l) → length l < n →
  split_matches (pre ++ conds_text (c :: l)) (length pre)
    (exec_all n and_re (length pre) (mkM b (conds_text (c :: l)) [])) = cond_text <$> (c :: l).
Proof.
  revert pre c b n. induction l as [|c' l IH]; intros pre c b n Hl Hn;
    (destruct n as [|n]; [cbn in Hn; lia|]); inversion Hl as [|? ? Hc Hl']; subst; cbn [exec_all rest].
  - change (conds_text [c]) with (cond_text c).
    pose proof (find_and c [] b (length (cond_text c)) Hc ltac:(by left)) as E. rewrite app_nil_r in E.
    rewrite E by done. cbn [split_matches]. unfold slice_from. by rewrite drop_app_length.
  - rewrite conds_text_cons.
    assert (∃ t', conds_text (c' :: l) = cond_text c' ++ t') as [t' Et].
    { unfold conds_text. rewrite fmap_cons, join_concat. by eexists. }
    destruct (find_and c (and_ ++ conds_text (c' :: l)) b (length (cond_text c ++ and_ ++ conds_text (c' :: l))) Hc)
      as (res & E & Etext & b' & Eafter); [right; exists c', t'; by rewrite Et|done|].
    rewrite E. cbn [split_matches]. rewrite Etext, Eafter, fmap_cons. f_equal.
    { unfold slice. rewrite drop_app_length.
      replace (length pre + length (cond_text c) - length pre) with (length (cond_text c)) by lia.
      apply take_app_length. }
    change (drop 4 (and_ ++ conds_text (c' :: l))) with (conds_text (c' :: l)).
    specialize (IH (pre ++ cond_text c ++ and_) c' b' n Hl'). rewrite <- !app_assoc in IH.
    rewrite !length_app, Nat.add_assoc in IH. apply IH. cbn in Hn. lia.
Qed.

Lemma omap_read_conds l :
  Forall plain_cond l →
  base.omap (λ cp, match exec cond_part_re (trim cp) with
    | Some (_, cm) => Some (mkCond (read_var (cap cm 1)) (read_op (cap cm 2)) (NumValue (Number_of_text (cap cm 3))))
    | None => None
    end) (cond_text <$> l) = l.
Proof.
  intros Hl. induction Hl as [|c l Hc Hl IH]; [done|]. rewrite fmap_cons. cbn [base.omap list_omap].
  rewrite (read_cond c Hc). f_equal. exact IH.
Qed.

Lemma conds_long l : length l ≤ length (conds_text l).
Proof.
  induction l as [|c [|c' l] IH]; [cbn; lia| |].
  - change (1 ≤ length (cond_text c)). unfold cond_text. rewrite !length_app.
    change (length (js " ")) with 1. lia.
  - rewrite conds_text_cons, !length_app. change (length and_) with 4. cbn [length] in *. lia.
Qed.

Lemma read_conds l : Forall plain_cond l → parse_conditions (conds_text l) = l.
Proof.
  intros Hl. destruct l as [|c l]; [done|]. unfold parse_conditions.
  assert (truthy (conds_text (c :: l)) = true) as ->.
  { pose proof (conds_long (c :: l)). cbn [length] in *. destruct (conds_text _); [cbn in *; lia|done]. }
  cbn [negb]. unfold match_all, start_state.
  pose proof (split_conds [] c l None (S (length (conds_text (c :: l)))) Hl) as E. cbn [app length] in E.
  rewrite E; [|pose proof (conds_long (c :: l)); cbn [length] in *; lia].
  by apply omap_read_conds.
Qed.

(** * A chain of tiers *)

Definition part_text (t : VisualTier) : jstr :=
  match conditions_ t with [] => [] | l => conds_text l ++ js " ? " end
  ++ tier_call (label t) (body_text t).

Definition part_caps (t : VisualTier) : list (nat * jstr) :=
  call_caps 2 t (match conditions_ t with [] => [] | l => [(1, conds_text l)] end).

Lemma plain_conds t : plain_tier t → Forall plain_cond (conditions_ t).
Proof. by intros (_ & _ & _ & _ & _ & _ & H). Qed.

Lemma refuses_cond_group d t : (d ∉ js "pcl") → refuses cond_group_re (d :: t).
Proof.
  intros Hd. apply refuses_group, refuses_cons, refuses_cons. change (js "pcl") with [112%N; 99%N; 108%N] in Hd.
  repeat apply refuses_alt; apply refuses_lit; intros [= ->]; set_solver.
Qed.

Lemma passes_part t tl : plain_tier t → passes tier_chain_re (part_text t) tl [] (part_caps t).
Proof.
  intros Ht. pose proof (plain_conds t Ht) as Hc. unfold tier_chain_re, part_text, part_caps.
  destruct (conditions_ t) as [|x l] eqn:E.
  - apply (passes_cons _ _ [] _ tl [] []); [|by apply passes_call].
    apply passes_opt_skipped, refuses_cons, refuses_cond_group. apply (bool_decide_unpack _). by vm_compute.
  - eapply passes_cons; [|by apply passes_call]. apply passes_opt_taken.
    eapply passes_cons; [by apply passes_conds|]. change (js " ? ") with (js " " ++ js "?" ++ js " ").
    eapply passes_cons; [by apply passes_ws|]. eapply passes_cons; [apply passes_lit|].
    by apply passes_one, passes_ws.
Qed.

Definition read_match (m : nat * rresult) : VisualTier :=
  matched_tier 2 (parse_conditions (cap m.2 1)) m.2.

Lemma read_part i t r : plain_tier t → r_caps r = part_caps t → read_match (i, r) = t.
Proof.
  intros Ht Hr. unfold read_match. cbn [snd].
  assert (cap r 1 = conds_text (conditions_ t)) as ->.
  { unfold cap, group. rewrite Hr. unfold part_caps, call_caps, body_caps.
    rewrite extras_caps_below by lia. by destruct (conditions_ t). }
  rewrite read_conds by by apply plain_conds.
  eapply read_call; [done|exact Hr|]. intros m Hm. destruct (conditions_ t); [done|].
  cbn [omap.get]. by case_decide; [lia|].
Qed.

Lemma refuses_chain d t : (d ∉ js "pclt") → refuses tier_chain_re (d :: t).
Proof.
  change (js "pclt") with (js "pcl" ++ [116%N]). rewrite not_elem_of_app. intros [H1 H2].
  apply refuses_opt_cons; [by apply refuses_cons, refuses_cond_group|].
  apply refuses_cons, refuses_lit. intros [= ->]. set_solver.
Qed.

Definition colon : jstr := js " : ".

(** The text behind the last tier holds no tier. *)
Definition no_tier (tl : jstr) : Prop := ∀ b, find_match tier_chain_re (length tl) 0 (mkM b tl []) = None.

Lemma exec_part skip t tl b n pos :
  (∀ d, d ∈ skip → d ∉ js "pclt") → plain_tier t →
  ∃ i pos' res b', exec_all (S n) tier_chain_re pos (mkM b (skip ++ part_text t ++ tl) [])
    = (i, res) :: exec_all n tier_chain_re pos' (mkM b' tl []) ∧ read_match (i, res) = t.
Proof.
  intros Hskip Ht. cbn [exec_all rest].
  destruct (find_match_skip tier_chain_re skip (part_text t) tl (part_caps t) b
    (length (skip ++ part_text t ++ tl)) 0) as (res & -> & _ & Hcaps & Hrest & Hc).
  - intros [|d q] Hne Hq; [done|]. apply refuses_chain, Hskip. destruct Hq as [q' ->]. set_solver.
  - by apply passes_part.
  - rewrite length_app. lia.
  - destruct (r_after res) as [b' rs cs] eqn:E. cbn in Hrest, Hc. subst rs cs.
    eexists _, _, res, b'. split; [reflexivity|]. by apply read_part.
Qed.

Lemma read_chain ts tl b n pos :
  Forall plain_tier ts → no_tier tl → length ts < n →
  read_match <$> exec_all n tier_chain_re pos (mkM b (concat (app colon <$> (part_text <$> ts)) ++ tl) []) = ts.
Proof.
  intros Hts Htl. revert b n pos. induction Hts as [|t ts Ht Hts IH]; intros b n pos Hn;
    (destruct n as [|n]; [lia|]).
  { cbn [fmap list_fmap concat app exec_all rest]. by rewrite Htl. }
  rewrite !fmap_cons. cbn [concat]. rewrite <- !app_assoc.
  destruct (exec_part colon t (concat (app colon <$> (part_text <$> ts)) ++ tl) b n pos)
    as (i & pos' & res & b' & -> & Hr); [|done|].
  { apply Forall_forall. apply (bool_decide_unpack _). by vm_compute. }
  rewrite fmap_cons, Hr. f_equal. apply IH. cbn in Hn. lia.
Qed.

Definition chain_text (ts : VisualConfig) (tl : jstr) : jstr := join colon (part_text <$> ts) ++ tl.

Lemma part_long t : 0 < length (part_text t).
Proof. unfold part_text, tier_call. rewrite !length_app. change (length (jq "tier('")) with 6. lia. Qed.

Lemma parts_long ts : length ts ≤ length (concat (app colon <$> (part_text <$> ts))).
Proof.
  induction ts as [|t ts IH]; [done|]. rewrite !fmap_cons. cbn [concat]. rewrite !length_app.
  change (length colon) with 3. cbn [length]. lia.
Qed.

Lemma read_all t ts tl :
  Forall plain_tier (t :: ts) → no_tier tl →
  read_match <$> match_all tier_chain_re (chain_text (t :: ts) tl) = t :: ts.
Proof.
  intros Hts Htl. inversion Hts as [|? ? Ht Hts']; subst. unfold match_all, start_state, chain_text.
  rewrite fmap_cons, join_concat, <- app_assoc.
  destruct (exec_part [] t (concat (app colon <$> (part_text <$> ts)) ++ tl) None
    (length (part_text t ++ concat (app colon <$> (part_text <$> ts)) ++ tl)) 0)
    as (i & pos' & res & b' & E & Hr); [set_solver|done|].
  cbn [app] in E. rewrite E, fmap_cons, Hr. f_equal. apply read_chain; [done..|].
  rewrite !length_app. pose proof (parts_long ts). pose proof (part_long t). lia.
Qed.

(** * Round trip *)

Lemma normalize_tier t : plain_tier t → normalizeVisualTier (as_partial t) = t.
Proof.
  intros (_ & _ & _ & _ & Hx & _). destruct t as [lb cs i o m [x0 x1 x2 x3 x4 x5 x6]].
  unfold extras in Hx. cbn in Hx. rewrite !Forall_cons in Hx.
  destruct Hx as ([E0 _] & [E1 _] & [E2 _] & [E3 _] & [E4 _] & [E5 _] & [E6 _] & _).
  unfold normalizeVisualTier, as_partial, extras. cbn -[cost_or_zero].
  rewrite E0, E1, E2, E3, E4, E5, E6. by destruct m.
Qed.

Lemma normalize_config ts : ts ≠ [] → Forall plain_tier ts → normalizeVisualConfig (Some ts) = ts.
Proof.
  intros Hne Hts. unfold normalizeVisualConfig. destruct ts as [|t ts]; [done|].
  generalize (t :: ts) Hts. clear. intros ts Hts. induction Hts as [|t ts Ht Hts IH]; [done|].
  rewrite fmap_cons, IH. f_equal. by apply normalize_tier.
Qed.

Lemma label_kept t d : plain_tier t → label_or (label t) d = label t.
Proof. intros (Hl & _). unfold label_or. by destruct (label t). Qed.

(** The part that is written for a tier *)
Lemma tier_part_text n i t :
  plain_tier t → (conditions_ t = [] ↔ S i = n) → S i ≤ n → tier_part n i t = part_text t.
Proof.
  intros Ht Hc Hn. unfold tier_part. cbv zeta.
  rewrite label_kept, build_body, build_conditions by (try done; by apply plain_conds).
  change (join and_ _) with (conds_text (conditions_ t)). unfold part_text.
  destruct (conditions_ t) as [|x l] eqn:E.
  - by rewrite andb_false_r.
  - assert (S i ≠ n) as Hne by (by intros [=]%Hc). rewrite (proj2 (Nat.ltb_lt _ _)) by lia.
    pose proof (conds_long (x :: l)) as Hlen. cbn [length] in Hlen.
    destruct (conds_text (x :: l)) as [|d s] eqn:Es; [cbn in Hlen; lia|]. cbn [truthy andb].
    by rewrite <- Es, <- !app_assoc.
Qed.

Lemma parts_text n k ts :
  Forall plain_tier ts → closed_chain ts → k + length ts = n →
  imap (λ i t, tier_part n (k + i) t) ts = part_text <$> ts.
Proof.
  intros Hts. revert k. induction Hts as [|t ts Ht Hts IH]; intros k Hc Hn; [done|].
  rewrite imap_cons, fmap_cons, Nat.add_0_r. f_equal.
  - apply tier_part_text; [done| |cbn in Hn; lia]. destruct ts as [|u ts].
    + cbn in Hc, Hn. split; [lia|done].
    + destruct Hc as [Hc _]. split; [done|]. cbn in Hn. lia.
  - rewrite (imap_ext _ (λ i t, tier_part n (S k + i) t)) by (intros; cbn; f_equal; lia).
    destruct ts as [|u ts]; [done|]. destruct Hc as [_ Hc]. apply IH; [done|]. cbn in *. lia.
Qed.

(** The texts that are written, and what they start with *)
Definition config_tail (ts : VisualConfig) : jstr :=
  match ts with [t] => match conditions_ t with [] => [] | _ => js " : p * 0 + c * 0" end | _ => [] end.

Lemma config_text ts :
  plain_config ts → generateExprFromVisualConfig (Some ts) = chain_text ts (config_tail ts).
Proof.
  intros [Hts Hc]. destruct ts as [|t [|u ts]]; [by destruct Hc| |].
  - apply Forall_cons_1 in Hts as [Ht _]. unfold generateExprFromVisualConfig, chain_text. cbv zeta.
    rewrite label_kept, build_body, build_conditions by (try done; by apply plain_conds).
    change (join and_ _) with (conds_text (conditions_ t)). cbn [config_tail fmap list_fmap join]. unfold part_text.
    destruct (conditions_ t) as [|x l] eqn:E; [by rewrite app_nil_r|].
    pose proof (conds_long (x :: l)) as Hlen. cbn [length] in Hlen.
    destruct (conds_text (x :: l)) as [|d s] eqn:Es; [cbn in Hlen; lia|]. cbn [truthy].
    by rewrite <- Es, <- !app_assoc.
  - destruct Hc as [Hc|Hc]; [|done]. unfold generateExprFromVisualConfig, chain_text.
    rewrite <- (parts_text (length (t :: u :: ts)) 0) by done. cbn [config_tail]. by rewrite app_nil_r.
Qed.

Lemma config_tail_no_tier ts : no_tier (config_tail ts).
Proof.
  unfold config_tail. destruct ts as [|t [|u ts]]; [by intros b| |by intros b].
  destruct (conditions_ t); [by intros b|]. intros b. vm_compute. reflexivity.
Qed.

Lemma chain_head t ts tl :
  ∃ d s, chain_text (t :: ts) tl = d :: s ∧ d ∈ js "pclt" ∧ (conditions_ t ≠ [] → d ≠ 116%N).
Proof.
  unfold chain_text. rewrite fmap_cons, join_concat. unfold part_text at 1. rewrite <- !app_assoc.
  destruct (conditions_ t) as [|x l] eqn:E.
  - eexists _, _. split; [reflexivity|]. split; [|done]. apply (bool_decide_unpack _). by vm_compute.
  - unfold conds_text at 1. rewrite fmap_cons, join_concat. unfold cond_text at 1. rewrite <- !app_assoc.
    destruct (cond_var_ x); (eexists _, _; split; [reflexivity|]; split; [|done]);
      apply (bool_decide_unpack _); by vm_compute.
Qed.

Lemma exec_begin_refuses r s : refuses r s → exec (RSeq RBegin r) s = None.
Proof. intros Hr. rewrite exec_begin. unfold start_state. by rewrite match_at_refuses. Qed.

(** What the editor shows of a text without its version *)
Definition parse_body (body : jstr) : option VisualConfig :=
  match exec single_re body with
  | Some (_, simple) => Some (normalizeVisualConfig (Some [matched_tier 1 [] simple]))
  | None =>
      match read_match <$> match_all tier_chain_re body with
      | [] => None
      | tiers =>
          let cfg := normalizeVisualConfig (Some tiers) in
          if bool_decide (strip_ws (generateExprFromVisualConfig (Some cfg)) = strip_ws body)
          then Some cfg else None
      end
  end.

Lemma parse_stripped s :
  s ≠ [] → tryParseVisualConfig (Some s)
           = parse_body (match exec version_body_re s with Some (_, res) => cap res 1 | None => s end).
Proof.
  intros Hs. destruct s as [|d s]; [done|]. unfold tryParseVisualConfig. cbv zeta.
  generalize (match exec version_body_re (d :: s) with Some (_, res) => cap res 1 | None => d :: s end).
  intros body. unfold parse_body. destruct (exec single_re body) as [[]|]; [done|].
  rewrite (list_fmap_ext _ read_match); [done|]. by intros i [].
Qed.

Lemma parse_versioned n s : tryParseVisualConfig (Some (js "v" ++ digits n ++ js ":" ++ s)) = parse_body s.
Proof.
  assert (passes (seq [lit (js "v"); plus digit; lit (js ":"); RGroup 1 (RStar any); REnd])
      (js "v" ++ digits n ++ js ":" ++ s ++ []) [] [] [(1, s)]) as Hp.
  { eapply passes_cons; [apply passes_lit|].
    eapply passes_cons; [apply passes_plus; [|apply Forall_digits|done]|].
    { pose proof (digits_all_digits n) as Hd. by destruct (digits n). }
    eapply passes_cons; [apply passes_lit|]. eapply passes_cons; [|apply passes_end].
    apply passes_group, passes_run; [by apply Forall_forall|done]. }
  destruct (match_at_passes _ _ _ _ None [] Hp) as (res & Hm & _ & Hc & _). rewrite !app_nil_r in Hm.
  rewrite parse_stripped by done. unfold version_body_re. change (seq (RBegin :: ?l)) with (RSeq RBegin (seq l)).
  rewrite exec_begin. unfold start_state. rewrite Hm. cbn [fmap option_fmap option_map].
  unfold cap, group. by rewrite Hc.
Qed.

Lemma parse_unversioned t ts tl :
  tryParseVisualConfig (Some (chain_text (t :: ts) tl)) = parse_body (chain_text (t :: ts) tl).
Proof.
  destruct (chain_head t ts tl) as (d & s & -> & Hd & _). rewrite parse_stripped by done.
  unfold version_body_re. change (seq (RBegin :: ?l)) with (RSeq RBegin (seq l)).
  rewrite exec_begin_refuses; [done|]. apply refuses_cons, refuses_lit. intros [= ->].
  by apply (bool_decide_pack _) in Hd.
Qed.

Lemma single_refused t ts tl :
  conditions_ t ≠ [] → exec single_re (chain_text (t :: ts) tl) = None.
Proof.
  intros Hc. destruct (chain_head t ts tl) as (d & s & -> & _ & Hd). specialize (Hd Hc).
  unfold single_re. change (seq (RBegin :: ?l)) with (RSeq RBegin (seq l)). apply exec_begin_refuses.
  unfold tier_call_re. cbn [app]. apply refuses_cons, refuses_lit. by intros [= ->].
Qed.

Lemma single_read t :
  plain_tier t → conditions_ t = [] →
  ∃ res, exec single_re (chain_text [t] []) = Some (0, res) ∧ matched_tier 1 [] res = t.
Proof.
  intros Ht Hc. unfold chain_text. cbn [fmap list_fmap join]. unfold part_text. rewrite Hc.
  assert (passes (seq (tier_call_re 1 ++ [REnd])) (tier_call (label t) (body_text t) ++ []) [] [] (call_caps 1 t [])) as Hp.
  { eapply passes_app; [by apply passes_call|apply passes_end]. }
  destruct (match_at_passes _ _ _ _ None [] Hp) as (res & Hm & _ & Hcaps & _). rewrite !app_nil_r in Hm.
  exists res. rewrite app_nil_r. cbn [app]. unfold single_re.
  change (seq (RBegin :: ?l)) with (RSeq RBegin (seq l)). rewrite exec_begin. unfold start_state. rewrite Hm.
  split; [done|]. rewrite <- Hc. by eapply (read_call 1 t []).
Qed.

Lemma parse_config ts :
  plain_config ts → parse_body (chain_text ts (config_tail ts)) = Some ts.
Proof.
  intros Hcfg. pose proof (config_text ts Hcfg) as Hgen. destruct Hcfg as [Hts Hc].
  destruct ts as [|t ts]; [by destruct Hc|].
  assert (normalizeVisualConfig (Some (t :: ts)) = t :: ts) as Hnorm by (by apply normalize_config).
  unfold parse_body. destruct (decide (conditions_ t = [])) as [E|E].
  - assert (ts = []) as ->. { destruct ts as [|u ts]; [done|]. by destruct Hc as [[? _]|?]. }
    apply Forall_cons_1 in Hts as [Ht _]. cbn [config_tail]. rewrite E.
    destruct (single_read t Ht E) as (res & -> & ->). by rewrite Hnorm.
  - rewrite single_refused by done. rewrite read_all by (done || apply config_tail_no_tier).
    cbv zeta. rewrite Hnorm, Hgen. by rewrite bool_decide_true.
Qed.

(** C29: what the tier editor writes for plain tiers, it reads back as the same
    tiers, with or without the version in front: a chain whose last tier has no
    condition and every other one has some, or a single tier with or without
    conditions. *)
Theorem tiers_roundtrip ts n :
  plain_config ts →
  tryParseVisualConfig (Some (generateExprFromVisualConfig (Some ts))) = Some ts
  ∧ tryParseVisualConfig (Some (js "v" ++ digits n ++ js ":" ++ generateExprFromVisualConfig (Some ts))) = Some ts.
Proof.
  intros Hts. rewrite config_text by done. rewrite parse_versioned. split; [|by apply parse_config].
  destruct ts as [|t ts]; [by destruct Hts as [_ [?|?]]|]. rewrite parse_unversioned. by apply parse_config.
Qed.

Lemma tiers_roundtrip_witness :
  plain_config demo_tiers
  ∧ tryParseVisualConfig (Some (generateExprFromVisualConfig (Some demo_tiers))) = Some demo_tiers
  ∧ tryParseVisualConfig (Some (js "v" ++ digits 2 ++ js ":" ++ generateExprFromVisualConfig (Some demo_tiers))) = Some demo_tiers.
Proof.
  assert (plain_config demo_tiers) as H by (apply (bool_decide_unpack _); by vm_compute).
  split; [exact H|]. exact (tiers_roundtrip demo_tiers 2 H).
Defined.

(** A single tier is not written again before it is shown: a difference between
    the variables reads as one number that is not a number, and the editor
    writes it as a price of zero. *)
Lemma single_tier_price_lost :
  match tryParseVisualConfig (Some (jq "tier('a', p * 10-2 + c * 3)")) with
  | Some cfg => generateExprFromVisualConfig (Some cfg) = jq "tier('a', p * 0 + c * 3)"
  | None => False
  end.
Proof. vm_compute. reflexivity. Qed.

(** In a chain the same difference is not taken for a price. *)
Lemma chain_price_kept :
  tryParseVisualConfig (Some (jq "len <= 5 ? tier('a', p * 10-2 + c * 3) : tier('b', p * 1 + c * 3)")) = None.
Proof. vm_compute. reflexivity. Qed.
