(* ===== verification/ParamOverride.v ===== *)
(** The editor of parameter overrides of a channel:
    [features/channels/components/dialogs/param-override-editor-dialog.tsx].

    An override is a JSON text, either an object of plain parameters (legacy) or a
    list of operations with conditions.  The dialog reads it into a list of rules,
    edits the rules through forms, and writes it back.  A local identifier
    [po_<time>_<seed>] is its seed, which no two share.  A message is its key with
    the number of the rule.  [toUpperCase] and [toLowerCase] are compared with
    ASCII words only, for which folding ASCII letters is exact.  The tables of
    labels, placeholders and templates are left out; a template is an argument. *)

From Stdlib Require Import ZArith NArith Lia.
From stdpp Require Import base list gmap.
From S2P Require Import Prelude JsString JsNumber JsValue Json JsArray.

(** * Data *)

Record ParamOverrideCondition := mkCondition {
  c_id : nat;
  c_path : jstr;
  c_mode : jstr;
  c_value_text : jstr;
  c_invert : bool;
  c_pass_missing_key : bool;
}.

Record ParamOverrideOperation := mkOperation {
  o_id : nat;
  description : jstr;
  o_path : jstr;
  o_mode : jstr;
  o_from : jstr;
  o_to : jstr;
  o_value_text : jstr;
  keep_origin : bool;
  logic : jstr;
  conditions : list ParamOverrideCondition;
}.

Definition OPERATION_MODE_VALUES : list jstr :=
  [js "set"; js "delete"; js "append"; js "prepend"; js "copy"; js "move"; js "replace"; js "regex_replace"; js "trim_prefix";
   js "trim_suffix"; js "ensure_prefix"; js "ensure_suffix"; js "trim_space"; js "to_lower"; js "to_upper"; js "return_error";
   js "prune_objects"; js "pass_headers"; js "sync_fields"; js "set_header"; js "delete_header"; js "copy_header"; js "move_header"].

Definition CONDITION_MODE_VALUES : list jstr :=
  [js "full"; js "prefix"; js "suffix"; js "contains"; js "gt"; js "gte"; js "lt"; js "lte"].

Record Meta := mkMeta { m_path : bool; m_pathOptional : bool; m_value : bool; m_from : bool; m_to : bool; m_keepOrigin : bool; m_pathAlias : bool }.

(** [MODE_META] *)
Definition MODE_META : list (jstr * Meta) :=
  let path := mkMeta true false false false false false false in
  let value := mkMeta true false true false false false false in
  let write := mkMeta true false true false false true false in
  let from_to := mkMeta false false false true true false false in
  let replace := mkMeta true false false true false false false in
  let header := mkMeta false false false true true true true in
  [(js "delete", path); (js "set", write); (js "append", write); (js "prepend", write); (js "copy", from_to); (js "move", from_to);
   (js "replace", replace); (js "regex_replace", replace); (js "trim_prefix", value); (js "trim_suffix", value);
   (js "ensure_prefix", value); (js "ensure_suffix", value); (js "trim_space", path); (js "to_lower", path); (js "to_upper", path);
   (js "return_error", mkMeta false false true false false false false);
   (js "prune_objects", mkMeta false true true false false false false);
   (js "pass_headers", mkMeta false false true false false true false);
   (js "sync_fields", from_to); (js "set_header", write); (js "delete_header", path);
   (js "copy_header", header); (js "move_header", header)].

Definition set_meta : Meta := mkMeta true false true false false true false.

(** [MODE_META[mode] || MODE_META.set] *)
Definition meta_of (mode : jstr) : Meta := default set_meta (omap.get MODE_META mode).

Definition VALUE_REQUIRED_MODES : list jstr :=
  [js "trim_prefix"; js "trim_suffix"; js "ensure_prefix"; js "ensure_suffix"; js "set_header"; js "return_error";
   js "prune_objects"; js "pass_headers"].
Definition FROM_REQUIRED_MODES : list jstr :=
  [js "copy"; js "move"; js "replace"; js "regex_replace"; js "copy_header"; js "move_header"; js "sync_fields"].
Definition TO_REQUIRED_MODES : list jstr :=
  [js "copy"; js "move"; js "copy_header"; js "move_header"; js "sync_fields"].

(** * Values as text *)

Definition ascii_upper (s : jstr) : jstr := (λ c, if ((97 <=? c) && (c <=? 122))%N then (c - 32)%N else c) <$> s.
Definition ascii_lower (s : jstr) : jstr := (λ c, if ((65 <=? c) && (c <=? 90))%N then (c + 32)%N else c) <$> s.

Definition toValueText (value : jsval) : jstr :=
  match value with
  | VUndef => []
  | VStr s => s
  | _ => default [] (JSON_stringify value)
  end.

Definition parseLooseValue (valueText : jstr) : jsval :=
  let raw := trim valueText in
  if negb (truthy raw) then VStr []
  else match JSON_parse raw with Some v => v | None => VStr raw end.

Definition verifyJSON (text : jstr) : bool := match JSON_parse text with Some _ => true | None => false end.

(** [typeof v === 'string' ? v : ''] *)
Definition string_prop (v : jsval) (k : jstr) : jstr := match prop v k with VStr s => s | _ => [] end.

Definition true_prop (v : jsval) (k : jstr) : bool := bool_decide (prop v k = VBool true).

Definition mode_prop (modes : list jstr) (d : jstr) (v : jsval) : jstr :=
  match prop v (js "mode") with VStr m => if bool_decide (m ∈ modes) then m else d | _ => d end.

(** A property of [null] is a [TypeError]: [None] *)
Definition object_arg (v : jsval) : option () := match v with VNull => None | _ => Some () end.

(** Identifiers are taken from [n] on. *)
Definition normalizeCondition (n : nat) (v : jsval) : option ParamOverrideCondition :=
  _ ← object_arg v;
  Some (mkCondition n (string_prop v (js "path")) (mode_prop CONDITION_MODE_VALUES (js "full") v) (toValueText (prop v (js "value")))
          (true_prop v (js "invert")) (true_prop v (js "pass_missing_key"))).

Fixpoint normalize_conditions (n : nat) (l : list jsval) : option (list ParamOverrideCondition) :=
  match l with
  | [] => Some []
  | v :: l => c ← normalizeCondition n v; cs ← normalize_conditions (S n) l; Some (c :: cs)
  end.

(** [a || b] *)
Definition or_val (a b : jsval) : jsval := if truthy_val a then a else b.

Definition normalizeOperation (n : nat) (v : jsval) : option ParamOverrideOperation :=
  _ ← object_arg v;
  cs ← normalize_conditions (S n) (match prop v (js "conditions") with VArr l => l | _ => [] end);
  Some (mkOperation n (string_prop v (js "description")) (string_prop v (js "path")) (mode_prop OPERATION_MODE_VALUES (js "set") v)
          (string_prop v (js "from")) (string_prop v (js "to")) (toValueText (prop v (js "value"))) (true_prop v (js "keep_origin"))
          (if bool_decide (ascii_upper (string_of_val (or_val (prop v (js "logic")) (VStr (js "OR")))) = js "AND") then js "AND" else js "OR")
          cs).

(** The identifier after those of an operation *)
Definition after_operation (o : ParamOverrideOperation) : nat := S (o_id o) + length (conditions o).

Fixpoint normalize_operations (n : nat) (l : list jsval) : option (list ParamOverrideOperation) :=
  match l with
  | [] => Some []
  | v :: l => o ← normalizeOperation n v; os ← normalize_operations (after_operation o) l; Some (o :: os)
  end.

Definition createDefaultCondition (n : nat) : ParamOverrideCondition := mkCondition n [] (js "full") [] false false.
Definition createDefaultOperation (n : nat) : ParamOverrideOperation := mkOperation n [] [] (js "set") [] [] [] false (js "OR") [].

(** * Lists of rules *)

Implicit Types (ops : list ParamOverrideOperation) (op : ParamOverrideOperation).

(** [findIndex] *)
Fixpoint index_of (id : nat) ops : option nat :=
  match ops with
  | [] => None
  | o :: ops => if (o_id o =? id)%nat then Some 0 else S <$> index_of id ops
  end.

Inductive position := Before | After.

Definition reorderOperations ops (sourceId targetId : nat) (pos : position) : list ParamOverrideOperation :=
  if (sourceId =? targetId)%nat then ops
  else
    match index_of sourceId ops with
    | None => ops
    | Some srcIdx =>
        match ops !! srcIdx with
        | None => ops
        | Some moved =>
            let next := take srcIdx ops ++ drop (S srcIdx) ops in
            match index_of targetId next with
            | None => ops
            | Some insertIdx =>
                let insertIdx := match pos with After => S insertIdx | Before => insertIdx end in
                take insertIdx next ++ [moved] ++ drop insertIdx next
            end
        end
    end.

Definition blank (s : jstr) : bool := negb (truthy (trim s)).

Definition condition_blank (c : ParamOverrideCondition) : bool :=
  blank (c_path c) && blank (c_value_text c) && bool_decide (c_mode c = js "full") && negb (c_invert c) && negb (c_pass_missing_key c).

Definition isOperationBlank op : bool :=
  bool_decide (o_mode op = js "set") && blank (o_path op) && blank (o_from op) && blank (o_to op) && blank (o_value_text op)
  && negb (keep_origin op) && forallb condition_blank (conditions op).

(** * Forms of single modes *)

(** ** [sync_fields] *)

Definition parseSyncTargetSpec (spec : jstr) : jstr * jstr :=
  let raw := trim spec in
  if negb (truthy raw) then (js "json", [])
  else
    match indexOf raw (js ":") with
    | None => (js "json", raw)
    | Some idx =>
        let prefix := ascii_lower (trim (slice raw 0 idx)) in
        let key := trim (slice_from raw (S idx)) in
        (if bool_decide (prefix = js "header") then js "header" else js "json", key)
    end.

Definition buildSyncTargetSpec (type key : jstr) : jstr :=
  let normalizedKey := trim key in
  if negb (truthy normalizedKey) then []
  else (if bool_decide (type = js "header") then js "header" else js "json") ++ js ":" ++ normalizedKey.

(** ** [return_error] *)

Record ReturnErrorDraft := mkError {
  message : jstr;
  statusCode : num;
  code : jstr;
  e_type : jstr;
  skipRetry : bool;
  e_simpleMode : bool;
}.

(** [Number(v)] *)
Definition Number_of_val (v : jsval) : num :=
  match v with
  | VUndef => NaN
  | VNull => num_0
  | VBool b => num_of_Z (if b then 1 else 0)
  | VNum n => n
  | VStr s => Number_of_string s
  | VArr _ | VObj _ => Number_of_string (string_of_val v)
  end.

Definition status_or_400 (n : num) : num :=
  if isInteger n && num_leb (num_of_Z 100) n && num_leb n (num_of_Z 599) then n else num_of_Z 400.

Definition error_defaults : ReturnErrorDraft := mkError [] (num_of_Z 400) [] [] true true.

Definition parseReturnErrorDraft (valueText : jstr) : ReturnErrorDraft :=
  let raw := trim valueText in
  if negb (truthy raw) then error_defaults
  else
    match JSON_parse raw with
    | Some (VObj _ as parsed) =>
        let statusRaw := match prop parsed (js "status_code") with VUndef => prop parsed (js "status") | v => v end in
        let text k := trim (string_of_val (or_val (prop parsed k) (VStr []))) in
        mkError
          (trim (string_of_val (or_val (or_val (prop parsed (js "message")) (prop parsed (js "msg"))) (VStr []))))
          (status_or_400 (Number_of_val statusRaw)) (text (js "code")) (text (js "type"))
          (negb (bool_decide (prop parsed (js "skip_retry") = VBool false))) false
    | _ => mkError raw (num_of_Z 400) [] [] true true
    end.

Definition set_if (b : bool) (k : jstr) (v : jsval) (o : list (jstr * jsval)) : list (jstr * jsval) :=
  if b then omap.set o k v else o.

Definition buildReturnErrorValueText (draft : ReturnErrorDraft) : jstr :=
  let msg := trim (message draft) in
  if e_simpleMode draft then msg
  else
    let payload := [(js "message", VStr msg); (js "status_code", VNum (status_or_400 (statusCode draft)))] in
    let code := trim (code draft) in
    let type := trim (e_type draft) in
    let payload := set_if (truthy code) (js "code") (VStr code) payload in
    let payload := set_if (truthy type) (js "type") (VStr type) payload in
    let payload := set_if (negb (skipRetry draft)) (js "skip_retry") (VBool false) payload in
    default [] (JSON_stringify (VObj payload)).

(** ** [prune_objects] *)

Record PruneObjectsDraft := mkPrune {
  p_simpleMode : bool;
  typeText : jstr;
  p_logic : jstr;
  recursive : bool;
  rules : list ParamOverrideCondition;
}.

(** A rule has the fields of a condition. *)
Definition normalizePruneRule := normalizeCondition.

Definition prune_defaults : PruneObjectsDraft := mkPrune true [] (js "AND") true [].

(** A rule of a path and a value *)
Definition where_rule (n : nat) (e : jstr * jsval) : ParamOverrideCondition :=
  mkCondition n e.1 (js "full") (toValueText e.2) false false.

Fixpoint where_rules (n : nat) (es : list (jstr * jsval)) : list ParamOverrideCondition :=
  match es with [] => [] | e :: es => where_rule n e :: where_rules (S n) es end.

(** The items that are objects; arrays are, and have none of the properties *)
Fixpoint item_rules (n : nat) (l : list jsval) : list ParamOverrideCondition :=
  match l with
  | [] => []
  | v :: l =>
      if truthy_val v && typeof_object v then
        match normalizePruneRule n v with Some r => r :: item_rules (S n) l | None => item_rules n l end
      else item_rules n l
  end.

Definition parsePruneObjectsDraft (n : nat) (valueText : jstr) : PruneObjectsDraft :=
  let raw := trim valueText in
  let with_type t := mkPrune true t (js "AND") true [] in
  if negb (truthy raw) then prune_defaults
  else
    match JSON_parse raw with
    | None => with_type raw
    | Some (VStr s) => with_type (trim s)
    | Some (VObj _ as parsed) =>
        let first := match prop parsed (js "where") with VObj o => where_rules n (entries o) | _ => [] end in
        let n := n + length first in
        let second :=
          match prop parsed (js "conditions") with
          | VArr l => item_rules n l
          | VObj o => where_rules n (entries o)
          | _ => []
          end in
        let present k := negb (bool_decide (prop parsed (js k) = VUndef)) in
        mkPrune (negb (present "logic" || present "recursive" || present "where" || present "conditions"))
          (match prop parsed (js "type") with VUndef => [] | v => trim (string_of_val v) end)
          (if bool_decide (ascii_upper (string_of_val (or_val (prop parsed (js "logic")) (VStr (js "AND")))) = js "OR")
           then js "OR" else js "AND")
          (negb (bool_decide (prop parsed (js "recursive") = VBool false))) (first ++ second)
    | Some VNull => with_type []
    | Some v => with_type (trim (string_of_val v))
    end.

Definition rule_payload (rule : ParamOverrideCondition) : jsval :=
  let o := [(js "path", VStr (trim (c_path rule)));
            (js "mode", VStr (if bool_decide (c_mode rule ∈ CONDITION_MODE_VALUES) then c_mode rule else js "full"))] in
  let valueRaw := trim (c_value_text rule) in
  let o := set_if (truthy valueRaw) (js "value") (parseLooseValue valueRaw) o in
  let o := set_if (c_invert rule) (js "invert") (VBool true) o in
  VObj (set_if (c_pass_missing_key rule) (js "pass_missing_key") (VBool true) o).

Definition buildPruneObjectsValueText (draft : PruneObjectsDraft) : jstr :=
  let type := trim (typeText draft) in
  if p_simpleMode draft then type
  else
    let payload := set_if (truthy type) (js "type") (VStr type) [] in
    let logic := if truthy (p_logic draft) then p_logic draft else js "AND" in
    let payload := set_if (bool_decide (ascii_upper logic = js "OR")) (js "logic") (VStr (js "OR")) payload in
    let payload := set_if (negb (recursive draft)) (js "recursive") (VBool false) payload in
    let conditions := rule_payload <$> filter (λ r, blank (c_path r) = false) (rules draft) in
    let payload := set_if (negb (bool_decide (conditions = []))) (js "conditions") (VArr conditions) payload in
    if negb (truthy type) && bool_decide (conditions = []) then default [] (JSON_stringify (VObj [(js "logic", VStr (js "AND"))]))
    else default [] (JSON_stringify (VObj payload)).

(** ** [pass_headers] *)

(** [String(i ?? '').trim()] *)
Definition header_name (v : jsval) : jstr :=
  trim (match v with VUndef | VNull => [] | _ => string_of_val v end).

Definition nonempty (l : list jstr) : list jstr := filter (λ s, truthy s = true) l.

Definition parsePassHeaderNames (v : jsval) : list jstr :=
  match v with
  | VArr l => nonempty (header_name <$> l)
  | VObj _ =>
      match prop v (js "headers") with
      | VArr l => nonempty (header_name <$> l)
      | _ => match prop v (js "header") with VUndef => [] | h => nonempty [header_name h] end
      end
  | VStr s => nonempty (trim <$> split_unit 44%N s)
  | _ => []
  end.

(** * Writing *)

Definition buildConditionPayload (c : ParamOverrideCondition) : option jsval :=
  let path := trim (c_path c) in
  if negb (truthy path) then None
  else
    let o := [(js "path", VStr path); (js "mode", VStr (if truthy (c_mode c) then c_mode c else js "full"));
              (js "value", parseLooseValue (c_value_text c))] in
    let o := set_if (c_invert c) (js "invert") (VBool true) o in
    Some (VObj (set_if (c_pass_missing_key c) (js "pass_missing_key") (VBool true) o)).

(** The message of a rule that is not complete *)
Definition operation_error op : option jstr :=
  let mode := if truthy (o_mode op) then o_mode op else js "set" in
  let meta := meta_of mode in
  let aliased := m_pathAlias meta && negb (blank (o_path op)) in
  if m_path meta && blank (o_path op) then Some (js "Rule {{line}} is missing target path")
  else if bool_decide (mode ∈ FROM_REQUIRED_MODES) && blank (o_from op) && negb aliased
  then Some (js "Rule {{line}} is missing source field")
  else if bool_decide (mode ∈ TO_REQUIRED_MODES) && blank (o_to op) && negb aliased
  then Some (js "Rule {{line}} is missing target field")
  else if bool_decide (mode ∈ VALUE_REQUIRED_MODES) && blank (o_value_text op) then Some (js "Rule {{line}} is missing value")
  else if bool_decide (mode = js "return_error") then
    match JSON_parse (trim (o_value_text op)) with
    | Some (VObj _ as parsed) =>
        if blank (string_of_val (or_val (prop parsed (js "message")) (VStr [])))
        then Some (js "Rule {{line}} return_error requires a message field") else None
    | _ => None
    end
  else if bool_decide (mode = js "pass_headers") then
    match parsePassHeaderNames (parseLooseValue (trim (o_value_text op))) with
    | [] => Some (js "Rule {{line}} pass_headers format is invalid")
    | _ => None
    end
  else None.

Fixpoint validate_from (line : nat) ops : option (jstr * nat) :=
  match ops with
  | [] => None
  | op :: ops => match operation_error op with Some e => Some (e, line) | None => validate_from (S line) ops end
  end.

Definition validateOperations ops : option (jstr * nat) := validate_from 1 ops.

Definition alias_prop (k path : jstr) (o : list (jstr * jsval)) : list (jstr * jsval) :=
  set_if (negb (truthy_val (prop (VObj o) k)) && truthy path) k (VStr path) o.

Definition operation_payload op : jsval :=
  let mode := if truthy (o_mode op) then o_mode op else js "set" in
  let meta := meta_of mode in
  let path := trim (o_path op) in
  let to := trim (o_to op) in
  let o := [(js "mode", VStr mode)] in
  let o := set_if (truthy (trim (description op))) (js "description") (VStr (trim (description op))) o in
  let o := set_if (m_path meta) (js "path") (VStr path) o in
  let o := set_if (m_pathOptional meta && truthy path) (js "path") (VStr path) o in
  let o := set_if (m_value meta) (js "value") (parseLooseValue (o_value_text op)) o in
  let o := set_if (m_keepOrigin meta && keep_origin op) (js "keep_origin") (VBool true) o in
  let o := set_if (m_from meta) (js "from") (VStr (trim (o_from op))) o in
  let o := set_if (negb (m_to meta) && truthy to) (js "to") (VStr to) o in
  let o := set_if (m_to meta) (js "to") (VStr to) o in
  let o := if m_pathAlias meta then alias_prop (js "to") path (alias_prop (js "from") path o) else o in
  let cs := base.omap buildConditionPayload (conditions op) in
  let o := set_if (negb (bool_decide (cs = []))) (js "conditions") (VArr cs) o in
  VObj (set_if (negb (bool_decide (cs = []))) (js "logic") (VStr (if bool_decide (logic op = js "AND") then js "AND" else js "OR")) o).

Definition not_blank ops : list ParamOverrideOperation := filter (λ op, isOperationBlank op = false) ops.

Definition operations_value ops : jsval := VObj [(js "operations", VArr (operation_payload <$> ops))].

Definition buildOperationsJson ops (validate : bool) : (jstr * nat) + jstr :=
  match not_blank ops with
  | [] => inr []
  | filteredOps =>
      match (if validate then validateOperations filteredOps else None) with
      | Some e => inl e
      | None => inr (default [] (JSON_stringify_indented 2 (operations_value filteredOps)))
      end
  end.

(** * The dialog *)

Inductive editMode := Visual | Json.
Inductive visualMode := Operations | Legacy.

(** The state of the dialog; [seed] is [localIdSeed], and [None] an empty text
    where an identifier is expected *)
Record Editor := mkEditor {
  ed_editMode : editMode;
  ed_visualMode : visualMode;
  legacyValue : jstr;
  operations : list ParamOverrideOperation;
  jsonText : jstr;
  jsonError : jstr;
  selectedOperationId : option nat;
  draggedOperationId : option nat;
  dragOver : option nat * position;
  seed : nat;
}.

Definition with_operations ops (sel : option nat) (n : nat) (e : Editor) : Editor :=
  mkEditor (ed_editMode e) (ed_visualMode e) (legacyValue e) ops (jsonText e) (jsonError e) sel (draggedOperationId e) (dragOver e) n.

(** The identifier after all of a list *)
Definition after_operations (n : nat) ops : nat := foldl (λ _ op, after_operation op) n ops.

Definition pretty (v : jsval) : jstr := default [] (JSON_stringify_indented 2 v).

(** The rules of a list in JSON, or one blank rule *)
Definition rules_of (n : nat) (l : list jsval) : option (list ParamOverrideOperation) :=
  match l with [] => Some [createDefaultOperation n] | _ => normalize_operations n l end.

(** [parseInitialState] *)
Definition parseInitialState (n : nat) (text : jstr) :
    option (editMode * visualMode * jstr * list ParamOverrideOperation * jstr * jstr) :=
  let trimmed := trim text in
  let default_ops := [createDefaultOperation n] in
  if negb (truthy trimmed) then Some (Visual, Operations, [], default_ops, [], [])
  else
    match JSON_parse trimmed with
    | None => Some (Json, Operations, [], default_ops, text, js "Invalid JSON format")
    | Some parsed =>
        match parsed, prop parsed (js "operations") with
        | VObj _, VArr l => ops ← rules_of n l; Some (Visual, Operations, [], ops, pretty parsed, [])
        | VObj _, _ => Some (Visual, Legacy, pretty parsed, default_ops, pretty parsed, [])
        | _, _ => Some (Json, Operations, [], default_ops, pretty parsed, [])
        end
    end.

(** The dialog opens on a value; [None]: an exception while reading it *)
Definition open (n : nat) (value : jstr) : option Editor :=
  '(em, vm, legacy, ops, text, err) ← parseInitialState n value;
  Some (mkEditor em vm legacy ops text err (o_id <$> head ops) None (None, Before) (after_operations n ops)).

(** ** Rules *)

(** [Partial<ParamOverrideOperation>], without the identifier and the conditions *)
Record OperationPatch := mkPatch {
  pt_description : option jstr; pt_path : option jstr; pt_mode : option jstr; pt_from : option jstr; pt_to : option jstr;
  pt_value_text : option jstr; pt_keep_origin : option bool; pt_logic : option jstr;
}.

Definition apply_patch (p : OperationPatch) op : ParamOverrideOperation :=
  mkOperation (o_id op) (default (description op) (pt_description p)) (default (o_path op) (pt_path p))
    (default (o_mode op) (pt_mode p)) (default (o_from op) (pt_from p)) (default (o_to op) (pt_to p))
    (default (o_value_text op) (pt_value_text p)) (default (keep_origin op) (pt_keep_origin p))
    (default (logic op) (pt_logic p)) (conditions op).

Definition set_conditions (cs : list ParamOverrideCondition) op : ParamOverrideOperation :=
  mkOperation (o_id op) (description op) (o_path op) (o_mode op) (o_from op) (o_to op) (o_value_text op) (keep_origin op) (logic op) cs.

Definition set_value_text (text : jstr) op : ParamOverrideOperation :=
  mkOperation (o_id op) (description op) (o_path op) (o_mode op) (o_from op) (o_to op) text (keep_origin op) (logic op) (conditions op).

Definition map_operation (id : nat) (f : ParamOverrideOperation → ParamOverrideOperation) ops : list ParamOverrideOperation :=
  (λ op, if (o_id op =? id)%nat then f op else op) <$> ops.

Definition on_operation (id : nat) (f : ParamOverrideOperation → ParamOverrideOperation) (e : Editor) : Editor :=
  with_operations (map_operation id f (operations e)) (selectedOperationId e) (seed e) e.

Definition updateOperation (id : nat) (p : OperationPatch) (e : Editor) : Editor := on_operation id (apply_patch p) e.

Definition addOperation (e : Editor) : Editor :=
  let created := createDefaultOperation (seed e) in
  with_operations (operations e ++ [created]) (Some (seed e)) (S (seed e)) e.

(** The copy of a condition, by way of a JSON value *)
Definition clone_condition (n : nat) (c : ParamOverrideCondition) : ParamOverrideCondition :=
  mkCondition n (c_path c) (if bool_decide (c_mode c ∈ CONDITION_MODE_VALUES) then c_mode c else js "full")
    (toValueText (parseLooseValue (c_value_text c))) (c_invert c) (c_pass_missing_key c).

Fixpoint clone_conditions (n : nat) (cs : list ParamOverrideCondition) : list ParamOverrideCondition :=
  match cs with [] => [] | c :: cs => clone_condition n c :: clone_conditions (S n) cs end.

Definition clone_operation (n : nat) op : ParamOverrideOperation :=
  mkOperation n (description op) (o_path op) (if bool_decide (o_mode op ∈ OPERATION_MODE_VALUES) then o_mode op else js "set")
    (o_from op) (o_to op) (toValueText (parseLooseValue (o_value_text op))) (keep_origin op)
    (if bool_decide (ascii_upper (if truthy (logic op) then logic op else js "OR") = js "AND") then js "AND" else js "OR")
    (clone_conditions (S n) (conditions op)).

(** Whether the copy is selected depends on when the update is run: [eager] *)
Definition duplicateOperation (eager : bool) (id : nat) (e : Editor) : Editor :=
  match index_of id (operations e) with
  | None => e
  | Some idx =>
      match operations e !! idx with
      | None => e
      | Some source =>
          let cloned := clone_operation (seed e) source in
          with_operations (take (S idx) (operations e) ++ [cloned] ++ drop (S idx) (operations e))
            (if eager then Some (seed e) else selectedOperationId e) (after_operation cloned) e
      end
  end.

Definition removeOperation (id : nat) (e : Editor) : Editor :=
  if (length (operations e) <=? 1)%nat
  then with_operations [createDefaultOperation (seed e)] (selectedOperationId e) (S (seed e)) e
  else with_operations (filter (λ op, o_id op ≠ id) (operations e)) (selectedOperationId e) (seed e) e.

(** ** Conditions *)

Definition addCondition (id : nat) (e : Editor) : Editor :=
  let created := createDefaultCondition (seed e) in
  with_operations (map_operation id (λ op, set_conditions (conditions op ++ [created]) op) (operations e))
    (selectedOperationId e) (S (seed e)) e.

Record ConditionPatch := mkCPatch {
  cp_path : option jstr; cp_mode : option jstr; cp_value_text : option jstr; cp_invert : option bool; cp_pass : option bool;
}.

Definition apply_cpatch (p : ConditionPatch) (c : ParamOverrideCondition) : ParamOverrideCondition :=
  mkCondition (c_id c) (default (c_path c) (cp_path p)) (default (c_mode c) (cp_mode p))
    (default (c_value_text c) (cp_value_text p)) (default (c_invert c) (cp_invert p)) (default (c_pass_missing_key c) (cp_pass p)).

Definition map_condition (cid : nat) (p : ConditionPatch) (cs : list ParamOverrideCondition) : list ParamOverrideCondition :=
  (λ c, if (c_id c =? cid)%nat then apply_cpatch p c else c) <$> cs.

Definition updateCondition (id cid : nat) (p : ConditionPatch) (e : Editor) : Editor :=
  on_operation id (λ op, set_conditions (map_condition cid p (conditions op)) op) e.

Definition removeCondition (id cid : nat) (e : Editor) : Editor :=
  on_operation id (λ op, set_conditions (filter (λ c, c_id c ≠ cid) (conditions op)) op) e.

(** ** Forms *)

Definition updateReturnErrorDraft (id : nat) (f : ReturnErrorDraft → ReturnErrorDraft) (e : Editor) : Editor :=
  on_operation id (λ op, set_value_text (buildReturnErrorValueText (f (parseReturnErrorDraft (o_value_text op)))) op) e.

(** Reading the draft takes identifiers for its rules. *)
Definition updatePruneObjectsDraft (id : nat) (f : nat → PruneObjectsDraft → PruneObjectsDraft) (e : Editor) : Editor :=
  let n := seed e in
  let text_of op :=
    let draft := parsePruneObjectsDraft n (o_value_text op) in
    buildPruneObjectsValueText (f (n + length (rules draft)) draft) in
  let used :=
    foldr (λ op k, if (o_id op =? id)%nat then S (length (rules (parsePruneObjectsDraft n (o_value_text op)))) + k else k) 0 (operations e) in
  with_operations (map_operation id (λ op, set_value_text (text_of op) op) (operations e)) (selectedOperationId e) (n + used) e.

Definition set_rules (simple : bool) (rs : list ParamOverrideCondition) (d : PruneObjectsDraft) : PruneObjectsDraft :=
  mkPrune simple (typeText d) (p_logic d) (recursive d) rs.

Definition addPruneRule (id : nat) (e : Editor) : Editor :=
  updatePruneObjectsDraft id (λ n d, set_rules false (rules d ++ [createDefaultCondition n]) d) e.

Definition updatePruneRule (id rid : nat) (p : ConditionPatch) (e : Editor) : Editor :=
  updatePruneObjectsDraft id (λ _ d, set_rules (p_simpleMode d) (map_condition rid p (rules d)) d) e.

Definition removePruneRule (id rid : nat) (e : Editor) : Editor :=
  updatePruneObjectsDraft id (λ _ d, set_rules (p_simpleMode d) (filter (λ r, c_id r ≠ rid) (rules d)) d) e.

(** The draft that is shown; showing it takes identifiers too *)
Definition show_prune_draft (e : Editor) : Editor * option PruneObjectsDraft :=
  match list_find (λ op, Some (o_id op) = selectedOperationId e) (operations e) with
  | Some (_, op) =>
      if bool_decide (o_mode op = js "prune_objects") then
        let draft := parsePruneObjectsDraft (seed e) (o_value_text op) in
        (with_operations (operations e) (selectedOperationId e) (seed e + length (rules draft)) e, Some draft)
      else (e, None)
  | None => (e, None)
  end.

(** ** Dragging *)

Definition set_drag (dragged : option nat) (over : option nat * position) (e : Editor) : Editor :=
  mkEditor (ed_editMode e) (ed_visualMode e) (legacyValue e) (operations e) (jsonText e) (jsonError e) (selectedOperationId e) dragged over (seed e).

Definition handleDragStart (id : nat) (e : Editor) : Editor :=
  set_drag (Some id) (dragOver e) (with_operations (operations e) (Some id) (seed e) e).

Definition handleDragOver (id : nat) (pos : position) (e : Editor) : Editor :=
  match draggedOperationId e with
  | None => e
  | Some d => if (d =? id)%nat then e else set_drag (Some d) (Some id, pos) e
  end.

(** [transferred]: the identifier carried by the browser *)
Definition handleDrop (transferred : option nat) (id : nat) (e : Editor) : Editor :=
  let sourceId := match draggedOperationId e with Some d => Some d | None => transferred end in
  let pos := if bool_decide ((dragOver e).1 = Some id) then (dragOver e).2 else Before in
  let e :=
    match sourceId with
    | Some s => if (s =? id)%nat then e else with_operations (reorderOperations (operations e) s id pos) (Some s) (seed e) e
    | None => e
    end in
  set_drag None (None, Before) e.

(** The effect that keeps the selection valid *)
Definition settle (e : Editor) : Editor :=
  match operations e with
  | [] => with_operations [] None (seed e) e
  | op :: _ =>
      if existsb (λ o, bool_decide (Some (o_id o) = selectedOperationId e)) (operations e) then e
      else with_operations (operations e) (Some (o_id op)) (seed e) e
  end.

(** ** Modes *)

(** A message, with the number of a rule when it is about one *)
Definition failure : Type := jstr * option nat.

Definition buildVisualJson (e : Editor) : failure + jstr :=
  match ed_visualMode e with
  | Legacy =>
      let trimmed := trim (legacyValue e) in
      if negb (truthy trimmed) then inr []
      else
        match JSON_parse trimmed with
        | None => inl (js "Parameter override must be valid JSON format", None)
        | Some (VObj _ as parsed) => inr (pretty parsed)
        | Some _ => inl (js "Legacy format must be a JSON object", None)
        end
  | Operations =>
      match buildOperationsJson (operations e) true with
      | inl (m, line) => inl (m, Some line)
      | inr text => inr text
      end
  end.

Definition set_json (em : editMode) (text err : jstr) (e : Editor) : Editor :=
  mkEditor em (ed_visualMode e) (legacyValue e) (operations e) text err (selectedOperationId e) (draggedOperationId e) (dragOver e) (seed e).

Definition set_visual (vm : visualMode) (legacy : jstr) ops (sel : option nat) (n : nat) (text : jstr) (e : Editor) : Editor :=
  mkEditor Visual vm legacy ops text [] sel (draggedOperationId e) (dragOver e) n.

(** [shown]: the text of a message *)
Definition switchToJsonMode (shown : failure → jstr) (e : Editor) : Editor :=
  match ed_editMode e with
  | Json => e
  | Visual =>
      match buildVisualJson e with
      | inr text => set_json Json text [] e
      | inl err =>
          set_json Json
            (match ed_visualMode e with
             | Legacy => legacyValue e
             | Operations => match buildOperationsJson (operations e) false with inr text => text | inl _ => [] end
             end) (shown err) e
      end
  end.

(** [None]: an exception while reading the rules *)
Definition switchToVisualMode (e : Editor) : option Editor :=
  match ed_editMode e with
  | Visual => Some e
  | Json =>
      let trimmed := trim (jsonText e) in
      let n := seed e in
      let fallback := [createDefaultOperation n] in
      if negb (truthy trimmed) then Some (set_visual Operations [] fallback (Some n) (S n) (jsonText e) e)
      else
        match JSON_parse trimmed with
        | None => Some e
        | Some parsed =>
            match parsed, prop parsed (js "operations") with
            | VObj _, VArr l =>
                ops ← rules_of n l;
                Some (set_visual Operations [] ops (o_id <$> head ops) (after_operations n ops) (jsonText e) e)
            | VObj _, _ => Some (set_visual Legacy (pretty parsed) fallback (Some n) (S n) (jsonText e) e)
            | _, _ => Some e
            end
        end
  end.

Definition handleJsonChange (text : jstr) (e : Editor) : Editor :=
  let trimmed := trim text in
  set_json (ed_editMode e) text
    (if negb (truthy trimmed) || verifyJSON trimmed then [] else js "JSON format error") e.

Definition resetEditorState (e : Editor) : Editor :=
  set_visual Operations [] [createDefaultOperation (seed e)] (Some (seed e)) (S (seed e)) [] e.

(** [handleSave]: what is saved *)
Definition handleSave (e : Editor) : failure + jstr :=
  match ed_editMode e with
  | Json =>
      let trimmed := trim (jsonText e) in
      if negb (truthy trimmed) then inr []
      else
        match JSON_parse trimmed with
        | None => inl (js "Parameter override must be valid JSON format", None)
        | Some v => inr (pretty v)
        end
  | Visual => buildVisualJson e
  end.

(** ** Templates *)

(** What [...v] adds to an object *)
Definition spread_entries (v : jsval) : list (jstr * jsval) :=
  match v with
  | VObj o => entries o
  | VArr l => imap (λ i x, (digits (N.of_nat i), x)) l
  | VStr s => imap (λ i c, (digits (N.of_nat i), VStr [c])) s
  | _ => []
  end.

(** [{ ...payload, ...current }] *)
Definition spread_over (payload : list (jstr * jsval)) (current : jsval) : list (jstr * jsval) :=
  foldl (λ o e, omap.set o e.1 e.2) payload (spread_entries current).

Definition fillLegacyTemplate (append : bool) (payload : list (jstr * jsval)) (e : Editor) : Editor :=
  let put text := set_visual Legacy text [createDefaultOperation (seed e)] (selectedOperationId e) (S (seed e)) text e in
  match append, ed_visualMode e with
  | true, Legacy =>
      let trimmed := trim (legacyValue e) in
      if negb (truthy trimmed) then put (pretty (VObj payload))
      else
        match JSON_parse trimmed with
        | None => e
        | Some v => put (pretty (VObj (spread_over payload v)))
        end
  | _, _ => put (pretty (VObj payload))
  end.

Definition fillTemplate (append : bool) (payload : list jsval) (e : Editor) : option Editor :=
  let n := seed e in
  added ← normalize_operations n payload;
  let n' := after_operations n added in
  if append then
    let existing := match ed_visualMode e with Operations => not_blank (operations e) | Legacy => [] end in
    let ops := existing ++ added in
    Some (set_visual Operations [] ops (o_id <$> head ops) n' [] e)
  else
    let '(ops, n') := match added with [] => ([createDefaultOperation n], S n) | _ => (added, n') end in
    Some (set_visual Operations (legacyValue e) ops (o_id <$> head ops) n' (pretty (VObj [(js "operations", VArr payload)])) e).

(** ** Events *)

Inductive event :=
  | UpdateOperation (id : nat) (p : OperationPatch)
  | AddOperation
  | DuplicateOperation (eager : bool) (id : nat)
  | RemoveOperation (id : nat)
  | AddCondition (id : nat)
  | UpdateCondition (id cid : nat) (p : ConditionPatch)
  | RemoveCondition (id cid : nat)
  | UpdateErrorDraft (id : nat) (f : ReturnErrorDraft → ReturnErrorDraft)
  | UpdatePruneDraft (id : nat) (f : nat → PruneObjectsDraft → PruneObjectsDraft)
  | ShowPruneDraft
  | DragStart (id : nat)
  | DragOver (id : nat) (pos : position)
  | Drop (transferred : option nat) (id : nat)
  | ToJson (shown : failure → jstr)
  | ToVisual
  | JsonChange (text : jstr)
  | Reset
  | FillLegacy (append : bool) (payload : list (jstr * jsval))
  | Fill (append : bool) (payload : list jsval).

(** What an event does; [None]: an exception *)
Definition handle (ev : event) (e : Editor) : option Editor :=
  match ev with
  | UpdateOperation id p => Some (updateOperation id p e)
  | AddOperation => Some (addOperation e)
  | DuplicateOperation eager id => Some (duplicateOperation eager id e)
  | RemoveOperation id => Some (removeOperation id e)
  | AddCondition id => Some (addCondition id e)
  | UpdateCondition id cid p => Some (updateCondition id cid p e)
  | RemoveCondition id cid => Some (removeCondition id cid e)
  | UpdateErrorDraft id f => Some (updateReturnErrorDraft id f e)
  | UpdatePruneDraft id f => Some (updatePruneObjectsDraft id f e)
  | ShowPruneDraft => Some (show_prune_draft e).1
  | DragStart id => Some (handleDragStart id e)
  | DragOver id pos => Some (handleDragOver id pos e)
  | Drop transferred id => Some (handleDrop transferred id e)
  | ToJson shown => Some (switchToJsonMode shown e)
  | ToVisual => switchToVisualMode e
  | JsonChange text => Some (handleJsonChange text e)
  | Reset => Some (resetEditorState e)
  | FillLegacy append payload => Some (fillLegacyTemplate append payload e)
  | Fill append payload => fillTemplate append payload e
  end.

(** The templates there are have rules. *)
Definition possible (ev : event) : Prop := match ev with Fill _ payload => payload ≠ [] | _ => True end.

(** The dialog as it is reached from opening it on some value, with the effect run
    after every event *)
Inductive reachable : Editor → Prop :=
  | reach_open n value e : open n value = Some e → reachable (settle e)
  | reach_event ev e e' : reachable e → possible ev → handle ev e = Some e' → reachable (settle e').
