(* ===== verification/ParamOverrideProps.v ===== *)
(** What the editor of parameter overrides guarantees, and what it loses. *)

From Stdlib Require Import ZArith NArith Lia.
From stdpp Require Import base list gmap.
From S2P Require Import Prelude JsString JsNumber JsValue Json NumberText JsArray ParamOverride.

Implicit Types (ops : list ParamOverrideOperation) (op : ParamOverrideOperation) (e : Editor) (n : nat)
  (cs : list ParamOverrideCondition).

(** * Identifiers *)

Definition conditions_below n cs : Prop := Forall (λ c, c_id c < n) cs ∧ NoDup (c_id <$> cs).

Definition op_below n op : Prop := o_id op < n ∧ conditions_below n (conditions op).

(** Rules with identifiers of their own, all given out before [n] *)
Definition sound_ids n ops : Prop := NoDup (o_id <$> ops) ∧ Forall (op_below n) ops.

Lemma conditions_below_le n m cs : n ≤ m → conditions_below n cs → conditions_below m cs.
Proof. intros Hnm [H1 H2]. split; [|done]. eapply Forall_impl; [exact H1|]. cbn. lia. Qed.

Lemma op_below_le n m op : n ≤ m → op_below n op → op_below m op.
Proof. intros Hnm [H1 H2]. split; [lia|by eapply conditions_below_le]. Qed.

Lemma sound_ids_le n m ops : n ≤ m → sound_ids n ops → sound_ids m ops.
Proof. intros Hnm [H1 H2]. split; [done|]. eapply Forall_impl; [exact H2|]. intros op. by apply op_below_le. Qed.

Lemma sound_ids_sublist n ops ops' : ops' `sublist_of` ops → sound_ids n ops → sound_ids n ops'.
Proof.
  intros Hs [H1 H2]. split; [eapply sublist_NoDup; [exact H1|by apply fmap_sublist]|].
  rewrite Forall_forall in H2 |- *. intros op Hop. apply H2. eapply elem_of_sublist; [exact Hop|done].
Qed.

Lemma sound_ids_perm n ops ops' : ops' ≡ₚ ops → sound_ids n ops → sound_ids n ops'.
Proof. intros Hp [H1 H2]. split; by rewrite Hp. Qed.

(** A new rule *)
Lemma sound_ids_cons n m op ops :
  n ≤ o_id op → op_below m op → sound_ids n ops → sound_ids m (op :: ops).
Proof.
  intros Hn Hop [H1 H2]. split; [rewrite fmap_cons; constructor; [|done]|].
  - intros (x & Ex & Hx)%list_elem_of_fmap. eapply Forall_forall in H2 as [Hlt _]; [|exact Hx]. lia.
  - constructor; [done|]. eapply Forall_impl; [exact H2|]. intros x. apply op_below_le. destruct Hop. lia.
Qed.

Lemma sound_ids_app n m ops ops' :
  n ≤ m → sound_ids n ops → sound_ids m ops' → Forall (λ op, n ≤ o_id op) ops' → sound_ids m (ops ++ ops').
Proof.
  intros Hnm [A1 A2] [B1 B2] Hge. split.
  - rewrite fmap_app. apply NoDup_app. split_and!; [done| |done].
    intros i (x & -> & Hx)%list_elem_of_fmap (y & Ey & Hy)%list_elem_of_fmap.
    eapply Forall_forall in A2 as [Hlt _]; [|exact Hx]. eapply Forall_forall in Hge; [|exact Hy]. lia.
  - apply Forall_app. split; [|done]. eapply Forall_impl; [exact A2|]. intros x. by apply op_below_le.
Qed.

Lemma fresh_conditions n cs : c_id <$> cs = seq n (length cs) → conditions_below (n + length cs) cs.
Proof.
  intros E. split; [|rewrite E; apply NoDup_seq]. apply Forall_forall. intros c Hc.
  assert (c_id c ∈ c_id <$> cs) as Hin by (by apply list_elem_of_fmap_2). rewrite E, elem_of_seq in Hin. lia.
Qed.

Lemma normalize_conditions_ids n l cs : normalize_conditions n l = Some cs → c_id <$> cs = seq n (length cs).
Proof.
  revert n cs. induction l as [|v l IH]; intros n cs E; cbn [normalize_conditions] in E; [by injection E as <-|].
  unfold normalizeCondition in E. destruct (object_arg v); [|done]. cbn in E.
  destruct (normalize_conditions (S n) l) as [cs'|] eqn:E'; [|done]. injection E as <-. cbn. f_equal. by apply IH.
Qed.

Lemma clone_conditions_ids n cs : c_id <$> clone_conditions n cs = seq n (length cs) ∧ length (clone_conditions n cs) = length cs.
Proof.
  revert n. induction cs as [|c cs IH]; intros n; [done|]. destruct (IH (S n)) as [E1 E2]. cbn. by rewrite E1, E2.
Qed.

Lemma normalizeOperation_ids n v op :
  normalizeOperation n v = Some op → o_id op = n ∧ op_below (after_operation op) op.
Proof.
  unfold normalizeOperation. destruct (object_arg v); [|done]. cbn.
  destruct (normalize_conditions (S n) _) as [cs|] eqn:E; [|done]. intros [= <-]. split; [done|].
  apply normalize_conditions_ids, fresh_conditions in E. split; [cbn; lia|exact E].
Qed.

Lemma default_below n : op_below (S n) (createDefaultOperation n).
Proof. split; [cbn; lia|]. split; constructor. Qed.

Lemma normalize_operations_ids n l ops :
  normalize_operations n l = Some ops →
  n ≤ after_operations n ops ∧ sound_ids (after_operations n ops) ops ∧ Forall (λ op, n ≤ o_id op) ops ∧ length ops = length l.
Proof.
  revert n ops. induction l as [|v l IH]; intros n ops E; cbn [normalize_operations] in E.
  { injection E as <-. split; [done|]. split; [split; constructor|]. by split. }
  destruct (normalizeOperation n v) as [op|] eqn:Ev; [|done]. cbn [mbind option_bind] in E.
  destruct (normalize_operations (after_operation op) l) as [ops'|] eqn:El; [|done]. injection E as <-.
  destruct (normalizeOperation_ids n v op Ev) as [<- Hop]. destruct (IH _ _ El) as (H1 & H2 & H3 & H4).
  unfold after_operations in *. cbn [foldl]. assert (o_id op < after_operation op) by (unfold after_operation; lia).
  split; [lia|]. split; [|split; [constructor; [lia|]; eapply Forall_impl; [exact H3|]; cbn; lia|cbn; by rewrite H4]].
  destruct H2 as [N1 N2]. split.
  - rewrite fmap_cons. constructor; [|done]. intros (x & Ex & Hx)%list_elem_of_fmap.
    eapply Forall_forall in H3; [|exact Hx]. cbn in H3. lia.
  - constructor; [|done]. by eapply op_below_le.
Qed.

Lemma rules_of_ids n l ops :
  rules_of n l = Some ops →
  n ≤ after_operations n ops ∧ sound_ids (after_operations n ops) ops ∧ Forall (λ op, n ≤ o_id op) ops ∧ ops ≠ [].
Proof.
  destruct l as [|v l]; cbn [rules_of].
  - intros [= <-]. unfold after_operations, after_operation. cbn. rewrite Nat.add_0_r. split; [lia|]. split; [|split; [constructor; [cbn; lia|constructor]|done]].
    split; [apply NoDup_singleton|]. constructor; [apply default_below|constructor].
  - intros (H1 & H2 & H3 & H4)%normalize_operations_ids. split; [done|]. split; [done|]. split; [done|]. intros ->. cbn in H4. lia.
Qed.

(** ** Handlers *)

Definition sound_editor e : Prop := operations e ≠ [] ∧ sound_ids (seed e) (operations e).

(** Some rule is selected. *)
Definition selection_ok e : Prop := ∃ op, op ∈ operations e ∧ selectedOperationId e = Some (o_id op).

Lemma map_operation_ids id f ops : (∀ op, o_id (f op) = o_id op) → o_id <$> map_operation id f ops = o_id <$> ops.
Proof.
  intros Hf. unfold map_operation. rewrite <- list_fmap_compose. apply list_fmap_ext. intros i op _. cbn.
  by destruct (o_id op =? id)%nat.
Qed.

Lemma sound_map n m id f ops :
  n ≤ m → (∀ op, o_id (f op) = o_id op) → (∀ op, op_below n op → conditions_below m (conditions (f op))) →
  sound_ids n ops → sound_ids m (map_operation id f ops).
Proof.
  intros Hnm Hid Hf [H1 H2]. split; [by rewrite map_operation_ids|]. unfold map_operation. apply Forall_fmap.
  eapply Forall_impl; [exact H2|]. intros op Hop. cbn. destruct (o_id op =? id)%nat; [|by eapply op_below_le].
  split; [rewrite Hid; destruct Hop; lia|by apply Hf].
Qed.

Lemma map_nonempty id f ops : ops ≠ [] → map_operation id f ops ≠ [].
Proof. by destruct ops. Qed.

Lemma on_operation_sound id f e :
  (∀ op, o_id (f op) = o_id op) → (∀ n op, op_below n op → conditions_below n (conditions (f op))) →
  sound_editor e → sound_editor (on_operation id f e).
Proof.
  intros Hid Hf [H1 H2]. split; [by apply map_nonempty|]. eapply sound_map; [done|done|by apply Hf|exact H2].
Qed.

Lemma map_condition_below n cid p cs : conditions_below n cs → conditions_below n (map_condition cid p cs).
Proof.
  intros [H1 H2]. assert (∀ c, c_id (if (c_id c =? cid)%nat then apply_cpatch p c else c) = c_id c) as Hid
    by (intros c; by destruct (c_id c =? cid)%nat).
  split.
  - apply Forall_fmap. eapply Forall_impl; [exact H1|]. intros c Hc. cbn. by rewrite Hid.
  - unfold map_condition. rewrite <- list_fmap_compose. erewrite list_fmap_ext; [exact H2|]. intros i c _. apply Hid.
Qed.

Lemma filter_condition_below n (P : ParamOverrideCondition → Prop) `{!∀ c, Decision (P c)} cs :
  conditions_below n cs → conditions_below n (filter P cs).
Proof.
  intros [H1 H2]. split.
  - rewrite Forall_forall in H1 |- *. intros c [_ Hc]%list_elem_of_filter. by apply H1.
  - eapply sublist_NoDup; [exact H2|]. apply fmap_sublist, sublist_filter.
Qed.

Lemma add_condition_below n cs : conditions_below n cs → conditions_below (S n) (cs ++ [createDefaultCondition n]).
Proof.
  intros [H1 H2]. split.
  - apply Forall_app. split; [eapply Forall_impl; [exact H1|]; cbn; lia|]. constructor; [cbn; lia|constructor].
  - rewrite fmap_app. apply NoDup_app. split_and!; [done| |apply NoDup_singleton].
    intros i (c & -> & Hc)%list_elem_of_fmap Hi%list_elem_of_singleton. cbn in Hi.
    eapply Forall_forall in H1; [|exact Hc]. cbn in H1. lia.
Qed.

Lemma clone_below n op : op_below (after_operation (clone_operation n op)) (clone_operation n op).
Proof.
  destruct (clone_conditions_ids (S n) (conditions op)) as [E1 E2]. split; [unfold after_operation; cbn; lia|].
  rewrite <- E2 in E1. apply fresh_conditions in E1. exact E1.
Qed.

Lemma index_of_lookup id ops i : index_of id ops = Some i → ∃ op, ops !! i = Some op ∧ o_id op = id.
Proof.
  revert i. induction ops as [|o ops IH]; intros i E; cbn in E; [done|]. destruct (Nat.eqb_spec (o_id o) id) as [Ho|Ho].
  - injection E as <-. by exists o.
  - destruct (index_of id ops) as [j|] eqn:Ej; [|done]. injection E as <-. by apply IH.
Qed.

Lemma index_of_elem id ops : id ∈ o_id <$> ops → is_Some (index_of id ops).
Proof.
  induction ops as [|o ops IH]; [by intros H%elem_of_nil|]. rewrite fmap_cons, elem_of_cons. intros H. cbn.
  destruct (Nat.eqb_spec (o_id o) id) as [Ho|Ho]; [by eexists|]. destruct IH as [i ->]; [|by eexists].
  destruct H as [H|H]; [congruence|done].
Qed.

(** ** Reordering *)

Lemma reorder_perm ops s t pos : reorderOperations ops s t pos ≡ₚ ops.
Proof.
  unfold reorderOperations. destruct (s =? t)%nat; [done|]. destruct (index_of s ops) as [i|] eqn:Ei; [|done].
  destruct (ops !! i) as [moved|] eqn:Em; [|done]. set (next := take i ops ++ drop (S i) ops).
  destruct (index_of t next) as [j|]; [|done]. generalize (match pos with After => S j | Before => j end). intros k.
  transitivity (moved :: next).
  - cbn [app]. rewrite <- Permutation_middle. by rewrite take_drop.
  - subst next. rewrite Permutation_middle. by rewrite (take_drop_middle ops i moved Em).
Qed.

Lemma index_of_first id ops i op : index_of id ops = Some i → ops !! i = Some op → NoDup (o_id <$> ops) →
  filter (λ o, o_id o ≠ id) ops = take i ops ++ drop (S i) ops.
Proof.
  revert i. induction ops as [|o ops IH]; intros i E Hop Hnd; [done|]. cbn in E. rewrite fmap_cons in Hnd.
  apply NoDup_cons in Hnd as [Ho Hnd]. destruct (Nat.eqb_spec (o_id o) id) as [Eo|Eo].
  - injection E as <-. rewrite filter_cons, decide_False by (intros H; by apply H). cbn [take drop app]. rewrite drop_0.
    apply filter_id. apply Forall_forall. intros x Hx Ex. apply Ho. rewrite Eo, <- Ex. by apply list_elem_of_fmap_2.
  - destruct (index_of id ops) as [j|] eqn:Ej; [|done]. injection E as <-. rewrite filter_cons, decide_True by done.
    cbn [take drop app]. f_equal. by apply IH.
Qed.

(** Dropping a rule on another puts it right before or right after that one and
    leaves the order of all others. *)
Lemma reorder_places ops s t pos :
  NoDup (o_id <$> ops) → s ∈ o_id <$> ops → t ∈ o_id <$> ops → s ≠ t →
  ∃ moved target l r, moved ∈ ops ∧ o_id moved = s ∧ o_id target = t
    ∧ filter (λ o, o_id o ≠ s) ops = l ++ target :: r
    ∧ reorderOperations ops s t pos = l ++ match pos with Before => [moved; target] | After => [target; moved] end ++ r.
Proof.
  intros Hnd Hs Ht Hne. unfold reorderOperations. rewrite (proj2 (Nat.eqb_neq s t)) by done.
  destruct (index_of_elem s ops Hs) as [i Ei]. rewrite Ei. destruct (index_of_lookup s ops i Ei) as (moved & Em & Hm). rewrite Em.
  pose proof (index_of_first s ops i moved Ei Em Hnd) as Ef. set (next := take i ops ++ drop (S i) ops) in *.
  assert (t ∈ o_id <$> next) as Ht'.
  { rewrite <- Ef. apply list_elem_of_fmap in Ht as (x & -> & Hx). apply list_elem_of_fmap. exists x. split; [done|].
    apply list_elem_of_filter. done. }
  destruct (index_of_elem t next Ht') as [j Ej]. rewrite Ej. destruct (index_of_lookup t next j Ej) as (target & Et & Hid).
  exists moved, target, (take j next), (drop (S j) next). split_and!; [|done|done| |].
  - by eapply list_elem_of_lookup_2.
  - by rewrite Ef, (take_drop_middle next j target Et).
  - destruct pos.
    + rewrite (drop_S next target j Et). done.
    + rewrite (take_S_r next j target Et). by rewrite <- app_assoc.
Qed.

(** ** Every event *)

Lemma settle_sound e : sound_editor e → sound_editor (settle e) ∧ selection_ok (settle e).
Proof.
  intros [H1 H2]. unfold settle, selection_ok. destruct (operations e) as [|op ops] eqn:Eo; [done|].
  destruct (existsb _ _) eqn:E.
  - split; [split; rewrite Eo; done|]. apply existsb_exists in E as (x & Hx & Ex%bool_decide_eq_true).
    exists x. rewrite Eo. split; [by apply list_elem_of_In|done].
  - split; [by split|]. exists op. split; [left|done].
Qed.

Lemma with_sound ops sel n e : ops ≠ [] → sound_ids n ops → sound_editor (with_operations ops sel n e).
Proof. by split. Qed.

Lemma duplicate_sound eager id e : sound_editor e → sound_editor (duplicateOperation eager id e).
Proof.
  intros [H1 H2]. unfold duplicateOperation. destruct (index_of id (operations e)) as [i|]; [|by split].
  destruct (operations e !! i) as [source|]; [|by split]. set (cloned := clone_operation (seed e) source).
  apply with_sound; [by destruct (take (S i) (operations e))|]. apply (sound_ids_perm _ (cloned :: operations e)).
  - cbn [app]. rewrite <- Permutation_middle. by rewrite take_drop.
  - apply (sound_ids_cons (seed e)); [done|apply clone_below|done].
Qed.

Lemma remove_sound id e : sound_editor e → sound_editor (removeOperation id e).
Proof.
  intros [H1 H2]. unfold removeOperation. destruct (Nat.leb_spec (length (operations e)) 1).
  - apply with_sound; [done|]. split; [apply NoDup_singleton|]. constructor; [apply default_below|constructor].
  - apply with_sound; [|eapply sound_ids_sublist; [apply sublist_filter|done]].
    destruct H2 as [Hnd _]. destruct (operations e) as [|a [|b l]]; [cbn in *; lia..|]. rewrite !filter_cons.
    rewrite !fmap_cons in Hnd. apply NoDup_cons in Hnd as [Ha _]. destruct (decide (o_id a ≠ id)); [done|]. destruct (decide (o_id b ≠ id)) as [|Hb]; [done|].
    exfalso. apply Ha. assert (o_id a = id ∧ o_id b = id) as [-> ->] by lia. by left.
Qed.

Lemma default_sound n : sound_ids (S n) [createDefaultOperation n].
Proof. split; [apply NoDup_singleton|]. constructor; [apply default_below|constructor]. Qed.

Lemma to_visual_sound e e' : switchToVisualMode e = Some e' → sound_editor e → sound_editor e'.
Proof.
  intros E He. unfold switchToVisualMode in E. destruct (ed_editMode e); [by injection E as <-|].
  destruct (negb _). { injection E as <-. split; [done|apply default_sound]. }
  destruct (JSON_parse _) as [parsed|]; [|by injection E as <-].
  destruct parsed as [| | | | | |o]; try (by injection E as <-).
  destruct (prop (VObj o) (js "operations")) as [| | | | |l|];
    try (injection E as <-; split; [done|apply default_sound]).
  destruct (rules_of (seed e) l) as [ops|] eqn:El; [|done]. injection E as <-.
  apply rules_of_ids in El as (H1 & H2 & _ & H4). by split.
Qed.

Lemma fill_sound append payload e e' :
  payload ≠ [] → fillTemplate append payload e = Some e' → sound_editor e → sound_editor e'.
Proof.
  intros Hp E [H1 H2]. unfold fillTemplate in E. destruct (normalize_operations (seed e) payload) as [added|] eqn:Ea; [|done].
  apply normalize_operations_ids in Ea as (N1 & N2 & N3 & N4). cbn [mbind option_bind] in E.
  assert (added ≠ []) as Hadded by (intros ->; by destruct payload). destruct append.
  - injection E as <-. split; [by destruct (match ed_visualMode e with Operations => _ | Legacy => _ end)|].
    cbn [operations set_visual seed]. apply (sound_ids_app (seed e)); [done| |done|done].
    destruct (ed_visualMode e); [|split; constructor]. eapply sound_ids_sublist; [apply sublist_filter|done].
  - destruct added as [|a l]; [done|]. injection E as <-. by split.
Qed.

Lemma fill_legacy_sound append payload e : sound_editor e → sound_editor (fillLegacyTemplate append payload e).
Proof.
  intros He. unfold fillLegacyTemplate. assert (∀ text, sound_editor
    (set_visual Legacy text [createDefaultOperation (seed e)] (selectedOperationId e) (S (seed e)) text e)) as Hput
    by (intros text; split; [done|apply default_sound]).
  destruct append, (ed_visualMode e); try apply Hput. destruct (negb _); [apply Hput|]. destruct (JSON_parse _); [apply Hput|done].
Qed.

Lemma handle_sound ev e e' : possible ev → handle ev e = Some e' → sound_editor e → sound_editor e'.
Proof.
  intros Hpos E He. pose proof He as [H1 H2]. destruct ev; cbn [handle possible] in *; try (injection E as <-).
  - by apply on_operation_sound; [|intros n op [_ ?]|].
  - apply with_sound; [by destruct (operations e)|]. apply (sound_ids_perm _ (createDefaultOperation (seed e) :: operations e));
      [by rewrite Permutation_app_comm|]. apply (sound_ids_cons (seed e)); [done|apply default_below|done].
  - by apply duplicate_sound.
  - by apply remove_sound.
  - apply with_sound; [by apply map_nonempty|]. eapply sound_map; [| |intros op [_ Hop]; by apply add_condition_below|exact H2]; [lia|done].
  - by apply on_operation_sound; [|intros n op [_ ?]; by apply map_condition_below|].
  - by apply on_operation_sound; [|intros n op [_ ?]; by apply filter_condition_below|].
  - by apply on_operation_sound; [|intros n op [_ ?]|].
  - apply with_sound; [by apply map_nonempty|]. eapply sound_map; [| |intros op [_ Hop]; eapply conditions_below_le; [|exact Hop]|exact H2];
      [lia|done|lia].
  - unfold show_prune_draft. destruct (list_find _ _) as [[i op]|]; [|done]. case_bool_decide; [|done].
    apply with_sound; [done|]. eapply sound_ids_le; [|exact H2]. lia.
  - by split.
  - unfold handleDragOver. destruct (draggedOperationId e); [|done]. by destruct (_ =? _)%nat.
  - unfold handleDrop. destruct (match draggedOperationId e with Some d => Some d | None => transferred end) as [s|]; [|done].
    destruct (s =? id)%nat; [done|]. split; cbn.
    + intros Hn. apply H1. apply Permutation_nil_r. rewrite <- Hn. by rewrite reorder_perm.
    + by eapply sound_ids_perm; [apply reorder_perm|].
  - unfold switchToJsonMode. destruct (ed_editMode e); [|done]. by destruct (buildVisualJson e).
  - by eapply to_visual_sound.
  - done.
  - split; [done|apply default_sound].
  - by apply fill_legacy_sound.
  - by eapply fill_sound.
Qed.

Lemma open_sound n value e : open n value = Some e → sound_editor e.
Proof.
  unfold open. destruct (parseInitialState n value) as [[[[[[em vm] legacy] ops] text] err]|] eqn:E; [|done].
  intros [= <-]. enough (ops ≠ [] ∧ sound_ids (after_operations n ops) ops) as [H1 H2] by (by split).
  assert (∀ m, after_operations m [createDefaultOperation n] = S n) as Hd by (intros; unfold after_operations, after_operation; cbn; lia).
  unfold parseInitialState in E. destruct (negb _).
  { injection E as <- <- <- <- <- <-. rewrite Hd. split; [done|apply default_sound]. }
  destruct (JSON_parse _) as [parsed|]; [|injection E as <- <- <- <- <- <-; rewrite Hd; split; [done|apply default_sound]].
  destruct parsed as [| | | | | |o]; try (injection E as <- <- <- <- <- <-; rewrite Hd; split; [done|apply default_sound]).
  destruct (prop (VObj o) (js "operations")) as [| | | | |l|];
    try (injection E as <- <- <- <- <- <-; rewrite Hd; split; [done|apply default_sound]).
  destruct (rules_of n l) as [ops'|] eqn:El; [|done]. injection E as <- <- <- <- <- <-.
  by apply rules_of_ids in El as (_ & ? & _ & ?).
Qed.

(** C27: Whatever the user does in the dialog, there is always a rule, rules and the
    conditions of a rule have identifiers of their own, and the selected rule is
    one of the list. *)
Theorem editor_rules_sound (e : Editor) :
  reachable e →
  operations e ≠ [] ∧ NoDup (o_id <$> operations e) ∧ Forall (λ op, NoDup (c_id <$> conditions op)) (operations e)
  ∧ ∃ op, op ∈ operations e ∧ selectedOperationId e = Some (o_id op).
Proof.
  intros He. assert (sound_editor e ∧ selection_ok e) as [[H1 [H2 H3]] H4].
  { induction He as [n value e Ho|ev e e' He [IH _] Hp E]; apply settle_sound; [by eapply open_sound|by eapply handle_sound]. }
  split_and!; [done..| |done]. eapply Forall_impl; [exact H3|]. by intros op (_ & _ & ?).
Qed.

Lemma editor_rules_sound_witness :
  ∃ e, reachable e ∧ (o_path <$> operations e = [js "b"; js "a"]) ∧ NoDup (o_id <$> operations e).
Proof.
  set (text := jq "{'operations':[{'mode':'delete','path':'a'},{'mode':'delete','path':'b','conditions':[{'path':'m'}]}]}").
  assert (∃ e0, open 0 text = Some e0 ∧ ∃ e1, handle (DragStart 1) (settle e0) = Some e1
    ∧ ∃ e2, handle (Drop None 0) (settle e1) = Some e2 ∧ o_path <$> operations (settle e2) = [js "b"; js "a"]) as (e0 & H0 & e1 & H1 & e2 & H2 & Hp).
  { eexists. split; [by vm_compute|]. eexists. split; [by vm_compute|]. eexists. split; [by vm_compute|]. by vm_compute. }
  assert (reachable (settle e2)) as Hr by (apply (reach_event (Drop None 0) (settle e1)); [apply (reach_event (DragStart 1) (settle e0)); [by eapply reach_open|done|done]|done|done]).
  exists (settle e2). split; [done|]. split; [done|]. by apply editor_rules_sound.
Defined.

(** * Rules of the form for pruning *)

Lemma where_rules_ids n es : c_id <$> where_rules n es = seq n (length (where_rules n es)).
Proof. revert n. induction es as [|x es IH]; intros n; [done|]. cbn. f_equal. apply IH. Qed.

Lemma item_rules_ids n l : c_id <$> item_rules n l = seq n (length (item_rules n l)).
Proof.
  revert n. induction l as [|v l IH]; intros n; [done|]. cbn [item_rules]. destruct (_ && _); [|apply IH].
  destruct (normalizePruneRule n v) as [r|] eqn:E; [|apply IH]. unfold normalizePruneRule, normalizeCondition in E.
  destruct (object_arg v); [|done]. injection E as <-. cbn. f_equal. apply IH.
Qed.

(** Reading a draft gives its rules the next identifiers. *)
Lemma draft_rule_ids n text :
  let rs := rules (parsePruneObjectsDraft n text) in c_id <$> rs = seq n (length rs).
Proof.
  unfold parsePruneObjectsDraft. destruct (negb _); [done|]. destruct (JSON_parse _) as [[| | | | | |o]|]; try done. cbn [rules].
  set (first := match prop (VObj o) (js "where") with VObj _ => _ | _ => _ end).
  assert (c_id <$> first = seq n (length first)) as E1.
  { subst first. destruct (prop (VObj o) (js "where")); try done. apply where_rules_ids. }
  rewrite fmap_app, E1, length_app, seq_app. f_equal. destruct (prop (VObj o) (js "conditions")); try done;
    [apply item_rules_ids|apply where_rules_ids].
Qed.

Lemma old_ids_unmatched n k cs : Forall (λ c, n ≤ c_id c) cs → k < n →
  (∀ p, map_condition k p cs = cs) ∧ filter (λ c, c_id c ≠ k) cs = cs.
Proof.
  intros Hcs Hk. split.
  - intros p. unfold map_condition. rewrite <- (list_fmap_id cs) at 2. apply list_fmap_ext. intros i c Hc%list_elem_of_lookup_2.
    eapply Forall_forall in Hcs; [|exact Hc]. cbn in Hcs. rewrite (proj2 (Nat.eqb_neq (c_id c) k)) by lia. done.
  - apply filter_id. eapply Forall_impl; [exact Hcs|]. cbn. lia.
Qed.

(** A rule that the form shows can be neither changed nor removed: the text is read
    again to change it, its rules get new identifiers, and none of them is the one
    that was shown. *)
Theorem prune_rule_edits_lost (e e1 : Editor) (draft : PruneObjectsDraft) (r : ParamOverrideCondition)
    (id : nat) (p : ConditionPatch) :
  show_prune_draft e = (e1, Some draft) → r ∈ rules draft →
  updatePruneRule id (c_id r) p e1 = updatePruneObjectsDraft id (λ _ d, d) e1
  ∧ removePruneRule id (c_id r) e1 = updatePruneObjectsDraft id (λ _ d, d) e1.
Proof.
  intros E Hr. assert (c_id r < seed e1) as Hlt.
  { unfold show_prune_draft in E. destruct (list_find _ _) as [[i op]|]; [|done]. case_bool_decide; [|done].
    injection E as <- <-. cbn [seed with_operations]. pose proof (draft_rule_ids (seed e) (o_value_text op)) as Hids. cbv zeta in Hids.
    assert (c_id r ∈ c_id <$> rules (parsePruneObjectsDraft (seed e) (o_value_text op))) as Hin by (by apply list_elem_of_fmap_2).
    rewrite Hids, elem_of_seq in Hin. lia. }
  assert (∀ text, Forall (λ c, seed e1 ≤ c_id c) (rules (parsePruneObjectsDraft (seed e1) text))) as Hfresh.
  { intros text. apply Forall_forall. intros c Hc. pose proof (draft_rule_ids (seed e1) text) as Hids. cbv zeta in Hids.
    assert (c_id c ∈ c_id <$> rules (parsePruneObjectsDraft (seed e1) text)) as Hin by (by apply list_elem_of_fmap_2).
    rewrite Hids, elem_of_seq in Hin. lia. }
  unfold updatePruneRule, removePruneRule, updatePruneObjectsDraft.
  assert (∀ d : PruneObjectsDraft, set_rules (p_simpleMode d) (rules d) d = d) as Hd by (by intros []).
  split; f_equal; unfold map_operation; apply list_fmap_ext; intros i op _; destruct (o_id op =? id)%nat; try done; f_equal; f_equal;
    destruct (old_ids_unmatched (seed e1) (c_id r) _ (Hfresh (o_value_text op)) Hlt) as [E1 E2]; rewrite ?E1, ?E2; apply Hd.
Qed.

Lemma prune_rule_edits_lost_witness : ∃ e e1 draft r,
  show_prune_draft e = (e1, Some draft) ∧ rules draft = [r] ∧ c_path r = js "role"
  ∧ removePruneRule 0 (c_id r) e1 = updatePruneObjectsDraft 0 (λ _ d, d) e1.
Proof.
  set (text := jq "{'operations':[{'mode':'prune_objects','value':{'type':'thinking','conditions':[{'path':'role','value':'user'}]}}]}").
  assert (∃ e, open 0 text = Some e) as [e He] by (eexists; by vm_compute).
  assert (∃ e1 draft r, show_prune_draft (settle e) = (e1, Some draft) ∧ rules draft = [r] ∧ c_path r = js "role")
    as (e1 & draft & r & H1 & H2 & H3).
  { injection He as <-. eexists. eexists. eexists. split; [by vm_compute|]. split; by vm_compute. }
  exists (settle e), e1, draft, r. split; [done|]. split; [done|]. split; [done|].
  apply (prune_rule_edits_lost (settle e) e1 draft r 0 (mkCPatch None None None None None)); [done|]. rewrite H2. apply list_elem_of_here.
Defined.
