(* ===== verification/ParamOverrideTrip.v ===== *)
(** Reading back what the editor of parameter overrides writes: rules in normal
    form are read as they were, and what is not in normal form is changed. *)

From Stdlib Require Import ZArith NArith Lia.
From stdpp Require Import base list gmap.
From S2P Require Import Prelude JsString JsNumber JsValue Json NumberText JsArray ParamOverride ParamOverrideProps.

Implicit Types (ops : list ParamOverrideOperation) (op : ParamOverrideOperation) (e : Editor) (n : nat)
  (c : ParamOverrideCondition) (cs : list ParamOverrideCondition).

(** * Normal forms *)

(** A text that is shown again for the value it stands for *)
Definition stable (text : jstr) : Prop := toValueText (parseLooseValue text) = text ∧ json_plain (parseLooseValue text).

Definition clean (s : jstr) : Prop := trim s = s ∧ units_ok s.

Record condition_normal c : Prop := {
  cn_path : clean (c_path c);
  cn_present : truthy (c_path c) = true;
  cn_mode : c_mode c ∈ CONDITION_MODE_VALUES;
  cn_value : stable (c_value_text c);
}.

(** Fields that the mode does not use are empty. *)
Record op_normal op : Prop := {
  on_mode : o_mode op ∈ OPERATION_MODE_VALUES;
  on_description : clean (description op);
  on_path : clean (o_path op);
  on_from : clean (o_from op);
  on_to : clean (o_to op);
  on_no_path : m_path (meta_of (o_mode op)) = false → m_pathOptional (meta_of (o_mode op)) = false → o_path op = [];
  on_no_from : m_from (meta_of (o_mode op)) = false → o_from op = [];
  on_no_value : m_value (meta_of (o_mode op)) = false → o_value_text op = [];
  on_value : m_value (meta_of (o_mode op)) = true → stable (o_value_text op);
  on_origin : m_keepOrigin (meta_of (o_mode op)) = false → keep_origin op = false;
  on_logic : logic op = js "OR" ∨ logic op = js "AND" ∧ conditions op ≠ [];
  on_conditions : Forall condition_normal (conditions op);
}.

#[export] Instance stable_dec text : Decision (stable text).
Proof. unfold stable. apply _. Defined.
#[export] Instance clean_dec s : Decision (clean s).
Proof. unfold clean. apply _. Defined.

Definition dec_if (P Q : Prop) (H : P ↔ Q) (d : Decision P) : Decision Q :=
  match d with left p => left (proj1 H p) | right np => right (λ q, np (proj2 H q)) end.

Lemma condition_normal_alt c :
  clean (c_path c) ∧ truthy (c_path c) = true ∧ c_mode c ∈ CONDITION_MODE_VALUES ∧ stable (c_value_text c) ↔ condition_normal c.
Proof. split; [intros (? & ? & ? & ?); by constructor|by intros [? ? ? ?]]. Qed.

#[export] Instance condition_normal_dec c : Decision (condition_normal c).
Proof. eapply dec_if; [apply condition_normal_alt|apply _]. Defined.

Lemma op_normal_alt op :
  o_mode op ∈ OPERATION_MODE_VALUES ∧ clean (description op) ∧ clean (o_path op) ∧ clean (o_from op) ∧ clean (o_to op)
  ∧ (m_path (meta_of (o_mode op)) = false → m_pathOptional (meta_of (o_mode op)) = false → o_path op = [])
  ∧ (m_from (meta_of (o_mode op)) = false → o_from op = [])
  ∧ (m_value (meta_of (o_mode op)) = false → o_value_text op = [])
  ∧ (m_value (meta_of (o_mode op)) = true → stable (o_value_text op))
  ∧ (m_keepOrigin (meta_of (o_mode op)) = false → keep_origin op = false)
  ∧ (logic op = js "OR" ∨ logic op = js "AND" ∧ conditions op ≠ []) ∧ Forall condition_normal (conditions op) ↔ op_normal op.
Proof. split; [intros (? & ? & ? & ? & ? & ? & ? & ? & ? & ? & ? & ?); by constructor|by intros [? ? ? ? ? ? ? ? ? ? ? ?]]. Qed.

#[export] Instance op_normal_dec op : Decision (op_normal op).
Proof. eapply dec_if; [apply op_normal_alt|apply _]. Defined.

(** The rules with new identifiers *)
Definition renumber_condition n c : ParamOverrideCondition :=
  mkCondition n (c_path c) (c_mode c) (c_value_text c) (c_invert c) (c_pass_missing_key c).

Fixpoint renumber_conditions n cs : list ParamOverrideCondition :=
  match cs with [] => [] | c :: cs => renumber_condition n c :: renumber_conditions (S n) cs end.

Definition renumber_operation n op : ParamOverrideOperation :=
  mkOperation n (description op) (o_path op) (o_mode op) (o_from op) (o_to op) (o_value_text op) (keep_origin op) (logic op)
    (renumber_conditions (S n) (conditions op)).

Fixpoint renumber n ops : list ParamOverrideOperation :=
  match ops with
  | [] => []
  | op :: ops => renumber_operation n op :: renumber (S n + length (conditions op)) ops
  end.

Lemma renumber_conditions_length n cs : length (renumber_conditions n cs) = length cs.
Proof. revert n. induction cs as [|c cs IH]; intros n; cbn; [done|]. by rewrite IH. Qed.

(** * Properties of what is written *)

Definition at_key (o : list (jstr * jsval)) (k : jstr) : jsval := default VUndef (omap.get o k).

Lemma at_set_if b k v o k' : at_key (set_if b k v o) k' = if b && bool_decide (k = k') then v else at_key o k'.
Proof.
  unfold at_key, set_if. destruct b; [|done]. cbn [andb]. case_bool_decide as E; [subst; by rewrite omap.get_set_eq|].
  by rewrite omap.get_set_ne.
Qed.

Lemma at_cons k v o k' : at_key ((k, v) :: o) k' = if bool_decide (k' = k) then v else at_key o k'.
Proof. unfold at_key. cbn. case_decide; case_bool_decide; try done; congruence. Qed.

Lemma at_nil k : at_key [] k = VUndef.
Proof. done. Qed.

Ltac keys := repeat match goal with
  | |- context [bool_decide (js ?a = js ?b)] =>
      let r := eval vm_compute in (bool_decide (js a = js b)) in change (bool_decide (js a = js b)) with r
  end; rewrite ?andb_false_r, ?andb_true_r.

Ltac look := rewrite ?at_set_if, ?at_cons, ?at_nil; keys.

Lemma clean_trim s : clean s → trim s = s.
Proof. by intros [? _]. Qed.

Lemma mode_truthy m : m ∈ OPERATION_MODE_VALUES → truthy m = true.
Proof.
  intros Hm. assert (Forall (λ m, truthy m = true) OPERATION_MODE_VALUES) as H by (apply (bool_decide_unpack _); by vm_compute).
  by eapply Forall_forall in H.
Qed.

Lemma cmode_truthy m : m ∈ CONDITION_MODE_VALUES → truthy m = true ∧ units_ok m.
Proof.
  intros Hm. assert (Forall (λ m, truthy m = true ∧ units_ok m) CONDITION_MODE_VALUES) as H by (apply (bool_decide_unpack _); by vm_compute).
  by eapply Forall_forall in H.
Qed.

Lemma mode_units m : m ∈ OPERATION_MODE_VALUES → units_ok m.
Proof.
  intros Hm. assert (Forall units_ok OPERATION_MODE_VALUES) as H by (apply (bool_decide_unpack _); by vm_compute).
  by eapply Forall_forall in H.
Qed.

(** A header that is copied or moved has no path of its own. *)
Lemma alias_no_path mode : m_pathAlias (meta_of mode) = true → m_path (meta_of mode) = false ∧ m_pathOptional (meta_of mode) = false.
Proof.
  unfold meta_of. destruct (omap.get MODE_META mode) as [m|] eqn:E; [|done]. cbn. apply omap.get_Some_elem in E.
  assert (Forall (λ e : jstr * Meta, m_pathAlias e.2 = true → m_path e.2 = false ∧ m_pathOptional e.2 = false) MODE_META) as H
    by (apply (bool_decide_unpack _); by vm_compute).
  eapply Forall_forall in H; [|exact E]. exact H.
Qed.

(** ** Conditions *)

Lemma condition_read n c v :
  condition_normal c → buildConditionPayload c = Some v → normalizeCondition n v = Some (renumber_condition n c).
Proof.
  intros [Hp Ht Hm Hv]. destruct (cmode_truthy _ Hm) as [Hmt _]. unfold buildConditionPayload.
  rewrite (clean_trim _ Hp), Ht, Hmt. cbn [negb]. intros [= <-]. unfold normalizeCondition. cbn [object_arg mbind option_bind].
  unfold string_prop, mode_prop, true_prop, prop. fold (at_key).
  change (omap.get ?o ?k) with (omap.get o k).
  repeat match goal with |- context [default VUndef (omap.get ?o ?k)] => change (default VUndef (omap.get o k)) with (at_key o k) end.
  look. rewrite bool_decide_eq_true_2 by done. destruct Hv as [Hv _]. unfold renumber_condition. rewrite Hv.
  destruct (c_invert c), (c_pass_missing_key c); reflexivity.
Qed.

Definition condition_payload c : jsval := default VUndef (buildConditionPayload c).

Lemma condition_written c : condition_normal c → buildConditionPayload c = Some (condition_payload c).
Proof.
  intros [Hp Ht _ _]. unfold condition_payload, buildConditionPayload. by rewrite (clean_trim _ Hp), Ht.
Qed.

Lemma conditions_written cs :
  Forall condition_normal cs → base.omap buildConditionPayload cs = condition_payload <$> cs.
Proof.
  induction 1 as [|c cs Hc _ IH]; [done|]. cbn. rewrite (condition_written _ Hc). f_equal. exact IH.
Qed.

Lemma conditions_read n cs :
  Forall condition_normal cs → normalize_conditions n (condition_payload <$> cs) = Some (renumber_conditions n cs).
Proof.
  intros Hcs. revert n. induction Hcs as [|c cs Hc _ IH]; intros n; [done|]. rewrite fmap_cons. cbn [normalize_conditions].
  rewrite (condition_read n c _ Hc (condition_written _ Hc)). cbn [mbind option_bind]. by rewrite IH.
Qed.

(** ** Operations *)

Ltac at_keys := unfold string_prop, mode_prop, true_prop, prop;
  repeat match goal with |- context [default VUndef (omap.get ?o ?k)] => change (default VUndef (omap.get o k)) with (at_key o k) end.

Lemma alias_nil k o : alias_prop k [] o = o.
Proof. unfold alias_prop, set_if. by rewrite andb_false_r. Qed.

(** What is written for a rule in normal form *)
Definition payload_entries op : list (jstr * jsval) :=
  let meta := meta_of (o_mode op) in
  let some_conditions := negb (bool_decide (condition_payload <$> conditions op = [])) in
  set_if some_conditions (js "logic") (VStr (logic op))
    (set_if some_conditions (js "conditions") (VArr (condition_payload <$> conditions op))
      (set_if (m_to meta) (js "to") (VStr (o_to op))
        (set_if (negb (m_to meta) && truthy (o_to op)) (js "to") (VStr (o_to op))
          (set_if (m_from meta) (js "from") (VStr (o_from op))
            (set_if (m_keepOrigin meta && keep_origin op) (js "keep_origin") (VBool true)
              (set_if (m_value meta) (js "value") (parseLooseValue (o_value_text op))
                (set_if (m_pathOptional meta && truthy (o_path op)) (js "path") (VStr (o_path op))
                  (set_if (m_path meta) (js "path") (VStr (o_path op))
                    (set_if (truthy (description op)) (js "description") (VStr (description op))
                      [(js "mode", VStr (o_mode op))]))))))))).

Lemma payload_normal op : op_normal op → operation_payload op = VObj (payload_entries op).
Proof.
  intros [Hm Hd Hp Hf Ht Hnp _ _ _ _ Hl Hcs]. unfold operation_payload, payload_entries.
  rewrite (mode_truthy _ Hm), !clean_trim by done. rewrite (conditions_written _ Hcs). cbv zeta.
  assert ((if bool_decide (logic op = js "AND") then js "AND" else js "OR") = logic op) as ->.
  { destruct Hl as [->|[-> _]]; reflexivity. }
  destruct (m_pathAlias _) eqn:E; [|reflexivity]. destruct (alias_no_path _ E) as [E1 E2]. rewrite (Hnp E1 E2).
  by rewrite !alias_nil.
Qed.

(** An empty text is read from a property that is not there. *)
Lemma string_written b s : (b = false → s = []) → match (if b then VStr s else VUndef) with VStr s => s | _ => [] end = s.
Proof. destruct b; [done|]. intros ->; done. Qed.

Lemma not_truthy_nil s : truthy s = false → s = [].
Proof. by destruct s. Qed.

Lemma conditions_read_back n cs :
  Forall condition_normal cs →
  normalize_conditions n
    (match (if negb (bool_decide (condition_payload <$> cs = [])) then VArr (condition_payload <$> cs) else VUndef) with
     | VArr l => l | _ => [] end) = Some (renumber_conditions n cs).
Proof. intros Hcs. destruct cs as [|c cs]; [done|]. by apply conditions_read. Qed.

Lemma logic_read_back s cs :
  s = js "OR" ∨ s = js "AND" ∧ cs ≠ [] →
  (if bool_decide (ascii_upper (string_of_val (or_val
      (if negb (bool_decide (condition_payload <$> cs = [])) then VStr s else VUndef) (VStr (js "OR")))) = js "AND")
   then js "AND" else js "OR") = s.
Proof. intros [->|[-> Hcs]]; destruct cs; try done; reflexivity. Qed.

Lemma operation_read n op : op_normal op → normalizeOperation n (operation_payload op) = Some (renumber_operation n op).
Proof.
  intros H. rewrite (payload_normal _ H). destruct H as [Hm Hd Hp Hf Ht Hnp Hnf Hnv Hv Ho Hl Hcs].
  unfold normalizeOperation. cbn [object_arg mbind option_bind]. unfold payload_entries. at_keys. look.
  rewrite (conditions_read_back _ _ Hcs), (logic_read_back _ _ Hl), (string_written _ (o_from op)) by exact Hnf.
  rewrite (string_written _ (description op)) by apply not_truthy_nil.
  cbn [mbind option_bind]. f_equal. unfold renumber_operation. f_equal.
  - destruct (m_path _) eqn:E1, (m_pathOptional _) eqn:E2; cbn [andb]; destruct (o_path op); try done; by rewrite Hnp.
  - by rewrite bool_decide_eq_true_2.
  - destruct (m_to _), (o_to op); reflexivity.
  - destruct (m_value _) eqn:E; [by apply Hv|by rewrite Hnv].
  - destruct (m_keepOrigin _) eqn:E; [by destruct (keep_origin op)|by rewrite Ho].
Qed.

Lemma operations_read n ops :
  Forall op_normal ops → normalize_operations n (operation_payload <$> ops) = Some (renumber n ops).
Proof.
  intros Hops. revert n. induction Hops as [|op ops Hop _ IH]; intros n; [done|]. rewrite fmap_cons. cbn [normalize_operations].
  rewrite (operation_read _ _ Hop). cbn [mbind option_bind]. unfold after_operation. cbn [renumber_operation o_id conditions].
  rewrite renumber_conditions_length, IH. done.
Qed.

(** ** Values of JSON *)

Lemma plain_set_if b k v o :
  json_plain (VObj o) → (b = true → json_plain v) → units_ok k → is_array_index k = false → json_plain (VObj (set_if b k v o)).
Proof. intros. destruct b; [|done]. apply plain_set; auto. Qed.

Lemma plain_one k v : json_plain v → units_ok k → is_array_index k = false → json_plain (VObj [(k, v)]).
Proof. intros. apply (plain_set [] k v); try done. apply json_plain_obj. split_and!; constructor. Qed.

Ltac key := apply (bool_decide_unpack _); vm_compute; reflexivity.
Ltac plain_keys := repeat (apply plain_set_if; [| |key|key]).

Lemma condition_plain c : condition_normal c → json_plain (condition_payload c).
Proof.
  intros [[Hp Hu] Ht Hm [_ Hv]]. unfold condition_payload, buildConditionPayload. rewrite Hp, Ht. cbn [negb default from_option].
  destruct (cmode_truthy _ Hm) as [-> Hmu]. plain_keys; [|done..].
  apply (plain_set [(js "path", VStr (c_path c)); (js "mode", VStr (c_mode c))] (js "value")); [|done|key..].
  apply (plain_set [(js "path", VStr (c_path c))] (js "mode")); [|done|key..]. apply plain_one; [done|key..].
Qed.

Lemma operation_plain op : op_normal op → json_plain (operation_payload op).
Proof.
  intros H. rewrite (payload_normal _ H). destruct H as [Hm [_ Hd] [_ Hp] [_ Hf] [_ Ht] _ _ _ Hv _ Hl Hcs]. unfold payload_entries.
  plain_keys; try done.
  - apply plain_one; [by apply mode_units|key..].
  - intros E. by apply Hv.
  - intros _. apply json_plain_arr, Forall_fmap. eapply Forall_impl; [exact Hcs|]. apply condition_plain.
  - intros _. destruct Hl as [->|[-> _]]; key.
Qed.

(** ** Rules with new identifiers *)

Lemma renumber_conditions_payload n cs :
  base.omap buildConditionPayload (renumber_conditions n cs) = base.omap buildConditionPayload cs
  ∧ forallb condition_blank (renumber_conditions n cs) = forallb condition_blank cs.
Proof.
  revert n. induction cs as [|c cs IH]; intros n; [done|]. destruct (IH (S n)) as [IH1 IH2].
  cbn [renumber_conditions forallb base.omap list_omap]. rewrite IH2. split; [|done].
  change (buildConditionPayload (renumber_condition n c)) with (buildConditionPayload c).
  destruct (buildConditionPayload c); [by f_equal|done].
Qed.

Lemma renumber_payload n op :
  operation_payload (renumber_operation n op) = operation_payload op
  ∧ isOperationBlank (renumber_operation n op) = isOperationBlank op
  ∧ operation_error (renumber_operation n op) = operation_error op.
Proof.
  destruct (renumber_conditions_payload (S n) (conditions op)) as [Hp Hb]. split; [|split; [|done]].
  - unfold operation_payload. cbn [renumber_operation conditions o_mode o_path o_to description o_value_text keep_origin o_from logic].
    by rewrite Hp.
  - unfold isOperationBlank. cbn [renumber_operation conditions o_mode o_path o_to o_value_text keep_origin o_from]. by rewrite Hb.
Qed.

Lemma renumber_not_blank n ops : Forall (λ op, isOperationBlank op = false) ops → not_blank (renumber n ops) = renumber n ops.
Proof.
  intros H. revert n. induction H as [|op ops Hop _ IH]; intros n; [done|]. unfold not_blank in *. cbn [renumber].
  rewrite filter_cons_True by (by rewrite (proj1 (proj2 (renumber_payload n op)))). by rewrite IH.
Qed.

Lemma renumber_written n ops : operation_payload <$> renumber n ops = operation_payload <$> ops.
Proof.
  revert n. induction ops as [|op ops IH]; intros n; [done|]. cbn [renumber]. rewrite !fmap_cons, IH.
  by rewrite (proj1 (renumber_payload n op)).
Qed.

Lemma renumber_validate n line ops : validate_from line (renumber n ops) = validate_from line ops.
Proof.
  revert n line. induction ops as [|op ops IH]; intros n line; [done|]. cbn [renumber validate_from].
  rewrite (proj2 (proj2 (renumber_payload n op))), IH. done.
Qed.

(** ** Saving and opening *)

Lemma saved_operations ops text :
  not_blank ops ≠ [] → buildOperationsJson ops true = inr text →
  validateOperations (not_blank ops) = None ∧ text = default [] (JSON_stringify_indented 2 (operations_value (not_blank ops))).
Proof.
  unfold buildOperationsJson. destruct (not_blank ops) as [|op l]; [done|]. intros _.
  destruct (validateOperations _); [done|]. by intros [= <-].
Qed.

Lemma operations_value_plain ops : Forall op_normal ops → json_plain (operations_value ops).
Proof.
  intros H. apply plain_one; [|key..]. apply json_plain_arr, Forall_fmap. eapply Forall_impl; [exact H|]. apply operation_plain.
Qed.

Lemma renumber_build n ops :
  Forall (λ op, isOperationBlank op = false) ops → ops ≠ [] → validateOperations ops = None →
  buildOperationsJson (renumber n ops) true = inr (default [] (JSON_stringify_indented 2 (operations_value ops))).
Proof.
  intros Hb Hne Hv. unfold buildOperationsJson. rewrite (renumber_not_blank _ _ Hb). destruct ops as [|op ops]; [done|].
  destruct (renumber n (op :: ops)) eqn:E; [done|]. rewrite <- E. unfold validateOperations in *. rewrite renumber_validate, Hv.
  unfold operations_value. by rewrite renumber_written.
Qed.

(** C25: Rules in normal form that are saved are read back as they were when the dialog
    is opened on what was saved: all rules that are not blank, in their order, with
    new identifiers, in the form for rules and without an error; saving them again
    gives the same text. *)
Theorem operations_roundtrip e text n :
  ed_editMode e = Visual → ed_visualMode e = Operations → not_blank (operations e) ≠ [] →
  Forall op_normal (not_blank (operations e)) → handleSave e = inr text →
  ∃ e', open n text = Some e' ∧ ed_editMode e' = Visual ∧ ed_visualMode e' = Operations ∧ jsonError e' = []
    ∧ operations e' = renumber n (not_blank (operations e)) ∧ handleSave e' = inr text.
Proof.
  intros Hem Hvm Hne Hn. unfold handleSave at 1. rewrite Hem. unfold buildVisualJson. rewrite Hvm.
  destruct (buildOperationsJson _ _) as [[m line]|t] eqn:E; [done|]. intros [= ->].
  apply saved_operations in E as [Hval ->]; [|done].
  destruct (JSON_parse_stringify 2 _ (operations_value_plain _ Hn)) as (t & Et & _ & Hp). rewrite Et. cbn [default from_option id].
  destruct (object_text_trimmed _ _ _ Et) as [Ht1 Ht2].
  unfold open, parseInitialState. rewrite Ht2, Ht1, Hp. cbn [negb operations_value prop].
  set (ops := not_blank (operations e)) in *.
  assert (default VUndef (omap.get [(js "operations", VArr (operation_payload <$> ops))] (js "operations"))
    = VArr (operation_payload <$> ops)) as -> by done.
  assert (rules_of n (operation_payload <$> ops) = Some (renumber n ops)) as ->.
  { unfold rules_of. destruct ops as [|op l]; [done|]. by apply (operations_read n (op :: l)). }
  cbn [mbind option_bind]. eexists. split; [done|]. cbn [ed_editMode ed_visualMode jsonError operations].
  split; [done|]. split; [done|]. split; [done|]. split; [done|]. unfold handleSave, buildVisualJson.
  cbn [ed_editMode ed_visualMode operations]. rewrite renumber_build; [by rewrite Et| |done|done].
  apply Forall_forall. by intros op [? _]%list_elem_of_filter.
Qed.

Lemma operations_roundtrip_witness : ∃ e text,
  handleSave e = inr text ∧ length (operations e) = 3 ∧ ∃ e', open 7 text = Some e' ∧ length (operations e') = 2
  ∧ handleSave e' = inr text.
Proof.
  set (ops := [createDefaultOperation 0;
    mkOperation 1 (js "keep short") (js "max_tokens") (js "set") [] [] (js "100") true (js "AND")
      [mkCondition 2 (js "model") (js "prefix") (js "gpt-") true false; mkCondition 3 (js "stream") (js "full") (js "true") false true];
    mkOperation 4 [] [] (js "move_header") (js "X-A") (js "X-B") [] false (js "OR") []]).
  set (e := mkEditor Visual Operations [] ops [] [] (Some 1) None (None, Before) 5).
  assert (∃ text, handleSave e = inr text) as [text Ht] by (eexists; by vm_compute).
  exists e, text. split; [done|]. split; [done|].
  destruct (operations_roundtrip e text 7) as (e' & Ho & _ & _ & _ & Hops & Hs); try done.
  - apply (bool_decide_unpack _). by vm_compute.
  - exists e'. split; [done|]. split; [by rewrite Hops|done].
Defined.

(** * Complete rules *)

(** The text of a property that is not empty *)
Definition filled (v : jsval) (k : jstr) : Prop := ∃ s, prop v k = VStr s ∧ truthy s = true.

Lemma filled_at o k : filled (VObj o) k ↔ ∃ s, at_key o k = VStr s ∧ truthy s = true.
Proof. done. Qed.

(** The properties of what is written that rules are checked for *)
Definition base_entries op : list (jstr * jsval) :=
  let meta := meta_of (o_mode op) in
  set_if (m_to meta) (js "to") (VStr (trim (o_to op)))
    (set_if (negb (m_to meta) && truthy (trim (o_to op))) (js "to") (VStr (trim (o_to op)))
      (set_if (m_from meta) (js "from") (VStr (trim (o_from op)))
        (set_if (m_keepOrigin meta && keep_origin op) (js "keep_origin") (VBool true)
          (set_if (m_value meta) (js "value") (parseLooseValue (o_value_text op))
            (set_if (m_pathOptional meta && truthy (trim (o_path op))) (js "path") (VStr (trim (o_path op)))
              (set_if (m_path meta) (js "path") (VStr (trim (o_path op)))
                (set_if (truthy (trim (description op))) (js "description") (VStr (trim (description op)))
                  [(js "mode", VStr (o_mode op))]))))))).

Definition aliased op : bool := m_pathAlias (meta_of (o_mode op)) && truthy (trim (o_path op)).

Definition or_path (b : bool) (path : jstr) (v : jsval) : jsval := if b && negb (truthy_val v) then VStr path else v.

Definition alias_entries (b : bool) (path : jstr) (o : list (jstr * jsval)) : list (jstr * jsval) :=
  if b then alias_prop (js "to") path (alias_prop (js "from") path o) else o.

Lemma at_alias b path o k :
  at_key (alias_entries b path o) k
  = if bool_decide (k = js "from") || bool_decide (k = js "to") then or_path (b && truthy path) path (at_key o k) else at_key o k.
Proof.
  unfold alias_entries, or_path, alias_prop. destruct b; cbn [andb]; [|by destruct (_ || _)].
  cbn [prop]. rewrite !at_set_if.
  repeat match goal with |- context [default VUndef (omap.get ?o ?k)] => change (default VUndef (omap.get o k)) with (at_key o k) end.
  rewrite !at_set_if, (andb_comm (truthy path)). destruct (decide (k = js "from")) as [->|E1]; [by keys|].
  destruct (decide (k = js "to")) as [->|E2]; [by keys|].
  keys. rewrite !bool_decide_eq_false_2, !andb_false_r by congruence. done.
Qed.

Lemma payload_props op k :
  truthy (o_mode op) = true → k ≠ js "conditions" → k ≠ js "logic" →
  prop (operation_payload op) k
  = if bool_decide (k = js "from") || bool_decide (k = js "to")
    then or_path (aliased op) (trim (o_path op)) (at_key (base_entries op) k) else at_key (base_entries op) k.
Proof.
  intros Hm Hc Hl. unfold operation_payload. rewrite Hm. cbv zeta. fold (base_entries op).
  change (if m_pathAlias ?m then _ else _) with (alias_entries (m_pathAlias m) (trim (o_path op)) (base_entries op)).
  cbn [prop].
  repeat match goal with |- context [default VUndef (omap.get ?o ?k)] => change (default VUndef (omap.get o k)) with (at_key o k) end.
  rewrite !at_set_if, !(bool_decide_eq_false_2 (_ = k)), !andb_false_r by congruence. apply at_alias.
Qed.

(** Where a source or a target is asked for, it is written. *)
Lemma required_from mode : mode ∈ FROM_REQUIRED_MODES → m_from (meta_of mode) = true.
Proof.
  intros Hm. assert (Forall (λ m, m_from (meta_of m) = true) FROM_REQUIRED_MODES) as H by (apply (bool_decide_unpack _); by vm_compute).
  by eapply Forall_forall in H.
Qed.

Lemma required_to mode : mode ∈ TO_REQUIRED_MODES → m_to (meta_of mode) = true.
Proof.
  intros Hm. assert (Forall (λ m, m_to (meta_of m) = true) TO_REQUIRED_MODES) as H by (apply (bool_decide_unpack _); by vm_compute).
  by eapply Forall_forall in H.
Qed.

Lemma required_value mode : mode ∈ VALUE_REQUIRED_MODES → m_value (meta_of mode) = true.
Proof.
  intros Hm. assert (Forall (λ m, m_value (meta_of m) = true) VALUE_REQUIRED_MODES) as H by (apply (bool_decide_unpack _); by vm_compute).
  by eapply Forall_forall in H.
Qed.

Lemma filled_or_path (b : bool) path s : (b = true → truthy path = true) → truthy s = true ∨ b = true →
  ∃ t, or_path b path (VStr s) = VStr t ∧ truthy t = true.
Proof.
  intros Hb H. unfold or_path. cbn [truthy_val]. destruct (truthy s) eqn:E.
  - exists s. by destruct b.
  - destruct H as [H| ->]; [congruence|]. exists path. split; [done|]. by apply Hb.
Qed.

(** A rule without a message is complete. *)
Record complete op (v : jsval) : Prop := {
  co_mode : prop v (js "mode") = VStr (o_mode op);
  co_path : m_path (meta_of (o_mode op)) = true → filled v (js "path");
  co_from : o_mode op ∈ FROM_REQUIRED_MODES → filled v (js "from");
  co_to : o_mode op ∈ TO_REQUIRED_MODES → filled v (js "to");
  co_value : o_mode op ∈ VALUE_REQUIRED_MODES → prop v (js "value") = parseLooseValue (o_value_text op) ∧ blank (o_value_text op) = false;
}.

Lemma no_error op : truthy (o_mode op) = true → operation_error op = None →
  (m_path (meta_of (o_mode op)) = true → blank (o_path op) = false)
  ∧ (o_mode op ∈ FROM_REQUIRED_MODES → blank (o_from op) = false ∨ aliased op = true)
  ∧ (o_mode op ∈ TO_REQUIRED_MODES → blank (o_to op) = false ∨ aliased op = true)
  ∧ (o_mode op ∈ VALUE_REQUIRED_MODES → blank (o_value_text op) = false).
Proof.
  intros Hm. unfold operation_error, aliased. rewrite Hm. cbv zeta. intros H.
  change (truthy (trim (o_path op))) with (negb (negb (truthy (trim (o_path op))))) || rewrite <- (negb_involutive (truthy (trim (o_path op)))).
  fold (blank (o_path op)).
  destruct (m_path _ && blank (o_path op)) eqn:E1; [done|].
  destruct (bool_decide (o_mode op ∈ FROM_REQUIRED_MODES) && _ && _) eqn:E2; [done|].
  destruct (bool_decide (o_mode op ∈ TO_REQUIRED_MODES) && _ && _) eqn:E3; [done|].
  destruct (bool_decide (o_mode op ∈ VALUE_REQUIRED_MODES) && _) eqn:E4; [done|]. clear H. split_and!.
  - intros E. by rewrite E in E1.
  - intros E. rewrite (bool_decide_eq_true_2 _ E) in E2. cbn [andb] in E2. apply andb_false_iff in E2 as [?|?%negb_false_iff]; [by left|by right].
  - intros E. rewrite (bool_decide_eq_true_2 _ E) in E3. cbn [andb] in E3. apply andb_false_iff in E3 as [?|?%negb_false_iff]; [by left|by right].
  - intros E. by rewrite (bool_decide_eq_true_2 _ E) in E4.
Qed.

Lemma not_blank_truthy s : blank s = false → truthy (trim s) = true.
Proof. unfold blank. by destruct (truthy (trim s)). Qed.

Lemma aliased_path op : aliased op = true → truthy (trim (o_path op)) = true.
Proof. unfold aliased. by intros [_ ?]%andb_true_iff. Qed.

Lemma valid_complete op : truthy (o_mode op) = true → operation_error op = None → complete op (operation_payload op).
Proof.
  intros Hm He. destruct (no_error _ Hm He) as (Hp & Hf & Ht & Hv).
  assert (∀ s, blank s = false ∨ aliased op = true → truthy (trim s) = true ∨ aliased op = true) as Hor
    by (intros s [?%not_blank_truthy|?]; auto).
  constructor.
  - rewrite payload_props by done. keys. unfold base_entries. by look.
  - intros E. exists (trim (o_path op)). split; [|by apply not_blank_truthy, Hp]. rewrite payload_props by done. keys.
    unfold base_entries. look. rewrite E. by destruct (_ && _).
  - intros E. unfold filled. rewrite payload_props by done. keys. unfold base_entries. look. rewrite (required_from _ E).
    apply filled_or_path; [apply aliased_path|by apply Hor, Hf].
  - intros E. unfold filled. rewrite payload_props by done. keys. unfold base_entries. look. rewrite (required_to _ E).
    apply filled_or_path; [apply aliased_path|by apply Hor, Ht].
  - intros E. split; [|by apply Hv]. rewrite payload_props by done. keys. unfold base_entries. look. by rewrite (required_value _ E).
Qed.

Lemma validate_none line ops : validate_from line ops = None → Forall (λ op, operation_error op = None) ops.
Proof.
  revert line. induction ops as [|op ops IH]; intros line; cbn [validate_from]; [constructor|].
  destruct (operation_error op) eqn:E; [done|]. intros H. constructor; [done|by eapply IH].
Qed.

(** C26: What the form for rules saves is complete: for every rule that is not blank
    there is an object, in the order of the rules, which has the mode of the rule, a
    path, a source and a target that are not empty wherever the mode needs them
    (for headers that are copied or moved, the path stands for those left empty),
    and the value of a text that is not blank wherever the mode needs a value. *)
Theorem saved_rules_complete e text :
  ed_editMode e = Visual → ed_visualMode e = Operations → Forall (λ op, truthy (o_mode op) = true) (operations e) →
  handleSave e = inr text →
  (not_blank (operations e) = [] ∧ text = [])
  ∨ (text = pretty (operations_value (not_blank (operations e)))
     ∧ Forall (λ op, complete op (operation_payload op)) (not_blank (operations e))).
Proof.
  intros Hem Hvm Hm. unfold handleSave. rewrite Hem. unfold buildVisualJson. rewrite Hvm.
  destruct (not_blank (operations e)) as [|op ops] eqn:E.
  { unfold buildOperationsJson. rewrite E. intros [= <-]. by left. }
  destruct (buildOperationsJson _ _) as [[m line]|t] eqn:Eb; [done|]. intros [= ->].
  apply saved_operations in Eb as [Hval ->]; [|by rewrite E]. rewrite E in Hval |- *. right. split; [done|].
  apply validate_none in Hval. rewrite <- E in *. apply Forall_forall. intros o Ho.
  eapply Forall_forall in Hval; [|exact Ho]. apply list_elem_of_filter in Ho as [_ Ho].
  eapply Forall_forall in Hm; [|exact Ho]. by apply valid_complete.
Qed.

Lemma saved_rules_complete_witness :
  ∃ e text, handleSave e = inr text ∧ Forall (λ op, complete op (operation_payload op)) (operations e)
  ∧ ((λ op, prop (operation_payload op) (js "from")) <$> operations e) = [VStr (js "X-A")].
Proof.
  set (ops := [mkOperation 1 [] (js "X-A") (js "copy_header") [] (js "X-B") [] false (js "OR") []]).
  set (e := mkEditor Visual Operations [] ops [] [] (Some 1) None (None, Before) 2).
  assert (∃ text, handleSave e = inr text) as [text Ht] by (eexists; by vm_compute).
  exists e, text. split; [done|]. split; [|done].
  destruct (saved_rules_complete e text) as [[H _]|[_ H]]; [done|done| |done|by vm_compute in H|exact H].
  apply (bool_decide_unpack _). by vm_compute.
Defined.

(** * What is not in normal form *)

(** Opening a text and saving it without a change *)
Definition resave (text : jstr) : option (failure + jstr) := handleSave ∘ settle <$> open 0 text.

(** A text that reads as a number is saved as a number, and one that reads as a
    list as a list. *)
Example value_retyped :
  resave (jq "{'operations':[{'mode':'set','path':'stop','value':'5'}]}")
  = Some (inr (pretty (VObj [(js "operations", VArr [VObj [(js "mode", VStr (js "set")); (js "path", VStr (js "stop"));
                                                         (js "value", VNum (num_of_Z 5))]])])))
  ∧ resave (jq "{'operations':[{'mode':'set','path':'stop','value':'[]'}]}")
  = Some (inr (pretty (VObj [(js "operations", VArr [VObj [(js "mode", VStr (js "set")); (js "path", VStr (js "stop"));
                                                         (js "value", VArr [])]])]))).
Proof. split; by vm_compute. Qed.

(** Parameters next to the rules are not saved. *)
Example parameters_dropped :
  resave (jq "{'temperature':0,'operations':[{'mode':'delete','path':'a'}]}")
  = resave (jq "{'operations':[{'mode':'delete','path':'a'}]}").
Proof. by vm_compute. Qed.

(** A rule that has only a description is not saved. *)
Example described_rule_dropped :
  resave (jq "{'operations':[{'mode':'set','description':'to do'}]}") = Some (inr []).
Proof. by vm_compute. Qed.

(** A rule that is added to the form for pruning is gone when the form is read. *)
Example added_prune_rule_lost : ∃ e draft,
  open 0 (jq "{'operations':[{'mode':'prune_objects','value':'thinking'}]}") = Some e
  ∧ (show_prune_draft (settle (addPruneRule 0 (settle e)))).2 = Some draft ∧ rules draft = [].
Proof. eexists. eexists. split; [by vm_compute|]. split; by vm_compute. Qed.
