(* ===== verification/Programs.v ===== *)
(** Asynchronous code run to its end, as programs on a state that return a value
    or throw a text. *)

From stdpp Require Import base.
From S2P Require Import Prelude JsString.

Definition prog (St A : Type) : Type := St → St * (jstr + A).

Definition ret {St A} (a : A) : prog St A := λ s, (s, inr a).
Definition throw {St A} (e : jstr) : prog St A := λ s, (s, inl e).
Definition bind {St A B} (m : prog St A) (f : A → prog St B) : prog St B :=
  λ s, match m s with (s, inr a) => f a s | (s, inl e) => (s, inl e) end.

Declare Scope prog_scope.
Delimit Scope prog_scope with prog.
Notation "x <-- m ;; k" := (bind m (λ x, k)) (at level 100, m at next level, right associativity) : prog_scope.

(** A property of the state that every step keeps *)
Definition keeps {St A} (R : St → St → Prop) (m : prog St A) : Prop := ∀ s, R s (m s).1.

Section keeps.
Context {St : Type} (R : St → St → Prop) `{!Reflexive R, !Transitive R}.

Lemma keeps_ret {A} (a : A) : keeps R (ret a).
Proof. by intros s. Qed.

Lemma keeps_throw {A} e : keeps R (throw (A := A) e).
Proof. by intros s. Qed.

Lemma keeps_bind {A B} (m : prog St A) (f : A → prog St B) :
  keeps R m → (∀ a, keeps R (f a)) → keeps R (bind m f).
Proof.
  intros Hm Hf s. unfold bind. specialize (Hm s). destruct (m s) as [s' [e|a]]; [done|]. etrans; [exact Hm|apply Hf].
Qed.
End keeps.

Create HintDb keeps.
#[export] Hint Resolve keeps_ret keeps_throw keeps_bind : keeps.
