(* ===== verification/Uri.v ===== *)
(** Texts as bytes: UTF-8, [encodeURIComponent] and [btoa]. *)

From Stdlib Require Import NArith Lia.
From stdpp Require Import base list.
From S2P Require Import Prelude JsString JsValue.

(** * UTF-8 *)

(** The code points of a text; a surrogate without its other half is [inl] *)
Fixpoint code_points (s : jstr) : list (N + N) :=
  match s with
  | [] => []
  | c :: s' =>
      if high_surrogate c then
        match s' with
        | d :: s'' =>
            if low_surrogate d then inr (65536 + (c - 55296) * 1024 + (d - 56320))%N :: code_points s''
            else inl c :: code_points s'
        | [] => [inl c]
        end
      else if low_surrogate c then inl c :: code_points s'
      else inr c :: code_points s'
  end.

Definition utf8_bytes (c : N) : list N :=
  (if c <? 128 then [c]
   else if c <? 2048 then [192 + c / 64; 128 + c mod 64]
   else if c <? 65536 then [224 + c / 4096; 128 + c / 64 mod 64; 128 + c mod 64]
   else [240 + c / 262144; 128 + c / 4096 mod 64; 128 + c / 64 mod 64; 128 + c mod 64])%N.

(** [new TextEncoder().encode(s)] *)
Definition TextEncoder_encode (s : jstr) : list N :=
  c ← code_points s; match c with inr c => utf8_bytes c | inl _ => utf8_bytes 65533 end.

(** * Addresses *)

Definition unreserved (c : N) : bool :=
  is_digit c || ((65 <=? c) && (c <=? 90))%N || ((97 <=? c) && (c <=? 122))%N || bool_decide (c ∈ js "-_.!~*'()").

Definition hex_digit (n : N) : N := if (n <? 10)%N then (48 + n)%N else (55 + n)%N.

Definition percent (b : N) : jstr := [37; hex_digit (b / 16); hex_digit (b mod 16)]%N.

(** [None] is a [URIError] *)
Definition encode_point (c : N + N) : option jstr :=
  match c with
  | inl _ => None
  | inr c => Some (if unreserved c then [c] else utf8_bytes c ≫= percent)
  end.

Definition encodeURIComponent (s : jstr) : option jstr := mjoin <$> mapM encode_point (code_points s).

(** * Base 64 *)

Definition base64_digit (n : N) : N :=
  (if n <? 26 then 65 + n else if n <? 52 then 71 + n else if n <? 62 then n - 4 else if n =? 62 then 43 else 47)%N.

Fixpoint btoa (bs : list N) : jstr :=
  match bs with
  | [] => []
  | [a] => [base64_digit (a / 4); base64_digit (a mod 4 * 16); 61]%N
  | [a; b] => [base64_digit (a / 4); base64_digit (a mod 4 * 16 + b / 16); base64_digit (b mod 16 * 4); 61]%N
  | a :: b :: c :: bs =>
      [base64_digit (a / 4); base64_digit (a mod 4 * 16 + b / 16); base64_digit (b mod 16 * 4 + c / 64);
       base64_digit (c mod 64)]%N ++ btoa bs
  end.

Example encode_example :
  encodeURIComponent (js "a b/é€") = Some (js "a%20b%2F%C3%A9%E2%82%AC") ∧ encodeURIComponent [55296%N] = None
  ∧ btoa (TextEncoder_encode (js "user:pass")) = js "dXNlcjpwYXNz" ∧ btoa (TextEncoder_encode (js "é")) = js "w6k=".
Proof. split_and!; by vm_compute. Qed.

(** * Lemmas *)

Lemma high_not_low c : high_surrogate c = true → low_surrogate c = false.
Proof.
  unfold high_surrogate, low_surrogate. rewrite andb_true_iff, !N.leb_le. intros [_ H]. apply andb_false_iff. left.
  apply N.leb_gt. lia.
Qed.

(** A text that starts with an ordinary unit *)
Lemma code_points_app_plain p s :
  Forall (λ c, high_surrogate c = false) p → code_points (p ++ s) = code_points p ++ code_points s.
Proof.
  induction 1 as [|c p Hc Hp IH]; [done|]. rewrite <- app_comm_cons. cbn [code_points]. rewrite Hc, IH.
  by destruct (low_surrogate c).
Qed.

Lemma mapM_app_Some {A B} (f : A → option B) l1 l2 r :
  mapM f (l1 ++ l2) = Some r ↔ ∃ r1 r2, mapM f l1 = Some r1 ∧ mapM f l2 = Some r2 ∧ r = r1 ++ r2.
Proof.
  revert r. induction l1 as [|x l1 IH]; intros r; cbn.
  - split; [intros H; by exists [], r|]. intros (r1 & r2 & [= <-] & H & ->). done.
  - destruct (f x) as [y|]; cbn; [|split; [done|by intros (? & ? & ? & _)]].
    destruct (mapM f (l1 ++ l2)) as [r'|]; cbn.
    + destruct (proj1 (IH r') eq_refl) as (r1 & r2 & E1 & E2 & ->). rewrite E1, E2. cbn. split.
      * intros [= <-]. by exists (y :: r1), r2.
      * intros (? & ? & [= <-] & [= <-] & ->). done.
    + split; [done|]. intros (r1 & r2 & E1 & E2 & ->). destruct (mapM f l1) as [r1'|] eqn:E; [|done].
      exfalso. assert (None = Some (r1' ++ r2)) as H by (apply IH; by exists r1', r2). done.
Qed.

Lemma encode_app_plain p s u :
  Forall (λ c, high_surrogate c = false) p → encodeURIComponent (p ++ s) = Some u →
  ∃ a b, encodeURIComponent p = Some a ∧ encodeURIComponent s = Some b ∧ u = a ++ b.
Proof.
  intros Hp. unfold encodeURIComponent. rewrite code_points_app_plain by done.
  destruct (mapM encode_point (code_points p ++ code_points s)) as [r|] eqn:E; [|done]. intros [= <-].
  apply mapM_app_Some in E as (r1 & r2 & -> & -> & ->). exists (mjoin r1), (mjoin r2). by rewrite join_app.
Qed.
