(* ===== verification/SyncMerge.v ===== *)
(** Synchronised items of the infinite canvas, from
    [infinite-canvas/src/services/app-sync.ts]: their times, the merge of two
    lists by identifier, and the media they refer to.

    The merge is the join of last-writer-wins maps: [versions] maps identifiers
    to the latest time, and [vjoin] keeps the later one. *)

From Stdlib Require Import ZArith NArith Lia SpecFloat Sorted.
From stdpp Require Import gmap.
From S2P Require Import Prelude JsString JsNumber JsValue Json JsRegex JsArray.

(** * Media *)

Definition prefix_re : re :=
  alt (lit <$> [js "image"; js "video"; js "audio"; js "file"; js "video-reference"; js "audio-reference"]).

(** [storageKeyPattern] *)
Definition storageKeyPattern : re := seq [RBegin; RGroup 1 prefix_re; lit (js ":")].

Definition add_key (s : jstr) (keys : list jstr) : list jstr :=
  if test storageKeyPattern s then set_add keys s else keys.

(** Going through the objects and arrays of a value: [leaf] is applied to texts,
    [own] to the properties named [storageKey] *)
Section walk.
Context (leaf own : jstr → list jstr → list jstr).

Fixpoint walk (value : jsval) (keys : list jstr) : list jstr :=
  match value with
  | VStr s => leaf s keys
  | VArr l => foldl (λ keys f, f keys) keys
      (map (λ item, match item with
                    | VArr children => λ keys, foldl (λ keys f, f keys) keys (map walk children)
                    | _ => walk item
                    end) l)
  | VObj o =>
      let keys := match omap.get o (js "storageKey") with Some (VStr s) => own s keys | _ => keys end in
      foldl (λ keys (f : jstr * (list jstr → list jstr)), f.2 keys) keys
        (entries (map (λ e, (e.1, match e.2 with
                    | VArr children => λ keys, foldl (λ keys f, f keys) keys (map walk children)
                    | _ => walk e.2
                    end)) o))
  | _ => keys
  end.
End walk.

(** The keys in a value, added to a set in the order they are found *)
Definition collectStorageKeys : jsval → list jstr → list jstr := walk add_key add_key.

(** * Items *)

(** [item.id || ''] *)
Definition item_id (item : jsval) : jstr := match prop item (js "id") with VStr s => s | _ => [] end.

Section times.
(** [Date.parse] *)
Context (date_parse : jstr → num).

Definition getTime (item : jsval) (key : jstr) : num :=
  match prop item key with
  | VNum n => n
  | VStr s => or_num (date_parse s) num_0
  | _ => num_0
  end.

Section merge.
Context (timeKey : jstr).
Implicit Types (item x y : jsval) (items : list (jstr * jsval)) (l local remote : list jsval) (i : jstr).

Definition put_remote items item : list (jstr * jsval) :=
  if truthy (item_id item) then omap.set items (item_id item) item else items.

Definition put_local items item : list (jstr * jsval) :=
  if negb (truthy (item_id item)) then items
  else
    match omap.get items (item_id item) with
    | None => omap.set items (item_id item) item
    | Some current =>
        if num_leb (getTime current timeKey) (getTime item timeKey)
        then omap.set items (item_id item) item else items
    end.

Definition by_time x y : num := num_sub (getTime y timeKey) (getTime x timeKey).

Definition mergeById local remote : list jsval :=
  sort_by by_time (foldl put_local (foldl put_remote [] remote) local).*2.

(** * Versions *)

(** The time of an item in milliseconds *)
Definition T item : Z := the_Z (getTime item timeKey).

(** An item whose time is that of a date after 1970 *)
Definition dated item : Prop :=
  getTime item timeKey = num_of_Z (T item) ∧ (0 ≤ T item ≤ MAX_SAFE_INTEGER)%Z.

Definition vjoin (a b : gmap jstr Z) : gmap jstr Z := union_with (λ s t, Some (s `max` t)%Z) a b.

Fixpoint versions l : gmap jstr Z :=
  match l with
  | [] => ∅
  | x :: l => if truthy (item_id x) then vjoin {[item_id x := T x]} (versions l) else versions l
  end.

Lemma lookup_vjoin (a b : gmap jstr Z) i :
  vjoin a b !! i = match a !! i, b !! i with
                   | Some s, Some t => Some (s `max` t)%Z
                   | Some s, None => Some s
                   | None, t => t
                   end.
Proof. unfold vjoin. rewrite lookup_union_with. by destruct (a !! i), (b !! i). Qed.

#[global] Instance vjoin_assoc : Assoc (=) vjoin.
Proof.
  intros a b c. apply map_eq. intros i. rewrite !lookup_vjoin.
  destruct (a !! i), (b !! i), (c !! i); try done. f_equal. lia.
Qed.

#[global] Instance vjoin_comm : Comm (=) vjoin.
Proof.
  intros a b. apply map_eq. intros i. rewrite !lookup_vjoin. destruct (a !! i), (b !! i); try done. f_equal. lia.
Qed.

#[global] Instance vjoin_idem : IdemP (=) vjoin.
Proof.
  intros a. apply map_eq. intros i. rewrite !lookup_vjoin. destruct (a !! i); try done. f_equal. lia.
Qed.

(** The latest time of an identifier *)
Definition latest l i (t : Z) : Prop :=
  (∃ x, x ∈ l ∧ item_id x = i ∧ T x = t) ∧ ∀ x, x ∈ l → item_id x = i → (T x ≤ t)%Z.

Lemma versions_nil l : versions l !! [] = None.
Proof.
  induction l as [|x l IH]; cbn [versions]; [done|]. destruct (item_id x) as [|c s] eqn:E; [done|]. cbn [truthy].
  rewrite lookup_vjoin, IH, lookup_singleton_ne by done. done.
Qed.

Lemma versions_None l i : truthy i = true → versions l !! i = None ↔ ∀ x, x ∈ l → item_id x ≠ i.
Proof.
  intros Hi. induction l as [|x l IH]; cbn [versions]; [rewrite lookup_empty; set_solver|].
  destruct (truthy (item_id x)) eqn:Ht.
  - rewrite lookup_vjoin. destruct (decide (item_id x = i)) as [E|E].
    + rewrite E, lookup_singleton_eq. split; [by destruct (versions l !! i)|]. intros H. exfalso. apply (H x); set_solver.
    + rewrite lookup_singleton_ne by done. rewrite IH. set_solver.
  - rewrite IH. assert (item_id x ≠ i) by congruence. set_solver.
Qed.

Lemma versions_Some l i t : truthy i = true → versions l !! i = Some t ↔ latest l i t.
Proof.
  intros Hi. revert t. induction l as [|x l IH]; intros t; cbn [versions].
  { rewrite lookup_empty. split; [done|]. intros [(x & Hx & _) _]. by apply elem_of_nil in Hx. }
  destruct (decide (item_id x = i)) as [E|E].
  - rewrite E, Hi, lookup_vjoin, lookup_singleton_eq. destruct (versions l !! i) as [u|] eqn:Eu.
    + destruct (proj1 (IH u) eq_refl) as [(y & Hy & Ey & <-) Hmax]. split.
      * intros [= <-]. split; [|intros z Hz Ez; apply elem_of_cons in Hz as [->|Hz]; [lia|]; specialize (Hmax z Hz Ez); lia].
        destruct (Z.max_spec (T x) (T y)) as [[_ ->]|[_ ->]]; [exists y|exists x]; set_solver.
      * intros [(z & Hz & Ez & <-) Hz']. f_equal.
        assert (T x ≤ T z)%Z by (apply Hz'; set_solver). assert (T y ≤ T z)%Z by (apply Hz'; set_solver).
        apply elem_of_cons in Hz as [->|Hz]; [lia|]. specialize (Hmax z Hz Ez). lia.
    + pose proof (proj1 (versions_None l i Hi) Eu) as Hno. split.
      * intros [= <-]. split; [exists x; set_solver|]. intros z Hz Ez. apply elem_of_cons in Hz as [->|Hz]; [lia|].
        exfalso. by apply (Hno z).
      * intros [(z & Hz & Ez & <-) _]. apply elem_of_cons in Hz as [->|Hz]; [done|]. exfalso. by apply (Hno z).
  - assert ((if truthy (item_id x) then vjoin {[item_id x := T x]} (versions l) else versions l) !! i
      = versions l !! i) as ->.
    { destruct (truthy (item_id x)); [|done]. rewrite lookup_vjoin, lookup_singleton_ne by done. done. }
    rewrite IH. unfold latest. set_solver.
Qed.

Lemma versions_perm l l' : (∀ x, x ∈ l ↔ x ∈ l') → versions l = versions l'.
Proof.
  intros Hp. apply map_eq. intros i. destruct i as [|c i]; [by rewrite !versions_nil|].
  destruct (versions l' !! (c :: i)) as [t|] eqn:E.
  - apply versions_Some; [done|]. pose proof (proj1 (versions_Some l' (c :: i) t eq_refl) E) as H. unfold latest in *. set_solver.
  - apply versions_None; [done|]. pose proof (proj1 (versions_None l' (c :: i) eq_refl) E). set_solver.
Qed.

(** * The map of the merge *)

(** Every entry is filed under its identifier. *)
Definition keyed items : Prop :=
  NoDup items.*1 ∧ ∀ i x, (i, x) ∈ items → item_id x = i ∧ truthy i = true.

Lemma keyed_set m x : keyed m → truthy (item_id x) = true → keyed (omap.set m (item_id x) x).
Proof.
  intros [Hnd Hm] Hx. split; [by apply omap.NoDup_set|].
  intros i y [[= -> ->]|H]%omap_set_elem; [done|]. by apply Hm.
Qed.

Lemma keyed_put_remote m x : keyed m → keyed (put_remote m x).
Proof. intros Hm. unfold put_remote. destruct (truthy _) eqn:E; [by apply keyed_set|done]. Qed.

Lemma keyed_put_local m x : keyed m → keyed (put_local m x).
Proof.
  intros Hm. unfold put_local. destruct (truthy (item_id x)) eqn:E; cbn [negb]; [|done].
  destruct (omap.get m (item_id x)); [|by apply keyed_set]. destruct (num_leb _ _); [by apply keyed_set|done].
Qed.

Definition merged local remote : list (jstr * jsval) := foldl put_local (foldl put_remote [] remote) local.

Lemma keyed_merged l r : keyed (merged l r).
Proof.
  unfold merged. assert (keyed (foldl put_remote [] r)) as H.
  { assert (keyed []) as H0 by (split; [constructor|set_solver]). revert H0. generalize (@nil (jstr * jsval)).
    induction r as [|x r IH]; intros m Hm; [done|]. by apply IH, keyed_put_remote. }
  revert H. generalize (foldl put_remote [] r). induction l as [|x l IH]; intros m Hm; [done|].
  by apply IH, keyed_put_local.
Qed.

Lemma versions_keyed m i : keyed m → versions m.*2 !! i = T <$> omap.get m i.
Proof.
  intros [Hnd Hm]. destruct (omap.get m i) as [x|] eqn:E.
  - apply omap.get_Some_elem in E. destruct (Hm i x E) as [Hi Ht]. apply (versions_Some _ _ _ Ht). split.
    + exists x. split; [|done]. apply list_elem_of_fmap. by exists (i, x).
    + intros y Hy Ey. apply list_elem_of_fmap in Hy as ([j y'] & -> & Hy). cbn [snd] in *.
      destruct (Hm j y' Hy) as [Hj _]. subst. apply (omap.elem_get m _ _ Hnd) in Hy.
      apply (omap.elem_get m _ _ Hnd) in E. rewrite Ey in Hy. rewrite Hy in E. by injection E as ->.
  - cbn. destruct i as [|c i]; [apply versions_nil|]. apply (versions_None _ (c :: i) eq_refl).
    intros x Hx. apply list_elem_of_fmap in Hx as ([j y] & -> & Hy). cbn [snd]. intros Ei.
    destruct (Hm j y Hy) as [Hj _]. apply omap.get_None in E. apply E. apply list_elem_of_fmap.
    exists (j, y). split; [cbn; congruence|done].
Qed.

(** The remote list, when its identifiers are distinct *)
Lemma remote_versions r :
  NoDup (item_id <$> r) → versions (foldl put_remote [] r).*2 = versions r.
Proof.
  intros Hnd. enough (∀ m, keyed m → (∀ x, x ∈ r → item_id x ∉ m.*1) →
    versions (foldl put_remote m r).*2 = vjoin (versions m.*2) (versions r)) as H.
  { rewrite (H []); [|split; [constructor|set_solver]|set_solver]. cbn. apply map_eq. intros i.
    rewrite lookup_vjoin, lookup_empty. done. }
  induction r as [|x r IH]; intros m Hm Hfresh; cbn [foldl versions].
  { apply map_eq. intros i. rewrite lookup_vjoin, lookup_empty. by destruct (versions m.*2 !! i). }
  rewrite fmap_cons in Hnd. apply NoDup_cons in Hnd as [Hx Hnd].
  rewrite IH; [|done|by apply keyed_put_remote|].
  - unfold put_remote. destruct (truthy (item_id x)) eqn:E; [|done].
    rewrite omap.set_fresh by (apply omap.get_None, Hfresh; set_solver).
    rewrite (assoc vjoin), (comm vjoin _ {[_ := _]}). f_equal.
    rewrite fmap_app. cbn [fmap list_fmap snd].
    transitivity (versions (x :: m.*2)); [apply versions_perm; set_solver|]. cbn [versions]. by rewrite E.
  - intros y Hy. unfold put_remote. destruct (truthy (item_id x)); [|apply Hfresh; set_solver].
    rewrite omap.set_keys. rewrite decide_False by (apply Hfresh; set_solver).
    rewrite not_elem_of_app. split; [apply Hfresh; set_solver|].
    intros E%list_elem_of_singleton. apply Hx. rewrite <- E. by apply list_elem_of_fmap_2.
Qed.

Lemma leb_dated x y : dated x → dated y → num_leb (getTime x timeKey) (getTime y timeKey) = (T x <=? T y)%Z.
Proof. intros [-> Hx] [-> Hy]. apply num_leb_of_Z; unfold safe; lia. Qed.

Definition all_dated l : Prop := Forall dated l.

Lemma put_local_versions m x :
  keyed m → all_dated m.*2 → dated x →
  versions (put_local m x).*2
  = if truthy (item_id x) then vjoin {[item_id x := T x]} (versions m.*2) else versions m.*2.
Proof.
  intros Hm Hd Hx. destruct (truthy (item_id x)) eqn:Et; [|unfold put_local; by rewrite Et].
  apply map_eq. intros i. rewrite lookup_vjoin, !versions_keyed by (try done; by apply keyed_put_local).
  unfold put_local. rewrite Et. cbn [negb].
  destruct (decide (item_id x = i)) as [<-|Hi].
  - rewrite lookup_singleton_eq. destruct (omap.get m (item_id x)) as [y|] eqn:Ey; [|by rewrite omap.get_set_eq].
    assert (dated y) as Hy.
    { eapply Forall_forall; [exact Hd|]. apply omap.get_Some_elem in Ey. apply list_elem_of_fmap. by exists (item_id x, y). }
    rewrite leb_dated by done. cbn [fmap option_fmap option_map].
    destruct (Z.leb_spec (T y) (T x)); [rewrite omap.get_set_eq|rewrite Ey]; cbn; f_equal; lia.
  - rewrite lookup_singleton_ne by done. assert (∀ y, omap.get (omap.set m (item_id x) y) i = omap.get m i) as E
      by (intros; by apply omap.get_set_ne).
    destruct (omap.get m (item_id x)); [destruct (num_leb _ _)|]; rewrite ?E; by destruct (omap.get m i).
Qed.

Lemma put_local_elem m x y : y ∈ (put_local m x).*2 → y = x ∨ y ∈ m.*2.
Proof.
  unfold put_local. assert (y ∈ (omap.set m (item_id x) x).*2 → y = x ∨ y ∈ m.*2) as H.
  { intros ([k z] & -> & [[= -> ->]|Hz]%omap_set_elem)%list_elem_of_fmap; [by left|]. right.
    apply list_elem_of_fmap. by exists (k, z). }
  destruct (negb _); [by right|]. destruct (omap.get m _); [|done]. destruct (num_leb _ _); [done|by right].
Qed.

Lemma put_remote_elem m x y : y ∈ (put_remote m x).*2 → y = x ∨ y ∈ m.*2.
Proof.
  unfold put_remote. destruct (truthy _); [|by right].
  intros ([k z] & -> & [[= -> ->]|Hz]%omap_set_elem)%list_elem_of_fmap; [by left|]. right.
  apply list_elem_of_fmap. by exists (k, z).
Qed.

Lemma foldl_elem (f : list (jstr * jsval) → jsval → list (jstr * jsval)) l m y :
  (∀ m x y, y ∈ (f m x).*2 → y = x ∨ y ∈ m.*2) → y ∈ (foldl f m l).*2 → y ∈ l ∨ y ∈ m.*2.
Proof.
  intros Hf. revert m. induction l as [|x l IH]; intros m Hy; [by right|]. cbn [foldl] in Hy.
  apply IH in Hy as [Hy|[->|Hy]%Hf]; set_solver.
Qed.

Lemma merged_elem l r x : x ∈ (merged l r).*2 → x ∈ l ∨ x ∈ r.
Proof.
  unfold merged. intros Hx. apply foldl_elem in Hx as [Hx|Hx]; [by left| |apply put_local_elem].
  apply foldl_elem in Hx as [Hx|Hx]; [by right|by apply elem_of_nil in Hx|apply put_remote_elem].
Qed.

Lemma local_versions m l :
  keyed m → all_dated m.*2 → all_dated l →
  versions (foldl put_local m l).*2 = vjoin (versions l) (versions m.*2).
Proof.
  intros Hm Hd Hl. revert m Hm Hd. induction Hl as [|x l Hx Hl IH]; intros m Hm Hd; cbn [foldl versions].
  { apply map_eq. intros i. rewrite lookup_vjoin, lookup_empty. done. }
  rewrite IH; [|by apply keyed_put_local|].
  - rewrite put_local_versions by done. destruct (truthy (item_id x)); [|done].
    by rewrite (assoc vjoin), (comm vjoin (versions l)).
  - apply Forall_forall. intros y [->|Hy]%put_local_elem; [done|]. by eapply Forall_forall in Hd.
Qed.

(** ** The merge *)

Definition newer_first x y : Prop := (T y ≤ T x)%Z.

Lemma by_time_dated x y : dated x → dated y → num_ltb (by_time x y) num_0 = (T y <? T x)%Z.
Proof.
  intros [Ex Hx] [Ey Hy]. unfold by_time. rewrite Ex, Ey, num_sub_of_Z by (unfold safe; lia).
  change num_0 with (num_of_Z 0). rewrite num_ltb_of_Z by (unfold safe; lia).
  destruct (Z.ltb_spec (T y - T x) 0), (Z.ltb_spec (T y) (T x)); lia.
Qed.

Lemma mergeById_elem l r x : x ∈ mergeById l r → x ∈ l ∨ x ∈ r.
Proof. unfold mergeById. rewrite elem_of_sort_by. apply merged_elem. Qed.

Lemma mergeById_dated l r : all_dated l → all_dated r → all_dated (mergeById l r).
Proof.
  intros Hl Hr. apply Forall_forall. intros x [Hx|Hx]%mergeById_elem;
    [by eapply Forall_forall in Hl|by eapply Forall_forall in Hr].
Qed.

Lemma mergeById_ids l r :
  NoDup (item_id <$> mergeById l r) ∧ Forall (λ x, truthy (item_id x) = true) (mergeById l r).
Proof.
  unfold mergeById. fold (merged l r). destruct (keyed_merged l r) as [Hnd Hm].
  assert (item_id <$> (merged l r).*2 = (merged l r).*1) as E.
  { rewrite <- list_fmap_compose. apply list_fmap_ext. intros n [i x] Hx%list_elem_of_lookup_2. cbn. by apply Hm. }
  rewrite (sort_by_perm by_time). rewrite E. split; [done|].
  apply Forall_fmap, Forall_forall. intros [i x] Hx. cbn. destruct (Hm i x Hx) as [-> Ht]. done.
Qed.

Lemma mergeById_versions l r :
  all_dated l → all_dated r → NoDup (item_id <$> r) →
  versions (mergeById l r) = vjoin (versions l) (versions r).
Proof.
  intros Hl Hr Hnd. unfold mergeById. rewrite (versions_perm _ (merged l r).*2) by (intros; apply elem_of_sort_by).
  unfold merged. rewrite local_versions; [by rewrite remote_versions| |apply Forall_forall|done].
  - apply (keyed_merged [] r).
  - intros x Hx. apply (merged_elem [] r) in Hx as [Hx|Hx]; [by apply elem_of_nil in Hx|]. by eapply Forall_forall in Hr.
Qed.

Lemma mergeById_sorted l r : all_dated l → all_dated r → StronglySorted newer_first (mergeById l r).
Proof.
  intros Hl Hr. unfold mergeById. apply (sort_by_sorted by_time dated).
  - intros x y z. unfold newer_first. lia.
  - intros x y Hx Hy. rewrite by_time_dated by done. unfold newer_first. intros ?%Z.ltb_lt. lia.
  - intros x y Hx Hy. rewrite by_time_dated by done. unfold newer_first. intros ?%Z.ltb_ge. lia.
  - apply Forall_forall. intros x [Hx|Hx]%merged_elem; [by eapply Forall_forall in Hl|by eapply Forall_forall in Hr].
Qed.

(** Of two versions of the same time the local one is kept. *)
Lemma local_kept m l i x :
  keyed m → all_dated m.*2 → all_dated l → omap.get (foldl put_local m l) i = Some x →
  x ∈ l ∨ omap.get m i = Some x ∧ ∀ y, y ∈ l → item_id y = i → (T y < T x)%Z.
Proof.
  intros Hm Hd Hl. revert m Hm Hd. induction Hl as [|z l Hz Hl IH]; intros m Hm Hd Hx; cbn [foldl] in Hx.
  { right. set_solver. }
  apply IH in Hx as [Hx|[Hx Hlt]]; [set_solver| |by apply keyed_put_local|].
  2: { apply Forall_forall. intros y [->|Hy]%put_local_elem; [done|]. by eapply Forall_forall in Hd. }
  unfold put_local in Hx. destruct (truthy (item_id z)) eqn:Ez; cbn [negb] in Hx.
  2: { right. split; [done|]. intros y [->|Hy]%elem_of_cons Ey; [|by apply Hlt].
       apply omap.get_Some_elem, Hm in Hx as [_ Ht]. congruence. }
  destruct (decide (item_id z = i)) as [<-|Hi].
  - destruct (omap.get m (item_id z)) as [y|] eqn:Ey.
    + assert (dated y) as Hy.
      { eapply Forall_forall; [exact Hd|]. apply omap.get_Some_elem in Ey. apply list_elem_of_fmap. by exists (item_id z, y). }
      rewrite leb_dated in Hx by done. destruct (Z.leb_spec (T y) (T z)).
      * rewrite omap.get_set_eq in Hx. injection Hx as ->. left. set_solver.
      * rewrite Ey in Hx. injection Hx as ->. right. split; [done|]. intros u [->|Hu]%elem_of_cons Eu; [done|by apply Hlt].
    + rewrite omap.get_set_eq in Hx. injection Hx as ->. left. set_solver.
  - right. split; [|intros y [->|Hy]%elem_of_cons Ey; [done|by apply Hlt]].
    destruct (omap.get m (item_id z)); [destruct (num_leb _ _)|]; try done; by rewrite omap.get_set_ne in Hx.
Qed.

Lemma mergeById_local_wins l r x y :
  all_dated l → all_dated r → x ∈ mergeById l r → y ∈ l → item_id y = item_id x → T y = T x → x ∈ l.
Proof.
  intros Hl Hr Hx Hy Ei Et. unfold mergeById in Hx. rewrite elem_of_sort_by in Hx. fold (merged l r) in Hx.
  apply list_elem_of_fmap in Hx as ([i x'] & -> & Hx). cbn [snd] in *.
  destruct (keyed_merged l r) as [Hnd Hm]. destruct (Hm _ _ Hx) as [Hi _]. subst i.
  apply (omap.elem_get _ _ _ Hnd) in Hx. apply local_kept in Hx as [Hx|[_ Hlt]]; [done| |apply (keyed_merged [] r)| |done].
  - specialize (Hlt y Hy Ei). lia.
  - apply Forall_forall. intros z Hz. apply (merged_elem [] r) in Hz as [Hz|Hz]; [by apply elem_of_nil in Hz|].
    by eapply Forall_forall in Hr.
Qed.
End merge.
End times.
