(* ===== verification/Gossip.v ===== *)
(** The abstract specification of the synchronisation of several devices with
    one server: replicas of a last-writer-wins map that join their versions with
    those of a hub.  An attempt may fail, and then each side keeps what it had or
    holds the join.  Once every replica has succeeded in two rounds, all of them
    and the hub hold the join of everything there was. *)

From Stdlib Require Import ZArith Lia.
From stdpp Require Import gmap.
From S2P Require Import Prelude JsString SyncMerge.

#[local] Abbreviation vmap := (gmap jstr Z).

(** * The order of versions *)

Definition vle (a b : vmap) : Prop := vjoin a b = b.

Implicit Types (a b c t u v : vmap) (vs : list vmap) (log : list (nat * bool)).

#[export] Instance vle_refl : Reflexive vle.
Proof. intros a. unfold vle. apply (idemp vjoin). Qed.

#[export] Instance vle_trans : Transitive vle.
Proof. unfold vle. intros a b c Hab Hbc. by rewrite <- Hbc, (assoc vjoin), Hab. Qed.

#[export] Instance vle_antisymm : AntiSymm (=) vle.
Proof. unfold vle. intros a b Hab Hba. by rewrite <- Hab, (comm vjoin), Hba. Qed.

Lemma vle_l a b : vle a (vjoin a b).
Proof. unfold vle. by rewrite (assoc vjoin), (idemp vjoin). Qed.

Lemma vle_r a b : vle b (vjoin a b).
Proof. rewrite (comm vjoin). apply vle_l. Qed.

Lemma vjoin_lub a b t : vle a t → vle b t → vle (vjoin a b) t.
Proof. unfold vle. intros Ha Hb. by rewrite <- (assoc vjoin), Hb. Qed.

Create HintDb vle.
#[export] Hint Resolve vle_l vle_r vjoin_lub : vle.

Lemma vle_lookup a b i s : vle a b → a !! i = Some s → ∃ s', b !! i = Some s' ∧ (s ≤ s')%Z.
Proof.
  unfold vle. intros <- Ha. rewrite lookup_vjoin, Ha. destruct (b !! i); eexists; (split; [done|lia]).
Qed.

(** * Attempts *)

(** What an attempt leaves on a side that had [a], when the join is [j] *)
Definition kept_or (j a a' : vmap) : Prop := a' = a ∨ a' = j.

Inductive gossip : vmap * list vmap → list (nat * bool) → vmap * list vmap → Prop :=
  | gossip_nil st : gossip st [] st
  | gossip_ok v vs i u log st :
      vs !! i = Some u → gossip (vjoin u v, <[i := vjoin u v]> vs) log st → gossip (v, vs) ((i, true) :: log) st
  | gossip_fail v vs i u v' u' log st :
      vs !! i = Some u → kept_or (vjoin u v) v v' → kept_or (vjoin u v) u u' →
      gossip (v', <[i := u']> vs) log st → gossip (v, vs) ((i, false) :: log) st.

Lemma gossip_app st log1 log2 st' :
  gossip st (log1 ++ log2) st' → ∃ st1, gossip st log1 st1 ∧ gossip st1 log2 st'.
Proof.
  revert st. induction log1 as [|[i ok] log1 IH]; intros st H; [by eexists; split; [constructor|]|].
  inversion H as [|v vs i' u log st0 Hi Hg|v vs i' u v' u' log st0 Hi H1 H2 Hg]; subst; apply IH in Hg as (st1 & H3 & H4);
    exists st1; (split; [|done]); by econstructor.
Qed.

Lemma gossip_trans st log1 st1 log2 st' : gossip st log1 st1 → gossip st1 log2 st' → gossip st (log1 ++ log2) st'.
Proof.
  intros H1 H2. induction H1; [done|by econstructor; [|apply IHgossip]|].
  eapply gossip_fail; [done|eassumption..|by apply IHgossip].
Qed.

(** One step changes the hub and one replica, upwards and to at most the join. *)
Lemma kept_or_ge j a a' : kept_or j a a' → vle a j → vle a a'.
Proof. intros [->| ->] ?; [done|done]. Qed.

Lemma kept_or_le j a a' t : kept_or j a a' → vle a t → vle j t → vle a' t.
Proof. by intros [->| ->]. Qed.

Definition below t (st : vmap * list vmap) : Prop := vle st.1 t ∧ Forall (λ u, vle u t) st.2.

(** [st'] has the versions of [st], of every replica *)
Definition grows (st st' : vmap * list vmap) : Prop := vle st.1 st'.1 ∧ Forall2 vle st.2 st'.2.

#[export] Instance grows_trans : Transitive grows.
Proof. intros [v1 vs1] [v2 vs2] [v3 vs3] [A1 A2] [B1 B2]. split; etrans; eassumption. Qed.

Lemma grows_insert v vs i u v' u' :
  vs !! i = Some u → vle v v' → vle u u' → grows (v, vs) (v', <[i := u']> vs).
Proof.
  intros Hi Hv Hu. split; [done|]. cbn. rewrite <- (list_insert_id vs i u Hi) at 1.
  apply Forall2_insert; [|done]. apply Forall2_same_length_lookup_2; [done|]. intros k x y Hx Hy.
  rewrite Hx in Hy. by injection Hy as ->.
Qed.

Lemma gossip_grows st log st' : gossip st log st' → grows st st'.
Proof.
  induction 1 as [[v vs]|v vs i u log st Hi Hg IH|v vs i u v' u' log st Hi H1 H2 Hg IH].
  - split; [done|]. apply Forall2_same_length_lookup_2; [done|]. intros k x y Hx Hy. rewrite Hx in Hy. by injection Hy as ->.
  - etrans; [|exact IH]. apply (grows_insert _ _ _ u); auto with vle.
  - etrans; [|exact IH]. apply (grows_insert _ _ _ u); [done|eapply kept_or_ge; [eassumption|auto with vle]..].
Qed.

Lemma gossip_below t st log st' : gossip st log st' → below t st → below t st'.
Proof.
  induction 1 as [|v vs i u log st Hi Hg IH|v vs i u v' u' log st Hi H1 H2 Hg IH]; intros [Hv Hvs]; [done|..];
    cbn in Hv, Hvs; apply IH; assert (vle u t) as Hu by (by eapply Forall_lookup in Hvs); split; cbn.
  - auto with vle.
  - apply Forall_insert; auto with vle.
  - eapply kept_or_le; [eassumption|auto with vle..].
  - apply Forall_insert; [done|]. eapply kept_or_le; [eassumption|auto with vle..].
Qed.

(** A success leaves what the replica had on the hub, and the other way round. *)
Lemma gossip_success st log st' i u :
  gossip st log st' → (i, true) ∈ log → st.2 !! i = Some u →
  vle u st'.1 ∧ ∃ u', st'.2 !! i = Some u' ∧ vle st.1 u'.
Proof.
  intros Hg. revert u. induction Hg as [|v vs j x log st Hj Hg IH|v vs j x v' x' log st Hj H1 H2 Hg IH]; intros u Hin Hu.
  - by apply elem_of_nil in Hin.
  - cbn in Hu. destruct (decide (j = i)) as [->|Hji].
    + rewrite Hj in Hu. injection Hu as ->. apply gossip_grows in Hg as [G1 G2]. cbn in G1, G2. split.
      * etrans; [|exact G1]. auto with vle.
      * assert (<[i := vjoin u v]> vs !! i = Some (vjoin u v)) as Hi by (apply list_lookup_insert_eq; by eapply lookup_lt_Some).
        eapply Forall2_lookup_l in G2 as (u' & Hu' & Hle); [|exact Hi]. exists u'. split; [done|].
        etrans; [|exact Hle]. apply vle_r.
    + apply elem_of_cons in Hin as [[= ->]|Hin]; [done|]. cbn. destruct (IH u Hin) as (A & u' & B & C).
      { cbn. by rewrite list_lookup_insert_ne. }
      split; [done|]. exists u'. split; [done|]. etrans; [|exact C]. apply vle_r.
  - cbn in Hu. apply elem_of_cons in Hin as [Hin|Hin]; [done|]. cbn.
    assert (vle v v') as Hv by (eapply kept_or_ge; [eassumption|auto with vle]).
    destruct (decide (j = i)) as [->|Hji].
    + rewrite Hj in Hu. injection Hu as ->. destruct (IH x' Hin) as (A & u' & B & C).
      { cbn. apply list_lookup_insert_eq. by eapply lookup_lt_Some. }
      split; [|exists u'; split; [done|by etrans]]. etrans; [|exact A]. eapply kept_or_ge; [eassumption|auto with vle].
    + destruct (IH u Hin) as (A & u' & B & C); [cbn; by rewrite list_lookup_insert_ne|].
      split; [done|]. exists u'. split; [done|by etrans].
Qed.

(** * Convergence *)

(** The join of everything there is *)
Definition everything (st : vmap * list vmap) : vmap := foldr vjoin st.1 st.2.

Lemma below_everything st : below (everything st) st.
Proof.
  destruct st as [v vs]. unfold below, everything. cbn. induction vs as [|u vs [IH1 IH2]]; cbn [foldr]; [by split|].
  split; [etrans; [exact IH1|apply vle_r]|]. constructor; [apply vle_l|].
  eapply Forall_impl; [exact IH2|]. intros x Hx. etrans; [exact Hx|apply vle_r].
Qed.

Lemma everything_least st t : below t st → vle (everything st) t.
Proof.
  destruct st as [v vs]. intros [Hv Hvs]. unfold everything. cbn in *. induction Hvs; cbn [foldr]; auto with vle.
Qed.

(** Every one of [n] replicas has succeeded. *)
Definition round (n : nat) log : Prop := ∀ i, i < n → (i, true) ∈ log.

Lemma gossip_converges st log1 log2 st' :
  gossip st (log1 ++ log2) st' → round (length st.2) log1 → round (length st.2) log2 →
  st'.1 = everything st ∧ Forall (λ u, u = everything st) st'.2.
Proof.
  intros Hg R1 R2. destruct (gossip_app _ _ _ _ Hg) as (st1 & G1 & G2). set (t := everything st).
  pose proof (gossip_below t _ _ _ G1 (below_everything st)) as B1.
  pose proof (gossip_below t _ _ _ G2 B1) as B2.
  destruct (gossip_grows _ _ _ G1) as [M1 L1]. destruct (gossip_grows _ _ _ G2) as [M2 L2].
  assert (vle t st1.1) as T1.
  { apply everything_least. split; [done|]. apply Forall_lookup_2. intros i u Hi.
    apply (gossip_success _ _ _ _ _ G1 (R1 i (lookup_lt_Some _ _ _ Hi)) Hi). }
  split; [apply (anti_symm vle); [apply B2|by etrans]|].
  apply Forall_lookup_2. intros i u' Hi. apply (anti_symm vle); [destruct B2 as [_ B2]; by eapply Forall_lookup in B2|].
  pose proof (lookup_lt_Some _ _ _ Hi) as Hlt. rewrite <- (Forall2_length _ _ _ L2) in Hlt.
  destruct (lookup_lt_is_Some_2 st1.2 i Hlt) as [u Hu]. rewrite <- (Forall2_length _ _ _ L1) in Hlt.
  destruct (gossip_success _ _ _ _ _ G2 (R2 i Hlt) Hu) as (_ & u2 & Hu2 & Hle).
  rewrite Hi in Hu2. injection Hu2 as ->. by etrans.
Qed.
