(* ===== verification/CanvasSync.v ===== *)
(** The synchronisation of the infinite canvas with a WebDAV server:
    [infinite-canvas/src/services/app-sync.ts].

    A domain (the canvas, the assets, the logs of a workbench) is synchronised by
    reading the manifest on the server, merging, fetching the media that are
    missing, storing the result, sending the media that are new and writing the
    manifest.  The operations run on a [World] and may throw.  While a request
    to the server is under way the user can change the local data: [edits] holds
    what the user does during each of them.  Progress events are left out. *)

From Stdlib Require Import ZArith NArith Lia SpecFloat.
From stdpp Require Import gmap.
From S2P Require Import Prelude JsString JsNumber JsValue Json JsRegex JsArray Programs SyncMerge.

(** * Files *)

(** What a blob holds: its size in bytes and what [text()] reads *)
Record Content := mkContent { c_size : N; c_text : jstr }.

#[export] Instance Content_eq_dec : EqDecision Content.
Proof. solve_decision. Defined.

Record Blob := mkBlob { b_type : jstr; b_content : Content }.

Definition b_size (b : Blob) : N := c_size (b_content b).

(** The bytes of a text in UTF-8 *)
Definition utf8_units (c : N) : N :=
  if (c <? 128)%N then 1 else if (c <? 2048)%N then 2
  else if high_surrogate c || low_surrogate c then 2 else 3.

Definition utf8_length (s : jstr) : N := foldr (λ c n, (utf8_units c + n)%N) 0%N s.

Definition text_blob (text type : jstr) : Blob := mkBlob type (mkContent (utf8_length text) text).

Record AppSyncFile := mkFile {
  storageKey : jstr;
  path : jstr;
  mimeType : jstr;
  bytes : num;
}.

(** A blob as the platform makes it: a type of UTF-16 units and a safe size *)
Definition platform_blob (b : Blob) : Prop :=
  units_ok (b_type b) ∧ (Z.of_N (b_size b) ≤ MAX_SAFE_INTEGER)%Z.

Definition num_of_N (n : N) : num := num_of_Z (Z.of_N n).

Definition WEBDAV_MANIFEST_FILE_NAME : jstr := js "manifest.json".

(** * Domains *)

Inductive DomainKey := Canvas | Assets | ImageWorkbench | VideoWorkbench.

#[export] Instance DomainKey_eq_dec : EqDecision DomainKey.
Proof. solve_decision. Defined.

Definition domain_name (d : DomainKey) : jstr :=
  match d with
  | Canvas => js "canvas" | Assets => js "assets"
  | ImageWorkbench => js "image-workbench" | VideoWorkbench => js "video-workbench"
  end.

(** The list in the data of a domain, and the time its items are compared by *)
Definition domain_field (d : DomainKey) : jstr :=
  match d with Canvas => js "projects" | Assets => js "assets" | _ => js "logs" end.
Definition domain_time (d : DomainKey) : jstr :=
  match d with Canvas | Assets => js "updatedAt" | _ => js "createdAt" end.

Definition domainPath (d : DomainKey) (p : jstr) : jstr := domain_name d ++ js "/" ++ p.

Definition manifest_path (d : DomainKey) : jstr := domainPath d WEBDAV_MANIFEST_FILE_NAME.

(** * The server *)

(** What [webdav-sync.ts] promises: [stored] is what the server holds, and
    [address] where it holds a path.  A request that fails may have taken effect. *)
Class Webdav (S : Type) := {
  stored : S → gmap jstr Content;
  address : jstr → jstr;
  downloadWebdavFile : S → jstr → S * (jstr + option Blob);
  uploadWebdavFile : S → jstr → Blob → jstr → S * (jstr + ());
  download_keeps s p : stored (downloadWebdavFile s p).1 = stored s;
  download_some s p b : (downloadWebdavFile s p).2 = inr (Some b) → stored s !! address p = Some (b_content b);
  download_blob s p b : (downloadWebdavFile s p).2 = inr (Some b) → platform_blob b ∧ b_size b ≠ 0%N;
  download_none s p : (downloadWebdavFile s p).2 = inr None →
    match stored s !! address p with Some c => c_size c = 0%N | None => True end;
  upload_stores s p b ty : (uploadWebdavFile s p b ty).2 = inr tt →
    b_size b ≠ 0%N ∧ stored (uploadWebdavFile s p b ty).1 = <[address p := b_content b]> (stored s);
  upload_fails s p b ty e : (uploadWebdavFile s p b ty).2 = inl e →
    stored (uploadWebdavFile s p b ty).1 = stored s
    ∨ b_size b ≠ 0%N ∧ stored (uploadWebdavFile s p b ty).1 = <[address p := b_content b]> (stored s);
  address_media d name : address (domainPath d (js "files/" ++ name)) ≠ address (manifest_path d);
}.

(** * Names of files *)

Definition safe_unit (c : N) : bool := bool_decide (c ∈ jq "\/:*?'<>|").

Definition safeFileName (value : jstr) : jstr := replace_units safe_unit (js "_") value.

Definition fileExtension (mime key : jstr) : jstr :=
  if includes mime (js "png") then js "png"
  else if includes mime (js "jpeg") then js "jpg"
  else if includes mime (js "webp") then js "webp"
  else if includes mime (js "gif") then js "gif"
  else if includes mime (js "mp4") then js "mp4"
  else if includes mime (js "webm") then js "webm"
  else if includes mime (js "wav") then js "wav"
  else if includes mime (js "mpeg") || includes mime (js "mp3") then js "mp3"
  else if startsWith key (js "image:") then js "png" else js "bin".

(** * Manifests *)

Record Manifest := mkManifest {
  exportedAt : jstr;
  m_items : list jsval;
  m_files : list AppSyncFile;
}.

Definition file_value (f : AppSyncFile) : jsval :=
  VObj [(js "storageKey", VStr (storageKey f)); (js "path", VStr (path f));
        (js "mimeType", VStr (mimeType f)); (js "bytes", VNum (bytes f))].

Definition domain_data (d : DomainKey) (items : list jsval) : jsval := VObj [(domain_field d, VArr items)].

Definition manifest_value (d : DomainKey) (m : Manifest) : jsval :=
  VObj [(js "app", VStr (js "infinite-canvas")); (js "version", VNum (num_of_Z 1));
        (js "domain", VStr (domain_name d)); (js "exportedAt", VStr (exportedAt m));
        (js "data", domain_data d (m_items m)); (js "files", VArr (file_value <$> m_files m))].

(** The entries of the manifest are taken as they are. *)
Definition text_prop (v : jsval) (k : jstr) : jstr := match prop v k with VStr s => s | _ => [] end.

Definition file_of (v : jsval) : AppSyncFile :=
  mkFile (text_prop v (js "storageKey")) (text_prop v (js "path")) (text_prop v (js "mimeType"))
    (match prop v (js "bytes") with VNum n => n | _ => NaN end).

(** * Programs *)

Section sync.
Context {S : Type} `{!Webdav S}.
(** [Date.parse], [new Date().toISOString()], and the order in which the
    workers of [runWithConcurrency] finish their tasks *)
Context (date_parse : jstr → num) (now : jstr).
Context (finish_order : ∀ A : Type, list A → list A).

Record World := mkW {
  srv : S;
  images : gmap jstr Blob;
  media : gmap jstr Blob;
  local : list jsval;
  edits : list (option (list jsval));
}.

Definition set_local (l : list jsval) (w : World) : World := mkW (srv w) (images w) (media w) l (edits w).

Definition M (A : Type) : Type := prog World A.

#[local] Open Scope prog_scope.

(** What the user does while a request is under way *)
Definition meanwhile (w : World) : World :=
  match edits w with
  | [] => w
  | e :: es => mkW (srv w) (images w) (media w) (default (local w) e) es
  end.

Definition download (p : jstr) : M (option Blob) := λ w,
  let '(s, r) := downloadWebdavFile (srv w) p in
  let w := meanwhile w in (mkW s (images w) (media w) (local w) (edits w), r).

Definition upload (p : jstr) (b : Blob) (ty : jstr) : M () := λ w,
  let '(s, r) := uploadWebdavFile (srv w) p b ty in
  let w := meanwhile w in (mkW s (images w) (media w) (local w) (edits w), r).

(** The stores of [image-storage.ts] and [file-storage.ts] *)
Definition is_image (key : jstr) : bool := startsWith key (js "image:").

Definition get_blob (w : World) (key : jstr) : option Blob :=
  if is_image key then images w !! key else media w !! key.

Definition set_blob (key : jstr) (b : Blob) : M () := λ w,
  (if is_image key then mkW (srv w) (<[key := b]> (images w)) (media w) (local w) (edits w)
   else mkW (srv w) (images w) (<[key := b]> (media w)) (local w) (edits w), inr tt).

(** [runWithConcurrency]: the tasks in the order in which they finish; the first
    one that throws ends the program *)
Fixpoint run_tasks {A} (worker : A → M ()) (tasks : list A) : M () :=
  match tasks with
  | [] => ret tt
  | t :: tasks => _ <-- worker t;; run_tasks worker tasks
  end.

Definition runWithConcurrency {A} (tasks : list A) (worker : A → M ()) : M () :=
  run_tasks worker (finish_order A tasks).

(** ** Reading the manifest *)

Definition readDomainManifest (d : DomainKey) : M (option (jsval * list AppSyncFile)) :=
  file <-- download (manifest_path d);;
  match file with
  | None => ret None
  | Some b =>
      match JSON_parse (c_text (b_content b)) with
      | None => throw (js "SyntaxError")
      | Some data =>
          if negb (bool_decide (prop data (js "app") = VStr (js "infinite-canvas")))
             || negb (bool_decide (prop data (js "domain") = VStr (domain_name d)))
          then throw (js "config.webdav.errors.invalidManifest")
          else
            ret (Some (if truthy_val (prop data (js "data")) then prop data (js "data") else domain_data d [],
                       match prop data (js "files") with VArr l => file_of <$> l | _ => [] end))
      end
  end.

(** ** Media *)

Definition file_map (files : list AppSyncFile) : list (jstr * AppSyncFile) :=
  foldl (λ m f, omap.set m (storageKey f) f) [] files.

(** The files to fetch: those without a local blob *)
Definition missing_files (w : World) (keys : list jstr) (files : list AppSyncFile) : list AppSyncFile :=
  base.omap (λ key, match get_blob w key with
                    | Some _ => None
                    | None => omap.get (file_map files) key
                    end) keys.

Definition fetch_file (f : AppSyncFile) : M () :=
  blob <-- download (path f);;
  match blob with
  | None => ret tt
  | Some b =>
      set_blob (storageKey f) (if truthy (b_type b) then b else mkBlob (mimeType f) (b_content b))
  end.

Definition downloadMissingFiles (data : jsval) (files : list AppSyncFile) : M () := λ w,
  runWithConcurrency (missing_files w (collectStorageKeys data []) files) fetch_file w.

(** [a || b] on texts *)
Definition text_or (a b : jstr) : jstr := if truthy a then a else b.

Definition file_entry (d : DomainKey) (key : jstr) (b : Blob) (remote : option AppSyncFile) : AppSyncFile :=
  mkFile key
    (text_or (match remote with Some f => path f | None => [] end)
       (domainPath d (js "files/" ++ safeFileName key ++ js "." ++ fileExtension (b_type b) key)))
    (text_or (b_type b) (text_or (match remote with Some f => mimeType f | None => [] end) (js "application/octet-stream")))
    (num_of_N (b_size b)).

(** The entry of a key in the new manifest, and the blob to send for it *)
Definition plan_key (d : DomainKey) (w : World) (files : list AppSyncFile) (key : jstr) :
    option (AppSyncFile * option Blob) :=
  let remote := omap.get (file_map files) key in
  match get_blob w key with
  | None => (λ f, (f, None)) <$> remote
  | Some b =>
      let same := match remote with Some f => num_eqb (bytes f) (num_of_N (b_size b)) | None => false end in
      Some (file_entry d key b remote, if same then None else Some b)
  end.

Definition plan (d : DomainKey) (w : World) (files : list AppSyncFile) (keys : list jstr) :
    list (AppSyncFile * option Blob) := base.omap (plan_key d w files) keys.

Definition upload_tasks (entries : list (AppSyncFile * option Blob)) : list (AppSyncFile * Blob) :=
  base.omap (λ '((f, b) : AppSyncFile * option Blob), (λ b, (f, b)) <$> b) entries.

Definition send_file (t : AppSyncFile * Blob) : M () := upload (path t.1) t.2 (mimeType t.1).

(** The files of the manifest, the number of files sent and their bytes *)
Definition uploadChangedFiles (d : DomainKey) (data : jsval) (files : list AppSyncFile) :
    M (list AppSyncFile * nat * N) := λ w,
  let entries := plan d w files (collectStorageKeys data []) in
  let tasks := upload_tasks entries in
  (_ <-- runWithConcurrency tasks send_file;;
   ret (entries.*1, length tasks, foldr (λ t n, (b_size t.2 + n)%N) 0%N tasks)) w.

(** ** A domain *)

Record SyncDomainOptions := mkOptions {
  o_key : DomainKey;
  applyData : list jsval → M ();
}.

Record SyncDomainResult := mkResult {
  r_data : list jsval;
  mergedRemote : bool;
  r_files : nat;
  manifestBytes : N;
  uploadedFiles : nat;
  uploadedBytes : N;
}.

(** [options.mergeData]: the data of the server must hold a list *)
Definition mergeData (d : DomainKey) (l : list jsval) (remote : jsval) : M (list jsval) :=
  match prop remote (domain_field d) with
  | VArr r => ret (mergeById date_parse (domain_time d) l r)
  | _ => throw (js "TypeError")
  end.

Definition localData : M (list jsval) := λ w, (w, inr (local w)).

(** Sending the new media and the manifest *)
Definition publish (d : DomainKey) (merged : list jsval) (files : list AppSyncFile) (hadRemote : bool) :
    M SyncDomainResult :=
  uploaded <-- uploadChangedFiles d (domain_data d merged) files;;
  let '(entries, sent, sentBytes) := uploaded in
  match JSON_stringify_indented 2 (manifest_value d (mkManifest now merged entries)) with
  | None => throw (js "TypeError")
  | Some text =>
      let manifestFile := text_blob text (js "application/json") in
      _ <-- upload (manifest_path d) manifestFile (js "application/json");;
      ret (mkResult merged hadRemote (length entries) (b_size manifestFile) sent sentBytes)
  end.

Definition syncDomain (o : SyncDomainOptions) : M SyncDomainResult :=
  let d := o_key o in
  remoteManifest <-- readDomainManifest d;;
  local <-- localData;;
  match remoteManifest with
  | Some (data, files) =>
      merged <-- mergeData d local data;;
      _ <-- downloadMissingFiles (domain_data d merged) files;;
      _ <-- applyData o merged;;
      publish d merged files true
  | None => publish d local [] false
  end.

(** ** Storing the result *)

Definition replaceProjects (l : list jsval) : M () := λ w, (set_local l w, inr tt).

(** [resolveImageUrl] and [resolveMediaUrl]: an address of the stored blob *)
Context (object_url : World → jstr → option jstr).

Definition set_prop (v : jsval) (k : jstr) (x : jsval) : jsval :=
  match v with VObj o => VObj (omap.set o k x) | _ => v end.

Definition with_url (w : World) (asset : jsval) (urlKey : jstr) : jsval :=
  let data := prop asset (js "data") in
  let url := default (text_prop data urlKey) (object_url w (text_prop data (js "storageKey"))) in
  set_prop
    (set_prop asset (js "coverUrl")
       (if startsWith (text_prop asset (js "coverUrl")) (js "blob:") then VStr url else prop asset (js "coverUrl")))
    (js "data") (set_prop data urlKey (VStr url)).

Definition hydrateAsset (w : World) (asset : jsval) : jsval :=
  if negb (truthy (text_prop (prop asset (js "data")) (js "storageKey"))) then asset
  else if bool_decide (prop asset (js "kind") = VStr (js "image")) then with_url w asset (js "dataUrl")
  else if bool_decide (prop asset (js "kind") = VStr (js "video")) then with_url w asset (js "url")
  else asset.

Definition replaceAssets (l : list jsval) : M () := λ w, (set_local (hydrateAsset w <$> l) w, inr tt).

(** The logs are kept by identifier; the database may refuse a write. *)
Context (refused : jsval → bool).

Fixpoint put_log (log : jsval) (l : list jsval) : list jsval :=
  match l with
  | [] => [log]
  | x :: l' =>
      match units_compare (item_id log) (item_id x) with
      | Lt => log :: l
      | Eq => log :: l'
      | Gt => x :: put_log log l'
      end
  end.

Definition setItem (log : jsval) : M () := λ w,
  if truthy (item_id log) then
    if refused log then (w, inl (js "QuotaExceededError")) else (set_local (put_log log (local w)) w, inr tt)
  else (w, inr tt).

Definition replaceStoredLogs (logs : list jsval) : M () :=
  _ <-- replaceProjects [];; runWithConcurrency logs setItem.

Definition options (d : DomainKey) : SyncDomainOptions :=
  mkOptions d (match d with
               | Canvas => replaceProjects
               | Assets => replaceAssets
               | ImageWorkbench | VideoWorkbench => replaceStoredLogs
               end).
End sync.
