(* ===== verification/CanvasStore.v ===== *)
(** The data of the infinite canvas on a device: the projects
    ([stores/canvas/use-canvas-store.ts]) and how they are saved, the assets
    ([stores/use-asset-store.ts]), and the stored media with their clean-up
    ([services/image-storage.ts], [services/file-storage.ts]).

    [nanoid()], the clock and the texts of the interface are arguments; an object
    URL is a text made from a counter.  Reading the size of images and videos and
    drawing thumbnails is the browser's: [thumbnail] stands for it. *)

From Stdlib Require Import ZArith NArith Lia.
From stdpp Require Import gmap.
From S2P Require Import Prelude JsString JsNumber JsValue Json JsArray SyncMerge CanvasSync.

(** * Projects *)

Module Projects.
Implicit Types (projects : list jsval) (id title now : jstr) (source patch project : jsval).

Definition initialViewport : jsval :=
  VObj [(js "x", VNum (num_of_Z 0)); (js "y", VNum (num_of_Z 0)); (js "k", VNum (num_of_Z 1))].

Definition new_project id title now : jsval :=
  VObj [(js "id", VStr id); (js "title", VStr title); (js "createdAt", VStr now); (js "updatedAt", VStr now);
        (js "nodes", VArr []); (js "connections", VArr []); (js "chatSessions", VArr []); (js "activeChatId", VNull);
        (js "backgroundMode", VStr (js "lines")); (js "showImageInfo", VBool false); (js "viewport", initialViewport)].

Definition createProject id title now projects : list jsval := new_project id title now :: projects.

(** [a || b] *)
Definition or_else (a b : jsval) : jsval := if truthy_val a then a else b.

Definition imported id untitled now source : jsval :=
  let get k d := or_else (prop source (js k)) d in
  VObj [(js "id", VStr id); (js "title", get "title" (VStr untitled)); (js "createdAt", get "createdAt" (VStr now));
        (js "updatedAt", VStr now); (js "nodes", get "nodes" (VArr [])); (js "connections", get "connections" (VArr []));
        (js "chatSessions", get "chatSessions" (VArr [])); (js "activeChatId", get "activeChatId" VNull);
        (js "backgroundMode", get "backgroundMode" (VStr (js "lines"))); (js "showImageInfo", get "showImageInfo" (VBool false));
        (js "viewport", get "viewport" initialViewport)].

Definition importProject id untitled now source projects : list jsval := imported id untitled now source :: projects.

Definition has_id id project : bool := bool_decide (prop project (js "id") = VStr id).

Definition openProject id projects : option jsval := List.find (has_id id) projects.

(** [{ ...project, ...patch }] *)
Definition spread project patch : jsval :=
  match patch with VObj o => foldl (λ p e, set_prop p e.1 e.2) project o | _ => project end.

Definition renamed title now project : jsval :=
  set_prop (set_prop project (js "title") (if truthy (trim title) then VStr (trim title) else prop project (js "title")))
    (js "updatedAt") (VStr now).

Definition renameProject id title now projects : list jsval :=
  (λ p, if has_id id p then renamed title now p else p) <$> projects.

Definition updated patch now project : jsval := set_prop (spread project patch) (js "updatedAt") (VStr now).

Definition updateProject id patch now projects : list jsval :=
  (λ p, if has_id id p then updated patch now p else p) <$> projects.

Definition deleteProjects (ids : list jstr) projects : list jsval :=
  filter (λ p, existsb (λ id, has_id id p) ids = false) projects.

(** The actions of the store *)
Inductive action :=
  | Create (id title now : jstr)
  | Import (id untitled now : jstr) (source : jsval)
  | Rename (id title now : jstr)
  | Update (id : jstr) (patch : jsval) (now : jstr)
  | Delete (ids : list jstr)
  | Replace (projects : list jsval).

Definition act (a : action) projects : list jsval :=
  match a with
  | Create id title now => createProject id title now projects
  | Import id untitled now source => importProject id untitled now source projects
  | Rename id title now => renameProject id title now projects
  | Update id patch now => updateProject id patch now projects
  | Delete ids => deleteProjects ids projects
  | Replace l => l
  end.
End Projects.

(** * Saving the projects *)

Module Saving.

(** An array of projects and its identity *)
Record Ref := mkRef { ref_id : nat; ref_projects : list jsval }.

(** The module variables and what is on disk *)
Record Saver := mkSaver {
  queuedPersistState : option nat;
  saveTimer : option (list jsval);
  disk : option jstr;
}.

Definition persisted (projects : list jsval) : jsval :=
  VObj [(js "state", VObj [(js "projects", VArr projects)]); (js "version", VNum (num_of_Z 0))].

(** [canvasStorage.setItem]: the timer is started anew *)
Definition setItem (r : Ref) (s : Saver) : Saver :=
  if bool_decide (queuedPersistState s = Some (ref_id r)) then s
  else mkSaver (Some (ref_id r)) (Some (ref_projects r)) (disk s).

(** The timer fires. *)
Definition fire (s : Saver) : Saver :=
  match saveTimer s with
  | None => s
  | Some projects =>
      mkSaver (queuedPersistState s) None
        (match JSON_stringify (persisted projects) with Some text => Some text | None => disk s end)
  end.

(** [canvasStorage.getItem]: the projects read, under a fresh identity *)
Definition getItem (fresh : nat) (s : Saver) : Saver * option Ref :=
  match disk s with
  | None => (s, None)
  | Some text =>
      match JSON_parse text with
      | Some v =>
          match prop (prop v (js "state")) (js "projects") with
          | VArr l => (mkSaver (Some fresh) (saveTimer s) (disk s), Some (mkRef fresh l))
          | _ => (s, None)
          end
      | None => (s, None)
      end
  end.

(** The store with its saver: a change makes a new array, another update keeps it *)
Record Store := mkStore { current : Ref; next_ref : nat; saver : Saver }.

Inductive event := Change (f : list jsval → list jsval) | Touch | Fire.

Definition step (e : event) (s : Store) : Store :=
  match e with
  | Change f =>
      let r := mkRef (next_ref s) (f (ref_projects (current s))) in
      mkStore r (S (next_ref s)) (setItem r (saver s))
  | Touch => mkStore (current s) (next_ref s) (setItem (current s) (saver s))
  | Fire => mkStore (current s) (next_ref s) (fire (saver s))
  end.

Definition run (es : list event) (s : Store) : Store := foldl (λ s e, step e s) s es.

(** The application starts: what was saved is loaded, then the store is marked as
    loaded, which saves it when it is not what was queued. *)
Definition start (saved : option jstr) : Store :=
  let '(sv, r) := getItem 1 (mkSaver None None saved) in
  step Touch (mkStore (default (mkRef 0 []) r) 2 sv).
End Saving.

(** * Stored media *)

Module Storage.
Section storage.
Context (mkurl : nat → jstr) (thumbnail : Blob → option Blob).

Record Disk := mkDisk {
  image_files : gmap jstr Blob;
  image_previews : gmap jstr (option Blob);
  media_files : gmap jstr Blob;
  imageLogStore : list jsval;
  videoLogStore : list jsval;
  imageUrls : gmap jstr jstr;
  previewUrls : gmap jstr jstr;
  mediaUrls : gmap jstr jstr;
  urls_made : nat;
  previewQueue : list jstr;
}.

Definition with_images (f : gmap jstr Blob → gmap jstr Blob) (g : gmap jstr jstr → gmap jstr jstr) (s : Disk) : Disk :=
  mkDisk (f (image_files s)) (image_previews s) (media_files s) (imageLogStore s) (videoLogStore s) (g (imageUrls s))
    (previewUrls s) (mediaUrls s) (urls_made s) (previewQueue s).
Definition with_previews (f : gmap jstr (option Blob) → gmap jstr (option Blob)) (g : gmap jstr jstr → gmap jstr jstr) (s : Disk) : Disk :=
  mkDisk (image_files s) (f (image_previews s)) (media_files s) (imageLogStore s) (videoLogStore s) (imageUrls s)
    (g (previewUrls s)) (mediaUrls s) (urls_made s) (previewQueue s).
Definition with_media (f : gmap jstr Blob → gmap jstr Blob) (g : gmap jstr jstr → gmap jstr jstr) (s : Disk) : Disk :=
  mkDisk (image_files s) (image_previews s) (f (media_files s)) (imageLogStore s) (videoLogStore s) (imageUrls s)
    (previewUrls s) (g (mediaUrls s)) (urls_made s) (previewQueue s).
Definition with_queue (q : list jstr) (s : Disk) : Disk :=
  mkDisk (image_files s) (image_previews s) (media_files s) (imageLogStore s) (videoLogStore s) (imageUrls s)
    (previewUrls s) (mediaUrls s) (urls_made s) q.

(** [URL.createObjectURL] *)
Definition createObjectURL (s : Disk) : Disk * jstr :=
  (mkDisk (image_files s) (image_previews s) (media_files s) (imageLogStore s) (videoLogStore s) (imageUrls s)
     (previewUrls s) (mediaUrls s) (S (urls_made s)) (previewQueue s), mkurl (urls_made s)).

(** ** Previews *)

Definition cacheImagePreview (key : jstr) (s : Disk) : Disk * jstr :=
  let '(s, url) := createObjectURL s in (with_previews id (insert key url) s, url).

Definition storeImagePreview (key : jstr) (original : Blob) (s : Disk) : Disk * option jstr :=
  let preview := thumbnail original in
  let s := with_previews (insert key preview) id s in
  match preview with
  | Some _ => let '(s, url) := cacheImagePreview key s in (s, Some url)
  | None => (s, None)
  end.

Definition deleteImagePreview (key : jstr) (s : Disk) : Disk := with_previews (delete key) (delete key) s.

Definition previewUrlFor (key : jstr) (s : Disk) : option jstr := if truthy key then previewUrls s !! key else None.

Definition ensureImagePreview (key : jstr) (s : Disk) : Disk * option jstr :=
  if negb (truthy key) then (s, None)
  else
    match previewUrls s !! key with
    | Some url => (s, Some url)
    | None =>
        match image_previews s !! key with
        | Some (Some b) => let '(s, url) := cacheImagePreview key s in (s, Some url)
        | Some None => (s, None)
        | None => (with_queue (previewQueue s ++ [key]) s, None)
        end
    end.

(** One task of the queue *)
Definition run_queue (s : Disk) : Disk :=
  match previewQueue s with
  | [] => s
  | key :: q =>
      let s := with_queue q s in
      match image_files s !! key with Some b => (storeImagePreview key b s).1 | None => s end
  end.

(** ** Images *)

(** [storeImage]: [meta] is false when the image cannot be decoded *)
Definition storeImage (nanoid : jstr) (blob : Blob) (meta : bool) (s : Disk) : Disk * option jstr :=
  let key := js "image:" ++ nanoid in
  let '(s, url) := createObjectURL s in
  if meta then ((storeImagePreview key blob (with_images (insert key blob) (insert key url) s)).1, Some key)
  else (with_images (delete key) id s, None).

Definition resolveImageUrl (key fallback : jstr) (s : Disk) : Disk * jstr :=
  if negb (truthy key) then (s, fallback)
  else
    match imageUrls s !! key with
    | Some url => (s, url)
    | None =>
        match image_files s !! key with
        | None => (s, fallback)
        | Some _ => let '(s, url) := createObjectURL s in (with_images id (insert key url) s, url)
        end
    end.

Definition setImageBlob (key : jstr) (blob : Blob) (s : Disk) : Disk * jstr :=
  let s := with_images (insert key blob) id s in
  let s := deleteImagePreview key s in
  let s := (storeImagePreview key blob s).1 in
  let '(s, url) := createObjectURL s in
  (with_images id (insert key url) s, url).

Definition delete_image (key : jstr) (s : Disk) : Disk :=
  with_images (delete key) id (deleteImagePreview key (with_images id (delete key) s)).

Definition deleteStoredImages (keys : list jstr) (s : Disk) : Disk := foldl (λ s key, delete_image key s) s (uniq keys).

(** ** Other media *)

Definition uploadMediaFile (prefix nanoid : jstr) (blob : Blob) (s : Disk) : Disk * jstr :=
  let key := prefix ++ js ":" ++ nanoid in
  let '(s, url) := createObjectURL (with_media (insert key blob) id s) in
  (with_media id (insert key url) s, key).

Definition resolveMediaUrl (key fallback : jstr) (s : Disk) : Disk * jstr :=
  if negb (truthy key) then (s, fallback)
  else
    match mediaUrls s !! key with
    | Some url => (s, url)
    | None =>
        match media_files s !! key with
        | None => (s, fallback)
        | Some _ => let '(s, url) := createObjectURL s in (with_media id (insert key url) s, url)
        end
    end.

Definition setMediaBlob (key : jstr) (blob : Blob) (s : Disk) : Disk * jstr :=
  let '(s, url) := createObjectURL (with_media (insert key blob) id s) in (with_media id (insert key url) s, url).

Definition deleteStoredMedia (keys : list jstr) (s : Disk) : Disk :=
  foldl (λ s key, with_media (delete key) (delete key) s) s (uniq keys).

(** ** Clean-up *)

(** The values of properties named [storageKey], inside objects and arrays *)
Definition collect (accept : jstr → bool) : jsval → list jstr → list jstr :=
  walk (λ _ keys, keys) (λ s keys, if accept s then set_add keys s else keys).

Definition collectImageStorageKeys : jsval → list jstr → list jstr := collect (λ s, startsWith s (js "image:")).
Definition collectMediaStorageKeys : jsval → list jstr → list jstr := collect (λ s, includes s (js ":")).

Definition unused {A} (used : list jstr) (m : gmap jstr A) : list jstr :=
  filter (λ k, k ∉ used) (map_to_list m).*1.

Definition cleanupUnusedImages (usedData : jsval) (s : Disk) : Disk :=
  let used := collectImageStorageKeys usedData [] in
  let used := foldl (λ keys v, collectImageStorageKeys v keys) used (imageLogStore s) in
  let used := foldl (λ keys v, collectImageStorageKeys v keys) used (videoLogStore s) in
  let orphanPreviews := unused used (image_previews s) in
  let s := deleteStoredImages (unused used (image_files s)) s in
  foldl (λ s key, deleteImagePreview key s) s orphanPreviews.

Definition cleanupUnusedMedia (usedData : jsval) (s : Disk) : Disk :=
  let used := collectMediaStorageKeys usedData [] in
  foldl (λ s key, with_media (delete key) id s) s (unused used (media_files s)).

(** ** Assets *)

Definition addAsset (id now : jstr) (asset : jsval) (assets : list jsval) : list jsval :=
  set_prop (set_prop (set_prop asset (js "id") (VStr id)) (js "createdAt") (VStr now)) (js "updatedAt") (VStr now) :: assets.

Definition updateAsset (id now : jstr) (patch : jsval) (assets : list jsval) : list jsval :=
  (λ a, if Projects.has_id id a then Projects.updated patch now a else a) <$> assets.

Definition remaining (id : jstr) (assets : list jsval) : list jsval := filter (λ a, Projects.has_id id a = false) assets.

Definition used_data (assets projects : list jsval) (extra : jsval) : jsval :=
  VObj [(js "assets", VArr assets); (js "projects", VArr projects); (js "extra", extra)].

(** The clean-up that [cleanupImages] starts *)
Definition cleanupImages (assets projects : list jsval) (extra : jsval) (s : Disk) : Disk :=
  cleanupUnusedMedia (used_data assets projects extra) (cleanupUnusedImages (used_data assets projects extra) s).

Definition removeAsset (id : jstr) (assets projects : list jsval) (s : Disk) : list jsval * Disk :=
  let assets := remaining id assets in
  (assets, cleanupImages assets projects (VObj [(js "assets", VArr assets)]) s).

(** Confirming the deletion of projects *)
Definition deleteProjects_confirm (ids : list jstr) (assets projects : list jsval) (s : Disk) : list jsval * Disk :=
  let projects := Projects.deleteProjects ids projects in
  (projects, cleanupImages assets projects VUndef s).
End storage.
End Storage.
