(* ===== verification/Webdav.v ===== *)
(** The WebDAV client of the infinite canvas,
    [infinite-canvas/src/services/webdav-sync.ts].

    The client runs against an HTTP server, of which [HttpServer] states what the
    WebDAV protocol promises, and provides what the synchronisation relies on,
    [Webdav].  Timers only turn a request into an [AbortError]. *)

From Stdlib Require Import ZArith NArith Lia.
From stdpp Require Import gmap.
From S2P Require Import Prelude JsString JsNumber JsValue JsRegex Uri Programs CanvasSync.

(** * HTTP *)

Inductive Method := GET | PUT | MKCOL | PROPFIND.

Record Request := mkRequest {
  method : Method;
  req_url : jstr;
  headers : list (jstr * jstr);
  body : option Blob;
}.

(** Reading the body can fail or last too long. *)
Inductive Body := Read (b : Blob) | TimedOut | ReadFails (message : jstr).

Record Response := mkResponse { status : N; resp_body : Body }.

Definition ok (r : Response) : bool := ((200 <=? status r) && (status r <=? 299))%N.

Inductive FetchError := AbortError | TypeError | OtherError (message : jstr).

(** What a WebDAV server does with files: [PUT] alone changes them, and one that
    fails may have done so. *)
Class HttpServer (H : Type) := {
  web_files : H → gmap jstr Content;
  fetch : H → Request → H * (FetchError + Response);
  fetch_keeps h r : method r ≠ PUT → web_files (fetch h r).1 = web_files h;
  get_ok h r resp b : method r = GET → (fetch h r).2 = inr resp → ok resp = true → resp_body resp = Read b →
    web_files h !! req_url r = Some (b_content b) ∧ platform_blob b;
  get_missing h r resp : method r = GET → (fetch h r).2 = inr resp → status resp = 404%N → web_files h !! req_url r = None;
  put_ok h r resp b : method r = PUT → body r = Some b → (fetch h r).2 = inr resp → ok resp = true →
    web_files (fetch h r).1 = <[req_url r := b_content b]> (web_files h);
  put_any h r b : method r = PUT → body r = Some b →
    web_files (fetch h r).1 = web_files h ∨ web_files (fetch h r).1 = <[req_url r := b_content b]> (web_files h);
}.

(** * The client *)

Record WebdavSyncConfig := mkConfig {
  url : jstr;
  directory : jstr;
  username : jstr;
  password : jstr;
}.

Definition SLASH : N := 47.

Fixpoint strip_start (s : jstr) : jstr :=
  match s with c :: s' => if (c =? SLASH)%N then strip_start s' else s | [] => [] end.

Definition strip_end (s : jstr) : jstr := reverse (strip_start (reverse s)).

Definition normalizePath (path : jstr) : jstr := strip_end (strip_start (trim path)).

Definition filter_truthy (l : list jstr) : list jstr := filter (λ s, truthy s = true) l.

Definition remotePath (directory path : jstr) : jstr :=
  join [SLASH] (filter_truthy [normalizePath directory; normalizePath path]).

(** [None] is a [URIError] *)
Definition buildWebdavUrl (config : WebdavSyncConfig) (path : jstr) : option jstr :=
  let baseUrl := strip_end (trim (url config)) in
  let remote := remotePath (directory config) path in
  if negb (truthy remote) then Some baseUrl
  else (λ parts, baseUrl ++ [SLASH] ++ join [SLASH] parts) <$> mapM encodeURIComponent (split_unit SLASH remote).

Definition encodeBasicAuth (value : jstr) : jstr := btoa (TextEncoder_encode value).

Section client.
Context {H : Type} `{!HttpServer H} (webdavText : jstr → list (jstr * jsval) → jstr).

Record Client := mkClient { http : H; ensuredDirectories : list jstr }.

#[local] Abbreviation W := (prog Client).
#[local] Open Scope prog_scope.

Definition auth_header (config : WebdavSyncConfig) : list (jstr * jstr) :=
  if truthy (username config) || truthy (password config)
  then [(js "Authorization", js "Basic " ++ encodeBasicAuth (username config ++ js ":" ++ password config))] else [].

Definition webdavFetch (config : WebdavSyncConfig) (path : jstr) (m : Method) (hs : list (jstr * jstr)) (b : option Blob) :
    W Response := λ c,
  match buildWebdavUrl config path with
  | None => (c, inl (js "URI malformed"))
  | Some u =>
      let '(h, r) := fetch (http c) (mkRequest m u (hs ++ auth_header config) b) in
      (mkClient h (ensuredDirectories c),
       match r with
       | inr resp => inr resp
       | inl AbortError => inl (webdavText (js "requestTimeout") [])
       | inl TypeError => inl (webdavText (js "connectionFailed") [])
       | inl (OtherError message) => inl message
       end)
  end.

(** [await response.text().catch(() => '')] *)
Definition response_text (r : Response) : jstr := match resp_body r with Read b => c_text (b_content b) | _ => [] end.

Definition throwWebdavError {A} (r : Response) (fallback : jstr) : W A :=
  let detail := response_text r in
  if bool_decide (status r = 401%N) || bool_decide (status r = 403%N) then throw (webdavText (js "authenticationFailed") [])
  else if bool_decide (status r = 404%N) then throw (webdavText (js "pathMissing") [])
  else throw (webdavText (js "responseFailed")
    [(js "fallback", VStr fallback); (js "status", VNum (num_of_N (status r)));
     (js "detail", VStr (if truthy detail then js " " ++ slice detail 0 120 else []))]).

Definition assertWebdavConfig (config : WebdavSyncConfig) : W () :=
  if negb (truthy (trim (url config))) then throw (webdavText (js "urlRequired") []) else ret tt.

Definition no_directory (config : WebdavSyncConfig) : WebdavSyncConfig :=
  mkConfig (url config) [] (username config) (password config).

Definition webdavDirectoryExists (config : WebdavSyncConfig) (path : jstr) : W bool :=
  response <-- webdavFetch (no_directory config) path PROPFIND [(js "Depth", js "0")] None;;
  ret (ok response || bool_decide (status response = 207%N)).

(** Creating the collections of a path, one after the other *)
Fixpoint make_directories (config : WebdavSyncConfig) (path : jstr) (parts : list jstr) : W () :=
  match parts with
  | [] => ret tt
  | part :: parts =>
      let path := if truthy path then path ++ [SLASH] ++ part else part in
      response <-- webdavFetch (no_directory config) path MKCOL [] None;;
      if ok response then make_directories config path parts
      else if bool_decide (status response = 405%N) || bool_decide (status response = 423%N) then
        exists_ <-- webdavDirectoryExists config path;;
        if exists_ : bool then make_directories config path parts
        else throwWebdavError response (webdavText (js "directoryFailed") [])
      else throwWebdavError response (webdavText (js "directoryFailed") [])
  end.

Definition path_parts (directory : jstr) : list jstr := filter_truthy (split_unit SLASH (normalizePath directory)).

Definition cache_key (config : WebdavSyncConfig) (directory : jstr) : jstr :=
  url config ++ js ":" ++ join [SLASH] (path_parts directory).

Definition ensureWebdavDirectoryPath (config : WebdavSyncConfig) (directory : jstr) : W () := λ c,
  if bool_decide (cache_key config directory ∈ ensuredDirectories c) then (c, inr tt)
  else
    (_ <-- make_directories config [] (path_parts directory);;
     λ c, (mkClient (http c) (set_add (ensuredDirectories c) (cache_key config directory)), inr tt)) c.

Definition ensureWebdavDirectory (config : WebdavSyncConfig) : W () :=
  _ <-- assertWebdavConfig config;; ensureWebdavDirectoryPath config (directory config).

(** [normalizePath(path).split('/').slice(0, -1).join('/')] *)
Definition parent_directory (path : jstr) : jstr :=
  join [SLASH] (let parts := split_unit SLASH (normalizePath path) in take (length parts - 1) parts).

Definition ensureWebdavSubdirectory (config : WebdavSyncConfig) (path : jstr) : W () :=
  let dir := parent_directory path in
  if negb (truthy dir) then ret tt
  else ensureWebdavDirectoryPath config (join [SLASH] (filter_truthy [directory config; dir])).

Definition testWebdavConnection (config : WebdavSyncConfig) : W () :=
  _ <-- ensureWebdavDirectory config;;
  response <-- webdavFetch config [] PROPFIND [(js "Depth", js "0")] None;;
  if ok response || bool_decide (status response = 207%N) then ret tt
  else throwWebdavError response (webdavText (js "testFailed") []).

Definition downloadFile (config : WebdavSyncConfig) (path : jstr) : W (option Blob) :=
  _ <-- ensureWebdavDirectory config;;
  response <-- webdavFetch config path GET [] None;;
  if bool_decide (status response = 404%N) then ret None
  else if negb (ok response) then throwWebdavError response (webdavText (js "downloadFailed") [])
  else
    match resp_body response with
    | TimedOut => throw (webdavText (js "downloadTimeout") [])
    | ReadFails message => throw message
    | Read file => ret (if (b_size file =? 0)%N then None else Some file)
    end.

Definition uploadFile (config : WebdavSyncConfig) (path : jstr) (file : Blob) (contentType : jstr) : W () :=
  if (b_size file =? 0)%N then throw (webdavText (js "emptyUpload") [])
  else
    _ <-- ensureWebdavDirectory config;;
    _ <-- ensureWebdavSubdirectory config path;;
    response <-- webdavFetch config path PUT [(js "Content-Type", contentType)] (Some file);;
    if negb (ok response) then throwWebdavError response (webdavText (js "uploadFailed") []) else ret tt.

Definition downloadWebdavSyncFile (config : WebdavSyncConfig) : W (option Blob) :=
  downloadFile config WEBDAV_MANIFEST_FILE_NAME.

Definition uploadWebdavSyncFile (config : WebdavSyncConfig) (file : Blob) : W () :=
  uploadFile config WEBDAV_MANIFEST_FILE_NAME file (js "application/json").
End client.
