(* ===== verification/WebdavProps.v ===== *)
(** The WebDAV client provides what the synchronisation relies on: an instance of
    [Webdav] for every HTTP server that keeps the protocol, and a server that does. *)

From Stdlib Require Import ZArith NArith Lia.
From stdpp Require Import gmap.
From S2P Require Import Prelude JsString JsNumber JsValue JsRegex Uri Programs CanvasSync Webdav.

(** * Requests that keep the files *)

Section client.
Context {H : Type} `{!HttpServer H} (webdavText : jstr → list (jstr * jsval) → jstr) (config : WebdavSyncConfig).
#[local] Abbreviation Client := (Client (H := H)).
Implicit Types (c : Client) (p : jstr).

Definition same_files c c' : Prop := web_files (http c') = web_files (http c).

#[local] Instance same_files_refl : Reflexive same_files.
Proof. done. Qed.

#[local] Instance same_files_trans : Transitive same_files.
Proof. unfold same_files. intros c1 c2 c3 E1 E2. congruence. Qed.

Lemma fetch_same cfg p m hs b : m ≠ PUT → keeps same_files (webdavFetch webdavText cfg p m hs b).
Proof.
  intros Hm c. unfold webdavFetch, same_files. destruct (buildWebdavUrl cfg p) as [u|]; [|done].
  pose proof (fetch_keeps (http c) (mkRequest m u (hs ++ auth_header cfg) b) Hm) as Hk. by destruct (fetch _ _).
Qed.

Lemma error_same {A} r e : keeps same_files (throwWebdavError (A := A) webdavText r e).
Proof. intros c. unfold throwWebdavError. by repeat case_match. Qed.

Lemma make_directories_same p parts : keeps same_files (make_directories webdavText config p parts).
Proof.
  revert p. induction parts as [|part parts IH]; intros p; cbn [make_directories]; [apply (keeps_ret _)|].
  apply keeps_bind; [apply _|by apply fetch_same|]. intros r. destruct (ok r); [apply IH|].
  destruct (_ || _); [|apply error_same]. apply keeps_bind; [apply _| |intros []; [apply IH|apply error_same]].
  apply keeps_bind; [apply _|by apply fetch_same|]. intros r'. apply (keeps_ret _).
Qed.

Lemma ensure_path_same dir : keeps same_files (ensureWebdavDirectoryPath webdavText config dir).
Proof.
  intros c. unfold ensureWebdavDirectoryPath. case_bool_decide; [done|].
  apply (keeps_bind same_files (make_directories _ _ _ _)); [apply make_directories_same|]. by intros a c'.
Qed.

Lemma ensure_same : keeps same_files (ensureWebdavDirectory webdavText config).
Proof.
  apply keeps_bind; [apply _| |intros _; apply ensure_path_same]. intros c. unfold assertWebdavConfig. by destruct (negb _).
Qed.

Lemma ensure_sub_same p : keeps same_files (ensureWebdavSubdirectory webdavText config p).
Proof. unfold ensureWebdavSubdirectory. destruct (negb _); [apply (keeps_ret _)|apply ensure_path_same]. Qed.

(** ** Downloads *)

Definition address_of p : jstr := default [] (buildWebdavUrl config p).

(** What was fetched from where *)
Lemma fetched_from p m hs b c c' resp :
  webdavFetch webdavText config p m hs b c = (c', inr resp) →
  let r := mkRequest m (address_of p) (hs ++ auth_header config) b in
  fetch (http c) r = (http c', inr resp).
Proof.
  unfold webdavFetch, address_of. destruct (buildWebdavUrl config p) as [u|]; [|done]. cbn [default from_option id].
  destruct (fetch _ _) as [h [[]|r]]; try done. by intros [= <- <-].
Qed.

Lemma download_keeps_files p : keeps same_files (downloadFile webdavText config p).
Proof.
  apply keeps_bind; [apply _|apply ensure_same|]. intros _. apply keeps_bind; [apply _|by apply fetch_same|].
  intros r. case_bool_decide; [apply (keeps_ret _)|]. destruct (negb _); [apply error_same|].
  destruct (resp_body r); [apply (keeps_ret _)|apply (keeps_throw _)..].
Qed.

Lemma download_result p c x :
  (downloadFile webdavText config p c).2 = inr x →
  match x with
  | Some b => web_files (http c) !! address_of p = Some (b_content b) ∧ platform_blob b ∧ b_size b ≠ 0%N
  | None => match web_files (http c) !! address_of p with Some ct => c_size ct = 0%N | None => True end
  end.
Proof.
  unfold downloadFile, bind at 1. pose proof (ensure_same c) as Hs. unfold same_files in Hs.
  destruct (ensureWebdavDirectory webdavText config c) as [c1 [e|[]]]; [done|]. cbn [fst] in Hs. rewrite <- Hs.
  unfold bind. destruct (webdavFetch _ _ _ _ _ _ c1) as [c2 [e|resp]] eqn:E; [done|].
  apply fetched_from in E. set (r := mkRequest _ _ _ _) in E.
  assert ((fetch (http c1) r).2 = inr resp) as Hr by (cbv zeta in E; by rewrite E).
  case_bool_decide as H404.
  { intros [= <-]. pose proof (get_missing _ r resp eq_refl Hr H404) as Hn. cbn in Hn. by rewrite Hn. }
  destruct (ok resp) eqn:Eok; cbn [negb]; [|unfold throwWebdavError; by repeat case_match].
  destruct (resp_body resp) as [b| |m] eqn:Eb; [|done..].
  destruct (get_ok _ r resp b eq_refl Hr Eok Eb) as [Hf Hp]. cbn in Hf. rewrite Hf. intros [= <-].
  destruct (N.eqb_spec (b_size b) 0); done.
Qed.

(** ** Uploads *)

Lemma upload_result p b ty c :
  let '(c', r) := uploadFile webdavText config p b ty c in
  match r with
  | inr _ => b_size b ≠ 0%N ∧ web_files (http c') = <[address_of p := b_content b]> (web_files (http c))
  | inl _ => web_files (http c') = web_files (http c)
             ∨ b_size b ≠ 0%N ∧ web_files (http c') = <[address_of p := b_content b]> (web_files (http c))
  end.
Proof.
  unfold uploadFile. destruct (N.eqb_spec (b_size b) 0) as [|Hb]; [by left|].
  unfold bind at 1. pose proof (ensure_same c) as Hs. unfold same_files in Hs.
  destruct (ensureWebdavDirectory webdavText config c) as [c1 [e|[]]]; cbn [fst] in Hs; [by left|].
  unfold bind at 1. pose proof (ensure_sub_same p c1) as Hs1. unfold same_files in Hs1.
  destruct (ensureWebdavSubdirectory webdavText config p c1) as [c2 [e|[]]]; cbn [fst] in Hs1; rewrite <- Hs, <- Hs1; [by left|].
  unfold bind. destruct (webdavFetch _ _ _ _ _ _ c2) as [c3 [e|resp]] eqn:E.
  - unfold webdavFetch in E. unfold address_of. destruct (buildWebdavUrl config p) as [u|]; [|injection E as <- _; by left].
    cbn [default from_option id]. set (r := mkRequest _ _ _ _) in E.
    pose proof (put_any (http c2) r b eq_refl eq_refl) as Hp. destruct (fetch (http c2) r) as [h x]. injection E as <- _.
    cbn in Hp |- *. destruct Hp; auto.
  - apply fetched_from in E. set (r := mkRequest _ _ _ _) in E. cbv zeta in E. fold r in E.
    destruct (ok resp) eqn:Eok; cbn [negb].
    + split; [done|]. pose proof (put_ok (http c2) r resp b eq_refl eq_refl) as Hp. rewrite E in Hp. by apply Hp.
    + pose proof (put_any (http c2) r b eq_refl eq_refl) as Hp. rewrite E in Hp. cbn in Hp.
      assert (web_files (http c3) = web_files (http c2)
        ∨ b_size b ≠ 0%N ∧ web_files (http c3) = <[address_of p := b_content b]> (web_files (http c2))) by (destruct Hp; auto).
      unfold throwWebdavError, throw. case_bool_decide; [done|]. case_bool_decide; [done|]. by case_bool_decide.
Qed.
End client.

(** * Addresses *)

Lemma split_unit_app_any c a b : split_unit c (a ++ [c] ++ b) = split_unit c a ++ split_unit c b.
Proof.
  induction a as [|x a IH]; cbn in *; [by rewrite N.eqb_refl|]. destruct (x =? c)%N; [by rewrite IH|].
  rewrite IH. destruct (split_unit c a) eqn:E; [by apply split_unit_nonempty in E|done].
Qed.

Lemma split_unit_free_app c p s :
  c ∉ p → ∃ h t, split_unit c s = h :: t ∧ split_unit c (p ++ s) = (p ++ h) :: t.
Proof.
  intros Hp. destruct (split_unit c s) as [|h t] eqn:E; [by apply split_unit_nonempty in E|].
  exists h, t. split; [done|]. induction p as [|x p IH]; [done|]. apply not_elem_of_cons in Hp as [Hx Hp].
  cbn. rewrite (proj2 (N.eqb_neq x c)) by done. by rewrite IH.
Qed.

Lemma join_app_any sep (l1 l2 : list jstr) : l1 ≠ [] → l2 ≠ [] → join sep (l1 ++ l2) = join sep l1 ++ sep ++ join sep l2.
Proof.
  intros H1 H2. induction l1 as [|x l1 IH]; [done|]. destruct l1 as [|y l1].
  - cbn. by destruct l2.
  - change (join sep ((x :: y :: l1) ++ l2)) with (x ++ sep ++ join sep ((y :: l1) ++ l2)). rewrite IH by done.
    change (join sep (x :: y :: l1)) with (x ++ sep ++ join sep (y :: l1)). by rewrite <- !app_assoc.
Qed.

Lemma mapM_nonempty {A B} (f : A → option B) l k : mapM f l = Some k → l ≠ [] → k ≠ [].
Proof. intros E Hl ->. apply mapM_Some_1, Forall2_nil_inv_r in E. done. Qed.

Lemma trimStart_app a b : no_lead b → trimStart (a ++ b) = trimStart a ++ b.
Proof.
  intros Hb. induction a as [|c a IH]; [by rewrite app_nil_l, trimStart_id|]. rewrite <- app_comm_cons. cbn [trimStart].
  by destruct (is_ws c).
Qed.

Definition no_slash_lead (s : jstr) : Prop := match s with [] => True | c :: _ => c ≠ SLASH end.

Lemma strip_start_app a b : no_slash_lead b → strip_start (a ++ b) = strip_start a ++ b.
Proof.
  intros Hb. induction a as [|c a IH].
  - destruct b as [|c b]; [done|]. cbn in Hb |- *. by rewrite (proj2 (N.eqb_neq c SLASH)).
  - rewrite <- app_comm_cons. cbn [strip_start]. by destruct (c =? SLASH)%N.
Qed.

(** A path that starts with a name keeps it. *)
Definition solid (p : jstr) : Prop :=
  no_lead p ∧ no_lead (reverse p) ∧ no_slash_lead p ∧ no_slash_lead (reverse p) ∧ p ≠ [].

Lemma normalize_solid p s : solid p → ∃ s', normalizePath (p ++ s) = p ++ s'.
Proof.
  intros (H1 & H2 & H3 & H4 & H5). unfold normalizePath, trim, trimEnd, strip_end.
  rewrite (trimStart_id (p ++ s)) by (by destruct p). rewrite reverse_app, trimStart_app by done.
  rewrite reverse_app, reverse_involutive. set (t := reverse (trimStart (reverse s))).
  assert (strip_start (p ++ t) = p ++ t) as ->.
  { destruct p as [|c p]; [done|]. cbn in H3 |- *. by rewrite (proj2 (N.eqb_neq c SLASH)). }
  rewrite reverse_app, strip_start_app by done. rewrite reverse_app, reverse_involutive. by eexists.
Qed.

Section address.
Context (config : WebdavSyncConfig).

Definition encoded_directory : option (list jstr) :=
  mapM encodeURIComponent (split_unit SLASH (normalizePath (directory config))).

(** A directory whose name is text: no half of a surrogate pair *)
Context (Hdir : is_Some encoded_directory).

Lemma url_under :
  ∃ prefix, (∀ q, truthy (normalizePath q) = true →
    buildWebdavUrl config q = (λ parts, prefix ++ [SLASH] ++ join [SLASH] parts)
                              <$> mapM encodeURIComponent (split_unit SLASH (normalizePath q))).
Proof.
  unfold buildWebdavUrl, remotePath, filter_truthy. destruct (truthy (normalizePath (directory config))) eqn:Ed.
  - destruct Hdir as [ds Hds]. unfold encoded_directory in Hds.
    exists (strip_end (trim (url config)) ++ [SLASH] ++ join [SLASH] ds). intros q Hq.
    rewrite !filter_cons, filter_nil. rewrite !decide_True by done. cbn [join].
    assert (truthy (normalizePath (directory config) ++ [SLASH] ++ normalizePath q) = true) as -> by (by destruct (normalizePath _)).
    cbn [negb]. rewrite split_unit_app_any. set (qs := split_unit SLASH (normalizePath q)).
    destruct (mapM encodeURIComponent qs) as [es|] eqn:Eq.
    + rewrite (proj2 (mapM_app_Some encodeURIComponent _ _ (ds ++ es))) by (by eexists _, _). cbn.
      rewrite join_app_any.
      * by rewrite <- !app_assoc.
      * by eapply mapM_nonempty, split_unit_nonempty.
      * by eapply mapM_nonempty, split_unit_nonempty.
    + destruct (mapM _ (_ ++ qs)) eqn:E; [|done]. apply mapM_app_Some in E as (r1 & r2 & _ & E & _). congruence.
  - exists (strip_end (trim (url config))). intros q Hq. rewrite !filter_cons, filter_nil.
    rewrite (decide_False (P := truthy (normalizePath (directory config)) = true)) by congruence.
    rewrite decide_True by done. cbn [join]. by rewrite Hq.
Qed.

(** Media are not stored where the manifest is. *)
Lemma media_address d name :
  address_of config (domainPath d (js "files/" ++ name)) ≠ address_of config (manifest_path d).
Proof.
  destruct url_under as [prefix Hurl]. unfold address_of.
  assert (domainPath d (js "files/" ++ name) = (domain_name d ++ [SLASH] ++ js "files") ++ [SLASH] ++ name) as ->
    by (unfold domainPath; by rewrite <- !app_assoc).
  destruct (normalize_solid (domain_name d ++ [SLASH] ++ js "files") ([SLASH] ++ name)) as [s' E].
  { unfold solid. by destruct d. }
  rewrite (Hurl (manifest_path d)) by (by destruct d).
  assert (mapM encodeURIComponent (split_unit SLASH (normalizePath (manifest_path d)))
    = Some [domain_name d; js "manifest.json"]) as -> by (by destruct d; vm_compute).
  rewrite Hurl, E by (rewrite E; by destruct d). rewrite <- !app_assoc, split_unit_app by (by destruct d; vm_compute; set_solver).
  destruct (split_unit_free_app SLASH (js "files") s') as (h & t & _ & ->); [by vm_compute; set_solver|].
  destruct (mapM encodeURIComponent _) as [l|] eqn:Em; cbn [fmap option_fmap option_map default from_option id].
  2: { intros Hn. symmetry in Hn. by apply app_eq_nil in Hn as [_ ?]. }
  apply mapM_Some_1 in Em. apply Forall2_cons_inv_l in Em as (e1 & l1 & E1 & Em & ->).
  apply Forall2_cons_inv_l in Em as (e2 & l2 & E2 & _ & ->).
  assert (e1 = domain_name d) as -> by (assert (encodeURIComponent (domain_name d) = Some (domain_name d)) as E0
    by (by destruct d; vm_compute); congruence).
  apply encode_app_plain in E2 as (a & b & Ea & _ & ->); [|apply (bool_decide_unpack _); by vm_compute].
  assert (a = js "files") as -> by (assert (encodeURIComponent (js "files") = Some (js "files")) as E0 by (by vm_compute); congruence).
  change (join [SLASH] (domain_name d :: (js "files" ++ b) :: l2)) with
    (domain_name d ++ [SLASH] ++ join [SLASH] ((js "files" ++ b) :: l2)).
  change (join [SLASH] [domain_name d; js "manifest.json"]) with (domain_name d ++ [SLASH] ++ js "manifest.json").
  intros Hj%app_inv_head%app_inv_head%app_inv_head%app_inv_head. by destruct l2.
Qed.
End address.

(** * The instance *)

Section instance.
Context {H : Type} `{!HttpServer H} (webdavText : jstr → list (jstr * jsval) → jstr).
Context (config : WebdavSyncConfig) (Hdir : is_Some (encoded_directory config)).

Program Definition client_webdav : Webdav (Client (H := H)) := {|
  stored c := web_files (http c);
  address := address_of config;
  downloadWebdavFile c p := downloadFile webdavText config p c;
  uploadWebdavFile c p b ty := uploadFile webdavText config p b ty c;
|}.
Next Obligation. intros c p. apply download_keeps_files. Qed.
Next Obligation. intros c p b E. apply (download_result webdavText config p c (Some b) E). Qed.
Next Obligation. intros c p b E. apply (download_result webdavText config p c (Some b) E). Qed.
Next Obligation. intros c p E. exact (download_result webdavText config p c None E). Qed.
Next Obligation.
  intros c p b ty E. cbn beta in E |- *. pose proof (upload_result webdavText config p b ty c) as Hu.
  destruct (uploadFile webdavText config p b ty c) as [c' r]. simpl in E. by rewrite E in Hu.
Qed.
Next Obligation.
  intros c p b ty e E. cbn beta in E |- *. pose proof (upload_result webdavText config p b ty c) as Hu.
  destruct (uploadFile webdavText config p b ty c) as [c' r]. simpl in E. by rewrite E in Hu.
Qed.
Next Obligation. intros d name. by apply media_address. Qed.
End instance.

(** * A server that keeps the protocol *)

(** Files in memory, and how many of the next requests reach them: a request that
    does not is lost on the way.  What is too large to read is refused. *)
Record Memory := mkMemory { mem : gmap jstr Content; reach : list bool }.

Definition served (c : Content) : N + Blob :=
  if bool_decide (Z.of_N (c_size c) ≤ MAX_SAFE_INTEGER)%Z then inr (mkBlob [] c) else inl 500%N.

Definition memory_fetch (h : Memory) (r : Request) : Memory * (FetchError + Response) :=
  let next := mkMemory (mem h) (tail (reach h)) in
  if default true (head (reach h)) then
    match method r with
    | GET =>
        (next, inr (match served <$> mem h !! req_url r with
                    | Some (inr b) => mkResponse 200 (Read b)
                    | Some (inl code) => mkResponse code TimedOut
                    | None => mkResponse 404 (Read (text_blob (js "Not Found") []))
                    end))
    | PUT =>
        match body r with
        | Some b => (mkMemory (<[req_url r := b_content b]> (mem h)) (tail (reach h)), inr (mkResponse 201 (Read (text_blob [] []))))
        | None => (next, inr (mkResponse 400 (Read (text_blob [] []))))
        end
    | MKCOL => (next, inr (mkResponse 405 (Read (text_blob [] []))))
    | PROPFIND => (next, inr (mkResponse 207 (Read (text_blob [] []))))
    end
  else (next, inl TypeError).

#[export] Program Instance memory_server : HttpServer Memory := {
  web_files := mem;
  fetch := memory_fetch;
}.
Next Obligation.
  intros h r Hm. unfold memory_fetch. destruct (default true _); [|done]. by destruct (method r).
Qed.
Next Obligation.
  intros h r resp b Hm. unfold memory_fetch. rewrite Hm. destruct (default true _); [|done]. cbn. intros [= <-].
  destruct (mem h !! req_url r) as [c|]; cbn; [|done]. unfold served. case_bool_decide as Hc; cbn; [|done].
  intros _ [= <-]. split; [done|]. split; [constructor|done].
Qed.
Next Obligation.
  intros h r resp Hm. unfold memory_fetch. rewrite Hm. destruct (default true _); [|done]. cbn. intros [= <-].
  destruct (mem h !! req_url r) as [c|]; cbn; [|done]. unfold served. by case_bool_decide.
Qed.
Next Obligation.
  intros h r resp b Hm Hb. unfold memory_fetch. rewrite Hm, Hb. by destruct (default true _).
Qed.
Next Obligation.
  intros h r b Hm Hb. unfold memory_fetch. rewrite Hm, Hb. destruct (default true _); [by right|by left].
Qed.
