(* ===== verification/Pool.v ===== *)
(** [runWithConcurrency] of [infinite-canvas/src/services/app-sync.ts]: a few
    workers take the tasks of a list one by one.

    The workers share [nextIndex].  A worker that finishes a task takes the next
    one or ends; one whose task throws ends, and the whole call is rejected.
    Which of the tasks under way finishes next is up to the environment. *)

From Stdlib Require Import Lia.
From S2P Require Import Prelude.

Section pool.
Context {R : Type} (limit n : nat).

Record pool := mkPool {
  nextIndex : nat;
  running : list nat;
  results : list (option R);
  finished : list nat;
  failed : list nat;
}.

(** A worker takes the next task, if there is one. *)
Definition take_next (p : pool) : pool :=
  if (nextIndex p <? n)%nat
  then mkPool (S (nextIndex p)) (running p ++ [nextIndex p]) (results p) (finished p) (failed p)
  else p.

Definition start : pool := Nat.iter (Nat.min limit n) take_next (mkPool 0 [] (replicate n None) [] []).

Inductive event := Finish (i : nat) (r : R) | Throw (i : nat).

Definition step (p : pool) (e : event) : option pool :=
  match e with
  | Finish i r =>
      if decide (i ∈ running p)
      then Some (take_next (mkPool (nextIndex p) (filter (λ j, j ≠ i) (running p)) (<[i := Some r]> (results p))
                              (finished p ++ [i]) (failed p)))
      else None
  | Throw i =>
      if decide (i ∈ running p)
      then Some (mkPool (nextIndex p) (filter (λ j, j ≠ i) (running p)) (results p) (finished p) (failed p ++ [i]))
      else None
  end.

Inductive reachable : pool → Prop :=
  | reach_start : reachable start
  | reach_step p e p' : reachable p → step p e = Some p' → reachable p'.

Fixpoint run (p : pool) (es : list event) : option pool :=
  match es with [] => Some p | e :: es => p' ← step p e; run p' es end.

Lemma run_reachable p es p' : reachable p → run p es = Some p' → reachable p'.
Proof.
  revert p. induction es as [|e es IH]; intros p Hp Hr; cbn [run] in Hr; [by injection Hr as <-|].
  destruct (step p e) as [q|] eqn:E; [|done]. eapply IH; [|exact Hr]. by eapply reach_step.
Qed.

(** ** The tasks taken so far are running, finished or failed, each once. *)
Definition taken (p : pool) : list nat := running p ++ finished p ++ failed p.

Record sound (p : pool) : Prop := mkSound {
  sound_taken : taken p ≡ₚ seq 0 (nextIndex p);
  sound_next : nextIndex p ≤ n;
  sound_length : length (results p) = n;
  sound_results i : is_Some (mjoin (results p !! i)) ↔ i ∈ finished p;
}.

(** The workers are never more than the limit, and none rests while there are
    tasks, unless one has thrown. *)
Definition busy (p : pool) : Prop :=
  length (running p) ≤ Nat.min limit n
  ∧ (failed p = [] → nextIndex p < n → length (running p) = Nat.min limit n).

Lemma take_next_sound p : sound p → sound (take_next p).
Proof.
  intros [Ht Hn Hl Hr]. unfold take_next. destruct (Nat.ltb_spec (nextIndex p) n); [|done].
  split; cbn; [|lia|done|done]. unfold taken in *. cbn. rewrite <- app_assoc. cbn [app].
  change (0 :: seq 1 (nextIndex p)) with (seq 0 (S (nextIndex p))).
  by rewrite seq_S, <- Permutation_middle, Ht, Permutation_cons_append.
Qed.

Lemma start_spec k :
  k ≤ n → sound (Nat.iter k take_next (mkPool 0 [] (replicate n None) [] []))
          ∧ running (Nat.iter k take_next (mkPool 0 [] (replicate n None) [] [])) = seq 0 k
          ∧ nextIndex (Nat.iter k take_next (mkPool 0 [] (replicate n None) [] [])) = k
          ∧ failed (Nat.iter k take_next (mkPool 0 [] (replicate n None) [] [])) = [].
Proof.
  induction k as [|k IH]; intros Hk.
  - split_and!; [|done..]. split; cbn; [done|lia|by rewrite length_replicate|].
    intros i. split; [|by intros ?%elem_of_nil]. intros [x Hx].
    destruct (replicate n None !! i) as [y|] eqn:E; [|done]. apply lookup_replicate in E as [-> _]. done.
  - destruct IH as (Hs & Hr & Hn & Hf); [lia|]. cbn [Nat.iter nat_rect]. revert Hs Hr Hn Hf.
    change (nat_rect _ ?a ?f k) with (Nat.iter k take_next (mkPool 0 [] (replicate n (@None R)) [] [])).
    generalize (Nat.iter k take_next (mkPool 0 [] (replicate n (@None R)) [] [])). intros p Hs Hr Hn Hf.
    split; [by apply take_next_sound|]. unfold take_next. rewrite Hn. rewrite (proj2 (Nat.ltb_lt k n)) by lia. cbn.
    by rewrite Hr, <- seq_S.
Qed.

(** A task that runs runs once. *)
Lemma running_split p i :
  sound p → i ∈ running p → running p ≡ₚ i :: filter (λ j, j ≠ i) (running p).
Proof.
  intros [Ht _ _ _] Hi. assert (NoDup (running p)) as Hnd.
  { assert (NoDup (taken p)) as H by (rewrite Ht; apply NoDup_seq). by apply NoDup_app in H as (H & _ & _). }
  clear Ht. induction (running p) as [|j l IH]; [by apply elem_of_nil in Hi|].
  apply NoDup_cons in Hnd as [Hj Hnd]. rewrite filter_cons. destruct (decide (j ≠ i)) as [Hne|He].
  - apply elem_of_cons in Hi as [->|Hi]; [done|]. rewrite (IH Hi Hnd) at 1. apply Permutation_swap.
  - apply dec_stable in He as ->. rewrite filter_id; [done|]. apply Forall_forall. by intros k Hk ->.
Qed.

Lemma step_sound p e p' : sound p → busy p → step p e = Some p' → sound p' ∧ busy p'.
Proof.
  intros Hs [Hb1 Hb2] He.
  assert (∀ i, i ∈ running p → ∀ q, running q = filter (λ j, j ≠ i) (running p) →
    S (length (running q)) = length (running p)) as Hlen.
  { intros i Hi q ->. by rewrite (running_split p i Hs Hi) at 2. }
  destruct e as [i r|i]; cbn in He; (destruct (decide (i ∈ running p)) as [Hi|]; [|done]); injection He as <-;
    pose proof (running_split p i Hs Hi) as Hsplit; destruct Hs as [Ht Hn Hl Hr].
  - set (q := mkPool _ _ _ _ _). specialize (Hlen i Hi q eq_refl).
    assert (sound q) as Hq.
    { subst q. split; cbn; [| done | by rewrite length_insert |].
      - rewrite <- Ht. unfold taken. cbn. transitivity ((i :: filter (λ j, j ≠ i) (running p)) ++ finished p ++ failed p).
        + rewrite <- app_assoc. cbn [app]. by rewrite <- (Permutation_middle (finished p)), <- Permutation_middle.
        + apply Permutation_app_tail. by symmetry.
      - intros j. rewrite elem_of_app, list_elem_of_singleton, <- Hr.
        destruct (decide (i = j)) as [<-|Hij].
        + assert (i < n). { assert (i ∈ taken p) as H by set_solver. rewrite Ht in H. apply elem_of_seq in H. lia. }
          rewrite list_lookup_insert_eq by lia. cbn. split; [by right|by eexists].
        + rewrite list_lookup_insert_ne by done. naive_solver. }
    split; [by apply take_next_sound|]. unfold take_next. destruct (Nat.ltb_spec (nextIndex q) n) as [H|H].
    + split; cbn; rewrite length_app; cbn [length]; cbn in *; [lia|]. intros Hf Hlt. specialize (Hb2 Hf H). lia.
    + split; [lia|]. intros _ Hlt. lia.
  - split; [split|split]; cbn; [|done..|specialize (Hlen i Hi (mkPool 0 (filter (λ j, j ≠ i) (running p)) [] [] []) eq_refl); cbn in Hlen; lia|].
    + rewrite <- Ht. unfold taken. cbn. transitivity ((i :: filter (λ j, j ≠ i) (running p)) ++ finished p ++ failed p).
      * cbn [app]. rewrite !app_assoc. by rewrite <- Permutation_cons_append.
      * apply Permutation_app_tail. by symmetry.
    + intros Hf. by apply app_nil in Hf as [_ [=]].
Qed.

Lemma reachable_sound p : reachable p → sound p ∧ busy p.
Proof.
  induction 1 as [|p e p' Hp [Hs Hb] Hstep]; [|by eapply step_sound].
  destruct (start_spec (Nat.min limit n)) as (Hs & Hr & Hn & Hf); [lia|]. split; [done|].
  unfold start, busy. rewrite Hr, length_seq. split; [lia|done].
Qed.
End pool.

(** in every state of the workers at most [limit] tasks are under way, each
    task has been taken at most once and in order, and the results are those of
    the tasks that have finished; while nothing has thrown no worker rests before
    the tasks are used up, and once nothing is under way every task has finished,
    so every result is there. *)
Theorem pool_completes {R} (limit n : nat) (p : pool (R := R)) :
  reachable limit n p →
  length (running p) ≤ limit ∧ taken p ≡ₚ seq 0 (nextIndex p)
  ∧ (∀ i, is_Some (mjoin (results p !! i)) ↔ i ∈ finished p)
  ∧ (failed p = [] → 0 < limit → running p = [] →
     finished p ≡ₚ seq 0 n ∧ ∀ i, i < n → is_Some (mjoin (results p !! i))).
Proof.
  intros [[Ht Hn Hl Hr] [Hb1 Hb2]]%reachable_sound. split_and!; [lia|done|done|].
  intros Hf Hlim Hrun. assert (nextIndex p = n) as E.
  { destruct (decide (nextIndex p < n)) as [H|H]; [|lia]. specialize (Hb2 Hf H). rewrite Hrun in Hb2. cbn in Hb2. lia. }
  assert (finished p ≡ₚ seq 0 n) as Hfin.
  { rewrite <- E, <- Ht. unfold taken. by rewrite Hrun, Hf, app_nil_r. }
  split; [done|]. intros i Hi. apply Hr. rewrite Hfin. apply elem_of_seq. lia.
Qed.

Definition demo_pool : pool (R := nat) := mkPool 4 [] [Some 10; Some 11; Some 12; Some 13] [1; 0; 2; 3] [].

Lemma pool_completes_witness :
  reachable 3 4 demo_pool ∧ length (running demo_pool) ≤ 3 ∧ taken demo_pool ≡ₚ seq 0 (nextIndex demo_pool)
  ∧ (∀ i, is_Some (mjoin (results demo_pool !! i)) ↔ i ∈ finished demo_pool)
  ∧ (failed demo_pool = [] → 0 < 3 → running demo_pool = [] →
     finished demo_pool ≡ₚ seq 0 4 ∧ ∀ i, i < 4 → is_Some (mjoin (results demo_pool !! i))).
Proof.
  assert (reachable 3 4 demo_pool) as H.
  { refine (run_reachable 3 4 (start 3 4) [Finish 1 11; Finish 0 10; Finish 2 12; Finish 3 13] _ _ _);
      [apply reach_start|vm_compute; reflexivity]. }
  split; [exact H|]. exact (pool_completes 3 4 demo_pool H).
Defined.
