(* ===== verification/CanvasSyncProps.v ===== *)
(** What a synchronisation of the infinite canvas achieves. *)

From Stdlib Require Import ZArith NArith Lia SpecFloat.
From stdpp Require Import gmap.
From S2P Require Import Prelude JsString JsNumber JsValue Json NumberText JsRegex JsArray Programs SyncMerge CanvasSync.

(** * Keys found in plain values *)

Lemma add_key_ok s keys : units_ok s → Forall units_ok keys → Forall units_ok (add_key s keys).
Proof.
  intros Hs Hk. unfold add_key, set_add. destruct (test _ s); [|done]. case_decide; [done|].
  apply Forall_app. by split; [|constructor].
Qed.

Lemma foldl_map_funs {A} (F : A → list jstr → list jstr) (l : list A) keys :
  foldl (λ keys f, f keys) keys (map F l) = foldl (λ keys x, F x keys) keys l.
Proof. revert keys. induction l as [|x l IH]; intros keys; [done|]. apply IH. Qed.

Lemma foldl_ext_in {A B} (f g : B → A → B) (l : list A) b :
  (∀ x, x ∈ l → ∀ b, f b x = g b x) → foldl f b l = foldl g b l.
Proof.
  intros Hfg. revert b. induction l as [|x l IH]; intros b; [done|]. cbn [foldl].
  rewrite Hfg by set_solver. apply IH. intros y Hy. apply Hfg. set_solver.
Qed.

Lemma foldl_inv {A B} (P : B → Prop) (f : B → A → B) (l : list A) b :
  (∀ x b, x ∈ l → P b → P (f b x)) → P b → P (foldl f b l).
Proof.
  intros Hf. revert b. induction l as [|x l IH]; intros b Hb; [done|]. cbn [foldl]. apply IH.
  - intros y c Hy. apply Hf. set_solver.
  - apply Hf; [set_solver|done].
Qed.

(** Arrays inside arrays make no difference. *)
Section walk.
Context (leaf own : jstr → list jstr → list jstr).
#[local] Abbreviation walk := (walk leaf own).

Lemma walk_arr l keys : walk (VArr l) keys = foldl (λ keys x, walk x keys) keys l.
Proof.
  enough (∀ v, match v with
               | VArr l => ∀ keys, walk (VArr l) keys = foldl (λ keys x, walk x keys) keys l
               | _ => True
               end) as H by exact (H (VArr l) keys).
  clear. intros v. induction v as [| |b|n|s|l IH|o IH] using jsval_rec'; try done. intros keys.
  cbn [SyncMerge.walk]. rewrite foldl_map_funs. apply foldl_ext_in. intros x Hx keys'.
  eapply Forall_forall in IH; [|exact Hx]. destruct x as [| | | | |children|]; try done.
  by rewrite foldl_map_funs, IH.
Qed.

Definition own_key (o : list (jstr * jsval)) (keys : list jstr) : list jstr :=
  match omap.get o (js "storageKey") with Some (VStr s) => own s keys | _ => keys end.

Lemma walk_obj o keys : walk (VObj o) keys = foldl (λ keys e, walk e.2 keys) (own_key o keys) (entries o).
Proof.
  cbn [SyncMerge.walk]. fold (own_key o keys). generalize (own_key o keys). clear keys. intros keys.
  set (F := λ x : jsval, match x with
    | VArr children => λ keys, foldl (λ keys f, f keys) keys (map walk children)
    | _ => walk x end).
  change (map _ o) with ((λ e : jstr * jsval, (e.1, F e.2)) <$> o). rewrite entries_fmap.
  revert keys. induction (entries o) as [|e l IH]; intros keys; [done|]. rewrite fmap_cons. cbn [foldl snd].
  rewrite IH. f_equal. subst F. cbn beta. destruct e.2; try done. by rewrite foldl_map_funs, walk_arr.
Qed.
End walk.

Lemma collect_ok v keys :
  json_plain v → Forall units_ok keys → Forall units_ok (collectStorageKeys v keys).
Proof.
  revert keys. induction v as [| |b|n|s|l IH|o IH] using jsval_rec'; intros keys Hv Hk; try done.
  - by apply add_key_ok.
  - rewrite json_plain_arr in Hv. unfold collectStorageKeys in *. rewrite walk_arr. apply (foldl_inv (Forall units_ok)); [|done].
    intros x keys' Hx Hk'. eapply Forall_forall in IH; [|exact Hx]. apply IH; [|done]. by eapply Forall_forall in Hv.
  - apply json_plain_obj in Hv as (_ & _ & _ & Hv). unfold collectStorageKeys in *. rewrite walk_obj. apply (foldl_inv (Forall units_ok)).
    + intros e keys' He Hk'. rewrite elem_of_entries in He. eapply Forall_forall in IH; [|exact He].
      apply IH; [|done]. eapply Forall_forall in Hv; [|exact He]. exact Hv.
    + unfold own_key. destruct (omap.get o (js "storageKey")) as [[]|] eqn:E; try done. apply add_key_ok; [|done].
      apply omap.get_Some_elem in E. eapply Forall_forall in Hv; [|exact E]. exact Hv.
Qed.

(** * Manifests *)

Definition wf_file (f : AppSyncFile) : Prop :=
  units_ok (storageKey f) ∧ units_ok (path f) ∧ units_ok (mimeType f) ∧ json_plain (VNum (bytes f)).

#[export] Instance wf_file_dec f : Decision (wf_file f).
Proof. apply _. Defined.

Lemma units_ok_app s t : units_ok (s ++ t) ↔ units_ok s ∧ units_ok t.
Proof. apply Forall_app. Qed.

Lemma file_plain f : wf_file f → json_plain (file_value f).
Proof.
  intros (H1 & H2 & H3 & H4). unfold file_value. apply json_plain_obj. split_and!.
  - apply (bool_decide_unpack _). by vm_compute.
  - reflexivity.
  - apply (bool_decide_unpack _). by vm_compute.
  - do 4 (constructor; [done|]). constructor.
Qed.

Definition wf_manifest (m : Manifest) : Prop :=
  units_ok (exportedAt m) ∧ Forall json_plain (m_items m) ∧ Forall wf_file (m_files m).

Lemma domain_data_plain d items : Forall json_plain items → json_plain (domain_data d items).
Proof.
  intros Hi. unfold domain_data. apply json_plain_obj. split_and!.
  - by apply NoDup_singleton.
  - by destruct d.
  - apply Forall_singleton. apply (bool_decide_unpack _). by destruct d; vm_compute.
  - apply Forall_singleton. by apply json_plain_arr.
Qed.

Lemma manifest_plain d m : wf_manifest m → json_plain (manifest_value d m).
Proof.
  intros (He & Hi & Hf). unfold manifest_value. apply json_plain_obj. split_and!.
  - apply (bool_decide_unpack _). by vm_compute.
  - reflexivity.
  - apply (bool_decide_unpack _). by vm_compute.
  - constructor; [apply (bool_decide_unpack _); by vm_compute|]. constructor; [apply (bool_decide_unpack _); by vm_compute|].
    constructor; [apply (bool_decide_unpack _); by destruct d; vm_compute|]. constructor; [done|].
    constructor; [by apply domain_data_plain|]. constructor; [|constructor].
    apply json_plain_arr, Forall_fmap. eapply Forall_impl; [exact Hf|]. intros f. apply file_plain.
Qed.

(** What is read from the text of a manifest *)
Lemma manifest_read_back d m :
  prop (manifest_value d m) (js "app") = VStr (js "infinite-canvas")
  ∧ prop (manifest_value d m) (js "domain") = VStr (domain_name d)
  ∧ prop (manifest_value d m) (js "data") = domain_data d (m_items m)
  ∧ prop (domain_data d (m_items m)) (domain_field d) = VArr (m_items m)
  ∧ prop (manifest_value d m) (js "files") = VArr (file_value <$> m_files m).
Proof. by destruct d. Qed.

Lemma file_of_value f : file_of (file_value f) = f.
Proof. by destruct f. Qed.

Lemma files_of_values (fs : list AppSyncFile) : file_of <$> (file_value <$> fs) = fs.
Proof.
  rewrite <- list_fmap_compose. rewrite <- (list_fmap_id fs) at 2. apply list_fmap_ext.
  intros i f _. apply file_of_value.
Qed.

Lemma utf8_length_pos s : s ≠ [] → utf8_length s ≠ 0%N.
Proof.
  destruct s as [|c s]; [done|]. intros _. cbn [utf8_length foldr]. unfold utf8_units.
  repeat case_match; lia.
Qed.

(** ** The manifest on the server *)

Section server.
Context {S : Type} `{!Webdav S} (d : DomainKey).

Definition holds (st : gmap jstr Content) (items : list jsval) (files : list AppSyncFile) : Prop :=
  ∃ c at_, st !! address (manifest_path d) = Some c ∧ c_size c ≠ 0%N
           ∧ JSON_parse (c_text c) = Some (manifest_value d (mkManifest at_ items files)).

Definition vacant (st : gmap jstr Content) : Prop := st !! address (manifest_path d) = None.

Lemma manifest_text m :
  wf_manifest m →
  ∃ text, JSON_stringify_indented 2 (manifest_value d m) = Some text ∧
    ∀ st ty, holds (<[address (manifest_path d) := b_content (text_blob text ty)]> st) (m_items m) (m_files m).
Proof.
  intros Hm. destruct (JSON_parse_stringify 2 _ (manifest_plain d m Hm)) as (text & Ht & Hne & Hp).
  exists text. split; [done|]. intros st ty. exists (mkContent (utf8_length text) text), (exportedAt m).
  rewrite lookup_insert_eq. split_and!; [done|by apply utf8_length_pos|]. cbn [c_text]. rewrite Hp. by destruct m.
Qed.
End server.

(** * Programs *)

Section programs.
Context {S : Type} `{!Webdav S}.
#[local] Abbreviation World := (World (S := S)).
#[local] Abbreviation M := (M (S := S)).
Implicit Types (w : World) (key p : jstr) (d : DomainKey).

(** The user changes nothing meanwhile. *)
Definition quiet w : Prop := Forall (λ e, e = None) (edits w).

Definition wf_blobs w : Prop := ∀ key b, get_blob w key = Some b → platform_blob b.

(** Everything but the server and the pending edits stays. *)
Definition same_device w w' : Prop :=
  images w' = images w ∧ media w' = media w ∧ local w' = local w ∧ quiet w'.

Lemma same_device_refl w : quiet w → same_device w w.
Proof. done. Qed.

Lemma same_device_trans w1 w2 w3 : same_device w1 w2 → same_device w2 w3 → same_device w1 w3.
Proof. unfold same_device. intros (-> & -> & -> & _) (-> & -> & -> & ?). done. Qed.

Lemma same_device_blob w w' key : same_device w w' → get_blob w' key = get_blob w key.
Proof. intros (E1 & E2 & _). unfold get_blob. by rewrite E1, E2. Qed.

Lemma meanwhile_quiet w : quiet w → same_device w (meanwhile w).
Proof.
  destruct w as [s i m l [|e es]]; [done|]. intros Hq. by apply Forall_cons_1 in Hq as [-> Hes].
Qed.

Lemma download_run p w w' r :
  download p w = (w', r) → quiet w →
  same_device w w' ∧ stored (srv w') = stored (srv w) ∧ r = (downloadWebdavFile (srv w) p).2.
Proof.
  unfold download. intros E Hq. pose proof (download_keeps (srv w) p) as Hk.
  destruct (downloadWebdavFile (srv w) p) as [s x]. injection E as <- <-. by split; [apply meanwhile_quiet|].
Qed.

Lemma upload_run p b ty w w' r :
  upload p b ty w = (w', r) → quiet w →
  same_device w w' ∧ srv w' = (uploadWebdavFile (srv w) p b ty).1 ∧ r = (uploadWebdavFile (srv w) p b ty).2.
Proof.
  unfold upload. intros E Hq. destruct (uploadWebdavFile (srv w) p b ty) as [s x]. injection E as <- <-.
  by split; [apply meanwhile_quiet|].
Qed.

(** A file that can be fetched *)
Definition on_server (st : gmap jstr Content) (p : jstr) : Prop :=
  ∃ c, st !! address p = Some c ∧ c_size c ≠ 0%N.

(** ** Fetching *)

Lemma set_blob_run key b w : ∃ w', set_blob key b w = (w', inr tt) ∧ srv w' = srv w ∧ local w' = local w
  ∧ edits w' = edits w ∧ ∀ k, get_blob w' k = if decide (k = key) then Some b else get_blob w k.
Proof.
  unfold set_blob. destruct (is_image key) eqn:E; (eexists; split; [done|]; split_and!; [done..|]);
    intros k; unfold get_blob; cbn [images media];
    (destruct (decide (k = key)) as [->|Hk]; [by rewrite E, lookup_insert_eq|]);
    destruct (is_image k); by rewrite ?lookup_insert_ne by done.
Qed.

(** Fetching keeps the data and the files of the server, and adds blobs. *)
Definition fetched w w' : Prop :=
  stored (srv w') = stored (srv w) ∧ local w' = local w ∧ quiet w'
  ∧ (wf_blobs w → wf_blobs w') ∧ ∀ k, is_Some (get_blob w k) → is_Some (get_blob w' k).

Lemma fetched_trans w1 w2 w3 : fetched w1 w2 → fetched w2 w3 → fetched w1 w3.
Proof.
  intros (A1 & A2 & A3 & A4 & A5) (B1 & B2 & B3 & B4 & B5). unfold fetched. rewrite B1, B2, A1, A2.
  split_and!; auto.
Qed.

Lemma fetch_file_run f w w' r :
  fetch_file f w = (w', r) → wf_file f → quiet w →
  fetched w w' ∧ (r = inr tt → on_server (stored (srv w)) (path f) →
                  is_Some (get_blob w' (storageKey f))).
Proof.
  unfold fetch_file, bind. intros E Hf Hq. destruct (download (path f) w) as [w1 r1] eqn:Ed.
  destruct (download_run _ _ _ _ Ed Hq) as (Hs & Hst & Hr1).
  assert (fetched w w1) as H1.
  { split_and!; [done|by destruct Hs as (_ & _ & ? & _)|by destruct Hs as (_ & _ & _ & ?)|..].
    - intros Hb k b. rewrite (same_device_blob _ _ _ Hs). apply Hb.
    - intros k. by rewrite (same_device_blob _ _ _ Hs). }
  destruct r1 as [e|[b|]].
  - injection E as <- <-. by split.
  - set (b' := if truthy (b_type b) then b else mkBlob (mimeType f) (b_content b)) in E.
    destruct (set_blob_run (storageKey f) b' w1) as (w2 & E2 & F1 & F2 & F3 & F4). rewrite E2 in E. injection E as <- <-.
    symmetry in Hr1. destruct (download_blob _ _ _ Hr1) as [Hb _].
    split; [|intros _ _; rewrite F4, decide_True by done; by eexists].
    eapply fetched_trans; [exact H1|]. split_and!; [by rewrite F1|done|unfold quiet; rewrite F3; apply H1|..].
    + intros Hbl k b0. rewrite F4. case_decide; [|apply Hbl]. intros [= <-]. subst b'. destruct (truthy _); [done|].
      destruct Hf as (_ & _ & Hm & _), Hb as [_ Hb]. by split.
    + intros k Hk. rewrite F4. case_decide; [by eexists|done].
  - injection E as <- <-. split; [done|]. intros _ (c & Hc & Hsz). symmetry in Hr1.
    apply download_none in Hr1. by rewrite Hc in Hr1.
Qed.

(** Files to fetch are run in any order. *)
Lemma fetch_tasks_run tasks w w' r :
  run_tasks fetch_file tasks w = (w', r) → Forall wf_file tasks → quiet w →
  fetched w w' ∧ (r = inr tt → ∀ f, f ∈ tasks → on_server (stored (srv w)) (path f) →
                  is_Some (get_blob w' (storageKey f))).
Proof.
  revert w. induction tasks as [|f tasks IH]; intros w E Hf Hq; cbn [run_tasks] in E.
  - injection E as <- <-. split; [by split_and!|]. intros _ f Hf'. by apply elem_of_nil in Hf'.
  - apply Forall_cons_1 in Hf as [Hff Hft]. unfold bind in E. destruct (fetch_file f w) as [w1 r1] eqn:E1.
    destruct (fetch_file_run _ _ _ _ E1 Hff Hq) as [F1 G1]. destruct r1 as [e|[]].
    { injection E as <- <-. by split. }
    assert (quiet w1) as Hq1 by apply F1. destruct (IH w1 E Hft Hq1) as [F2 G2].
    split; [by eapply fetched_trans|]. intros Hr g [->|Hg]%elem_of_cons Hc.
    + apply F2. by apply G1.
    + apply G2; [done..|]. destruct F1 as (-> & _). done.
Qed.

(** ** Sending *)

(** Files are replaced but not lost, and the manifest is not touched. *)
Definition grown d (st st' : gmap jstr Content) : Prop :=
  st' !! address (manifest_path d) = st !! address (manifest_path d) ∧ ∀ p, on_server st p → on_server st' p.

Lemma grown_trans d st1 st2 st3 : grown d st1 st2 → grown d st2 st3 → grown d st1 st3.
Proof. intros [A1 A2] [B1 B2]. split; [by rewrite B1|]. auto. Qed.

Lemma insert_on_server st p q c :
  c_size c ≠ 0%N → on_server st p ∨ address p = address q → on_server (<[address q := c]> st) p.
Proof.
  intros Hc Hp. unfold on_server. destruct (decide (address q = address p)) as [E|E].
  - rewrite E, lookup_insert_eq. by exists c.
  - rewrite lookup_insert_ne by done. destruct Hp as [Hp|Hp]; [done|congruence].
Qed.

Lemma insert_grown d st q c :
  c_size c ≠ 0%N → address q ≠ address (manifest_path d) → grown d st (<[address q := c]> st).
Proof.
  intros Hc Hq. split; [by rewrite lookup_insert_ne|]. intros p Hp. apply insert_on_server; [done|by left].
Qed.

Lemma upload_grows d p b ty w w' r :
  upload p b ty w = (w', r) → quiet w → address p ≠ address (manifest_path d) →
  same_device w w' ∧ grown d (stored (srv w)) (stored (srv w')) ∧ (r = inr tt → on_server (stored (srv w')) p).
Proof.
  intros E Hq Hp. destruct (upload_run _ _ _ _ _ _ E Hq) as (F & -> & Hr). split; [done|]. symmetry in Hr.
  destruct r as [e|[]].
  - split; [|done]. destruct (upload_fails _ _ _ _ _ Hr) as [->|[Hb ->]]; [done|by apply insert_grown].
  - destruct (upload_stores _ _ _ _ Hr) as [Hb ->]. split; [by apply insert_grown|]. intros _.
    apply insert_on_server; [done|by right].
Qed.

Lemma send_tasks_run d tasks w w' r :
  run_tasks send_file tasks w = (w', r) → quiet w →
  Forall (λ t, address (path t.1) ≠ address (manifest_path d)) tasks →
  same_device w w' ∧ grown d (stored (srv w)) (stored (srv w'))
  ∧ (r = inr tt → Forall (λ t, on_server (stored (srv w')) (path t.1)) tasks).
Proof.
  revert w. induction tasks as [|t tasks IH]; intros w E Hq Ht; cbn [run_tasks] in E.
  - injection E as <- <-. by split_and!.
  - apply Forall_cons_1 in Ht as [Ht1 Ht]. unfold bind in E. destruct (send_file t w) as [w1 r1] eqn:E1.
    destruct (upload_grows d _ _ _ _ _ _ E1 Hq Ht1) as (F1 & G1 & R1). destruct r1 as [e|[]].
    { by injection E as <- <-. }
    assert (quiet w1) as Hq1 by apply F1. destruct (IH w1 E Hq1 Ht) as (F2 & G2 & R2).
    split_and!; [by eapply same_device_trans|by eapply grown_trans|]. intros Hr. constructor; [|by apply R2].
    apply G2. by apply R1.
Qed.
End programs.

(** * The new manifest *)

Lemma replace_units_ok p b s : units_ok b → units_ok s → units_ok (replace_units p b s).
Proof.
  intros Hb Hs. unfold units_ok, replace_units in *. rewrite Forall_forall in Hb, Hs |- *.
  intros c (d & Hc & Hd)%list_elem_of_bind. specialize (Hs d Hd). destruct (p d); [by apply Hb|].
  by apply list_elem_of_singleton in Hc as ->.
Qed.

Lemma text_or_ok a b : units_ok a → units_ok b → units_ok (text_or a b).
Proof. unfold text_or. by destruct (truthy a). Qed.

Ltac units := apply (bool_decide_unpack _); by vm_compute.

Lemma fileExtension_ok mime key : units_ok (fileExtension mime key).
Proof. unfold fileExtension. repeat case_match; units. Qed.

Lemma file_map_elem files key f :
  omap.get (file_map files) key = Some f → f ∈ files ∧ storageKey f = key.
Proof.
  unfold file_map. enough (∀ m, (∀ k g, omap.get m k = Some g → g ∈ files ∧ storageKey g = k) →
    ∀ fs, (∀ g, g ∈ fs → g ∈ files) → omap.get (foldl (λ m f, omap.set m (storageKey f) f) m fs) key = Some f →
    f ∈ files ∧ storageKey f = key) as H by (by apply (H []); [|set_solver]).
  intros m Hm fs. revert m Hm. induction fs as [|g fs IH]; intros m Hm Hfs; [apply Hm|]. cbn [foldl].
  apply IH; [|set_solver]. intros k h. destruct (decide (storageKey g = k)) as [<-|Hk].
  - rewrite omap.get_set_eq. intros [= <-]. split; [apply Hfs; set_solver|done].
  - rewrite omap.get_set_ne by done. apply Hm.
Qed.

Section entries.
Context {S : Type} `{!Webdav S} (d : DomainKey) (w : World (S := S)) (files : list AppSyncFile).

(** An entry of a manifest: a file that can be written, and not the manifest *)
Definition wf_entry (f : AppSyncFile) : Prop :=
  wf_file f ∧ truthy (path f) = true ∧ address (path f) ≠ address (manifest_path d).

Context (Hfiles : Forall wf_entry files) (Hblobs : wf_blobs w).

Lemma remote_wf key f : omap.get (file_map files) key = Some f → wf_entry f.
Proof. intros [Hf _]%file_map_elem. by eapply Forall_forall in Hfiles. Qed.

Lemma file_entry_wf key b :
  units_ok key → platform_blob b → wf_entry (file_entry d key b (omap.get (file_map files) key)).
Proof.
  intros Hk [Hb Hs]. unfold file_entry. pose proof (remote_wf key) as Hr.
  unfold wf_entry, wf_file. split_and!; cbn [storageKey path mimeType bytes]; [done|..].
  - apply text_or_ok.
    + destruct (omap.get _ key) as [f|]; [|constructor]. apply (Hr f eq_refl).
    + unfold domainPath. rewrite !units_ok_app. split_and!; [by destruct d; units|units|units| |units|apply fileExtension_ok].
      apply replace_units_ok; [units|done].
  - apply text_or_ok; [done|]. apply text_or_ok; [|units].
    destruct (omap.get _ key) as [f|]; [|constructor]. apply (Hr f eq_refl).
  - apply json_plain_integer. lia.
  - unfold text_or. destruct (omap.get _ key) as [f|]; [|by destruct d].
    destruct (truthy (path f)) eqn:E; [done|by destruct d].
  - unfold text_or. destruct (omap.get _ key) as [f|]; [|apply address_media].
    destruct (truthy (path f)); [apply (Hr f eq_refl)|apply address_media].
Qed.

(** The entries of the new manifest, one for every key with a blob or a file *)
Lemma plan_elem keys f ob :
  (f, ob) ∈ plan d w files keys →
  ∃ key, key ∈ keys ∧
    ((ob = None ∧ omap.get (file_map files) key = Some f)
     ∨ ∃ b, get_blob w key = Some b ∧ f = file_entry d key b (omap.get (file_map files) key)
            ∧ (ob = Some b ∨ ob = None ∧ is_Some (omap.get (file_map files) key))).
Proof.
  intros (key & Hkey & Hp)%list_elem_of_omap. exists key. split; [done|]. unfold plan_key in Hp.
  destruct (get_blob w key) as [b|].
  - injection Hp as <- <-. right. exists b. split_and!; [done..|]. destruct (omap.get _ key) as [g|]; [|by left].
    destruct (num_eqb _ _); [right; by split; [|eexists]|by left].
  - destruct (omap.get _ key) as [g|]; [|done]. injection Hp as <- <-. by left.
Qed.

Lemma plan_wf keys : Forall units_ok keys → Forall wf_entry (plan d w files keys).*1.
Proof.
  intros Hk. apply Forall_forall. intros f ([f' ob] & -> & Hin)%list_elem_of_fmap. cbn [fst].
  apply plan_elem in Hin as (key & Hkey & [[_ Hg]|(b & Hb & -> & _)]); [by eapply remote_wf|].
  eapply Forall_forall in Hk; [|exact Hkey]. apply file_entry_wf; [done|]. by eapply Hblobs.
Qed.

Lemma missing_wf keys : Forall wf_file (missing_files w keys files).
Proof.
  apply Forall_forall. intros f (key & _ & Hf)%list_elem_of_omap. destruct (get_blob w key); [done|].
  by apply (remote_wf key f).
Qed.

(** Every entry is on the server when the new blobs are. *)
Lemma plan_stored keys st :
  Forall (λ f, on_server st (path f)) files →
  Forall (λ t, on_server st (path t.1)) (upload_tasks (plan d w files keys)) →
  Forall (λ f, on_server st (path f)) (plan d w files keys).*1.
Proof.
  intros Hst Hsent. apply Forall_forall. intros f ([f' ob] & -> & Hin)%list_elem_of_fmap. cbn [fst].
  pose proof Hin as Hin'. apply plan_elem in Hin as (key & Hkey & Hcase).
  assert (∀ g, omap.get (file_map files) key = Some g → on_server st (path g) ∧ truthy (path g) = true) as Hold.
  { intros g Hg. split; [|by apply (remote_wf key g)]. apply file_map_elem in Hg as [Hg _].
    by eapply Forall_forall in Hst. }
  destruct Hcase as [[-> Hg]|(b & Hb & -> & [->|[-> [g Hg]]])]; [by apply Hold| |].
  - eapply Forall_forall in Hsent; [|apply list_elem_of_omap; by eexists]. done.
  - rewrite Hg. destruct (Hold g Hg) as [H1 H2]. cbn [path file_entry]. unfold text_or. by rewrite H2.
Qed.
End entries.

(** * One synchronisation *)

Section domain.
Context {S : Type} `{!Webdav S} (date_parse : jstr → num) (now : jstr).
Context (finish_order : ∀ A : Type, list A → list A).
Context (Hnow : units_ok now) (Hfinish : ∀ A (l : list A), finish_order A l ≡ₚ l).
#[local] Abbreviation World := (World (S := S)).
Implicit Types (w : World) (d : DomainKey) (l : list jsval).

(** The times by which the items of a domain are compared *)
Definition vers d l : gmap jstr Z := versions date_parse (domain_time d) l.

(** An item as the application writes it: a plain value, an asset with a cover,
    and one of the items that are [known] *)
Context (known : jsval → Prop).

Definition item_ok d (x : jsval) : Prop :=
  json_plain x ∧ (d = Assets → is_string (prop x (js "coverUrl")) = true) ∧ known x.

Definition wf_items d l : Prop :=
  all_dated date_parse (domain_time d) l ∧ NoDup (item_id <$> l) ∧ Forall (item_ok d) l.

Lemma items_plain d l : wf_items d l → Forall json_plain l.
Proof. intros (_ & _ & Hl). eapply Forall_impl; [exact Hl|]. by intros x [? _]. Qed.

(** A manifest on the server, all of whose files are there *)
Definition listed d st items files : Prop :=
  holds d st items files ∧ wf_items d items ∧ Forall (wf_entry d) files ∧ Forall (λ f, on_server st (path f)) files.

(** What the server holds of a domain *)
Definition server_at d (st : gmap jstr Content) (v : gmap jstr Z) : Prop :=
  (vacant d st ∧ v = ∅) ∨ ∃ items files, listed d st items files ∧ vers d items = v.

Lemma server_at_grown d st st' v : grown d st st' → server_at d st v → server_at d st' v.
Proof.
  intros [Hm Hg] [[Hv ->]|(items & files & (Hh & Hi & Hf & Hs) & <-)].
  - left. split; [|done]. unfold vacant. by rewrite Hm.
  - right. exists items, files. split; [|done]. split_and!; [|done..|].
    + unfold holds in *. by rewrite Hm.
    + eapply Forall_impl; [exact Hs|]. auto.
Qed.

Lemma merge_wf d l r : wf_items d l → wf_items d r → wf_items d (mergeById date_parse (domain_time d) l r).
Proof.
  intros (Hl1 & _ & Hl3) (Hr1 & _ & Hr3). split_and!; [by apply mergeById_dated|apply mergeById_ids|].
  apply Forall_forall. intros x [Hx|Hx]%mergeById_elem; [by eapply Forall_forall in Hl3|by eapply Forall_forall in Hr3].
Qed.

Lemma read_manifest_run d w w' r :
  readDomainManifest d w = (w', r) → quiet w →
  same_device w w' ∧ stored (srv w') = stored (srv w)
  ∧ (∀ x, r = inr x → vacant d (stored (srv w)) → x = None)
  ∧ (∀ x items files, r = inr x → holds d (stored (srv w)) items files → x = Some (domain_data d items, files)).
Proof.
  unfold readDomainManifest, bind. intros E Hq. destruct (download (manifest_path d) w) as [w1 r1] eqn:Ed.
  destruct (download_run _ _ _ _ Ed Hq) as (Hs & Hst & Hr1). symmetry in Hr1.
  destruct r1 as [e|[b|]].
  - by injection E as <- <-.
  - pose proof (download_some _ _ _ Hr1) as Hb.
    assert (w1 = w' ∧ ((∃ e, r = inl e) ∨ ∀ items files, holds d (stored (srv w)) items files → r = inr (Some (domain_data d items, files))))
      as [<- Hcase].
    { destruct (JSON_parse (c_text (b_content b))) as [data|] eqn:Ej; [|injection E as <- <-; split; [done|left; by eexists]].
      destruct (_ || _) eqn:Eg; injection E as <- <-; (split; [done|]); [left; by eexists|right].
      intros items files (c & t & Hc & _ & Hp). rewrite Hb in Hc. injection Hc as <-. rewrite Ej in Hp. injection Hp as ->.
      destruct (manifest_read_back d (mkManifest t items files)) as (_ & _ & E3 & _ & E5). rewrite E3, E5. cbn [m_items m_files].
      by rewrite files_of_values. }
    split_and!; [done..| |].
    + intros x Hx Hv. unfold vacant in Hv. by rewrite Hb in Hv.
    + intros x items files Hx Hh. destruct Hcase as [[e ->]|Hc]; [done|]. rewrite (Hc _ _ Hh) in Hx. by injection Hx as <-.
  - injection E as <- <-. split_and!; [done..| |].
    + by intros x [= <-].
    + intros x items files _ (c & t & Hc & Hsz & _). apply download_none in Hr1. rewrite Hc in Hr1. done.
Qed.

(** Storing keeps the files and stores the versions it is given. *)
Definition applies (o : SyncDomainOptions (S := S)) : Prop :=
  ∀ l w w', wf_items (o_key o) l → quiet w → applyData o l w = (w', inr tt) →
    stored (srv w') = stored (srv w) ∧ quiet w' ∧ (∀ k, get_blob w' k = get_blob w k)
    ∧ wf_items (o_key o) (local w') ∧ vers (o_key o) (local w') = vers (o_key o) l.

(** What is sent: the files of the entries, then the manifest *)
Lemma publish_run d l files flag w w' r :
  publish now finish_order d l files flag w = (w', r) →
  wf_items d l → Forall (wf_entry d) files → Forall (λ f, on_server (stored (srv w)) (path f)) files →
  wf_blobs w → quiet w →
  same_device w w'
  ∧ (∀ v, server_at d (stored (srv w)) v → server_at d (stored (srv w')) v ∨ server_at d (stored (srv w')) (vers d l))
  ∧ ∀ res, r = inr res → r_data res = l
      ∧ listed d (stored (srv w')) l (plan d w files (collectStorageKeys (domain_data d l) [])).*1.
Proof.
  intros E Hl Hf Hon Hb Hq. pose proof (items_plain d l Hl) as Hp. unfold publish, uploadChangedFiles, bind in E.
  set (entries := plan d w files _) in *.
  destruct (runWithConcurrency finish_order (upload_tasks entries) send_file w) as [w2 r2] eqn:E2.
  assert (Forall (wf_entry d) entries.*1) as Hent.
  { apply plan_wf; [done..|]. apply collect_ok; [by apply domain_data_plain|constructor]. }
  unfold runWithConcurrency in E2. apply (send_tasks_run d) in E2 as (F2 & G2 & R2); [|done|].
  2: { rewrite Hfinish. apply Forall_forall. intros [f b] ([f' [b'|]] & Hin & [= -> ->])%list_elem_of_omap.
       eapply Forall_forall in Hent as (_ & _ & ?); [done|]. apply list_elem_of_fmap. by exists (f, Some b). }
  destruct r2 as [e|[]].
  { injection E as <- <-. split_and!; [done| |done]. intros v Hv. left. by eapply server_at_grown. }
  specialize (R2 eq_refl). rewrite Hfinish in R2. cbn [ret] in E.
  destruct (manifest_text d (mkManifest now l entries.*1)) as (text & Ht & Hh).
  { split_and!; [done..|]. eapply Forall_impl; [exact Hent|]. by intros f (? & _). }
  unfold ret in E. rewrite Ht in E. destruct (upload _ _ _ w2) as [w3 r3] eqn:E3.
  destruct (upload_run _ _ _ _ _ _ E3) as (F3 & Hs & Hr); [apply F2|].
  assert (b_size (text_blob text (js "application/json")) ≠ 0%N →
    listed d (<[address (manifest_path d) := b_content (text_blob text (js "application/json"))]> (stored (srv w2))) l entries.*1) as Hlist.
  { intros Hsz. split_and!; [apply Hh|done..|]. apply plan_stored; [done| |].
    - eapply Forall_impl; [exact Hon|]. intros f Hfo. apply insert_on_server; [done|]. left. by apply G2.
    - eapply Forall_impl; [exact R2|]. intros t Hto. apply insert_on_server; [done|by left]. }
  symmetry in Hr. destruct r3 as [e|[]]; injection E as <- <-; rewrite Hs; (split; [by eapply same_device_trans|]).
  - split; [|done]. intros v Hv. destruct (upload_fails _ _ _ _ _ Hr) as [->|[Hsz ->]].
    + left. by eapply server_at_grown.
    + right. right. eexists _, _. split; [by apply Hlist|done].
  - destruct (upload_stores _ _ _ _ Hr) as [Hsz ->]. specialize (Hlist Hsz). split.
    + intros v Hv. right. right. by eexists _, _.
    + by intros res [= <-].
Qed.

(** A device whose data and files are sound *)
Definition sound_device d w : Prop := quiet w ∧ wf_blobs w ∧ wf_items d (local w).

Lemma same_device_sound d w w' : same_device w w' → sound_device d w → sound_device d w' ∧ local w' = local w.
Proof.
  intros F (Hq & Hb & Hl). pose proof F as (_ & _ & El & Hq'). rewrite El. split; [|done]. split_and!; [done| |by rewrite El].
  intros k b. rewrite (same_device_blob _ _ _ F). apply Hb.
Qed.

Lemma vjoin_empty_r (a : gmap jstr Z) : vjoin a ∅ = a.
Proof. apply map_eq. intros i. rewrite lookup_vjoin, lookup_empty. by destruct (a !! i). Qed.

(** Storing that cannot fail *)
Definition never_refuses (o : SyncDomainOptions (S := S)) : Prop := ∀ l w, (applyData o l w).2 = inr tt.

(** Once the lists are merged *)
Lemma merged_run o l files v w w' r :
  let d := o_key o in
  bind (downloadMissingFiles finish_order (domain_data d l) files)
    (λ _, bind (applyData o l) (λ _, publish now finish_order d l files true)) w = (w', r) →
  applies o → sound_device d w → wf_items d l → Forall (wf_entry d) files →
  Forall (λ f, on_server (stored (srv w)) (path f)) files → server_at d (stored (srv w)) v →
  (∀ res, r = inr res → sound_device d w' ∧ vers d (local w') = vers d l ∧ server_at d (stored (srv w')) (vers d l)
                        ∧ r_data res = l)
  ∧ (never_refuses o → sound_device d w' ∧ (local w' = local w ∨ vers d (local w') = vers d l)
       ∧ (server_at d (stored (srv w')) v ∨ server_at d (stored (srv w')) (vers d l))).
Proof.
  intros d E Ho (Hq & Hb & Hw) Hl Hfs Hon Hv. unfold bind at 1 in E.
  destruct (downloadMissingFiles finish_order (domain_data d l) files w) as [w2 r2] eqn:E2.
  unfold downloadMissingFiles, runWithConcurrency in E2.
  apply fetch_tasks_run in E2 as [(F2 & F3 & Hq2 & Hb2 & _) _]; [|rewrite Hfinish; by apply (missing_wf d)|done].
  specialize (Hb2 Hb). destruct r2 as [e|[]].
  { injection E as <- <-. split; [done|]. intros _. rewrite F2. split_and!; [|by left..]. split_and!; [done..|by rewrite F3]. }
  unfold bind at 1 in E. destruct (applyData o l w2) as [w3 r3] eqn:E3. destruct r3 as [e|[]].
  { injection E as <- <-. split; [done|]. intros Hn. specialize (Hn l w2). by rewrite E3 in Hn. }
  destruct (Ho _ _ _ Hl Hq2 E3) as (G1 & Hq3 & G2 & G3 & G4). rewrite <- F2, <- G1 in Hon, Hv.
  assert (sound_device d w3) as Hs3 by (split_and!; [done|intros k b; rewrite G2; apply Hb2|done]).
  destruct (publish_run _ _ _ _ _ _ _ E Hl Hfs Hon) as (F4 & P1 & P2); [apply Hs3|done|].
  destruct (same_device_sound _ _ _ F4 Hs3) as [Hs' El]. rewrite El. split.
  - intros res Hr. destruct (P2 res Hr) as [P3 P4]. split_and!; [done..| |done]. right. by eexists _, _.
  - intros _. split_and!; [done|by right|by apply P1].
Qed.

(** A synchronisation that succeeds joins the versions of the device and of the
    server, and leaves them on both; one that fails leaves on each side what was
    there or the join. *)
Lemma sync_outcome o w w' r v :
  let d := o_key o in
  let u := vers d (local w) in
  syncDomain date_parse now finish_order o w = (w', r) →
  applies o → sound_device d w → server_at d (stored (srv w)) v →
  (∀ res, r = inr res → sound_device d w' ∧ vers d (local w') = vjoin u v ∧ server_at d (stored (srv w')) (vjoin u v)
                        ∧ vers d (r_data res) = vjoin u v)
  ∧ (never_refuses o → sound_device d w' ∧ (vers d (local w') = u ∨ vers d (local w') = vjoin u v)
       ∧ (server_at d (stored (srv w')) v ∨ server_at d (stored (srv w')) (vjoin u v))).
Proof.
  intros d u E Ho Hw Hserver. unfold syncDomain in E. fold d in E. unfold bind at 1 in E.
  destruct (readDomainManifest d w) as [w1 r1] eqn:E1.
  destruct (read_manifest_run _ _ _ _ E1) as (F1 & S1 & R1 & R2); [apply Hw|].
  destruct (same_device_sound _ _ _ F1 Hw) as [Hw1 El].
  destruct r1 as [e|remote].
  { injection E as <- <-. split; [done|]. intros _. rewrite El, S1. split_and!; [done|by left..]. }
  cbv zeta in E. unfold bind at 1, localData in E.
  destruct Hserver as [[Hv ->]|(items & files & (Hh & Hi & Hfs & Hon) & <-)].
  - rewrite (R1 _ eq_refl Hv) in E.
    destruct (publish_run _ _ _ _ _ _ _ E) as (F2 & P1 & P2); [apply Hw1|constructor|constructor|apply Hw1..|].
    destruct (same_device_sound _ _ _ F2 Hw1) as [Hw2 El2]. rewrite vjoin_empty_r, El2, El. split.
    + intros res Hr. destruct (P2 res Hr) as [-> P4]. rewrite El in P4 |- *. split_and!; [done..| |done]. right. by eexists _, _.
    + intros _. split_and!; [done|by left|]. rewrite El, S1 in P1. apply P1. by left.
  - rewrite (R2 _ _ _ eq_refl Hh) in E. unfold bind at 1, mergeData in E.
    destruct (manifest_read_back d (mkManifest [] items files)) as (_ & _ & _ & Ef & _). cbn [m_items] in Ef. rewrite Ef in E.
    unfold ret at 1 in E. rewrite El in E. set (merged := mergeById _ _ _ _) in E.
    assert (wf_items d merged) as Hm by (apply merge_wf; [apply Hw|done]).
    assert (vers d merged = vjoin u (vers d items)) as Ev.
    { destruct Hw as (_ & _ & Hl1 & _), Hi as (Hi1 & Hi2 & _). by apply mergeById_versions. }
    rewrite <- S1 in Hon. apply (merged_run o merged files (vers d items)) in E as [A B]; [|done..|].
    + cbv zeta in A, B. fold d in A, B. rewrite Ev in A, B. split.
      * intros res Hr. destruct (A res Hr) as (A1 & A2 & A3 & ->). by split_and!.
      * intros Hn. destruct (B Hn) as (B1 & B2 & B3). split_and!; [done| |done].
        destruct B2 as [->|B2]; [left; by rewrite El|by right].
    + rewrite S1 in Hon |- *. right. by eexists _, _.
Qed.
End domain.
