(* ===== verification/CanvasMedia.v ===== *)
(** The media of a synchronised domain: what the merged items refer to is fetched
    when the server has it, and is listed on the server afterwards. *)

From Stdlib Require Import ZArith NArith Lia SpecFloat.
From stdpp Require Import gmap.
From S2P Require Import Prelude JsString JsNumber JsValue Json JsRegex JsArray Programs SyncMerge Gossip CanvasSync CanvasSyncProps.

Section media.
Context {S : Type} `{!Webdav S} (date_parse : jstr → num) (now : jstr).
Context (finish_order : ∀ A : Type, list A → list A).
Context (Hnow : units_ok now) (Hfinish : ∀ A (l : list A), finish_order A l ≡ₚ l).
Context (known : jsval → Prop).
#[local] Abbreviation World := (World (S := S)).
Implicit Types (w : World) (d : DomainKey) (l : list jsval) (key : jstr) (files : list AppSyncFile).

Lemma file_map_has files key :
  key ∈ storageKey <$> files → ∃ f, omap.get (file_map files) key = Some f ∧ f ∈ files ∧ storageKey f = key.
Proof.
  intros Hin. assert (is_Some (omap.get (file_map files) key)) as [f Hf].
  { unfold file_map. enough (∀ m, is_Some (omap.get m key) ∨ key ∈ storageKey <$> files →
      is_Some (omap.get (foldl (λ m f, omap.set m (storageKey f) f) m files) key)) as H by (apply H; by right).
    clear. induction files as [|f files IH]; intros m H; [destruct H as [?|H]; [done|by apply elem_of_nil in H]|].
    cbn [foldl]. apply IH. rewrite fmap_cons, elem_of_cons in H. destruct (decide (storageKey f = key)) as [<-|Hk].
    - left. rewrite omap.get_set_eq. by eexists.
    - rewrite omap.get_set_ne by done. destruct H as [H|[H|H]]; [by left|congruence|by right]. }
  exists f. split; [done|]. by apply file_map_elem.
Qed.

(** Every key with a blob or a file has an entry. *)
Lemma plan_has d w files keys key :
  key ∈ keys → is_Some (get_blob w key) → key ∈ storageKey <$> (plan d w files keys).*1.
Proof.
  intros Hk [b Hb]. apply list_elem_of_fmap. exists (file_entry d key b (omap.get (file_map files) key)). split; [done|].
  apply list_elem_of_fmap. eexists (_, _). split; [done|]. apply list_elem_of_omap. exists key. split; [done|].
  unfold plan_key. rewrite Hb. done.
Qed.

(** What is referred to and has a blob here or a file there *)
Definition available w files key : Prop := is_Some (get_blob w key) ∨ key ∈ storageKey <$> files.

Lemma download_available data files w w' :
  downloadMissingFiles finish_order data files w = (w', inr tt) → quiet w → Forall wf_file files →
  Forall (λ f, on_server (stored (srv w)) (path f)) files →
  ∀ key, key ∈ collectStorageKeys data [] → available w files key → is_Some (get_blob w' key).
Proof.
  unfold downloadMissingFiles, runWithConcurrency. intros E Hq Hf Hon key Hkey Ha.
  assert (Forall wf_file (missing_files w (collectStorageKeys data []) files)) as Hwf.
  { apply Forall_forall. intros f (k & _ & Hk)%list_elem_of_omap. destruct (get_blob w k); [done|].
    apply file_map_elem in Hk as [Hk _]. by eapply Forall_forall in Hf. }
  apply fetch_tasks_run in E as [(_ & _ & _ & _ & Hkeep) Hget]; [|by rewrite Hfinish|done].
  destruct (get_blob w key) as [b|] eqn:Eb; [apply Hkeep; by rewrite Eb|].
  destruct Ha as [[b Hb]|Hin]; [congruence|]. apply file_map_has in Hin as (f & Ef & Hin & <-).
  apply Hget; [done| |by eapply Forall_forall in Hon]. rewrite Hfinish. apply list_elem_of_omap.
  exists (storageKey f). split; [done|]. by rewrite Eb.
Qed.

Lemma sync_media o w w' res items files :
  let d := o_key o in
  syncDomain date_parse now finish_order o w = (w', inr res) →
  applies date_parse known o → sound_device date_parse known d w →
  (vacant d (stored (srv w)) ∧ files = [] ∨ listed date_parse known d (stored (srv w)) items files) →
  ∃ files', listed date_parse known d (stored (srv w')) (r_data res) files' ∧
    ∀ key, key ∈ collectStorageKeys (domain_data d (r_data res)) [] → available w files key →
      is_Some (get_blob w' key) ∧ key ∈ storageKey <$> files'.
Proof.
  intros d E Ho Hw Hserver. unfold syncDomain in E. fold d in E. unfold bind at 1 in E.
  destruct (readDomainManifest d w) as [w1 r1] eqn:E1.
  destruct (read_manifest_run _ _ _ _ E1) as (F1 & S1 & R1 & R2); [apply Hw|].
  destruct (same_device_sound date_parse known d _ _ F1 Hw) as [Hw1 El].
  destruct r1 as [e|remote]; [done|]. cbv zeta in E. unfold bind at 1, localData in E.
  destruct Hserver as [[Hv ->]|(Hh & Hi & Hfs & Hon)].
  - rewrite (R1 _ eq_refl Hv) in E.
    destruct (publish_run date_parse now finish_order Hnow Hfinish known _ _ _ _ _ _ _ E) as (F2 & _ & P2);
      [apply Hw1|constructor|constructor|apply Hw1..|].
    destruct (P2 res eq_refl) as [-> Hl]. eexists. split; [exact Hl|]. intros key Hk [Hb|Hb]; [|by apply elem_of_nil in Hb].
    rewrite <- (same_device_blob _ _ _ F1) in Hb. split; [by rewrite (same_device_blob _ _ _ F2)|by apply plan_has].
  - rewrite (R2 _ _ _ eq_refl Hh) in E. unfold bind at 1, mergeData in E.
    destruct (manifest_read_back d (mkManifest [] items files)) as (_ & _ & _ & Ef & _). cbn [m_items] in Ef. rewrite Ef in E.
    unfold ret at 1 in E. rewrite El in E. set (merged := mergeById _ _ _ _) in E.
    assert (wf_items date_parse known d merged) as Hm by (apply merge_wf; [apply Hw|done]).
    unfold bind at 1 in E. destruct (downloadMissingFiles _ _ _ w1) as [w2 r2] eqn:E2. destruct r2 as [e|[]]; [done|].
    assert (Forall wf_file files) as Hff by (eapply Forall_impl; [exact Hfs|by intros f [? _]]). rewrite <- S1 in Hon.
    pose proof (download_available _ _ _ _ E2 (proj1 Hw1) Hff Hon) as Hget.
    unfold downloadMissingFiles, runWithConcurrency in E2.
    apply fetch_tasks_run in E2 as [(F2 & F3 & Hq2 & Hb2 & _) _]; [|rewrite Hfinish; by apply (missing_wf d)|apply Hw1].
    unfold bind at 1 in E. destruct (applyData o merged w2) as [w3 r3] eqn:E3. destruct r3 as [e|[]]; [done|].
    destruct (Ho _ _ _ Hm Hq2 E3) as (G1 & Hq3 & G2 & G3 & G4). rewrite <- F2, <- G1 in Hon.
    destruct (publish_run date_parse now finish_order Hnow Hfinish known _ _ _ _ _ _ _ E Hm Hfs Hon) as (F4 & _ & P2); [|done|].
    { intros k b. rewrite G2. apply Hb2, Hw1. }
    destruct (P2 res eq_refl) as [-> Hl]. eexists. split; [exact Hl|]. intros key Hk Ha.
    assert (is_Some (get_blob w3 key)) as Hb.
    { rewrite G2. apply Hget; [done|]. unfold available. by rewrite (same_device_blob _ _ _ F1). }
    split; [by rewrite (same_device_blob _ _ _ F4)|by apply plan_has].
Qed.
End media.
