(* ===== verification/CanvasConverge.v ===== *)
(** Devices that synchronise with one server agree: after every device has
    synchronised twice, all of them and the server hold the latest version of
    every item. *)

From Stdlib Require Import ZArith NArith Lia SpecFloat.
From stdpp Require Import gmap.
From S2P Require Import Prelude JsString JsNumber JsValue Json NumberText JsRegex JsArray Programs.
From S2P Require Import SyncMerge Gossip CanvasSync CanvasSyncProps.

(** * Objects with a property set stay plain *)

Lemma set_prop_plain v k x :
  json_plain v → json_plain x → units_ok k → is_array_index k = false → json_plain (set_prop v k x).
Proof. intros Hv Hx Hk Hi. destruct v as [| | | | | |o]; try done. by apply plain_set. Qed.

Lemma prop_set_ne v k k' x : k ≠ k' → prop (set_prop v k x) k' = prop v k'.
Proof. intros Hk. destruct v as [| | | | | |o]; try done. cbn. by rewrite omap.get_set_ne. Qed.

Lemma prop_plain v k : json_plain v → prop v k = VUndef ∨ json_plain (prop v k).
Proof.
  intros Hv. destruct v as [| | | | | |o]; try (by left). cbn [prop].
  destruct (omap.get o k) as [x|] eqn:E; [|by left]. right. apply json_plain_obj in Hv as (_ & _ & _ & Hv).
  apply omap.get_Some_elem in E. by eapply Forall_forall in Hv; [|exact E].
Qed.

Lemma text_prop_ok v k : json_plain v → units_ok (text_prop v k).
Proof.
  intros Hv. unfold text_prop. destruct (prop_plain v k Hv) as [->|H]; [constructor|].
  destruct (prop v k); try constructor. done.
Qed.

(** * The options of the domains *)

Section options.
Context {S : Type} `{!Webdav S} (date_parse : jstr → num).
Context (finish_order : ∀ A : Type, list A → list A) (Hfinish : ∀ A (l : list A), finish_order A l ≡ₚ l).
#[local] Abbreviation World := (World (S := S)).
Context (object_url : World → jstr → option jstr) (Hurl : ∀ w k u, object_url w k = Some u → units_ok u).
Context (refused : jsval → bool) (known : jsval → Prop).
(** The addresses in an asset do not matter to what is known. *)
Definition hydrate_closed : Prop := ∀ w x, known x → known (hydrateAsset object_url w x).

#[local] Abbreviation opts := (options finish_order object_url refused).
#[local] Abbreviation wf_items := (wf_items date_parse known).
Implicit Types (w : World) (d : DomainKey) (l : list jsval).

Lemma canvas_applies : applies date_parse known (opts Canvas).
Proof. intros l w w' Hl Hq [= <-]. done. Qed.

(** ** Assets *)

Lemma with_url_item w asset urlKey k :
  k ∉ [js "coverUrl"; js "data"] → prop (with_url object_url w asset urlKey) k = prop asset k.
Proof.
  intros Hk. unfold with_url. rewrite !prop_set_ne; [done|intros <-; set_solver..].
Qed.

Lemma with_url_plain w asset urlKey :
  json_plain asset → is_string (prop asset (js "coverUrl")) = true →
  truthy (text_prop (prop asset (js "data")) (js "storageKey")) = true →
  urlKey ∈ [js "dataUrl"; js "url"] → json_plain (with_url object_url w asset urlKey).
Proof.
  intros Ha Hc Hk Hu.
  assert (json_plain (prop asset (js "data"))) as Hd.
  { destruct (prop_plain asset (js "data") Ha) as [E|]; [|done]. by rewrite E in Hk. }
  assert (units_ok urlKey ∧ is_array_index urlKey = false) as [Hu1 Hu2].
  { repeat (apply elem_of_cons in Hu as [->|Hu]; [split; [units|by vm_compute]|]). by apply elem_of_nil in Hu. }
  unfold with_url. set (url := default _ _). assert (units_ok url) as Hurl'.
  { subst url. destruct (object_url w _) as [u|] eqn:E; [by eapply Hurl|]. by apply text_prop_ok. }
  apply set_prop_plain; [|by apply set_prop_plain|units|by vm_compute].
  apply set_prop_plain; [done| |units|by vm_compute]. destruct (startsWith _ _); [done|].
  destruct (prop_plain asset (js "coverUrl") Ha) as [E|]; [|done]. by rewrite E in Hc.
Qed.

Lemma with_url_cover w asset urlKey :
  is_string (prop asset (js "coverUrl")) = true → is_string (prop (with_url object_url w asset urlKey) (js "coverUrl")) = true.
Proof.
  intros Hc. unfold with_url. rewrite prop_set_ne by done. destruct asset as [| | | | | |o]; try done.
  cbn [set_prop]. unfold prop at 1. rewrite omap.get_set_eq. cbn [default from_option id]. by destruct (startsWith _ _).
Qed.

Lemma hydrate_cases w asset (P : jsval → Prop) :
  P asset →
  (∀ urlKey, urlKey ∈ [js "dataUrl"; js "url"] →
     truthy (text_prop (prop asset (js "data")) (js "storageKey")) = true → P (with_url object_url w asset urlKey)) →
  P (hydrateAsset object_url w asset).
Proof.
  intros H1 H2. unfold hydrateAsset. destruct (truthy _) eqn:E; cbn [negb]; [|done].
  case_bool_decide; [apply H2; [set_solver|done]|]. case_bool_decide; [apply H2; [set_solver|done]|done].
Qed.

Lemma hydrate_prop w asset k :
  k ∉ [js "coverUrl"; js "data"] → prop (hydrateAsset object_url w asset) k = prop asset k.
Proof.
  intros Hk. apply (hydrate_cases w asset (λ x, prop x k = prop asset k)); [done|].
  intros urlKey _ _. by apply with_url_item.
Qed.

Lemma hydrate_ok w asset : hydrate_closed → item_ok known Assets asset → item_ok known Assets (hydrateAsset object_url w asset).
Proof.
  intros Hknown (Hp & Hc & Hx). specialize (Hc eq_refl). unfold item_ok. split_and!; [| |by apply Hknown].
  - apply hydrate_cases; [done|]. intros urlKey Hu Hk. by apply with_url_plain.
  - intros _. apply hydrate_cases; [done|]. intros urlKey _ _. by apply with_url_cover.
Qed.

Lemma versions_ext tk l (f : jsval → jsval) :
  (∀ x, x ∈ l → item_id (f x) = item_id x ∧ getTime date_parse (f x) tk = getTime date_parse x tk) →
  versions date_parse tk (f <$> l) = versions date_parse tk l.
Proof.
  intros Hf. induction l as [|x l IH]; [done|]. rewrite fmap_cons. cbn [versions].
  destruct (Hf x) as [E1 E2]; [set_solver|]. unfold T. rewrite E1, E2, IH; [done|]. intros y Hy. apply Hf. set_solver.
Qed.

Lemma assets_applies : hydrate_closed → applies date_parse known (opts Assets).
Proof.
  intros Hknown l w w' (Hd & Hnd & Hok) Hq [= <-]. cbn [o_key].
  assert (∀ x, item_id (hydrateAsset object_url w x) = item_id x
    ∧ getTime date_parse (hydrateAsset object_url w x) (domain_time Assets) = getTime date_parse x (domain_time Assets)) as Hsame.
  { intros x. unfold item_id, getTime. by rewrite !hydrate_prop by (apply (bool_decide_unpack _); by vm_compute). }
  split_and!; [done..| |].
  - split_and!; cbn.
    + apply Forall_fmap. eapply Forall_impl; [exact Hd|]. intros x. unfold dated, T. destruct (Hsame x) as [_ E]. cbn in E |- *. by rewrite !E.
    + rewrite <- list_fmap_compose. rewrite (list_fmap_ext _ item_id); [done|]. intros i x _. by apply Hsame.
    + apply Forall_fmap. eapply Forall_impl; [exact Hok|]. intros x. by apply hydrate_ok.
  - apply versions_ext. intros x _. apply Hsame.
Qed.

(** ** Logs *)

Lemma put_log_perm log l : (item_id log ∉ (item_id <$> l)) → put_log log l ≡ₚ log :: l.
Proof.
  induction l as [|x l IH]; intros Hlog; [done|]. rewrite fmap_cons, not_elem_of_cons in Hlog. destruct Hlog as [Hx Hl].
  cbn [put_log]. destruct (units_compare (item_id log) (item_id x)) eqn:E; [|done|].
  - exfalso. apply Hx. revert E. generalize (item_id log) as s, (item_id x) as t. clear.
    induction s as [|a s IH]; intros [|b t]; cbn [units_compare]; try done.
    destruct (a ?= b)%N eqn:E; try done. apply N.compare_eq in E as ->. intros Ht. f_equal. by apply IH.
  - rewrite IH by done. apply Permutation_swap.
Qed.

Definition kept l : list jsval := filter (λ x, truthy (item_id x) = true) l.

Lemma kept_Forall (P : jsval → Prop) l : Forall P l → Forall P (kept l).
Proof.
  rewrite !Forall_forall. intros Hl x [_ Hx]%list_elem_of_filter. by apply Hl.
Qed.

Lemma store_logs logs w w' :
  run_tasks (setItem refused) logs w = (w', inr tt) → NoDup (item_id <$> logs ++ local w) →
  srv w' = srv w ∧ images w' = images w ∧ media w' = media w ∧ edits w' = edits w ∧ local w' ≡ₚ kept logs ++ local w.
Proof.
  revert w. induction logs as [|x logs IH]; intros w E Hnd; cbn [run_tasks] in E.
  { by injection E as <-. }
  unfold bind, setItem in E. unfold kept. rewrite filter_cons. rewrite <- app_comm_cons, fmap_cons in Hnd.
  apply NoDup_cons in Hnd as [Hx Hnd]. destruct (truthy (item_id x)) eqn:Et.
  - destruct (refused x); [done|]. rewrite decide_True by done.
    assert (put_log x (local w) ≡ₚ x :: local w) as Hput by (apply put_log_perm; rewrite fmap_app in Hx; set_solver).
    apply IH in E as (E1 & E2 & E3 & E4 & E5).
    + split_and!; [done..|]. rewrite E5. cbn [local set_local]. rewrite Hput. by rewrite <- Permutation_middle.
    + cbn [local set_local]. rewrite Hput, <- Permutation_middle, fmap_cons. by constructor.
  - rewrite decide_False by congruence. by apply IH.
Qed.

Lemma logs_applies d : d = ImageWorkbench ∨ d = VideoWorkbench → applies date_parse known (opts d).
Proof.
  intros Hd l w w' Hl Hq E.
  assert (replaceStoredLogs finish_order refused l w = (w', inr tt)) as E' by (by destruct Hd; subst).
  clear E. cbn [o_key options]. unfold replaceStoredLogs, bind, replaceProjects, runWithConcurrency in E'.
  pose proof Hl as (Hdate & Hnd & Hok).
  apply store_logs in E' as (E1 & E2 & E3 & E4 & E5); [|cbn; rewrite app_nil_r; by rewrite Hfinish].
  cbn [srv images media edits local set_local] in *. rewrite app_nil_r in E5.
  assert (local w' ≡ₚ kept l) as Ep by (rewrite E5; unfold kept; by rewrite Hfinish).
  split_and!; [by rewrite E1|unfold quiet; by rewrite E4|intros k; unfold get_blob; by rewrite E2, E3| |].
  - split_and!.
    + unfold all_dated. rewrite Ep. by apply kept_Forall.
    + rewrite Ep. eapply sublist_NoDup; [exact Hnd|]. apply fmap_sublist, sublist_filter.
    + rewrite Ep. by apply kept_Forall.
  - unfold vers. rewrite (versions_perm _ _ _ (kept l)) by (intros x; by rewrite Ep).
    unfold kept. clear. induction l as [|x l IH]; [done|]. rewrite filter_cons. cbn [versions].
    destruct (truthy (item_id x)) eqn:Et; [rewrite decide_True by done|rewrite decide_False by congruence; done].
    cbn [versions]. by rewrite Et, IH.
Qed.

Lemma opts_applies d : (d = Assets → hydrate_closed) → applies date_parse known (opts d).
Proof.
  intros Hknown. destruct d; [apply canvas_applies|by apply assets_applies, Hknown|apply logs_applies; by left|apply logs_applies; by right].
Qed.

Lemma opts_never_refuses d : d = Canvas ∨ d = Assets → never_refuses (opts d).
Proof. by intros [->| ->]. Qed.

(** * Several devices *)

Record Device := mkDevice {
  dev_images : gmap jstr Blob;
  dev_media : gmap jstr Blob;
  dev_local : list jsval;
}.

Definition on_device (s : S) (dev : Device) : World := mkW s (dev_images dev) (dev_media dev) (dev_local dev) [].
Definition device_of w : Device := mkDevice (images w) (media w) (local w).

(** The devices that try to synchronise, in turn, each with its clock; the log
    tells which attempts succeeded *)
Fixpoint sync_all d (steps : list (nat * jstr)) (st : S * list Device) : (S * list Device) * list (nat * bool) :=
  match steps with
  | [] => (st, [])
  | (i, now) :: steps =>
      match st.2 !! i with
      | None => sync_all d steps st
      | Some dev =>
          let '(w, r) := syncDomain date_parse now finish_order (opts d) (on_device st.1 dev) in
          let '(st, log) := sync_all d steps (srv w, <[i := device_of w]> st.2) in
          (st, (i, match r with inr _ => true | inl _ => false end) :: log)
      end
  end.

Definition sound d (dev : Device) : Prop :=
  (∀ s, wf_blobs (on_device s dev)) ∧ wf_items d (dev_local dev).

(** The versions on the server and on the devices *)
Definition represents d (st : S * list Device) (a : gmap jstr Z * list (gmap jstr Z)) : Prop :=
  server_at date_parse known d (stored st.1) a.1
  ∧ Forall (sound d) st.2 ∧ a.2 = vers date_parse d ∘ dev_local <$> st.2.

Lemma sound_world d s dev : sound d dev → sound_device date_parse known d (on_device s dev).
Proof. intros [Hb Hl]. split_and!; [constructor|apply Hb|done]. Qed.

Lemma world_sound d w : sound_device date_parse known d w → sound d (device_of w).
Proof. intros (_ & Hb & Hl). split; [|done]. intros s k b Hk. by apply (Hb k b). Qed.

Lemma represents_insert d s devs a i w v :
  represents d (s, devs) a → sound_device date_parse known d w → server_at date_parse known d (stored (srv w)) v →
  represents d (srv w, <[i := device_of w]> devs) (v, <[i := vers date_parse d (local w)]> a.2).
Proof.
  intros (_ & Hs & Ea) Hw Hv. split_and!; [done|apply Forall_insert; [done|by apply world_sound]|].
  cbn. rewrite Ea. cbn. by rewrite list_fmap_insert.
Qed.

(** The code refines the replicas. *)
Lemma sync_all_gossip d steps st a st' log :
  sync_all d steps st = (st', log) → represents d st a → Forall (λ e, units_ok e.2) steps →
  (d = Assets → hydrate_closed) → (d = Canvas ∨ d = Assets) ∨ Forall (λ e, e.2 = true) log →
  ∃ a', gossip a log a' ∧ represents d st' a'.
Proof.
  revert st a st' log. induction steps as [|[i now] steps IH]; intros [s devs] a st' log E Ha Hn Hknown Hd; cbn [sync_all] in E.
  { injection E as <- <-. exists a. split; [constructor|done]. }
  apply Forall_cons_1 in Hn as [Hnow Hn]. cbn [fst snd] in E. destruct (devs !! i) as [dev|] eqn:Ei; [|by eapply IH].
  destruct (syncDomain _ _ _ _ _) as [w r] eqn:Ew.
  destruct (sync_all d steps (srv w, <[i := device_of w]> devs)) as [st1 log1] eqn:E1. injection E as <- <-.
  pose proof Ha as (Hserver & Hs & Eq). destruct a as [v vs]. cbn [fst snd] in *.
  assert (sound d dev) as Hdev by (by eapply Forall_lookup in Hs).
  assert (vs !! i = Some (vers date_parse d (dev_local dev))) as Hi by (by rewrite Eq, list_lookup_fmap, Ei).
  destruct (sync_outcome date_parse now finish_order Hnow Hfinish known (opts d) _ _ _ v Ew (opts_applies d Hknown)
    (sound_world d s dev Hdev) Hserver) as [Hok Hfail]. cbn [local on_device o_key options] in Hok, Hfail.
  destruct r as [e|res].
  - destruct Hd as [Hd|Hd]; [|by apply Forall_cons_1 in Hd as [? _]].
    destruct (Hfail (opts_never_refuses d Hd)) as (Hw & Hu & Hv).
    assert (∃ v', kept_or (vjoin (vers date_parse d (dev_local dev)) v) v v' ∧ server_at date_parse known d (stored (srv w)) v')
      as (v' & Hk & Hv') by (destruct Hv; eexists; (split; [|eassumption]); unfold kept_or; auto).
    edestruct IH as (a' & Hg & Ha'); [exact E1|by apply (represents_insert d s devs (v, vs) i w v')|done|done|by left|].
    exists a'. split; [|done]. eapply gossip_fail; [done|exact Hk|exact Hu|exact Hg].
  - destruct (Hok res eq_refl) as (Hw & Hu & Hv & _).
    edestruct IH as (a' & Hg & Ha'); [exact E1|by eapply (represents_insert d s devs (v, vs) i w)|done|done| |].
    { destruct Hd as [Hd|Hd]; [by left|right]. by apply Forall_cons_1 in Hd as [_ Hd]. }
    exists a'. split; [|done]. rewrite Hu in Hg. eapply gossip_ok; [done|exact Hg].
Qed.
End options.

(** * Two rounds *)

Lemma converged {S : Type} `{!Webdav S} (date_parse : jstr → num)
    (finish_order : ∀ A : Type, list A → list A) (object_url : World (S := S) → jstr → option jstr)
    (refused : jsval → bool) (known : jsval → Prop) (d : DomainKey) (steps1 steps2 : list (nat * jstr))
    (s : S) (devs : list Device) (st1 st' : S * list Device) (log1 log2 : list (nat * bool)) (v : gmap jstr Z) :
  (∀ A (l : list A), finish_order A l ≡ₚ l) →
  (∀ w k u, object_url w k = Some u → units_ok u) →
  (d = Assets → hydrate_closed object_url known) →
  Forall (λ e, units_ok e.2) (steps1 ++ steps2) →
  server_at date_parse known d (stored s) v → Forall (sound (S := S) date_parse known d) devs →
  sync_all date_parse finish_order object_url refused d steps1 (s, devs) = (st1, log1) →
  sync_all date_parse finish_order object_url refused d steps2 st1 = (st', log2) →
  (d = Canvas ∨ d = Assets) ∨ Forall (λ e, e.2 = true) (log1 ++ log2) →
  round (length devs) log1 → round (length devs) log2 →
  let all := everything (v, vers date_parse d ∘ dev_local <$> devs) in
  server_at date_parse known d (stored st'.1) all ∧ length st'.2 = length devs
  ∧ Forall (λ dev, sound (S := S) date_parse known d dev ∧ vers date_parse d (dev_local dev) = all) st'.2.
Proof.
  intros Hf Hu Hk [Hs1 Hs2]%Forall_app Hserver Hdev E1 E2 Hd R1 R2 all.
  assert (represents date_parse known d (s, devs) (v, vers date_parse d ∘ dev_local <$> devs)) as Ha by done.
  rewrite Forall_app in Hd.
  edestruct (sync_all_gossip date_parse finish_order Hf object_url Hu refused known d steps1) as (a1 & G1 & Ha1);
    [exact E1|exact Ha|done..|tauto|].
  edestruct (sync_all_gossip date_parse finish_order Hf object_url Hu refused known d steps2) as (a2 & G2 & Ha2);
    [exact E2|exact Ha1|done..|tauto|].
  assert (length (vers date_parse d ∘ dev_local <$> devs) = length devs) as Hlen by apply length_fmap.
  edestruct (gossip_converges (v, vers date_parse d ∘ dev_local <$> devs)) as [Hv Hvs];
    [eapply gossip_trans; [exact G1|exact G2]|cbn; by rewrite Hlen..|]. fold all in Hv, Hvs.
  destruct Ha2 as (Hserver' & Hdev' & Evs). rewrite Hv in Hserver'. split_and!; [done| |].
  - destruct (gossip_grows _ _ _ G1) as [_ L1], (gossip_grows _ _ _ G2) as [_ L2].
    apply Forall2_length in L1, L2. cbn in L1. rewrite Hlen in L1. rewrite Evs, length_fmap in L2. congruence.
  - rewrite Evs in Hvs. apply Forall_fmap in Hvs. by apply Forall_and.
Qed.
