(* ===== verification/CanvasStoreProps.v ===== *)
(** What the stores of the infinite canvas guarantee: the clean-up of media keeps
    exactly what is referred to, saved projects are read back, and the operations
    on projects keep what the synchronisation needs. *)

From Stdlib Require Import ZArith NArith Lia.
From stdpp Require Import gmap.
From S2P Require Import Prelude JsString JsNumber JsValue Json NumberText JsRegex JsArray.
From S2P Require Import SyncMerge Gossip CanvasSync CanvasSyncProps CanvasConverge CanvasStore.

(** * References *)

(** [refers v k]: somewhere in [v] a property [storageKey] is [k] *)
Inductive refers : jsval → jstr → Prop :=
  | refers_own o k : omap.get o (js "storageKey") = Some (VStr k) → refers (VObj o) k
  | refers_prop o p v k : (p, v) ∈ o → refers v k → refers (VObj o) k
  | refers_item l v k : v ∈ l → refers v k → refers (VArr l) k.

Lemma foldl_union {A} (F : A → list jstr → list jstr) (P : A → jstr → Prop) (l : list A) :
  (∀ x, x ∈ l → ∀ keys k, k ∈ F x keys ↔ k ∈ keys ∨ P x k) →
  ∀ keys k, k ∈ foldl (λ keys x, F x keys) keys l ↔ k ∈ keys ∨ ∃ x, x ∈ l ∧ P x k.
Proof.
  intros HF. induction l as [|x l IH]; intros keys k; cbn [foldl]; [set_solver|].
  rewrite IH by (intros y Hy; apply HF; set_solver). rewrite (HF x) by set_solver. set_solver.
Qed.

Lemma collect_spec accept v keys k :
  k ∈ Storage.collect accept v keys ↔ k ∈ keys ∨ refers v k ∧ accept k = true.
Proof.
  revert keys k. unfold Storage.collect. induction v as [| |b|n|s|l IH|o IH] using jsval_rec'; intros keys k;
    try (cbn [walk]; split; [by left|by intros [?|[Hr _]]; [|inversion Hr]]).
  - rewrite walk_arr, (foldl_union _ (λ x k, refers x k ∧ accept k = true))
      by (intros x Hx; eapply Forall_forall in IH; [exact IH|done]).
    split; (intros [?|H]; [by left|right]).
    + destruct H as (x & Hx & Hr & Ha). split; [by eapply refers_item|done].
    + destruct H as [Hr Ha]. inversion Hr; subst. eauto.
  - rewrite walk_obj, (foldl_union _ (λ e k, refers e.2 k ∧ accept k = true)).
    2: { intros e He. rewrite elem_of_entries in He. eapply Forall_forall in IH; [|exact He]. exact IH. }
    assert (k ∈ own_key (λ s keys, if accept s then set_add keys s else keys) o keys ↔
      k ∈ keys ∨ omap.get o (js "storageKey") = Some (VStr k) ∧ accept k = true) as ->.
    { unfold own_key. destruct (omap.get o (js "storageKey")) as [[| | | |s|l|o']|];
        try (split; [by left|by intros [?|[? _]]]).
      split.
      - destruct (accept s) eqn:Ea; [rewrite elem_of_set_add; intros [?| ->]; [by left|by right]|by left].
      - intros [?|[[= ->] ->]]; [destruct (accept s); [rewrite elem_of_set_add; by left|done]|rewrite elem_of_set_add; by right]. }
    setoid_rewrite elem_of_entries. split.
    + intros [[?|[Ho Ha]]|([p v] & He & Hr & Ha)]; [by left|right..].
      * split; [by apply refers_own|done].
      * split; [by eapply refers_prop|done].
    + intros [?|[Hr Ha]]; [by left; left|]. inversion Hr as [o' k' Ho|o' p v k' He Hr'|]; subst.
      * left. by right.
      * right. by exists (p, v).
Qed.

(** * The clean-up *)

Section cleanup.
Import Storage.
Implicit Types (s : Disk) (k : jstr) (used keys : list jstr).

(** Some of the files go, the others stay. *)
Definition restricted {A} (keep : jstr → Prop) (m m' : gmap jstr A) : Prop :=
  ∀ k, (keep k → m' !! k = m !! k) ∧ (¬ keep k → m' !! k = None).

Lemma unused_elem {A} used (m : gmap jstr A) k : k ∈ unused used m ↔ (k ∉ used) ∧ is_Some (m !! k).
Proof.
  unfold unused. rewrite list_elem_of_filter, list_elem_of_fmap. split.
  - intros [Hk ([k' v] & -> & Hin)]. split; [done|]. apply elem_of_map_to_list in Hin. by exists v.
  - intros [Hk [v Hv]]. split; [done|]. exists (k, v). split; [done|]. by apply elem_of_map_to_list.
Qed.

Lemma delete_all {A} (keys : list jstr) (m : gmap jstr A) k :
  foldl (λ m key, delete key m) m keys !! k = if decide (k ∈ keys) then None else m !! k.
Proof.
  revert m. induction keys as [|key keys IH]; intros m; cbn [foldl]; [by rewrite decide_False by set_solver|].
  rewrite IH. destruct (decide (k ∈ keys)); [rewrite decide_True by set_solver; done|].
  destruct (decide (k = key)) as [->|Hk]; [rewrite lookup_delete_eq, decide_True by set_solver; done|].
  rewrite lookup_delete_ne, decide_False by set_solver. done.
Qed.

(** What deleting a list of keys does to each part of the disk *)
Lemma foldl_part {B} (f : Disk → jstr → Disk) (part : Disk → B) (g : B → jstr → B) keys s :
  (∀ s k, part (f s k) = g (part s) k) → part (foldl f s keys) = foldl g (part s) keys.
Proof. intros Hf. revert s. induction keys as [|key keys IH]; intros s; [done|]. cbn [foldl]. by rewrite IH, Hf. Qed.

Lemma foldl_keeps {B} (f : Disk → jstr → Disk) (part : Disk → B) keys s :
  (∀ s k, part (f s k) = part s) → part (foldl f s keys) = part s.
Proof. intros Hf. revert s. induction keys as [|key keys IH]; intros s; [done|]. cbn [foldl]. by rewrite IH, Hf. Qed.

Lemma restricted_unused {A} used (m m' : gmap jstr A) :
  (∀ k, m' !! k = if decide (k ∈ unused used m) then None else m !! k) → restricted (λ k, k ∈ used) m m'.
Proof.
  intros Hm k. rewrite Hm. split; intros Hk.
  - rewrite decide_False; [done|]. by intros [? _]%unused_elem.
  - case_decide as Hu; [done|]. destruct (m !! k) eqn:E; [|done]. exfalso. apply Hu, unused_elem. by split; [|eexists].
Qed.

Definition used_images (usedData : jsval) s : list jstr :=
  foldl (λ keys v, collectImageStorageKeys v keys)
    (foldl (λ keys v, collectImageStorageKeys v keys) (collectImageStorageKeys usedData []) (imageLogStore s)) (videoLogStore s).

(** What the data or a log of a workbench refers to *)
Definition image_in_use (usedData : jsval) s k : Prop :=
  startsWith k (js "image:") = true
  ∧ (refers usedData k ∨ ∃ log, log ∈ imageLogStore s ++ videoLogStore s ∧ refers log k).

Lemma used_images_spec usedData s k : k ∈ used_images usedData s ↔ image_in_use usedData s k.
Proof.
  unfold used_images, image_in_use, collectImageStorageKeys.
  rewrite !(foldl_union _ (λ v k, refers v k ∧ startsWith k (js "image:") = true)) by (intros; apply (collect_spec (λ t : jstr, startsWith t (js "image:")))).
  rewrite collect_spec. setoid_rewrite elem_of_app. set_solver.
Qed.

Lemma cleanup_images usedData s :
  let s' := cleanupUnusedImages usedData s in
  restricted (λ k, k ∈ used_images usedData s) (image_files s) (image_files s')
  ∧ restricted (λ k, k ∈ used_images usedData s) (image_previews s) (image_previews s')
  ∧ media_files s' = media_files s ∧ imageLogStore s' = imageLogStore s ∧ videoLogStore s' = videoLogStore s.
Proof.
  intros s'. unfold s', cleanupUnusedImages, deleteStoredImages. fold (used_images usedData s).
  set (used := used_images usedData s). set (files := unused used (image_files s)). set (orphans := unused used (image_previews s)).
  set (s1 := foldl _ s (uniq files)). split_and!.
  - rewrite (foldl_keeps _ image_files) by done. apply restricted_unused. intros k. fold files. unfold s1.
    rewrite (foldl_part _ image_files (λ m k, delete k m)) by done. rewrite delete_all. apply decide_ext. by rewrite elem_of_uniq.
  - rewrite (foldl_part _ image_previews (λ m k, delete k m)) by done. unfold s1.
    rewrite (foldl_part _ image_previews (λ m k, delete k m)) by done. intros k. rewrite !delete_all. split; intros Hk.
    + rewrite !decide_False; [done|by rewrite elem_of_uniq; intros [? _]%unused_elem|by intros [? _]%unused_elem].
    + case_decide as Ho; [done|]. case_decide; [done|]. destruct (image_previews s !! k) eqn:E; [|done].
      exfalso. apply Ho, unused_elem. by split; [|eexists].
  - unfold s1. by rewrite !(foldl_keeps _ media_files).
  - unfold s1. by rewrite !(foldl_keeps _ imageLogStore).
  - unfold s1. by rewrite !(foldl_keeps _ videoLogStore).
Qed.
End cleanup.

Lemma cleanup_media usedData (s : Storage.Disk) :
  let s' := Storage.cleanupUnusedMedia usedData s in
  restricted (λ k, refers usedData k ∧ includes k (js ":") = true) (Storage.media_files s) (Storage.media_files s')
  ∧ Storage.image_files s' = Storage.image_files s ∧ Storage.image_previews s' = Storage.image_previews s
  ∧ Storage.videoLogStore s' = Storage.videoLogStore s ∧ Storage.imageLogStore s' = Storage.imageLogStore s.
Proof.
  intros s'. unfold s', Storage.cleanupUnusedMedia. set (used := Storage.collectMediaStorageKeys usedData []).
  assert (∀ k, k ∈ used ↔ refers usedData k ∧ includes k (js ":") = true) as Hused.
  { intros k. unfold used, Storage.collectMediaStorageKeys. rewrite (collect_spec (λ t : jstr, includes t (js ":"))). set_solver. }
  split_and!; [|by rewrite foldl_keeps..].
  rewrite (foldl_part _ Storage.media_files (λ m k, delete k m)) by done.
  intros k. rewrite <- Hused. apply restricted_unused. intros k'. apply delete_all.
Qed.

(** C14: The clean-up that follows the deletion of an asset or of projects keeps
    an image, with its preview, exactly when the assets, the projects or a log of
    one of the workbenches refers to it, and another medium exactly when the assets
    or the projects do: the logs of the video workbench are not looked at.  The
    logs stay. *)
Theorem cleanup_exact (assets projects : list jsval) (extra : jsval) (s : Storage.Disk) (k : jstr) :
  let data := Storage.used_data assets projects extra in
  let s' := Storage.cleanupImages assets projects extra s in
  (image_in_use data s k →
     Storage.image_files s' !! k = Storage.image_files s !! k ∧ Storage.image_previews s' !! k = Storage.image_previews s !! k)
  ∧ (¬ image_in_use data s k → Storage.image_files s' !! k = None ∧ Storage.image_previews s' !! k = None)
  ∧ (refers data k ∧ includes k (js ":") = true → Storage.media_files s' !! k = Storage.media_files s !! k)
  ∧ (¬ (refers data k ∧ includes k (js ":") = true) → Storage.media_files s' !! k = None)
  ∧ Storage.imageLogStore s' = Storage.imageLogStore s ∧ Storage.videoLogStore s' = Storage.videoLogStore s.
Proof.
  intros data s'. unfold s', Storage.cleanupImages. fold data. set (s1 := Storage.cleanupUnusedImages data s).
  destruct (cleanup_images data s) as (Hf & Hp & Em & El & Ev). fold s1 in Hf, Hp, Em, El, Ev.
  destruct (cleanup_media data s1) as (Hm & Ef & Ep & Ev' & El'). rewrite Ef, Ep, El', Ev', El, Ev.
  destruct (Hf k) as [F1 F2], (Hp k) as [P1 P2], (Hm k) as [M1 M2]. rewrite used_images_spec in F1, F2, P1, P2.
  rewrite Em in M1. split_and!; auto.
Qed.

(** The video of a log is lost when any project is deleted; its reference image stays. *)
Example video_of_log_lost :
  let log := VObj [(js "id", VStr (js "log")); (js "video", VObj [(js "storageKey", VStr (js "video:1"))]);
                   (js "references", VArr [VObj [(js "storageKey", VStr (js "image:1"))]])] in
  let b := mkBlob (js "video/mp4") (mkContent 9 (js "frames")) in
  let s := Storage.mkDisk {[js "image:1" := b]} ∅ {[js "video:1" := b]} [] [log] ∅ ∅ ∅ 0 [] in
  let s' := (Storage.deleteProjects_confirm [js "p"] [] [VObj [(js "id", VStr (js "p"))]] s).2 in
  Storage.image_files s' !! js "image:1" = Some b ∧ Storage.media_files s' !! js "video:1" = None
  ∧ Storage.videoLogStore s' = [log].
Proof. split_and!; by vm_compute. Qed.

(** * Actions on projects *)

Module ProjectProps.
Import Projects.

(** The properties a patch may have *)
Definition patch_keys : list jstr :=
  [js "nodes"; js "connections"; js "chatSessions"; js "activeChatId"; js "backgroundMode"; js "showImageInfo"; js "viewport"].

Definition patch_ok (patch : jsval) : Prop :=
  match patch with VObj o => Forall (λ e, e.1 ∈ patch_keys ∧ json_plain e.2) o | _ => False end.

Lemma or_else_plain source k d : json_plain source → json_plain d → json_plain (or_else (prop source k) d).
Proof.
  intros Hs Hd. unfold or_else. destruct (prop_plain source k Hs) as [->|Hp]; [done|]. by destruct (truthy_val _).
Qed.

Ltac closed := apply (bool_decide_unpack _); by vm_compute.

Lemma imported_plain id untitled now source :
  units_ok id → units_ok untitled → units_ok now → json_plain source → json_plain (imported id untitled now source).
Proof.
  intros Hi Ht Hn Hs. unfold imported. apply json_plain_obj. split_and!; [closed|reflexivity|closed|].
  repeat (apply Forall_cons; split; [cbn [snd]; first [done|apply or_else_plain; [done|first [done|closed]]]|]). constructor.
Qed.

Lemma new_project_plain id title now : units_ok id → units_ok title → units_ok now → json_plain (new_project id title now).
Proof.
  intros Hi Ht Hn. unfold new_project. apply json_plain_obj. split_and!; [closed|reflexivity|closed|].
  repeat (apply Forall_cons; split; [cbn [snd]; first [done|closed]|]). constructor.
Qed.

Lemma units_ok_trim s : units_ok s → units_ok (trim s).
Proof. unfold units_ok. rewrite !Forall_forall. intros Hs c Hc. by apply Hs, elem_of_trim. Qed.

Lemma patch_key_ok k : k ∈ patch_keys → units_ok k ∧ is_array_index k = false.
Proof.
  intros Hk. assert (Forall (λ k, units_ok k ∧ is_array_index k = false) patch_keys) as Hall by closed.
  by eapply Forall_forall in Hall.
Qed.

Lemma spread_plain p patch : patch_ok patch → json_plain p → json_plain (spread p patch).
Proof.
  destruct patch as [| | | | | |o]; try done. cbn [patch_ok spread]. intros Ho. revert p.
  induction Ho as [|[k v] o [Hk Hv] Ho IH]; intros p Hp; [done|]. cbn [foldl]. apply IH.
  destruct (patch_key_ok k Hk). by apply set_prop_plain.
Qed.

Section actions.
Context (date_parse : jstr → num).

(** A time that is a date after 1970 *)
Definition clock_ok (now : jstr) : Prop := units_ok now ∧ dated date_parse (js "updatedAt") (VObj [(js "updatedAt", VStr now)]).

(** A project as the application makes it *)
Definition project_ok (p : jsval) : Prop :=
  json_plain p ∧ is_string (prop p (js "title")) = true ∧ dated date_parse (js "updatedAt") p.

Definition text_or_missing (v : jsval) : Prop := v = VUndef ∨ is_string v = true.

Definition action_ok (a : action) : Prop :=
  match a with
  | Create id title now => units_ok id ∧ units_ok title ∧ clock_ok now
  | Import id untitled now source =>
      units_ok id ∧ units_ok untitled ∧ clock_ok now ∧ json_plain source ∧ text_or_missing (prop source (js "title"))
  | Rename id title now => units_ok title ∧ clock_ok now
  | Update id patch now => patch_ok patch ∧ clock_ok now
  | Delete ids => True
  | Replace l => Forall project_ok l
  end.

Lemma dated_at now p :
  clock_ok now → prop p (js "updatedAt") = VStr now → dated date_parse (js "updatedAt") p.
Proof. intros [_ Hd] Hp. unfold dated, T, getTime in *. rewrite Hp. exact Hd. Qed.

Lemma prop_set_eq o k x : prop (set_prop (VObj o) k x) k = x.
Proof. cbn. by rewrite omap.get_set_eq. Qed.

Lemma object_of p k : is_string (prop p k) = true → ∃ o, p = VObj o.
Proof. destruct p; try done. by eexists. Qed.

Lemma set_prop_obj o k x : ∃ o', set_prop (VObj o) k x = VObj o'.
Proof. by eexists. Qed.

Lemma renamed_ok title now p : units_ok title → clock_ok now → project_ok p → project_ok (renamed title now p).
Proof.
  intros Ht Hn (Hp & Hs & _). unfold renamed. destruct (object_of _ _ Hs) as [o ->].
  set (x := if truthy (trim title) then _ else _).
  assert (json_plain x ∧ is_string x = true) as [Hx Hxs].
  { subst x. destruct (truthy (trim title)); [split; [by apply units_ok_trim|done]|]. split; [|done].
    destruct (prop_plain (VObj o) (js "title") Hp) as [E|]; [by rewrite E in Hs|done]. }
  destruct (set_prop_obj o (js "title") x) as [o' E]. split_and!.
  - apply set_prop_plain; [apply set_prop_plain; [done|done|closed|by vm_compute]|apply Hn|closed|by vm_compute].
  - rewrite prop_set_ne by done. by rewrite prop_set_eq.
  - apply (dated_at now); [done|]. rewrite E. apply prop_set_eq.
Qed.

Lemma spread_prop p patch k : patch_ok patch → (k ∉ patch_keys) → prop (spread p patch) k = prop p k.
Proof.
  destruct patch as [| | | | | |o]; try done. cbn [patch_ok spread]. intros Ho Hk. revert p.
  induction Ho as [|[k' v] o [Hk' Hv] Ho IH]; intros p; [done|]. cbn [foldl]. rewrite IH. apply prop_set_ne. cbn. by intros ->.
Qed.

Lemma updated_ok patch now p : patch_ok patch → clock_ok now → project_ok p → project_ok (updated patch now p).
Proof.
  intros Hpatch Hn (Hp & Hs & _). unfold updated.
  assert (prop (spread p patch) (js "title") = prop p (js "title")) as Et by (apply spread_prop; [done|closed]).
  destruct (object_of (spread p patch) (js "title")) as [o E]; [by rewrite Et|]. split_and!.
  - apply set_prop_plain; [by apply spread_plain|apply Hn|closed|by vm_compute].
  - rewrite prop_set_ne by done. by rewrite Et.
  - apply (dated_at now); [done|]. rewrite E. apply prop_set_eq.
Qed.

(** The actions keep sound projects sound. *)
Lemma act_ok a l : action_ok a → Forall project_ok l → Forall project_ok (act a l).
Proof.
  intros Ha Hl. destruct a as [id title now|id untitled now source|id title now|id patch now|ids|l']; cbn [act action_ok] in *.
  - destruct Ha as (Hi & Ht & Hn). constructor; [|done]. split_and!; [apply new_project_plain; [done..|apply Hn]|done|by apply (dated_at now)].
  - destruct Ha as (Hi & Ht & Hn & Hs & Htitle). constructor; [|done].
    split_and!; [apply imported_plain; [done..|apply Hn|done]| |by apply (dated_at now)].
    change (is_string (or_else (prop source (js "title")) (VStr untitled)) = true). unfold or_else.
    destruct Htitle as [->|Hx]; [done|]. by destruct (truthy_val _).
  - apply Forall_fmap. eapply Forall_impl; [exact Hl|]. intros p Hp. cbn. destruct (has_id id p); [|done].
    destruct Ha. by apply renamed_ok.
  - apply Forall_fmap. eapply Forall_impl; [exact Hl|]. intros p Hp. cbn. destruct (has_id id p); [|done].
    destruct Ha. by apply updated_ok.
  - unfold deleteProjects. rewrite Forall_forall in Hl |- *. intros p [_ Hp]%list_elem_of_filter. by apply Hl.
  - done.
Qed.

(** A new identifier; a list that is put in place has distinct ones *)
Definition action_fresh (a : action) (l : list jsval) : Prop :=
  match a with
  | Create id _ _ | Import id _ _ _ => id ∉ item_id <$> l
  | Replace l' => NoDup (item_id <$> l')
  | _ => True
  end.

Lemma map_ids (f : jsval → jsval) (l : list jsval) : (∀ p, p ∈ l → item_id (f p) = item_id p) → item_id <$> (f <$> l) = item_id <$> l.
Proof. intros Hf. rewrite <- list_fmap_compose. apply list_fmap_ext. intros i p Hp%list_elem_of_lookup_2. by apply Hf. Qed.

Lemma act_ids a l : action_ok a → action_fresh a l → NoDup (item_id <$> l) → NoDup (item_id <$> act a l).
Proof.
  intros Ha Hf Hl. destruct a as [id title now|id untitled now source|id title now|id patch now|ids|l']; cbn [act action_ok action_fresh] in *.
  - unfold createProject. rewrite fmap_cons. constructor; [exact Hf|done].
  - unfold importProject. rewrite fmap_cons. constructor; [exact Hf|done].
  - unfold renameProject. rewrite map_ids; [done|]. intros p _. destruct (has_id id p); [|done]. unfold renamed, item_id.
    by rewrite !prop_set_ne.
  - unfold updateProject. rewrite map_ids; [done|]. intros p _. destruct (has_id id p); [|done]. unfold updated, item_id.
    rewrite prop_set_ne by done. destruct Ha as [Hpatch _]. rewrite (spread_prop p patch (js "id") Hpatch); [done|closed].
  - eapply sublist_NoDup; [exact Hl|]. apply fmap_sublist, sublist_filter.
  - done.
Qed.
End actions.

(** The project an action writes, and when *)
Definition edited (a : action) : option (jstr * jstr) :=
  match a with
  | Create id _ now | Import id _ now _ | Rename id _ now | Update id _ now => Some (id, now)
  | _ => None
  end.

Lemma has_id_item id p : item_id p = id → truthy id = true → has_id id p = true.
Proof.
  unfold item_id, has_id. intros <- Ht. apply bool_decide_eq_true. by destruct (prop p (js "id")).
Qed.

Lemma item_object p : truthy (item_id p) = true → ∃ o, p = VObj o.
Proof. destruct p; try done. by eexists. Qed.

Lemma spread_object o patch : ∃ o', spread (VObj o) patch = VObj o'.
Proof.
  destruct patch as [| | | | | |q]; try by eexists. cbn [spread]. revert o. induction q as [|[k v] q IH]; intros o; [by eexists|].
  cbn [foldl]. apply IH.
Qed.

Lemma renamed_time title now p : truthy (item_id p) = true → prop (renamed title now p) (js "updatedAt") = VStr now.
Proof. intros [o ->]%item_object. unfold renamed. destruct (set_prop_obj o (js "title") (if truthy (trim title) then VStr (trim title) else prop (VObj o) (js "title"))) as [o' ->]. apply prop_set_eq. Qed.

Lemma updated_time patch now p : truthy (item_id p) = true → prop (updated patch now p) (js "updatedAt") = VStr now.
Proof. intros [o ->]%item_object. unfold updated. destruct (spread_object o patch) as [o' ->]. apply prop_set_eq. Qed.

Lemma edited_time date_parse a l id now p :
  action_ok date_parse a → action_fresh a l → edited a = Some (id, now) → p ∈ act a l → item_id p = id → truthy id = true →
  prop p (js "updatedAt") = VStr now.
Proof.
  intros Ha Hf He Hp Hid Ht. destruct a as [id' title now'|id' untitled now' source|id' title now'|id' patch now'|ids|l']; try done;
    injection He as -> ->; cbn [act action_fresh] in *.
  - apply elem_of_cons in Hp as [->|Hp]; [done|]. exfalso. apply Hf. rewrite <- Hid. by apply list_elem_of_fmap_2.
  - apply elem_of_cons in Hp as [->|Hp]; [done|]. exfalso. apply Hf. rewrite <- Hid. by apply list_elem_of_fmap_2.
  - apply list_elem_of_fmap in Hp as (q & -> & Hq).
    assert (item_id q = id) as Hq'.
    { revert Hid. destruct (has_id id q); [|done]. unfold renamed, item_id. by rewrite !prop_set_ne. }
    rewrite (has_id_item id q) by done. apply renamed_time. by rewrite Hq'.
  - apply list_elem_of_fmap in Hp as (q & -> & Hq). destruct Ha as [Hpatch _].
    assert (item_id q = id) as Hq'.
    { revert Hid. destruct (has_id id q); [|done]. unfold updated, item_id. rewrite prop_set_ne by done.
      rewrite (spread_prop q patch (js "id") Hpatch); [done|closed]. }
    rewrite (has_id_item id q) by done. apply updated_time. by rewrite Hq'.
Qed.
End ProjectProps.

(** * Saving *)

Module SavingProps.
Import Saving.

(** What is read from the disk *)
Definition loads (d : option jstr) : option (list jsval) := ref_projects <$> (getItem 0 (mkSaver None None d)).2.

Lemma getItem_loads n s : ref_projects <$> (getItem n s).2 = loads (disk s).
Proof.
  unfold loads, getItem. cbn [disk]. destruct (disk s) as [t|]; [|done]. destruct (JSON_parse t) as [v|]; [|done].
  by destruct (prop _ (js "projects")).
Qed.

Lemma saved_loads l : Forall json_plain l → ∃ t, JSON_stringify (persisted l) = Some t ∧ loads (Some t) = Some l.
Proof.
  intros Hl. assert (json_plain (persisted l)) as Hp.
  { unfold persisted. apply json_plain_obj. split_and!; [apply (bool_decide_unpack _); by vm_compute|reflexivity
      |apply (bool_decide_unpack _); by vm_compute|]. constructor; [|constructor; [|constructor]].
    - apply json_plain_obj. split_and!; [apply (bool_decide_unpack _); by vm_compute|reflexivity|apply (bool_decide_unpack _); by vm_compute|].
      constructor; [|constructor]. by apply json_plain_arr.
    - apply (bool_decide_unpack _). by vm_compute. }
  destruct (JSON_parse_stringify 0 _ Hp) as (t & Ht & _ & Hr). exists t. split; [exact Ht|].
  unfold loads, getItem. cbn [disk]. rewrite Hr. done.
Qed.

(** A property of projects that every change keeps *)
Section invariant.
Context (P : jsval → Prop) (HP : ∀ x, P x → json_plain x).

(** What is queued is the current array; the timer holds it or the disk does. *)
Definition tracked (s : Store) : Prop :=
  queuedPersistState (saver s) = Some (ref_id (current s)) ∧ ref_id (current s) < next_ref s
  ∧ Forall P (ref_projects (current s))
  ∧ match saveTimer (saver s) with
    | Some l => l = ref_projects (current s)
    | None => loads (disk (saver s)) = Some (ref_projects (current s))
    end.

Definition event_ok (e : event) : Prop :=
  match e with Change f => ∀ l, Forall P l → Forall P (f l) | _ => True end.

Lemma step_tracked e s : event_ok e → tracked s → tracked (step e s).
Proof.
  intros He (Hq & Hn & Hp & Ht). destruct e as [f| |]; unfold tracked, step.
  - cbn [current next_ref saver ref_id ref_projects]. unfold setItem. cbn [ref_id ref_projects].
    rewrite Hq, bool_decide_eq_false_2 by (intros [= E]; lia). cbn. split_and!; [done|lia|by apply He|done].
  - cbn [current next_ref saver]. unfold setItem. by rewrite Hq, bool_decide_eq_true_2.
  - cbn [current next_ref saver]. unfold fire. destruct (saveTimer (saver s)) as [l|] eqn:E; [subst l|by rewrite E].
    cbn [queuedPersistState saveTimer disk]. by destruct (saved_loads _ (Forall_impl _ _ _ Hp HP)) as (t & -> & Hl).
Qed.

Lemma run_tracked es s : Forall event_ok es → tracked s → tracked (run es s).
Proof.
  intros Hes. revert s. induction Hes as [|e es He Hes IH]; intros s Hs; [done|]. apply IH. by apply step_tracked.
Qed.

Lemma start_tracked saved : Forall P (ref_projects (current (start saved))) → tracked (start saved).
Proof.
  unfold start. pose proof (getItem_loads 1 (mkSaver None None saved)) as Hl. cbn [disk] in Hl. revert Hl.
  unfold getItem. cbn [disk saveTimer]. destruct saved as [t|]; [destruct (JSON_parse t) as [v|]; [destruct (prop _ _)|]|];
    cbn [step current default from_option id saver setItem queuedPersistState ref_id ref_projects next_ref]; intros Hl Hp;
    unfold tracked; cbn [current saver next_ref queuedPersistState saveTimer disk ref_id ref_projects];
    (split_and!; [done|lia|done|done]).
Qed.

End invariant.

(** C15: Saved projects survive: whatever happens to the projects, once the timer
    has fired an application started from the disk has the projects of the one
    that was closed. *)
Theorem saved_projects_reload (P : jsval → Prop) (saved : option jstr) (es : list event) :
  (∀ x, P x → json_plain x) →
  Forall P (ref_projects (current (start saved))) → Forall (event_ok P) es →
  let s := run (es ++ [Fire]) (start saved) in
  ref_projects (current s) = ref_projects (current (run es (start saved)))
  ∧ ref_projects (current (start (disk (saver s)))) = ref_projects (current s).
Proof.
  intros HP Hp Hes s. assert (tracked P s) as (_ & _ & _ & Ht).
  { apply run_tracked; [done| |by apply start_tracked]. apply Forall_app. by split; [|constructor]. }
  subst s. revert Ht. unfold run. rewrite foldl_app. cbn [foldl]. fold (run es (start saved)). set (s := run es (start saved)).
  intros Ht. split; [done|]. assert (saveTimer (saver (step Fire s)) = None) as Hn.
  { cbn. unfold fire. by destruct (saveTimer (saver s)) eqn:E. }
  rewrite Hn in Ht. pose proof (getItem_loads 1 (mkSaver None None (disk (saver (step Fire s))))) as Hg. cbn [disk] in Hg.
  rewrite Ht in Hg. unfold start. destruct (getItem 1 _) as [sv [r|]]; [|done]. by injection Hg.
Qed.

Lemma saved_projects_reload_witness :
  let date_parse t := num_of_Z (Z.of_N (digits_value t)) in
  let actions := [Projects.Create (js "a") (js "Title") (js "5"); Projects.Rename (js "a") (js " New ") (js "6");
                  Projects.Create (js "b") (js "Other") (js "7"); Projects.Delete [js "b"]] in
  let s := run ((Change ∘ Projects.act <$> actions) ++ [Fire]) (start None) in
  ref_projects (current (start (disk (saver s)))) = ref_projects (current s)
  ∧ (λ p, prop p (js "title")) <$> ref_projects (current s) = [VStr (js "New")].
Proof.
  intros date_parse actions s. split; [|by vm_compute].
  apply (saved_projects_reload (ProjectProps.project_ok date_parse) None); [by intros x [? _]|constructor|].
  apply Forall_fmap. apply (Forall_impl (ProjectProps.action_ok date_parse)); [|intros a Ha l; by apply ProjectProps.act_ok].
  repeat (apply Forall_cons; split; [cbn [ProjectProps.action_ok]; unfold ProjectProps.clock_ok; split_and?;
    first [done|apply (bool_decide_unpack _); by vm_compute|by vm_compute]|]). constructor.
Defined.
End SavingProps.
