(* ===== verification/CanvasTheorems.v ===== *)
(** What the synchronisation of the infinite canvas guarantees, at its interface:
    devices converge, no version is lost by an attempt, media follow the items,
    and the merge is the join of what the two sides hold. *)

From Stdlib Require Import ZArith NArith Lia SpecFloat Sorted.
From stdpp Require Import gmap.
From S2P Require Import Prelude JsString JsNumber JsValue Json NumberText JsRegex JsArray Programs Uri.
From S2P Require Import SyncMerge Gossip CanvasSync Webdav WebdavProps CanvasSyncProps CanvasMedia CanvasConverge CanvasStore CanvasStoreProps.

(** * Concrete devices *)

Module Sample.

Definition config : WebdavSyncConfig := mkConfig (js "https://dav.example/") (js "sync dir") (js "me") (js "secret").

Definition texts (key : jstr) (options : list (jstr * jsval)) : jstr := key.

Lemma config_encodable : is_Some (encoded_directory config).
Proof. eexists. by vm_compute. Defined.

#[global] Instance server : Webdav (Client (H := Memory)) := client_webdav texts config config_encodable.

Definition empty_server : Client (H := Memory) := mkClient (mkMemory ∅ []) [].

(** A server that loses the requests after the first [n] *)
Definition failing_after (n : nat) (c : Client (H := Memory)) : Client :=
  mkClient (mkMemory (mem (http c)) (replicate n true ++ replicate 20 false)) (ensuredDirectories c).

(** Times are written as numbers of milliseconds. *)
Definition date_parse (s : jstr) : num := num_of_Z (Z.of_N (digits_value s)).
Definition in_order (A : Type) (l : list A) : list A := l.
Definition no_url {A} (w : A) (k : jstr) : option jstr := None.
Definition accepted (x : jsval) : bool := false.
Definition any (x : jsval) : Prop := True.

Definition project (id title time : jstr) : jsval :=
  VObj [(js "id", VStr id); (js "title", VStr title); (js "updatedAt", VStr time);
        (js "nodes", VArr [VObj [(js "storageKey", VStr (js "image:" ++ id))]])].

Definition picture : Blob := mkBlob (js "image/png") (mkContent 5 (js "bytes")).

Definition device (own : jstr) (l : list jsval) : Device := mkDevice {[own := picture]} ∅ l.

Definition first : Device := device (js "image:a") [project (js "a") (js "first") (js "10"); project (js "b") (js "old") (js "3")].
Definition second : Device := device (js "image:b") [project (js "b") (js "new") (js "7")].

Definition devices : list Device := [first; second].

Definition steps : list (nat * jstr) := [(0, js "t0"); (1, js "t1")].

Definition run (d : DomainKey) (steps : list (nat * jstr)) (st : Client * list Device) :=
  sync_all date_parse in_order no_url accepted d steps st.

(** The projects there are *)
Definition projects : list jsval := dev_local first ++ dev_local second.

Definition first_round := run Canvas steps (empty_server, devices).
Definition second_round := run Canvas steps first_round.1.
End Sample.

#[export] Instance dated_dec date_parse timeKey x : Decision (dated date_parse timeKey x).
Proof. unfold dated. apply _. Defined.

Module SampleFacts.
Import Sample.

Ltac decide_closed := apply (bool_decide_unpack _); by vm_compute.

Lemma items_ok (known : jsval → Prop) d l :
  bool_decide (Forall (dated date_parse (domain_time d)) l) = true → bool_decide (NoDup (item_id <$> l)) = true →
  bool_decide (Forall json_plain l) = true → d ≠ Assets → Forall known l → wf_items date_parse known d l.
Proof.
  intros H1%bool_decide_eq_true H2%bool_decide_eq_true H3%bool_decide_eq_true Hd Hk. split_and!; [done..|].
  apply Forall_forall. intros x Hx. rewrite Forall_forall in H3, Hk. split_and!; [by apply H3|done|by apply Hk].
Qed.

Lemma device_sound (known : jsval → Prop) k l d :
  wf_items date_parse known d l → sound (S := Client (H := Memory)) date_parse known d (device k l).
Proof.
  intros Hl. split; [|done]. intros s key b. unfold get_blob. cbn. destruct (is_image key); [|by rewrite lookup_empty].
  intros [_ <-]%lookup_singleton_Some. split; [decide_closed|by vm_compute].
Qed.

Lemma devices_sound (known : jsval → Prop) :
  Forall known (dev_local first) → Forall known (dev_local second) →
  Forall (sound (S := Client (H := Memory)) date_parse known Canvas) devices.
Proof.
  intros H1 H2. unfold devices. do 2 (apply Forall_cons; split; [apply device_sound, items_ok; [by vm_compute..|done|done]|]).
  constructor.
Qed.

Lemma any_sound : Forall (sound (S := Client (H := Memory)) date_parse any Canvas) devices.
Proof. apply devices_sound; by apply Forall_forall. Qed.

Lemma empty_vacant known d : server_at date_parse known d (stored empty_server) ∅.
Proof. left. split; [|done]. unfold vacant. cbn. by rewrite lookup_empty. Qed.

Lemma first_round_at : ∃ v, server_at date_parse any Canvas (stored first_round.1.1) v.
Proof.
  assert (represents date_parse any Canvas (empty_server, devices) (∅, vers date_parse Canvas ∘ dev_local <$> devices)) as H0
    by (split_and!; [apply (empty_vacant any)|apply any_sound|done]).
  destruct (sync_all_gossip (S := Client (H := Memory)) date_parse in_order ltac:(done) no_url ltac:(done) accepted any Canvas
    steps _ _ _ _ (surjective_pairing first_round) H0) as (a & _ & Ha & _); [decide_closed|done|by left; left|]. by exists a.1.
Qed.

Lemma both_succeed log : log = [(0, true); (1, true)] → round (length devices) log.
Proof. intros -> [|[|i]] Hi; cbn in Hi; [by left|by right; left|lia]. Qed.
End SampleFacts.

(** * Convergence *)

(** C9: Devices that synchronise a domain with one server, one after the other and
    never two at once, agree: once every device has succeeded in two rounds, each of
    them and the server hold the latest version of every item that any of them had at
    the start.  For the projects and the assets, attempts in between may fail at any
    request, in any order of the media transfers; for the logs of the workbenches no
    attempt may fail.  Nobody edits meanwhile, items have dates and distinct
    identifiers, and the manifest at the start is one of this application.  *)
Theorem devices_converge {S : Type} `{!Webdav S} (date_parse : jstr → num)
    (finish_order : ∀ A : Type, list A → list A) (object_url : World (S := S) → jstr → option jstr)
    (refused : jsval → bool) (known : jsval → Prop) (d : DomainKey) (steps1 steps2 : list (nat * jstr))
    (s : S) (devs : list Device) (st1 st' : S * list Device) (log1 log2 : list (nat * bool)) (v : gmap jstr Z) :
  (∀ A (l : list A), finish_order A l ≡ₚ l) →
  (∀ w k u, object_url w k = Some u → units_ok u) →
  (d = Assets → hydrate_closed object_url known) →
  Forall (λ e, units_ok e.2) (steps1 ++ steps2) →
  server_at date_parse known d (stored s) v → Forall (sound (S := S) date_parse known d) devs →
  sync_all date_parse finish_order object_url refused d steps1 (s, devs) = (st1, log1) →
  sync_all date_parse finish_order object_url refused d steps2 st1 = (st', log2) →
  (d = Canvas ∨ d = Assets) ∨ Forall (λ e, e.2 = true) (log1 ++ log2) →
  round (length devs) log1 → round (length devs) log2 →
  let all := everything (v, vers date_parse d ∘ dev_local <$> devs) in
  server_at date_parse known d (stored st'.1) all ∧ length st'.2 = length devs
  ∧ Forall (λ dev, sound (S := S) date_parse known d dev ∧ vers date_parse d (dev_local dev) = all) st'.2.
Proof. apply converged. Qed.

Lemma devices_converge_witness :
  let all := everything (∅, vers Sample.date_parse Canvas ∘ dev_local <$> Sample.devices) in
  all = {[js "a" := 10%Z; js "b" := 7%Z]} ∧ server_at Sample.date_parse Sample.any Canvas (stored Sample.second_round.1.1) all.
Proof.
  intros all. split; [by vm_compute|].
  eapply (devices_converge Sample.date_parse Sample.in_order Sample.no_url Sample.accepted Sample.any Canvas Sample.steps Sample.steps);
    [done|done|done|apply (bool_decide_unpack _); by vm_compute|apply SampleFacts.empty_vacant|apply SampleFacts.any_sound
    |apply surjective_pairing|apply surjective_pairing|left; by left|apply SampleFacts.both_succeed..]; by vm_compute.
Defined.

(** ** Contents *)

(** Items that are told apart by their identifier and time *)
Definition coherent (date_parse : jstr → num) (tk : jstr) (known : jsval → Prop) : Prop :=
  ∀ x y, known x → known y → item_id x = item_id y → T date_parse tk x = T date_parse tk y → x = y.

Lemma NoDup_fmap_elem {A B} (f : A → B) (l : list A) x y :
  NoDup (f <$> l) → x ∈ l → y ∈ l → f x = f y → x = y.
Proof.
  intros Hnd [i Hi]%list_elem_of_lookup_1 [j Hj]%list_elem_of_lookup_1 E.
  assert (i = j) as ->; [|congruence]. eapply NoDup_lookup; [exact Hnd|..]; rewrite list_lookup_fmap.
  - by rewrite Hi.
  - by rewrite Hj, E.
Qed.

Lemma same_versions_items date_parse tk known (l l' : list jsval) :
  coherent date_parse tk known → Forall known l → Forall known l' →
  Forall (λ x, truthy (item_id x) = true) l →
  NoDup (item_id <$> l) → versions date_parse tk l = versions date_parse tk l' → ∀ x, x ∈ l → x ∈ l'.
Proof.
  intros Hc Hl Hl' Ht Hnd E x Hx.
  assert (truthy (item_id x) = true) as Hid by (by eapply Forall_forall in Ht).
  assert (versions date_parse tk l !! item_id x = Some (T date_parse tk x)) as Hv.
  { apply (versions_Some _ _ _ _ _ Hid). split; [by exists x|]. intros y Hy Ey.
    destruct (NoDup_fmap_elem item_id l x y Hnd Hx Hy (eq_sym Ey)). lia. }
  rewrite E in Hv. apply (versions_Some _ _ _ _ _ Hid) in Hv as [(y & Hy & Ey & ET) _].
  assert (x = y) as ->; [|done]. apply Hc; [by eapply Forall_forall in Hl|by eapply Forall_forall in Hl'|done..].
Qed.

(** C11: After the two rounds, with attempts that may fail in between but never two
    devices at once and no edits meanwhile, all devices show the same projects, provided
    that every project has an identifier and no two different versions of a project
    carry the same time: then the lists of any two devices are the same up to order.
    With versions of the same time each device keeps its own, and they do not agree.  *)
Theorem canvas_devices_agree {S : Type} `{!Webdav S} (date_parse : jstr → num)
    (finish_order : ∀ A : Type, list A → list A) (object_url : World (S := S) → jstr → option jstr)
    (refused : jsval → bool) (known : jsval → Prop) (steps1 steps2 : list (nat * jstr))
    (s : S) (devs : list Device) (st1 st' : S * list Device) (log1 log2 : list (nat * bool)) (v : gmap jstr Z) :
  (∀ A (l : list A), finish_order A l ≡ₚ l) →
  (∀ w k u, object_url w k = Some u → units_ok u) →
  coherent date_parse (domain_time Canvas) known → (∀ x, known x → truthy (item_id x) = true) →
  Forall (λ e, units_ok e.2) (steps1 ++ steps2) →
  server_at date_parse known Canvas (stored s) v → Forall (sound (S := S) date_parse known Canvas) devs →
  sync_all date_parse finish_order object_url refused Canvas steps1 (s, devs) = (st1, log1) →
  sync_all date_parse finish_order object_url refused Canvas steps2 st1 = (st', log2) →
  round (length devs) log1 → round (length devs) log2 →
  ∀ dev dev', dev ∈ st'.2 → dev' ∈ st'.2 → dev_local dev ≡ₚ dev_local dev'.
Proof.
  intros Hf Hu Hc Hid Hs Hserver Hdev E1 E2 R1 R2 dev dev' Hin Hin'.
  edestruct (converged date_parse finish_order object_url refused known Canvas steps1 steps2) as (_ & _ & Hall);
    [exact Hf|exact Hu|done|exact Hs|exact Hserver|exact Hdev|exact E1|exact E2|left; by left|done..|].
  rewrite Forall_forall in Hall. destruct (Hall dev Hin) as [[_ (_ & Hnd & Hok)] Ev].
  destruct (Hall dev' Hin') as [[_ (_ & Hnd' & Hok')] Ev'].
  assert (∀ l, Forall (item_ok known Canvas) l → Forall known l ∧ Forall (λ x, truthy (item_id x) = true) l) as Hsplit.
  { intros l Hl. split; (eapply Forall_impl; [exact Hl|]); intros x (_ & _ & Hx); [done|by apply Hid]. }
  destruct (Hsplit _ Hok) as [Hk Ht], (Hsplit _ Hok') as [Hk' Ht'].
  apply NoDup_Permutation; [by eapply NoDup_fmap_1..|]. intros x. split.
  - eapply (same_versions_items date_parse (domain_time Canvas)); eauto. unfold vers in *. congruence.
  - eapply (same_versions_items date_parse (domain_time Canvas)); eauto. unfold vers in *. congruence.
Qed.

Lemma canvas_devices_agree_witness :
  ∃ dev dev', Sample.second_round.1.2 = [dev; dev'] ∧ dev_local dev ≡ₚ dev_local dev'.
Proof.
  assert (length Sample.second_round.1.2 = 2) as Hlen by (by vm_compute).
  enough (∀ dev dev', dev ∈ Sample.second_round.1.2 → dev' ∈ Sample.second_round.1.2 → dev_local dev ≡ₚ dev_local dev') as Hagree.
  { destruct Sample.second_round.1.2 as [|dev [|dev' [|]]]; try done. exists dev, dev'. split; [done|]. apply Hagree; set_solver. }
  eapply (canvas_devices_agree Sample.date_parse Sample.in_order Sample.no_url Sample.accepted (λ x, x ∈ Sample.projects)
    Sample.steps Sample.steps); [done|done| | |apply (bool_decide_unpack _); by vm_compute|apply SampleFacts.empty_vacant
    |apply SampleFacts.devices_sound; apply (bool_decide_unpack _); by vm_compute
    |apply surjective_pairing|apply surjective_pairing|apply SampleFacts.both_succeed; by vm_compute..].
  - assert (Forall (λ x, Forall (λ y, item_id x = item_id y →
      T Sample.date_parse (domain_time Canvas) x = T Sample.date_parse (domain_time Canvas) y → x = y) Sample.projects) Sample.projects) as Hc
      by (apply (bool_decide_unpack _); by vm_compute).
    intros x y Hx Hy. rewrite Forall_forall in Hc. specialize (Hc x Hx). cbn beta in Hc. rewrite Forall_forall in Hc. by apply Hc.
  - apply Forall_forall. apply (bool_decide_unpack _). by vm_compute.
Defined.

(** * One synchronisation *)

(** C10: A synchronisation of the projects or of the assets during which the user
    does not edit them ([quiet]), on a device whose items are plain, dated and with
    distinct identifiers, loses nothing: also when a request fails, the device and the
    server keep every item they had in the same or a later version, the manifest on the
    server is one of this application and lists only files that are there; when it
    succeeds both sides hold exactly the join, and so does the result.  *)
Theorem sync_loses_nothing {S : Type} `{!Webdav S} (date_parse : jstr → num) (now : jstr)
    (finish_order : ∀ A : Type, list A → list A) (object_url : World (S := S) → jstr → option jstr)
    (refused : jsval → bool) (known : jsval → Prop) (d : DomainKey) (w w' : World (S := S))
    (r : jstr + SyncDomainResult) (v : gmap jstr Z) :
  units_ok now → (∀ A (l : list A), finish_order A l ≡ₚ l) →
  (∀ w k u, object_url w k = Some u → units_ok u) →
  (d = Assets → hydrate_closed object_url known) → d = Canvas ∨ d = Assets →
  quiet w → wf_blobs w → wf_items date_parse known d (local w) → server_at date_parse known d (stored (srv w)) v →
  syncDomain date_parse now finish_order (options finish_order object_url refused d) w = (w', r) →
  let u := vers date_parse d (local w) in
  let u' := vers date_parse d (local w') in
  ∃ v', server_at date_parse known d (stored (srv w')) v' ∧ sound_device date_parse known d w'
    ∧ vle u u' ∧ vle v v' ∧ vle u' (vjoin u v) ∧ vle v' (vjoin u v)
    ∧ ∀ res, r = inr res → u' = vjoin u v ∧ v' = vjoin u v ∧ vers date_parse d (r_data res) = vjoin u v.
Proof.
  intros Hnow Hf Hu Hk Hd Hq Hb Hi Hv E u u'. assert (sound_device date_parse known d w) as Hw by done.
  pose proof (opts_applies date_parse finish_order Hf object_url Hu refused known d Hk) as Ho.
  destruct (sync_outcome date_parse now finish_order Hnow Hf known _ _ _ _ v E Ho Hw Hv) as [Hok Hany]. cbn [o_key options] in Hok, Hany.
  destruct r as [e|res].
  - destruct (Hany (opts_never_refuses finish_order object_url refused d Hd)) as (Hw' & Hu' & Hv').
    assert (vle u u' ∧ vle u' (vjoin u v)) as [H1 H2].
    { subst u'. destruct Hu' as [->| ->]; split; first [apply vle_l|reflexivity]. }
    destruct Hv' as [Hv'|Hv']; eexists; (split_and!; [exact Hv'|done|done| |done| |done]); first [apply vle_r|reflexivity].
  - destruct (Hok res eq_refl) as (Hw' & Hu' & Hv' & Hr). exists (vjoin u v). subst u'. rewrite Hu'.
    split_and!; [done|done|apply vle_l|apply vle_r|reflexivity|reflexivity|]. by intros res' [= <-].
Qed.

Lemma sync_loses_nothing_witness :
  let w := on_device (Sample.failing_after 2 Sample.first_round.1.1) Sample.first in
  let x := syncDomain Sample.date_parse (js "t2") Sample.in_order (options Sample.in_order Sample.no_url Sample.accepted Canvas) w in
  match x.2 with inl _ => true | inr _ => false end = true
  ∧ vle (vers Sample.date_parse Canvas (local w)) (vers Sample.date_parse Canvas (local x.1)).
Proof.
  intros w x. split; [by vm_compute|]. destruct SampleFacts.first_round_at as [v Hv].
  assert (sound_device Sample.date_parse Sample.any Canvas w) as (Hq & Hb & Hi).
  { apply sound_world. pose proof SampleFacts.any_sound as Hs. by apply Forall_cons_1 in Hs as [? _]. }
  edestruct (sync_loses_nothing Sample.date_parse (js "t2") Sample.in_order Sample.no_url Sample.accepted Sample.any Canvas w x.1 x.2 v)
    as (v' & _ & _ & Hle & _); [apply (bool_decide_unpack _); by vm_compute|done|done|done|by left|exact Hq|exact Hb|exact Hi|exact Hv
    |apply surjective_pairing|exact Hle].
Defined.

(** C12: The media follow the items: after a synchronisation that succeeds, every
    medium that an item refers to and that the device had or the manifest listed is
    on the device, and the new manifest lists it; whatever the new manifest lists
    is stored on the server. *)
Theorem media_complete {S : Type} `{!Webdav S} (date_parse : jstr → num) (now : jstr)
    (finish_order : ∀ A : Type, list A → list A) (object_url : World (S := S) → jstr → option jstr)
    (refused : jsval → bool) (known : jsval → Prop) (d : DomainKey) (w w' : World (S := S))
    (res : SyncDomainResult) (items : list jsval) (files : list AppSyncFile) :
  units_ok now → (∀ A (l : list A), finish_order A l ≡ₚ l) →
  (∀ w k u, object_url w k = Some u → units_ok u) → (d = Assets → hydrate_closed object_url known) →
  sound_device date_parse known d w →
  (vacant d (stored (srv w)) ∧ files = [] ∨ listed date_parse known d (stored (srv w)) items files) →
  syncDomain date_parse now finish_order (options finish_order object_url refused d) w = (w', inr res) →
  ∃ files', holds d (stored (srv w')) (r_data res) files'
    ∧ Forall (λ f, on_server (stored (srv w')) (path f)) files'
    ∧ ∀ key, key ∈ collectStorageKeys (domain_data d (r_data res)) [] →
        is_Some (get_blob w key) ∨ key ∈ storageKey <$> files →
        is_Some (get_blob w' key) ∧ key ∈ storageKey <$> files'.
Proof.
  intros Hnow Hf Hu Hk Hw Hserver E.
  pose proof (opts_applies date_parse finish_order Hf object_url Hu refused known d Hk) as Ho.
  destruct (sync_media date_parse now finish_order Hnow Hf known _ _ _ _ items files E Ho Hw Hserver)
    as (files' & (Hh & _ & _ & Hon) & Hkey). by exists files'.
Qed.

Lemma media_complete_witness :
  let w := on_device Sample.empty_server Sample.second in
  let x := syncDomain Sample.date_parse (js "t2") Sample.in_order (options Sample.in_order Sample.no_url Sample.accepted Canvas) w in
  ∃ files' : list AppSyncFile, on_server (stored (srv x.1)) (js "canvas/files/image_b.png") ∧ js "image:b" ∈ storageKey <$> files'.
Proof.
  intros w x. assert (∃ res, x.2 = inr res ∧ r_data res = dev_local Sample.second) as (res & Hr & Hd).
  { assert (match x.2 with inr res => bool_decide (r_data res = dev_local Sample.second) | inl _ => false end = true) as H
      by (by vm_compute). destruct x.2 as [|res]; [done|]. exists res. split; [done|]. by apply bool_decide_eq_true in H. }
  edestruct (media_complete Sample.date_parse (js "t2") Sample.in_order Sample.no_url Sample.accepted Sample.any Canvas w x.1 res [] [])
    as (files' & _ & _ & Hkey);
    [apply (bool_decide_unpack _); by vm_compute|done|done|done| | |rewrite <- Hr; apply surjective_pairing|].
  - apply sound_world. pose proof SampleFacts.any_sound as Hs. by apply Forall_cons_1 in Hs as [_ [? _]%Forall_cons_1].
  - left. split; [|done]. unfold vacant. cbn. by rewrite lookup_empty.
  - exists files'. split; [|apply Hkey; [rewrite Hd; apply (bool_decide_unpack _); by vm_compute|left; by eexists]].
    exists (b_content Sample.picture). split; by vm_compute.
Defined.

(** * Merging *)

(** [mergeById] joins two lists: what it returns comes from one of them, with
    distinct identifiers, newest first; for every identifier it has the latest
    time of the two lists, and of two versions of the same time the local one. *)
Theorem merge_joins (date_parse : jstr → num) (timeKey : jstr) (local remote : list jsval) :
  all_dated date_parse timeKey local → all_dated date_parse timeKey remote → NoDup (item_id <$> remote) →
  let m := mergeById date_parse timeKey local remote in
  (∀ x, x ∈ m → x ∈ local ∨ x ∈ remote)
  ∧ NoDup (item_id <$> m) ∧ StronglySorted (newer_first date_parse timeKey) m
  ∧ versions date_parse timeKey m = vjoin (versions date_parse timeKey local) (versions date_parse timeKey remote)
  ∧ ∀ x y, x ∈ m → y ∈ local → item_id y = item_id x → T date_parse timeKey y = T date_parse timeKey x → x ∈ local.
Proof.
  intros Hl Hr Hnd m. subst m. split_and!.
  - intros x. apply mergeById_elem.
  - apply mergeById_ids.
  - by apply mergeById_sorted.
  - by apply mergeById_versions.
  - intros x y. by apply (mergeById_local_wins date_parse timeKey local remote).
Qed.

Lemma merge_joins_witness :
  versions Sample.date_parse (js "updatedAt")
    (mergeById Sample.date_parse (js "updatedAt") (dev_local Sample.first) (dev_local Sample.second))
  = vjoin {[js "a" := 10%Z; js "b" := 3%Z]} {[js "b" := 7%Z]}.
Proof.
  destruct (merge_joins Sample.date_parse (js "updatedAt") (dev_local Sample.first) (dev_local Sample.second))
    as (_ & _ & _ & E & _); [apply (bool_decide_unpack _); by vm_compute..|]. rewrite E. by vm_compute.
Defined.

(** * The client *)

(** C13: Against any server that keeps the WebDAV protocol the client reads and
    writes files as the synchronisation expects: a download changes no file and
    returns what is stored at the address of the path, or nothing when there is no
    file or an empty one; an upload that returns has stored a non-empty file there
    and nothing else, and one that throws has done that or nothing. *)
Theorem client_files {H : Type} `{!HttpServer H} (webdavText : jstr → list (jstr * jsval) → jstr)
    (config : WebdavSyncConfig) (c : Client (H := H)) (p : jstr) (b : Blob) (ty : jstr) :
  let files c := web_files (http (H := H) c) in
  let at_ := address_of config p in
  (let '(c', r) := downloadFile webdavText config p c in
   files c' = files c
   ∧ match r with
     | inr (Some b) => files c !! at_ = Some (b_content b) ∧ platform_blob b ∧ b_size b ≠ 0%N
     | inr None => match files c !! at_ with Some ct => c_size ct = 0%N | None => True end
     | inl _ => True
     end)
  ∧ (let '(c', r) := uploadFile webdavText config p b ty c in
     match r with
     | inr _ => b_size b ≠ 0%N ∧ files c' = <[at_ := b_content b]> (files c)
     | inl _ => files c' = files c ∨ b_size b ≠ 0%N ∧ files c' = <[at_ := b_content b]> (files c)
     end).
Proof.
  intros files at_. split; [|apply upload_result].
  pose proof (download_keeps_files webdavText config p c) as Hk. pose proof (download_result webdavText config p c) as Hr.
  destruct (downloadFile webdavText config p c) as [c' [e|x]]; (split; [exact Hk|]); [done|].
  specialize (Hr x eq_refl). by destruct x.
Qed.

(** * Actions and synchronisation *)

(** The actions on projects keep what the synchronisation needs: plain
    projects with dates and distinct identifiers, and the project that is written
    carries the time of the action, so that its version is the one that wins over
    older ones. *)
Theorem actions_sync_ready (date_parse : jstr → num) (a : Projects.action) (l : list jsval) :
  ProjectProps.action_ok date_parse a → ProjectProps.action_fresh a l →
  Forall (ProjectProps.project_ok date_parse) l → NoDup (item_id <$> l) →
  let l' := Projects.act a l in
  wf_items date_parse (ProjectProps.project_ok date_parse) Canvas l'
  ∧ ∀ id now p, ProjectProps.edited a = Some (id, now) → p ∈ l' → item_id p = id → truthy id = true →
      getTime date_parse p (js "updatedAt") = or_num (date_parse now) num_0.
Proof.
  intros Ha Hf Hl Hnd l'. pose proof (ProjectProps.act_ok date_parse a l Ha Hl) as Hl'. split.
  - split_and!; [|by apply (ProjectProps.act_ids date_parse)|]; (eapply Forall_impl; [exact Hl'|]); intros x Hx.
    + apply Hx.
    + destruct Hx as (? & ? & ?). by split_and!.
  - intros id now p He Hp Hid Ht. unfold getTime.
    assert (prop p (js "updatedAt") = VStr now) as ->; [|done]. by eapply ProjectProps.edited_time.
Qed.

Lemma actions_sync_ready_witness :
  let l := Projects.act (Projects.Rename (js "b") (js "renamed") (js "12")) [Projects.new_project (js "b") (js "old") (js "3")] in
  vers Sample.date_parse Canvas l = {[js "b" := 12%Z]}
  ∧ wf_items Sample.date_parse (ProjectProps.project_ok Sample.date_parse) Canvas l.
Proof.
  intros l. split; [by vm_compute|]. apply actions_sync_ready.
  - cbn [ProjectProps.action_ok]. unfold ProjectProps.clock_ok. split_and!; apply (bool_decide_unpack _); by vm_compute.
  - done.
  - apply Forall_cons; split; [|constructor]. unfold ProjectProps.project_ok. split_and!; apply (bool_decide_unpack _); by vm_compute.
  - apply (bool_decide_unpack _). by vm_compute.
Defined.

(** * What the synchronisation does not do *)

Module Findings.
Import Sample.

Definition sync (d : DomainKey) (refused : jsval → bool) (w : World (S := Client (H := Memory))) :=
  syncDomain date_parse (js "t") in_order (options in_order no_url refused d) w.

Definition titles (l : list jsval) : list jsval := (λ x, prop x (js "title")) <$> l.

(** The user renames a project while its media are fetched: the new title is lost,
    on the device and on the server. *)
Example edit_during_download_lost :
  let edited := [project (js "a") (js "renamed") (js "99"); project (js "b") (js "old") (js "3")] in
  let w := mkW first_round.1.1 (dev_images first) (dev_media first) (dev_local first) [None; Some edited] in
  let x := sync Canvas accepted w in
  match x.2 with inr _ => true | inl _ => false end = true
  ∧ titles (local x.1) = [VStr (js "first"); VStr (js "new")].
Proof. split; by vm_compute. Qed.

(** Two versions of a project with the same time: after two rounds each device still
    has its own. *)
Example tied_versions_disagree :
  let devs := [device (js "image:a") [project (js "a") (js "mine") (js "10")]; device (js "image:a") [project (js "a") (js "yours") (js "10")]] in
  let once := run Canvas steps (empty_server, devs) in
  let twice := run Canvas steps once.1 in
  twice.2 = [(0, true); (1, true)] ∧ titles ∘ dev_local <$> twice.1.2 = [[VStr (js "mine")]; [VStr (js "yours")]].
Proof. split; by vm_compute. Qed.

(** A project that was deleted on the device is back after it synchronises. *)
Example deleted_project_returns :
  let dev := mkDevice (dev_images first) (dev_media first) (Projects.deleteProjects [js "a"] (dev_local first)) in
  titles (dev_local dev) = [VStr (js "old")]
  ∧ titles (local (sync Canvas accepted (on_device first_round.1.1 dev)).1) = [VStr (js "first"); VStr (js "new")].
Proof. split; by vm_compute. Qed.

Definition log (id : jstr) (time : Z) : jsval := VObj [(js "id", VStr id); (js "createdAt", VNum (num_of_Z time))].

(** When the database refuses a log, the logs that were not written yet are gone
    from the device, and were not sent to the server. *)
Example refused_log_loses_others :
  let server := srv (sync ImageWorkbench accepted (mkW empty_server ∅ ∅ [log (js "x") 50] [])).1 in
  let w := mkW server ∅ ∅ [log (js "mine") 7] [] in
  let x := sync ImageWorkbench (λ l, bool_decide (item_id l = js "x")) w in
  match x.2 with inl e => bool_decide (e = js "QuotaExceededError") | inr _ => false end = true
  ∧ local x.1 = [] ∧ bool_decide (mem (http (srv x.1)) = mem (http server)) = true.
Proof. split_and!; vm_compute; reflexivity. Qed.
End Findings.
