(* ===== verification/CanvasGraph.v ===== *)
(** The graph of a canvas: nodes, connections and groups
    ([types/canvas.ts], [lib/canvas/canvas-node-geometry.ts]), what a node refers to
    ([lib/canvas/canvas-resource-references.ts]), the inputs of a generation and its
    prompt ([components/canvas/canvas-node-generation.ts]), the helpers around it
    ([lib/canvas/canvas-generation-helpers.ts]) and the operations of plugins
    ([lib/canvas/canvas-agent-ops.ts]).

    The metadata of a node is an object of JSON values, [VUndef] when there is none.
    The types of plugin nodes and what they offer as a resource are arguments, and so
    are the texts of the interface ([label]) and fresh identifiers. *)

From Stdlib Require Import ZArith NArith Lia.
From stdpp Require Import base list.
From S2P Require Import Prelude JsString JsNumber JsValue JsRegex.

(** * Data *)

Record CanvasNodeData := mkNode {
  n_id : jstr;
  n_type : jstr;
  n_title : jstr;
  n_x : num;
  n_y : num;
  n_width : num;
  n_height : num;
  n_metadata : jsval;
}.

Record CanvasConnection := mkConnection { k_id : jstr; fromNodeId : jstr; toNodeId : jstr }.

#[export] Instance connection_eq_dec : EqDecision CanvasConnection.
Proof. solve_decision. Defined.

Definition TImage : jstr := js "image".
Definition TText : jstr := js "text".
Definition TConfig : jstr := js "config".
Definition TVideo : jstr := js "video".
Definition TAudio : jstr := js "audio".
Definition TGroup : jstr := js "group".

Implicit Types (node group first second : CanvasNodeData) (nodes : list CanvasNodeData) (conn : CanvasConnection)
  (connections : list CanvasConnection) (id : jstr).

Definition is_type (t : jstr) node : bool := bool_decide (n_type node = t).

(** [node.metadata?.k] *)
Definition meta node (k : jstr) : jsval := prop (n_metadata node) k.

Definition fields (v : jsval) : list (jstr * jsval) := match v with VObj o => o | _ => [] end.

(** [{ ...a, ...b }] *)
Definition spread_fields (a b : jsval) : jsval := VObj (foldl (λ o e, omap.set o e.1 e.2) (fields a) (fields b)).

Definition with_metadata (v : jsval) node : CanvasNodeData :=
  mkNode (n_id node) (n_type node) (n_title node) (n_x node) (n_y node) (n_width node) (n_height node) v.

(** [{ ...node, metadata: { ...node.metadata, k: v } }] *)
Definition put_meta (k : jstr) (v : jsval) node : CanvasNodeData :=
  with_metadata (VObj (omap.set (fields (n_metadata node)) k v)) node.

Definition with_position (x y : num) node : CanvasNodeData :=
  mkNode (n_id node) (n_type node) (n_title node) x y (n_width node) (n_height node) (n_metadata node).

(** [nodes.find((node) => node.id === id)] *)
Definition find_node id nodes : option CanvasNodeData := List.find (λ node, bool_decide (n_id node = id)) nodes.

(** [ids.has(id)] *)
Definition has (ids : list jstr) id : bool := bool_decide (id ∈ ids).

(** * Geometry *)

Module Geometry.

Definition two : num := num_of_Z 2.
Definition half (n : num) : num := num_div n two.

Record Bounds := mkBounds { left : num; top : num; right : num; bottom : num }.

Definition minus_infinity : num := SpecFloat.S754_infinity true.

Definition nodeBounds nodes : Bounds :=
  foldl (λ acc node,
    mkBounds (num_min (left acc) (n_x node)) (num_min (top acc) (n_y node))
      (num_max (right acc) (num_add (n_x node) (n_width node))) (num_max (bottom acc) (num_add (n_y node) (n_height node))))
    (mkBounds Infinity Infinity minus_infinity minus_infinity) nodes.

Definition containsCenter group node : bool :=
  let centerX := num_add (n_x node) (half (n_width node)) in
  let centerY := num_add (n_y node) (half (n_height node)) in
  num_leb (n_x group) centerX && num_leb centerX (num_add (n_x group) (n_width group))
  && num_leb (n_y group) centerY && num_leb centerY (num_add (n_y group) (n_height group)).

Definition moving (movedIds : list jstr) node : bool := has movedIds (n_id node) && negb (is_type TGroup node).

Definition findGroupDropTarget (movedIds : list jstr) nodes : option CanvasNodeData :=
  if existsb (λ node, has movedIds (n_id node) && is_type TGroup node) nodes then None
  else
    let movingNodes := filter (λ node, moving movedIds node = true) nodes in
    match movingNodes with
    | [] => None
    | _ =>
        List.find (λ group, is_type TGroup group && negb (has movedIds (n_id group)) && existsb (containsCenter group) movingNodes)
          (reverse nodes)
    end.

(** How far to move the span [from, to] to fit it between [lo] and [hi] *)
Definition fit (from to lo hi : num) : num :=
  if num_ltb (num_sub hi lo) (num_sub to from) then num_sub lo from
  else if num_ltb from lo then num_sub lo from
  else if num_ltb hi to then num_sub hi to
  else num_0.

Definition snapNodesIntoGroup (movedIds : list jstr) nodes group : list CanvasNodeData :=
  match filter (λ node, moving movedIds node = true) nodes with
  | [] => nodes
  | movingNodes =>
      let pad := num_of_Z 24 in
      let b := nodeBounds movingNodes in
      let dx := fit (left b) (right b) (num_add (n_x group) pad) (num_sub (num_add (n_x group) (n_width group)) pad) in
      let dy := fit (top b) (bottom b) (num_add (n_y group) pad) (num_sub (num_add (n_y group) (n_height group)) pad) in
      (λ node, if moving movedIds node
               then put_meta (js "groupId") (VStr (n_id group)) (with_position (num_add (n_x node) dx) (num_add (n_y node) dy) node)
               else node) <$> nodes
  end.

Definition findContainingGroupId node nodes : option jstr :=
  n_id <$> List.find (λ group, is_type TGroup group && negb (bool_decide (n_id group = n_id node)) && containsCenter group node)
    (reverse nodes).

Inductive handleType := Source | Target.

(** The ends of the connection to make between two nodes, if any *)
Definition normalizeConnection (firstNodeId secondNodeId : jstr) nodes (firstHandleType : handleType) : option (jstr * jstr) :=
  match find_node firstNodeId nodes, find_node secondNodeId nodes with
  | Some first, Some second =>
      if bool_decide (n_id first = n_id second) then None
      else if is_type TGroup second then None
      else if is_type TConfig first && is_type TConfig second then None
      else if is_type TConfig second then Some (n_id first, n_id second)
      else if is_type TConfig first && (match firstHandleType with Target => true | Source => false end)
      then Some (n_id second, n_id first)
      else Some (n_id first, n_id second)
  | _, _ => None
  end.

Definition getConnectionTargetAnchor node (current : handleType) : num * num :=
  (match current with Source => n_x node | Target => num_add (n_x node) (n_width node) end,
   num_add (n_y node) (half (n_height node))).
End Geometry.

(** * Resources *)

Inductive Kind := KText | KImage | KVideo | KAudio.

#[export] Instance kind_eq_dec : EqDecision Kind.
Proof. solve_decision. Defined.

Record Resource := mkResource { s_kind : Kind; s_text : jsval; s_url : jsval }.

(** [a || b] *)
Definition or_else (a b : jsval) : jsval := if truthy_val a then a else b.

Definition builtinResource node : option Resource :=
  let content := meta node (js "content") in
  let text := or_else content (meta node (js "prompt")) in
  if is_type TImage node && truthy_val content then Some (mkResource KImage VUndef content)
  else if is_type TVideo node && truthy_val content then Some (mkResource KVideo VUndef content)
  else if is_type TAudio node && truthy_val content then Some (mkResource KAudio VUndef content)
  else if is_type TText node && truthy_val text then Some (mkResource KText text VUndef)
  else None.

Module Resources.
Section resources.
Context (plugin_resource : CanvasNodeData → option Resource).

(** [getNodeDefinition(node.type)?.resource?.(node)] *)
Definition definition_resource node : option Resource :=
  if bool_decide (n_type node ∈ [TImage; TVideo; TAudio; TText]) then builtinResource node
  else if bool_decide (n_type node ∈ [TConfig; TGroup]) then None
  else plugin_resource node.

Definition resourceKind node : option Kind :=
  let content := truthy_val (meta node (js "content")) in
  if is_type TImage node && content then Some KImage
  else if is_type TVideo node && content then Some KVideo
  else if is_type TAudio node && content then Some KAudio
  else if is_type TText node && (content || truthy_val (meta node (js "prompt"))) then Some KText
  else s_kind <$> definition_resource node.

Definition isResourceNode node : bool := match resourceKind node with Some _ => true | None => false end.

Definition in_group (groupId : jstr) node : bool := bool_decide (meta node (js "groupId") = VStr groupId).

Definition getGroupResourceNodes (groupId : jstr) nodes : list CanvasNodeData :=
  filter (λ node, in_group groupId node && isResourceNode node = true) nodes.

Definition hasGroupResources node nodes : bool :=
  is_type TGroup node && negb (bool_decide (length (getGroupResourceNodes (n_id node) nodes) = 0)).

Definition isCanvasReferenceNode node nodes : bool := isResourceNode node || hasGroupResources node nodes.

(** The values of a map from identifiers to what has them *)
Definition by_id {A} (key : A → jstr) (l : list A) : list A :=
  (foldl (λ m x, omap.set m (key x) x) [] l).*2.

Definition expandGroupResourceNodes (inputNodes : list CanvasNodeData) nodes : list CanvasNodeData :=
  by_id n_id (concat ((λ node, if is_type TGroup node then getGroupResourceNodes (n_id node) nodes else [node]) <$> inputNodes)).

Definition getContextInputNodes (nodeId : jstr) nodes connections : list CanvasNodeData :=
  base.omap (λ conn, if bool_decide (toNodeId conn = nodeId)
    then match find_node (fromNodeId conn) nodes with
         | Some node => if isCanvasReferenceNode node nodes then Some node else None
         | None => None
         end
    else None) connections.

Definition config_connection (nodeId : jstr) nodes conn : bool :=
  bool_decide (fromNodeId conn = nodeId)
  && match find_node (toNodeId conn) nodes with Some node => is_type TConfig node | None => false end.

Definition getConnectedConfigInputNodes (nodeId : jstr) nodes connections : list CanvasNodeData :=
  match List.find (config_connection nodeId nodes) connections with
  | None => []
  | Some c => filter (λ node, n_id node ≠ nodeId) (getContextInputNodes (toNodeId c) nodes connections)
  end.

Definition getMentionResourceNodes (nodeId : jstr) nodes connections : list CanvasNodeData :=
  match expandGroupResourceNodes (getConnectedConfigInputNodes nodeId nodes connections) nodes with
  | [] =>
      match expandGroupResourceNodes (getContextInputNodes nodeId nodes connections) nodes with
      | [] => match find_node nodeId nodes with Some node => if isResourceNode node then [node] else [] | None => [] end
      | own => own
      end
  | configInputs => configInputs
  end.

Definition getGenerationResourceNodes (nodeId : jstr) nodes connections : list CanvasNodeData :=
  match getConnectedConfigInputNodes nodeId nodes connections with
  | [] => getContextInputNodes nodeId nodes connections
  | configInputs => configInputs
  end.

(** ** Inputs of a generation *)

Record ResourceInput := mkInput {
  i_nodeId : jstr;
  i_type : Kind;
  i_title : jstr;
  i_text : jsval;
  i_media : jsval;
}.

Inductive GenerationInput :=
  | Single (r : ResourceInput)
  | GroupInput (nodeId title : jstr) (children : list ResourceInput).

Definition input_nodeId (i : GenerationInput) : jstr :=
  match i with Single r => i_nodeId r | GroupInput nodeId _ _ => nodeId end.

(** [`${node.title || node.id}<suffix>`] *)
Definition file_name node (suffix : jstr) : jstr := (if truthy (n_title node) then n_title node else n_id node) ++ suffix.

Definition mime node (d : jstr) : jsval := or_else (meta node (js "mimeType")) (VStr d).

Definition reference_image node (dataUrl : jsval) : jsval :=
  VObj [(js "id", VStr (n_id node)); (js "name", VStr (file_name node (js ".png"))); (js "type", mime node (js "image/png"));
        (js "dataUrl", dataUrl); (js "storageKey", meta node (js "storageKey"))].

Definition reference_video node (url : jsval) (more : list (jstr * jsval)) : jsval :=
  VObj ([(js "id", VStr (n_id node)); (js "name", VStr (file_name node (js ".mp4"))); (js "type", mime node (js "video/mp4"));
         (js "url", url); (js "storageKey", meta node (js "storageKey"))] ++ more).

Definition reference_audio node (url : jsval) (more : list (jstr * jsval)) : jsval :=
  VObj ([(js "id", VStr (n_id node)); (js "name", VStr (file_name node (js ".mp3"))); (js "type", mime node (js "audio/mpeg"));
         (js "url", url); (js "storageKey", meta node (js "storageKey"))] ++ more).

Definition with_content (t : jstr) node : bool := is_type t node && truthy_val (meta node (js "content")).

Definition readReferenceImage node : option jsval :=
  if with_content TImage node then Some (reference_image node (meta node (js "content"))) else None.

Definition readReferenceVideo node : option jsval :=
  if with_content TVideo node then
    Some (reference_video node (meta node (js "content"))
      [(js "bytes", meta node (js "bytes")); (js "width", meta node (js "naturalWidth"));
       (js "height", meta node (js "naturalHeight")); (js "durationMs", meta node (js "durationMs"))])
  else None.

Definition readReferenceAudio node : option jsval :=
  if with_content TAudio node
  then Some (reference_audio node (meta node (js "content")) [(js "durationMs", meta node (js "durationMs"))]) else None.

Definition readNodeTextInput node : jsval :=
  if is_type TText node then or_else (meta node (js "content")) (or_else (meta node (js "prompt")) (VStr []))
  else or_else (meta node (js "prompt")) (VStr []).

Definition readNodeGenerationResource node : list ResourceInput :=
  let media k v := [mkInput (n_id node) k (n_title node) VUndef v] in
  let text v := [mkInput (n_id node) KText (n_title node) v VUndef] in
  let plain := let v := readNodeTextInput node in if truthy_val v then text v else [] in
  match readReferenceImage node with
  | Some image => media KImage image
  | None =>
      match readReferenceVideo node with
      | Some video => media KVideo video
      | None =>
          match readReferenceAudio node with
          | Some audio => media KAudio audio
          | None =>
              match definition_resource node with
              | Some (mkResource kind t url) =>
                  match kind with
                  | KImage => if truthy_val url then media KImage (reference_image node url) else plain
                  | KVideo => if truthy_val url then media KVideo (reference_video node url []) else plain
                  | KAudio => if truthy_val url then media KAudio (reference_audio node url []) else plain
                  | KText => if truthy_val t then text t else plain
                  end
              | None => plain
              end
          end
      end
  end.

Definition buildNodeGenerationInputs (nodeId : jstr) nodes connections : list GenerationInput :=
  concat ((λ node,
    if is_type TGroup node then
      match concat (readNodeGenerationResource <$> getGroupResourceNodes (n_id node) nodes) with
      | [] => []
      | children => [GroupInput (n_id node) (n_title node) children]
      end
    else Single <$> readNodeGenerationResource node) <$> getGenerationResourceNodes nodeId nodes connections).

Definition flattenGenerationInputs (inputs : list GenerationInput) : list ResourceInput :=
  by_id i_nodeId (concat ((λ i, match i with Single r => [r] | GroupInput _ _ children => children end) <$> inputs)).
End resources.
End Resources.

(** * Helpers of generations *)

Module Helpers.

(** [connections.filter((c) => c.toNodeId === id).map((c) => c.fromNodeId)] *)
Definition sources id connections : list jstr :=
  base.omap (λ conn, if bool_decide (toNodeId conn = id) then Some (fromNodeId conn) else None) connections.

(** The loop over the queue; every turn takes one element off it. *)
Fixpoint retry_loop (fuel : nat) nodes connections (visited queue : list jstr) : option (option CanvasNodeData) :=
  match fuel, queue with
  | _, [] => Some None
  | 0, _ => None
  | S fuel, id :: queue =>
      if has visited id then retry_loop fuel nodes connections visited queue
      else
        match find_node id nodes with
        | Some node =>
            if is_type TConfig node then Some (Some node)
            else retry_loop fuel nodes connections (visited ++ [id]) (queue ++ sources id connections)
        | None => retry_loop fuel nodes connections (visited ++ [id]) (queue ++ sources id connections)
        end
  end.

(** Every connection is queued at most twice: as a source of the first node and when
    its target is visited. *)
Definition findRetrySourceNode (nodeId : jstr) nodes connections : option (option CanvasNodeData) :=
  retry_loop (2 * length connections) nodes connections [] (sources nodeId connections).

(** [Math.abs] *)
Definition num_abs (n : num) : num := SpecFloat.SFabs n.

(** [Math.max(1, Math.min(15, Math.floor(Math.abs(Number(count)) || 1)))] *)
Definition getGenerationCount (count : jstr) : num :=
  let n := num_abs (Number_of_string count) in
  num_max (num_of_Z 1) (num_min (num_of_Z 15) (num_floor (if num_truthy n then n else num_of_Z 1))).

(** A variant that is still loading is given up. *)
Definition interrupt_item (interrupted : jstr) (v : jsval) : jsval :=
  if bool_decide (prop v (js "status") = VStr (js "loading"))
  then VObj (omap.set (omap.set (fields v) (js "status") (VStr (js "error"))) (js "errorDetails") (VStr interrupted))
  else v.

(** [items?.map(...)] *)
Definition map_items (f : jsval → jsval) (v : jsval) : jsval := match v with VArr l => VArr (f <$> l) | _ => VUndef end.

Definition is_loading node : bool := bool_decide (meta node (js "status") = VStr (js "loading")).

Definition interrupt (status : jsval) (details : jsval) (canceled : jstr) node : CanvasNodeData :=
  if is_loading node then
    put_meta (js "texts") (map_items (interrupt_item canceled) (meta node (js "texts")))
      (put_meta (js "images") (map_items (interrupt_item canceled) (meta node (js "images")))
        (put_meta (js "errorDetails") details (put_meta (js "status") status node)))
  else node.

(** On loading a project: what was under way is not any more. *)
Definition resetInterruptedGeneration (interrupted : jstr) nodes : list CanvasNodeData :=
  interrupt (VStr (js "error")) (VStr interrupted) interrupted <$> nodes.
End Helpers.
