(* ===== verification/CanvasPrompt.v ===== *)
(** The prompt of a generation on the canvas and the media sent with it:
    [components/canvas/canvas-node-generation.ts].  [label] is the text that stands
    for a resource in the prompt, from its kind and its number among that kind. *)

From Stdlib Require Import ZArith NArith Lia.
From stdpp Require Import base list.
From S2P Require Import Prelude JsString JsNumber JsValue JsRegex CanvasGraph.

Import Resources.

Record GenerationContext := mkContext {
  g_prompt : jstr;
  referenceImages : list jsval;
  referenceVideos : list jsval;
  referenceAudios : list jsval;
  textCount : nat;
  imageCount : nat;
  videoCount : nat;
  audioCount : nat;
}.

Implicit Types (r : ResourceInput) (rs : list ResourceInput) (inputs : list GenerationInput) (k : Kind).

(** The media of one kind among resources *)
Definition media k rs : list jsval := base.omap (λ r, if bool_decide (i_type r = k) then Some (i_media r) else None) rs.

Definition NL2 : jstr := [10; 10]%N.

(** [【label】] *)
Definition bracketed (s : jstr) : jstr := js "【" ++ s ++ js "】".

Section prompt.
Context (label : Kind → nat → jstr).

(** ** Composed prompts *)

(** The variables of the loop *)
Record Composer := mkComposer {
  selectedInputs : list ResourceInput;
  labelByNodeId : list (jstr * jstr);
  textBlocks : list jstr;
  counts : Kind → nat;
  lastIndex : nat;
  nextPrompt : jstr;
}.

Definition bump k (f : Kind → nat) : Kind → nat := λ k', if decide (k' = k) then S (f k') else f k'.

Definition shown r (l : jstr) : jstr := if bool_decide (i_type r = KText) then bracketed l else l.

(** The label of a resource; one that has none yet is counted and its text or medium
    taken *)
Definition label_resource r (c : Composer) : jstr * Composer :=
  let l := default [] (omap.get (labelByNodeId c) (i_nodeId r)) in
  if truthy l then (shown r l, c)
  else
    let l := label (i_type r) (counts c (i_type r)) in
    let text := if truthy_val (i_text r) then string_of_val (i_text r) else [] in
    let is_text := bool_decide (i_type r = KText) in
    (shown r l,
     mkComposer (if is_text then selectedInputs c else selectedInputs c ++ [r])
       (omap.set (labelByNodeId c) (i_nodeId r) l)
       (if is_text then textBlocks c ++ [bracketed l ++ [10%N] ++ text] else textBlocks c)
       (bump (i_type r) (counts c)) (lastIndex c) (nextPrompt c)).

Fixpoint label_resources rs (c : Composer) : list jstr * Composer :=
  match rs with
  | [] => ([], c)
  | r :: rs => let '(l, c) := label_resource r c in let '(ls, c) := label_resources rs c in (l :: ls, c)
  end.

Definition move_to (i : nat) (text : jstr) (c : Composer) : Composer :=
  mkComposer (selectedInputs c) (labelByNodeId c) (textBlocks c) (counts c) i text.

(** [@\[node:([^\]]+)\]] *)
Definition token : re := JsRegex.seq [lit (js "@[node:"); RGroup 1 (plus (not_unit 93%N)); lit (js "]")].

(** [new Map(inputs.map((input) => [input.nodeId, input]))] *)
Definition inputByNodeId inputs : list (jstr * GenerationInput) := foldl (λ m i, omap.set m (input_nodeId i) i) [] inputs.

(** The resources that a match of [token] stands for *)
Definition mentioned inputs (m : nat * rresult) : list ResourceInput :=
  match group m.2 1 ≫= omap.get (inputByNodeId inputs) with
  | Some input => flattenGenerationInputs [input]
  | None => []
  end.

(** One turn of the loop over the matches *)
Definition compose_token inputs (prompt : jstr) (c : Composer) (m : nat * rresult) : Composer :=
  let text := nextPrompt c ++ slice prompt (lastIndex c) m.1 in
  let '(labels, c) := label_resources (mentioned inputs m) c in
  move_to (m.1 + length (r_text m.2)) (text ++ join (js "、") labels) c.

Definition empty_composer : Composer := mkComposer [] [] [] (λ _, 0) 0 [].

Definition compose inputs (prompt : jstr) : Composer :=
  foldl (compose_token inputs prompt) empty_composer (match_all token prompt).

Definition buildComposerGenerationContext inputs (prompt : jstr) : GenerationContext :=
  match match_all token prompt with
  | [] => mkContext prompt [] [] [] 0 0 0 0
  | _ =>
      let c := compose inputs prompt in
      let text := nextPrompt c ++ slice_from prompt (lastIndex c) in
      let text := match textBlocks c with [] => text | blocks => trim text ++ NL2 ++ join NL2 blocks end in
      let images := media KImage (selectedInputs c) in
      let videos := media KVideo (selectedInputs c) in
      let audios := media KAudio (selectedInputs c) in
      mkContext text images videos audios (counts c KText) (length images) (length videos) (length audios)
  end.

(** ** All prompts *)

Section context.
Context (plugin_resource : CanvasNodeData → option Resource).

Definition is_composed (nodeId : jstr) (nodes : list CanvasNodeData) : bool :=
  match find_node nodeId nodes with
  | Some node =>
      is_type TConfig node && match meta node (js "composerContent") with VStr s => truthy (trim s) | _ => false end
  | None => false
  end.

Definition buildNodeGenerationContext (nodeId : jstr) (nodes : list CanvasNodeData) (connections : list CanvasConnection)
    (prompt : jstr) : GenerationContext :=
  let inputs := buildNodeGenerationInputs plugin_resource nodeId nodes connections in
  if is_composed nodeId nodes then buildComposerGenerationContext inputs prompt
  else
    let rs := flattenGenerationInputs inputs in
    let upstreamText := join NL2 (string_of_val <$> filter (λ v, truthy_val v = true) (i_text <$> rs)) in
    let images := media KImage rs in
    let videos := media KVideo rs in
    let audios := media KAudio rs in
    mkContext (if truthy upstreamText then prompt ++ NL2 ++ upstreamText else prompt) images videos audios
      (length (filter (λ r, i_type r = KText) rs)) (length images) (length videos) (length audios).

(** [buildNodeResponseMessages]: one message, with the images after its text *)
Definition buildNodeResponseMessages (c : GenerationContext) : jsval :=
  let url image := VObj [(js "type", VStr (js "image_url")); (js "image_url", VObj [(js "url", prop image (js "dataUrl"))])] in
  VArr [VObj [(js "role", VStr (js "user"));
    (js "content",
       match referenceImages c with
       | [] => VStr (g_prompt c)
       | images => VArr (VObj [(js "type", VStr (js "text")); (js "text", VStr (g_prompt c))] :: (url <$> images))
       end)]].
End context.
End prompt.
