(* ===== verification/CanvasPromptProps.v ===== *)
(** Composed prompts: labels in the text and the media that are sent agree. *)

From Stdlib Require Import ZArith NArith Lia.
From stdpp Require Import base list.
From S2P Require Import Prelude JsString JsNumber JsValue JsRegex CanvasGraph CanvasPrompt.

Import Resources.

Implicit Types (r : ResourceInput) (rs D P : list ResourceInput) (inputs : list GenerationInput) (k : Kind).

Section labels.
Context (label : Kind → nat → jstr).

(** * Numbering first, then substituting *)

(** The first resource of every node *)
Definition add_first D r : list ResourceInput := if bool_decide (i_nodeId r ∈ i_nodeId <$> D) then D else D ++ [r].
Definition firsts P : list ResourceInput := foldl add_first [] P.

(** How many are of a kind *)
Definition count k D : nat := length (filter (λ r, i_type r = k) D).

(** Every resource is numbered among those of its kind. *)
Definition numbered D : list (jstr * jstr) := imap (λ i r, (i_nodeId r, label (i_type r) (count (i_type r) (take i D)))) D.

Definition name D r : jstr := default [] (omap.get (numbered D) (i_nodeId r)).

Definition text_block D r : jstr :=
  bracketed (name D r) ++ [10%N] ++ (if truthy_val (i_text r) then string_of_val (i_text r) else []).

(** The prompt with every token replaced by the names of what it stands for *)
Fixpoint substitute (names : ResourceInput → jstr) inputs (prompt : jstr) (from : nat) (ms : list (nat * rresult)) : jstr :=
  match ms with
  | [] => slice_from prompt from
  | m :: ms =>
      slice prompt from m.1 ++ join (js "、") ((λ r, shown r (names r)) <$> mentioned inputs m)
      ++ substitute names inputs prompt (m.1 + length (r_text m.2)) ms
  end.

(** * Numbering *)

Lemma firsts_snoc P r : firsts (P ++ [r]) = add_first (firsts P) r.
Proof. unfold firsts. by rewrite foldl_app. Qed.

Lemma firsts_ids P : NoDup (i_nodeId <$> firsts P) ∧ ∀ id, id ∈ i_nodeId <$> firsts P ↔ id ∈ i_nodeId <$> P.
Proof.
  induction P as [|r P [IH1 IH2]] using rev_ind; [split; [constructor|done]|]. rewrite firsts_snoc, fmap_app. unfold add_first.
  case_bool_decide as E.
  - split; [done|]. intros id. rewrite elem_of_app, <- IH2. cbn [fmap list_fmap]. rewrite list_elem_of_singleton.
    split; [by left|]. intros [?|?]; by subst.
  - rewrite fmap_app. split.
    + apply NoDup_app. split; [done|]. split; [|apply NoDup_singleton]. cbn [fmap list_fmap]. intros x Hx Hy. apply list_elem_of_singleton in Hy. by subst.
    + intros id. rewrite !elem_of_app, IH2. done.
Qed.

Lemma firsts_prefix P Q : ∃ D, firsts (P ++ Q) = firsts P ++ D.
Proof.
  induction Q as [|r Q [D IH]] using rev_ind; [exists []; by rewrite !app_nil_r|]. rewrite app_assoc, firsts_snoc, IH. unfold add_first.
  case_bool_decide; [by exists D|]. exists (D ++ [r]). by rewrite app_assoc.
Qed.

Lemma count_snoc k D r : count k (D ++ [r]) = if decide (i_type r = k) then S (count k D) else count k D.
Proof.
  unfold count. rewrite filter_app, length_app, filter_cons, filter_nil. case_decide; cbn; lia.
Qed.

Lemma numbered_app D E : ∃ l, numbered (D ++ E) = numbered D ++ l.
Proof.
  unfold numbered. rewrite imap_app. eexists. f_equal. apply imap_ext. intros i r Hi. cbn. rewrite take_app_le; [done|].
  apply lookup_lt_Some in Hi. lia.
Qed.

Lemma numbered_snoc D r : numbered (D ++ [r]) = numbered D ++ [(i_nodeId r, label (i_type r) (count (i_type r) D))].
Proof.
  unfold numbered. rewrite imap_app. cbn. f_equal.
  - apply imap_ext. intros i x Hi. cbn. rewrite take_app_le; [done|]. apply lookup_lt_Some in Hi. lia.
  - by rewrite Nat.add_0_r, take_app_length.
Qed.

Lemma numbered_keys D : (numbered D).*1 = i_nodeId <$> D.
Proof.
  induction D as [|r D IH] using rev_ind; [done|]. by rewrite numbered_snoc, !fmap_app, IH.
Qed.

Lemma get_app {A} (m l : list (jstr * A)) x :
  omap.get (m ++ l) x = match omap.get m x with Some y => Some y | None => omap.get l x end.
Proof. induction m as [|[x' y'] m IH]; [done|]. cbn. case_decide; auto. Qed.

Lemma get_numbered D id : omap.get (numbered D) id = None ↔ id ∉ i_nodeId <$> D.
Proof. by rewrite omap.get_None, numbered_keys. Qed.

Lemma name_stable D E r : i_nodeId r ∈ i_nodeId <$> D → name (D ++ E) r = name D r.
Proof.
  intros Hr. unfold name. destruct (numbered_app D E) as [l ->]. rewrite get_app.
  destruct (omap.get (numbered D) (i_nodeId r)) as [y|] eqn:G; [done|]. by apply get_numbered in G.
Qed.

Lemma name_fresh D r : i_nodeId r ∉ i_nodeId <$> D → name (D ++ [r]) r = label (i_type r) (count (i_type r) D).
Proof.
  intros Hr%get_numbered. unfold name. rewrite numbered_snoc, get_app, Hr. cbn. by rewrite decide_True.
Qed.

(** The number of a resource is its place among those of its kind. *)
Lemma name_number D i r :
  NoDup (i_nodeId <$> D) → D !! i = Some r → name D r = label (i_type r) (count (i_type r) (take i D)).
Proof.
  intros Hnd Hi. pose proof (take_drop_middle D i r Hi) as E. rewrite <- E in Hnd. rewrite <- E at 1.
  rewrite cons_middle, app_assoc, name_stable by (rewrite fmap_app; apply elem_of_app; right; apply list_elem_of_here).
  apply name_fresh. rewrite fmap_app in Hnd. apply NoDup_app in Hnd as (_ & Hnd & _). intros Hr. apply (Hnd _ Hr). apply list_elem_of_here.
Qed.

(** * The loop *)

Context (Hlabel : ∀ k n, label k n ≠ []).

Record follows P (c : Composer) : Prop := {
  fo_selected : selectedInputs c = filter (λ r, i_type r ≠ KText) (firsts P);
  fo_labels : labelByNodeId c = numbered (firsts P);
  fo_blocks : textBlocks c = text_block (firsts P) <$> filter (λ r, i_type r = KText) (firsts P);
  fo_counts : ∀ k, counts c k = count k (firsts P);
}.

Lemma text_block_stable D E r : i_nodeId r ∈ i_nodeId <$> D → text_block (D ++ E) r = text_block D r.
Proof. intros. unfold text_block. by rewrite name_stable. Qed.

Lemma label_step P c r :
  follows P c →
  (label_resource label r c).1 = shown r (name (firsts (P ++ [r])) r) ∧ follows (P ++ [r]) (label_resource label r c).2
  ∧ lastIndex (label_resource label r c).2 = lastIndex c ∧ nextPrompt (label_resource label r c).2 = nextPrompt c.
Proof.
  intros [Hs Hl Hb Hc]. unfold label_resource. rewrite Hl, firsts_snoc. fold (name (firsts P) r). unfold add_first.
  destruct (bool_decide_reflect (i_nodeId r ∈ i_nodeId <$> firsts P)) as [E|E].
  - assert (truthy (name (firsts P) r) = true) as ->; [|split_and!; try done; constructor; rewrite firsts_snoc; unfold add_first; by rewrite bool_decide_eq_true_2].
    destruct (firsts_ids P) as [Hnd _]. apply list_elem_of_fmap in E as (r' & Er & [i Hi]%list_elem_of_lookup).
    assert (name (firsts P) r = name (firsts P) r') as -> by (unfold name; by rewrite Er). rewrite (name_number _ _ _ Hnd Hi).
    pose proof (Hlabel (i_type r') (count (i_type r') (take i (firsts P)))). by destruct (label _ _).
  - assert (name (firsts P) r = []) as ->. { unfold name. apply get_numbered in E. by rewrite E. }
    cbn [truthy]. rewrite Hc, name_fresh by done. split; [done|]. split; [|done]. constructor; rewrite firsts_snoc; unfold add_first;
      rewrite (bool_decide_eq_false_2 (i_nodeId r ∈ i_nodeId <$> firsts P)) by done; cbn [selectedInputs labelByNodeId textBlocks counts].
    + rewrite filter_app, filter_cons, filter_nil, Hs. case_bool_decide as Et; rewrite ?decide_True, ?decide_False by naive_solver;
        [by rewrite app_nil_r|done].
    + rewrite omap.set_fresh by (by apply get_numbered). by rewrite numbered_snoc.
    + rewrite filter_app, fmap_app, filter_cons, filter_nil, Hb.
      assert (text_block (firsts P ++ [r]) <$> filter (λ r, i_type r = KText) (firsts P)
        = text_block (firsts P) <$> filter (λ r, i_type r = KText) (firsts P)) as ->.
      { apply list_fmap_ext. intros i x Hx%list_elem_of_lookup_2. apply list_elem_of_filter in Hx as [_ Hx]. apply text_block_stable. by apply list_elem_of_fmap_2. }
      case_bool_decide as Et; [rewrite decide_True by done|by rewrite decide_False, app_nil_r by done].
      cbn [fmap list_fmap]. unfold text_block at 3. by rewrite name_fresh.
    + intros k. cbn. unfold bump. rewrite count_snoc. repeat case_decide; rewrite ?Hc; congruence.
Qed.

Lemma name_later P Q r : r ∈ P → name (firsts (P ++ Q)) r = name (firsts P) r.
Proof.
  intros Hr. destruct (firsts_prefix P Q) as [E ->]. apply name_stable. apply firsts_ids. by apply list_elem_of_fmap_2.
Qed.

Lemma label_all P c rs :
  follows P c →
  let res := label_resources label rs c in
  res.1 = (λ r, shown r (name (firsts (P ++ rs)) r)) <$> rs ∧ follows (P ++ rs) res.2
  ∧ lastIndex res.2 = lastIndex c ∧ nextPrompt res.2 = nextPrompt c.
Proof.
  revert P c. induction rs as [|r rs IH]; intros P c Hc; cbn [label_resources]; [by rewrite app_nil_r|].
  destruct (label_step P c r Hc) as (Hl & Hf & Hi & Hn). destruct (label_resource label r c) as [l c1]. cbn [fst snd] in *.
  destruct (IH (P ++ [r]) c1 Hf) as (Hl' & Hf' & Hi' & Hn'). destruct (label_resources label rs c1) as [ls c2]. cbn [fst snd] in *.
  rewrite <- app_assoc in Hl', Hf'. cbn [app] in Hl', Hf'. subst l ls. split; [|by rewrite Hi', Hn', Hi, Hn].
  rewrite fmap_cons. f_equal. assert (P ++ r :: rs = (P ++ [r]) ++ rs) as -> by (by rewrite <- app_assoc).
  rewrite (name_later (P ++ [r]) rs r); [done|].
  apply elem_of_app. right. apply list_elem_of_here.
Qed.

Lemma compose_all inputs prompt ms P c :
  follows P c →
  let c' := foldl (compose_token label inputs prompt) c ms in
  let Q := P ++ concat (mentioned inputs <$> ms) in
  follows Q c' ∧ nextPrompt c' ++ slice_from prompt (lastIndex c')
    = nextPrompt c ++ substitute (name (firsts Q)) inputs prompt (lastIndex c) ms.
Proof.
  revert P c. induction ms as [|m ms IH]; intros P c Hc; cbn [foldl fmap list_fmap concat substitute]; [by rewrite app_nil_r|].
  destruct (label_all P c (mentioned inputs m) Hc) as (Hl & Hf & Hi & Hn).
  assert (follows (P ++ mentioned inputs m) (compose_token label inputs prompt c m)
    ∧ lastIndex (compose_token label inputs prompt c m) = m.1 + length (r_text m.2)
    ∧ nextPrompt (compose_token label inputs prompt c m) = nextPrompt c ++ slice prompt (lastIndex c) m.1
        ++ join (js "、") ((λ r, shown r (name (firsts (P ++ mentioned inputs m)) r)) <$> mentioned inputs m)) as (Hf1 & Hi1 & Hn1).
  { unfold compose_token. destruct (label_resources label (mentioned inputs m) c) as [ls c1]. cbn [fst snd] in *. subst ls.
    split; [by destruct Hf|]. split; [done|]. cbn [nextPrompt move_to]. by rewrite app_assoc. }
  destruct (IH _ _ Hf1) as [Hf2 Hn2]. rewrite <- app_assoc in Hf2, Hn2. split; [done|]. rewrite Hn2, Hi1, Hn1, <- !app_assoc.
  f_equal. f_equal. f_equal. f_equal. apply list_fmap_ext. intros i r Hr%list_elem_of_lookup_2. cbn. f_equal.
  rewrite app_assoc. symmetry. apply name_later. apply elem_of_app. by right.
Qed.

Lemma media_selected k D : k ≠ KText → media k (filter (λ r, i_type r ≠ KText) D) = media k D.
Proof.
  intros Hk. induction D as [|r D IH]; [done|]. rewrite filter_cons. unfold media in *. cbn [base.omap list_omap].
  case_decide as E; cbn [base.omap list_omap]; rewrite IH; [done|]. by rewrite bool_decide_eq_false_2 by congruence.
Qed.

Lemma media_number k D j v :
  NoDup (i_nodeId <$> D) → media k D !! j = Some v → ∃ r, r ∈ D ∧ i_type r = k ∧ i_media r = v ∧ name D r = label k j.
Proof.
  intros Hnd Hj.
  assert (∃ i r, D !! i = Some r ∧ i_type r = k ∧ i_media r = v ∧ count k (take i D) = j) as (i & r & Hi & Hk & Hv & Hc).
  { clear Hnd. revert j Hj. induction D as [|r D IH]; intros j Hj; [done|]. unfold media in Hj. cbn [base.omap list_omap] in Hj.
    case_bool_decide as E.
    - destruct j as [|j]; [exists 0, r; by injection Hj as <-|]. destruct (IH j Hj) as (i & r' & ? & ? & ? & Hc). exists (S i), r'.
      split_and!; try done. unfold count in *. cbn [take]. rewrite filter_cons_True by done. cbn. by rewrite Hc.
    - destruct (IH j Hj) as (i & r' & ? & ? & ? & Hc). exists (S i), r'. split_and!; try done. unfold count in *. cbn [take].
      by rewrite filter_cons_False. }
  exists r. split_and!; [by eapply list_elem_of_lookup_2|done|done|]. rewrite (name_number _ _ _ Hnd Hi), Hk, Hc. done.
Qed.
End labels.

(** C23: The composed prompt is the one of numbering first and substituting then: the
    resources that the tokens stand for, each once in the order in which they are
    mentioned, are numbered among those of their kind; every token is replaced by the
    names of what it stands for; the texts follow with their names; and the media are
    sent in the order of their numbers, so that the name with number [j] stands for
    the medium at place [j]. *)
Theorem composed_prompt (label : Kind → nat → jstr) inputs (prompt : jstr) :
  (∀ k n, label k n ≠ []) → match_all token prompt ≠ [] →
  let mentions := concat (mentioned inputs <$> match_all token prompt) in
  let D := firsts mentions in
  let texts := filter (λ r, i_type r = KText) D in
  let body := substitute (name label D) inputs prompt 0 (match_all token prompt) in
  buildComposerGenerationContext label inputs prompt
  = mkContext (match texts with [] => body | _ => trim body ++ NL2 ++ join NL2 (text_block label D <$> texts) end)
      (media KImage D) (media KVideo D) (media KAudio D)
      (length texts) (length (media KImage D)) (length (media KVideo D)) (length (media KAudio D))
  ∧ NoDup (i_nodeId <$> D) ∧ (∀ id, id ∈ i_nodeId <$> D ↔ id ∈ i_nodeId <$> mentions)
  ∧ (∀ k j v, media k D !! j = Some v → ∃ r, r ∈ D ∧ i_type r = k ∧ i_media r = v ∧ name label D r = label k j).
Proof.
  intros Hl Hm mentions D texts body. destruct (firsts_ids mentions) as [Hnd Hids]. split; [|split; [done|split; [done|]]].
  2: { intros k j v. by apply media_number. }
  assert (follows label [] empty_composer) as H0 by (by constructor).
  destruct (compose_all label Hl inputs prompt (match_all token prompt) [] empty_composer H0) as [[Hs Hla Hb Hc] Hn].
  cbn [app] in *. fold mentions in Hs, Hla, Hb, Hc, Hn. fold D in Hs, Hla, Hb, Hc, Hn.
  unfold buildComposerGenerationContext, compose. destruct (match_all token prompt) as [|m ms] eqn:Em; [done|].
  rewrite Hn, Hs, Hb, Hc, !media_selected by done. cbn [nextPrompt empty_composer app lastIndex]. fold texts. fold body.
  f_equal. by destruct texts.
Qed.

(** * An example *)

Module Mentions.
Definition label (k : Kind) (n : nat) : jstr :=
  match k with KImage => js "Image " | KVideo => js "Video " | KAudio => js "Audio " | KText => js "Text " end ++ digits (N.of_nat (S n)).
Definition resource (i : jstr) (k : Kind) : ResourceInput := mkInput i k i (VStr (i ++ js " says")) (VStr (i ++ js ".png")).
(** Two images in a group, another image and a text *)
Definition inputs : list GenerationInput :=
  [GroupInput (js "g") [] [resource (js "p") KImage; resource (js "q") KImage]; Single (resource (js "r") KImage); Single (resource (js "t") KText)].
Definition prompt : jstr := js "put @[node:r] on @[node:g] as in @[node:t], not @[node:x] but @[node:r]".
End Mentions.

Lemma composed_prompt_witness :
  let c := buildComposerGenerationContext Mentions.label Mentions.inputs Mentions.prompt in
  let D := firsts (concat (mentioned Mentions.inputs <$> match_all token Mentions.prompt)) in
  g_prompt c = js "put Image 1 on Image 2、Image 3 as in 【Text 1】, not  but Image 1" ++ NL2 ++ js "【Text 1】" ++ [10%N] ++ js "t says"
  ∧ referenceImages c = VStr <$> [js "r.png"; js "p.png"; js "q.png"] ∧ media KImage D = referenceImages c ∧ NoDup (i_nodeId <$> D).
Proof.
  cbv zeta. split; [by vm_compute|]. split; [by vm_compute|].
  destruct (composed_prompt Mentions.label Mentions.inputs Mentions.prompt) as (E & Hnd & _).
  - intros k n. by destruct k.
  - vm_compute. discriminate.
  - split; [by rewrite E|exact Hnd].
Defined.
