(* ===== verification/CanvasGraphProps.v ===== *)
(** The graph of a canvas: where a generation is retried from, how many results it
    asks for, and which connections can be made. *)

From Stdlib Require Import ZArith NArith Lia SpecFloat.
From stdpp Require Import base list relations.
From S2P Require Import Prelude JsString JsNumber JsValue JsArray CanvasGraph.

Implicit Types (node : CanvasNodeData) (nodes : list CanvasNodeData) (conn : CanvasConnection)
  (connections : list CanvasConnection) (id : jstr).

(** * Finding nodes *)

Lemma find_node_Some id nodes node : find_node id nodes = Some node → node ∈ nodes ∧ n_id node = id.
Proof.
  unfold find_node. intros [Hin Hid]%List.find_some. apply bool_decide_eq_true in Hid. split; [by apply list_elem_of_In|done].
Qed.

Lemma find_node_elem id nodes : id ∈ n_id <$> nodes → ∃ node, find_node id nodes = Some node.
Proof.
  intros (node & -> & Hn)%list_elem_of_fmap. destruct (find_node (n_id node) nodes) as [x|] eqn:E; [by exists x|].
  unfold find_node in E. apply list_elem_of_In in Hn. by apply (List.find_none _ _ E), bool_decide_eq_false in Hn.
Qed.

Lemma find_node_NoDup nodes node : NoDup (n_id <$> nodes) → node ∈ nodes → find_node (n_id node) nodes = Some node.
Proof.
  induction nodes as [|x nodes IH]; intros Hnd Hin; [by apply not_elem_of_nil in Hin|]. rewrite fmap_cons in Hnd.
  apply NoDup_cons in Hnd as [Hx Hnd]. unfold find_node in *. cbn [List.find]. case_bool_decide as E.
  - apply elem_of_cons in Hin as [->|Hin]; [done|]. destruct Hx. rewrite E. by apply list_elem_of_fmap_2.
  - apply elem_of_cons in Hin as [->|Hin]; [done|by apply IH].
Qed.

(** * The source of a retry *)

(** One node feeds another, and a node feeds one through others. *)
Definition feeds connections : relation jstr := λ x y, ∃ conn, conn ∈ connections ∧ fromNodeId conn = x ∧ toNodeId conn = y.
Definition upstream connections : relation jstr := tc (feeds connections).

Section retry.
Context (nodes : list CanvasNodeData) (connections : list CanvasConnection) (nodeId : jstr).

Lemma elem_of_sources x y : x ∈ Helpers.sources y connections ↔ feeds connections x y.
Proof.
  unfold Helpers.sources, feeds. rewrite list_elem_of_omap. split.
  - intros (conn & Hin & E). case_bool_decide; [|done]. injection E as <-. by exists conn.
  - intros (conn & Hin & <- & <-). exists conn. split; [done|]. by rewrite bool_decide_eq_true_2.
Qed.

(** The connections into nodes that were not visited *)
Definition unvisited (visited : list jstr) : nat := length (filter (λ conn, toNodeId conn ∉ visited) connections).

Lemma sources_unvisited visited id : id ∉ visited →
  length (Helpers.sources id connections) + unvisited (visited ++ [id]) = unvisited visited.
Proof.
  intros Hid. unfold unvisited, Helpers.sources. induction connections as [|conn cs IH]; [done|].
  cbn [base.omap list_omap]. rewrite !filter_cons. case_bool_decide as E.
  - rewrite (decide_False (P := toNodeId conn ∉ visited ++ [id])) by (rewrite not_elem_of_app, not_elem_of_cons; naive_solver).
    rewrite decide_True by congruence. cbn. lia.
  - destruct (decide (toNodeId conn ∉ visited)) as [Hv|Hv].
    + rewrite decide_True by (rewrite not_elem_of_app, not_elem_of_cons; split_and!; [done|done|apply not_elem_of_nil]). cbn. lia.
    + rewrite decide_False by (rewrite not_elem_of_app; naive_solver). done.
Qed.

Record search (visited queue : list jstr) : Prop := {
  se_upstream : ∀ x, x ∈ visited ++ queue → upstream connections x nodeId;
  se_closed : ∀ x y, feeds connections x y → y = nodeId ∨ y ∈ visited → x ∈ visited ++ queue;
  se_others : ∀ x node, x ∈ visited → find_node x nodes = Some node → is_type TConfig node = false;
}.

Definition retry_result (res : option CanvasNodeData) : Prop :=
  match res with
  | Some node => is_type TConfig node = true ∧ node ∈ nodes ∧ upstream connections (n_id node) nodeId
  | None => ∀ node, upstream connections (n_id node) nodeId → find_node (n_id node) nodes = Some node → is_type TConfig node = false
  end.

Lemma search_done visited : search visited [] → retry_result None.
Proof.
  intros [_ Hc Ho] node Hup Hf. cbn. eapply Ho; [|exact Hf]. clear Hf. rewrite app_nil_r in Hc.
  assert (∀ x y, upstream connections x y → y = nodeId → x ∈ visited) as H; [|by eapply H].
  intros x y Hxy. induction Hxy as [x y Hxy|x y z Hxy _ IH]; intros ->; (eapply Hc; [exact Hxy|]); [by left|right; by apply IH].
Qed.

Lemma search_visit visited id queue :
  search visited (id :: queue) → id ∉ visited → (∀ node, find_node id nodes = Some node → is_type TConfig node = false) →
  search (visited ++ [id]) (queue ++ Helpers.sources id connections).
Proof.
  intros [Hu Hc Ho] Hid Hn. assert (upstream connections id nodeId) as Hup by (apply Hu; apply elem_of_app; right; apply list_elem_of_here).
  assert (∀ x, x ∈ visited ++ id :: queue → x ∈ (visited ++ [id]) ++ queue ++ Helpers.sources id connections) as Hin by set_solver.
  constructor.
  - intros x. rewrite <- app_assoc, !elem_of_app. intros [Hx|[Hx|[Hx|Hx]]].
    + apply Hu. apply elem_of_app. by left.
    + apply list_elem_of_singleton in Hx. by subst.
    + apply Hu. apply elem_of_app. right. by apply elem_of_cons; right.
    + apply elem_of_sources in Hx. eapply tc_l; [exact Hx|done].
  - intros x y Hxy [->|Hy].
    + apply Hin, (Hc _ _ Hxy). by left.
    + apply elem_of_app in Hy as [Hy|Hy].
      * apply Hin, (Hc _ _ Hxy). by right.
      * apply list_elem_of_singleton in Hy. subst. rewrite !elem_of_app. right. right. by apply elem_of_sources.
  - intros x node [Hx|Hx]%elem_of_app Hf; [by eapply Ho|]. apply list_elem_of_singleton in Hx. subst. by apply Hn.
Qed.

Lemma search_skip visited id queue : search visited (id :: queue) → id ∈ visited → search visited queue.
Proof.
  intros [Hu Hc Ho] Hid. constructor; [|intros x y Hxy Hy|done].
  - intros x Hx. apply Hu. rewrite elem_of_app, elem_of_cons in *. naive_solver.
  - specialize (Hc _ _ Hxy Hy). rewrite !elem_of_app, elem_of_cons in *. destruct Hc as [?|[->|?]]; auto.
Qed.

Lemma retry_loop_correct fuel visited queue :
  search visited queue → length queue + unvisited visited ≤ fuel →
  ∃ res, Helpers.retry_loop fuel nodes connections visited queue = Some res ∧ retry_result res.
Proof.
  revert visited queue. induction fuel as [|fuel IH]; intros visited [|id queue] Hs Hf; cbn [length] in Hf.
  - exists None. split; [done|by eapply search_done].
  - lia.
  - exists None. split; [done|by eapply search_done].
  - cbn [Helpers.retry_loop]. unfold has. case_bool_decide as E.
    { apply IH; [by eapply search_skip|lia]. }
    pose proof (sources_unvisited visited id E) as Hm.
    assert (∀ node, find_node id nodes = Some node → is_type TConfig node = true → retry_result (Some node)) as Hfound.
    { intros node Hn Ht. apply find_node_Some in Hn as [Hin <-]. split; [done|]. split; [done|].
      apply (se_upstream _ _ Hs). apply elem_of_app. right. apply list_elem_of_here. }
    destruct (find_node id nodes) as [node|] eqn:En; [destruct (is_type TConfig node) eqn:Et|].
    + exists (Some node). split; [done|]. by apply Hfound.
    + apply IH; [|rewrite length_app; lia]. apply search_visit; [done|done|]. intros node' Hn. rewrite En in Hn. by injection Hn as <-.
    + apply IH; [|rewrite length_app; lia]. apply search_visit; [done|done|]. intros node' Hn. by rewrite En in Hn.
Qed.
End retry.

(** C24: A generation is retried from a configuration upstream of its node when there is
    one, through any number of connections, and the search ends also when the
    connections form circles. *)
Theorem retry_source (nodeId : jstr) nodes connections :
  ∃ res, Helpers.findRetrySourceNode nodeId nodes connections = Some res
  ∧ match res with
    | Some node => is_type TConfig node = true ∧ node ∈ nodes ∧ upstream connections (n_id node) nodeId
    | None => ∀ node, upstream connections (n_id node) nodeId → find_node (n_id node) nodes = Some node → is_type TConfig node = false
    end.
Proof.
  apply (retry_loop_correct nodes connections nodeId).
  - constructor; [|intros x y Hxy [->|Hy]|].
    + intros x Hx%elem_of_sources. by apply tc_once.
    + by apply elem_of_sources.
    + by apply not_elem_of_nil in Hy.
    + intros x node Hx. by apply not_elem_of_nil in Hx.
  - assert (∀ id, length (Helpers.sources id connections) ≤ length connections) as H.
    { intros id. unfold Helpers.sources. induction connections as [|c cs IH]; [done|]. cbn [base.omap list_omap length].
      case_bool_decide; cbn [length]; lia. }
    specialize (H nodeId). unfold unvisited.
    pose proof (length_filter (λ conn, toNodeId conn ∉ []) connections). lia.
Qed.

(** * Connections *)

(** A connection that is made joins two different nodes of the canvas, does not enter a
    group, and does not join two configurations. *)
Lemma normalized_ends firstId secondId nodes h from to :
  Geometry.normalizeConnection firstId secondId nodes h = Some (from, to) →
  ∃ a b, a ∈ nodes ∧ b ∈ nodes ∧ n_id a = from ∧ n_id b = to ∧ from ≠ to
    ∧ is_type TGroup b = false ∧ (is_type TConfig a && is_type TConfig b = false).
Proof.
  unfold Geometry.normalizeConnection. destruct (find_node firstId nodes) as [a|] eqn:Ea; [|done].
  destruct (find_node secondId nodes) as [b|] eqn:Eb; [|done].
  apply find_node_Some in Ea as [Ha _]. apply find_node_Some in Eb as [Hb _].
  case_bool_decide as E; [done|]. destruct (is_type TGroup b) eqn:Eg; [done|]. destruct (is_type TConfig a && is_type TConfig b) eqn:Ec; [done|].
  destruct (is_type TConfig b) eqn:Et.
  { intros [= <- <-]. exists a, b. rewrite Et, Eg. split_and!; try done. }
  clear Ec. match goal with |- (if ?b then _ else _) = _ → _ => destruct b eqn:Eh end.
  - intros [= <- <-]. exists b, a. apply andb_true_iff in Eh as [Eh _]. rewrite Et. split_and!; try done.
    unfold is_type in *. apply bool_decide_eq_true in Eh. apply bool_decide_eq_false. rewrite Eh. by vm_compute.
  - intros [= <- <-]. exists a, b. rewrite Et, Eg, andb_false_r. by split_and!.
Qed.

(** * The number of results *)

Lemma shr_1_nonneg mrs : (0 ≤ shr_m mrs)%Z → (0 ≤ shr_m (shr_1 mrs))%Z.
Proof. destruct mrs as [[|[p|p|]|p] r s]; cbn; lia. Qed.

Lemma shr_nonneg mrs e n : (0 ≤ shr_m mrs)%Z → (0 ≤ shr_m (shr mrs e n).1)%Z.
Proof.
  intros H. unfold shr. destruct n as [|p|p]; cbn [fst]; [done| |done]. rewrite iter_pos_nat.
  induction (Pos.to_nat p) as [|k IH]; [done|]. cbn [Nat.iter]. by apply shr_1_nonneg.
Qed.

Lemma shr_fexp_nonneg m e l : (0 ≤ m)%Z → (0 ≤ shr_m (shr_fexp 53 1024 m e l).1)%Z.
Proof. intros H. apply shr_nonneg. by destruct l as [|[]]. Qed.

Lemma round_aux_not_nan s m e l : (0 ≤ m)%Z → is_nan (binary_round_aux 53 1024 s m e l) = false.
Proof.
  intros H. unfold binary_round_aux. pose proof (shr_fexp_nonneg m e l H) as H1.
  destruct (shr_fexp 53 1024 m e l) as [mrs e1]. cbn [fst] in H1.
  set (m1 := round_nearest_even _ _).
  assert (0 ≤ m1)%Z as H2.
  { subst m1. unfold round_nearest_even. destruct (loc_of_shr_record mrs) as [|[]]; try done; [|lia].
    destruct (Z.even _); lia. }
  pose proof (shr_fexp_nonneg m1 e1 loc_Exact H2) as H3. destruct (shr_fexp 53 1024 m1 _ _) as [mrs2 e2].
  cbn [fst] in H3. destruct (shr_m mrs2) as [|q|q]; [done| |lia]. by destruct (e2 <=? _)%Z.
Qed.

Lemma normalize_not_nan z e b : is_nan (binary_normalize 53 1024 z e b) = false.
Proof.
  destruct z as [|q|q]; [done| |]; cbn [binary_normalize]; unfold binary_round;
    destruct (shl_align _ _ _) as [m' e']; apply round_aux_not_nan; lia.
Qed.

Lemma compare_total a b : is_nan a = false → is_nan b = false → SFcompare a b ≠ None.
Proof. by destruct a as [[]|[]| |[]], b as [[]|[]| |[]]. Qed.

Lemma leb_of_compare a b : SFcompare a b = Some Lt ∨ SFcompare a b = Some Eq → num_leb a b = true.
Proof. unfold num_leb, SFleb. by intros [->| ->]. Qed.

Lemma leb_of_not_lt a b : is_nan a = false → is_nan b = false → SFcompare b a ≠ Some Lt → num_leb a b = true.
Proof.
  intros Ha Hb H. rewrite num_leb_ltb by done. unfold num_ltb, SFltb. by destruct (SFcompare b a) as [[]|].
Qed.

Lemma min_bound a b : is_nan a = false → is_nan b = false → num_leb a a = true →
  is_nan (num_min a b) = false ∧ num_leb (num_min a b) a = true.
Proof.
  intros Ha Hb Haa. pose proof (compare_total a b Ha Hb) as Hc. unfold num_min. destruct (SFcompare a b) as [[]|] eqn:E; [| | |done].
  - destruct (num_is_neg_zero a); [done|]. split; [done|]. apply leb_of_not_lt; congruence.
  - done.
  - split; [done|]. apply leb_of_not_lt; congruence.
Qed.

Lemma max_bounds a b c : is_nan a = false → is_nan b = false → num_leb a a = true → num_leb a c = true → num_leb b c = true →
  num_leb a (num_max a b) = true ∧ num_leb (num_max a b) c = true.
Proof.
  intros Ha Hb Haa Hac Hbc. pose proof (compare_total a b Ha Hb) as Hc. unfold num_max. destruct (SFcompare a b) as [[]|] eqn:E; [| | |done].
  - destruct (num_is_neg_zero a); [|done]. split; [|done]. apply leb_of_compare. by right.
  - split; [|done]. apply leb_of_compare. by left.
  - done.
Qed.

(** However the count of a configuration is written, between one and fifteen results
    are asked for. *)
Theorem generation_count_bounds (count : jstr) :
  let n := Helpers.getGenerationCount count in num_leb (num_of_Z 1) n = true ∧ num_leb n (num_of_Z 15) = true.
Proof.
  intros n. subst n. unfold Helpers.getGenerationCount. set (m := Helpers.num_abs _).
  set (y := if num_truthy m then m else num_of_Z 1).
  assert (is_nan y = false) as Hy by (subst y; by destruct m).
  assert (is_nan (num_floor y) = false) as Hf.
  { unfold num_floor. destruct y; try done. destruct (_ <=? _)%Z; [done|]. apply normalize_not_nan. }
  destruct (min_bound (num_of_Z 15) (num_floor y)) as [H1 H2]; [done..|]. by apply max_bounds.
Qed.
