(* ===== verification/CanvasEditor.v ===== *)
(** The page of a canvas: [pages/canvas/project.tsx], with
    [lib/canvas/canvas-node-factory.ts], [lib/canvas/canvas-node-size.ts] and the
    specifications of [constant/canvas.ts].

    The document (nodes, connections, chat and display settings) is changed by the
    handlers of the page; after every event React renders and runs the effects that
    record the history and save the project ([render]).  An array that is replaced has
    a new identity ([Ref]), and the effects compare identities.  Timers are events.
    Fresh identifiers ([Date.now()], [Math.random()] and [nanoid()]), titles in the
    language of the interface, what plugins define, and displacements of the mouse in
    the coordinates of the canvas are arguments.  Hints in the style of toolbars, the
    marquee, the view and the flows that call generation services are left out. *)

From Stdlib Require Import ZArith NArith Lia.
From stdpp Require Import base list.
From S2P Require Import Prelude JsString JsNumber JsValue JsRegex CanvasGraph.

Import Resources Helpers Geometry.

(** * Sizes and new nodes *)

Record Size := mkSize { z_width : num; z_height : num }.

Definition fitNodeSize (width height maxWidth maxHeight : num) : Size :=
  let w := num_max (num_of_Z 1) width in
  let h := num_max (num_of_Z 1) height in
  let scale := num_min (num_min (num_of_Z 1) (num_div maxWidth w)) (num_div maxHeight h) in
  mkSize (num_mul w scale) (num_mul h scale).

(** [^(\d+)(?:x|:)(\d+)] *)
Definition ratio_re : re := JsRegex.seq [RBegin; RGroup 1 (plus digit); RAlt (lit (js "x")) (lit (js ":")); RGroup 2 (plus digit)].

Definition quarter : num := num_div (num_of_Z 1) (num_of_Z 4).

Definition nodeSizeFromRatio (size : jstr) (baseWidth baseHeight : num) : option Size :=
  match exec ratio_re size with
  | None => None
  | Some (_, res) =>
      let width := Number_of_string (default [] (JsRegex.group res 1)) in
      let height := Number_of_string (default [] (JsRegex.group res 2)) in
      let ratio := num_div width (num_max (num_of_Z 1) height) in
      Some
        (if num_ltb ratio quarter || num_ltb (num_of_Z 4) ratio then mkSize baseWidth baseHeight
         else if num_leb (num_div baseWidth baseHeight) ratio then mkSize baseWidth (num_div baseWidth ratio)
         else mkSize (num_mul baseHeight ratio) baseHeight)
  end.

Record Spec := mkSpec { p_width : num; p_height : num; p_title : jstr; p_metadata : jsval }.

Implicit Types (node : CanvasNodeData) (nodes : list CanvasNodeData) (conn : CanvasConnection)
  (connections : list CanvasConnection) (id : jstr).

(** What a node has besides its identifier, type and metadata, centred on the node it
    replaces *)
Definition resized (size : Size) node : CanvasNodeData :=
  mkNode (n_id node) (n_type node) (n_title node)
    (num_sub (num_add (n_x node) (half (n_width node))) (half (z_width size)))
    (num_sub (num_add (n_y node) (half (n_height node))) (half (z_height size)))
    (z_width size) (z_height size) (n_metadata node).

Definition built_in (type : jstr) : bool := bool_decide (type ∈ [TImage; TText; TConfig; TVideo; TAudio; TGroup]).

Section specs.
Context (type_title : jstr → jstr) (plugin_spec : jstr → Spec).

(** [NODE_SPECS] *)
Definition NODE_SPECS (type : jstr) : Spec :=
  let idle := (js "status", VStr (js "idle")) in
  let empty := (js "content", VStr []) in
  let sized w h o := mkSpec (num_of_Z w) (num_of_Z h) (type_title type) (VObj o) in
  if bool_decide (type = TText) then sized 340%Z 240%Z [empty; idle; (js "fontSize", VNum (num_of_Z 14))]
  else if bool_decide (type = TConfig) then sized 340%Z 240%Z [empty; idle; (js "generationMode", VStr (js "image"))]
  else if bool_decide (type = TVideo) then sized 420%Z 236%Z [empty; idle]
  else if bool_decide (type = TAudio) then sized 340%Z 120%Z [empty; idle]
  else if bool_decide (type = TGroup) then sized 760%Z 480%Z [idle]
  else sized 340%Z 240%Z [empty; idle].

Definition getNodeSpec (type : jstr) : Spec := if built_in type then NODE_SPECS type else plugin_spec type.

Definition createCanvasNode id (type : jstr) (x y : num) (metadata : jsval) : CanvasNodeData :=
  let spec := getNodeSpec type in
  mkNode id type (p_title spec) (num_sub x (half (p_width spec))) (num_sub y (half (p_height spec))) (p_width spec) (p_height spec)
    (spread_fields (p_metadata spec) metadata).
End specs.

Definition applyNodeConfigPatch (patch : jsval) node : CanvasNodeData :=
  let next := with_metadata (spread_fields (n_metadata node) patch) node in
  let '(w, h) := if is_type TVideo node then (420, 236)%Z else (340, 240)%Z in
  let size :=
    match prop patch (js "size") with
    | VStr s => if truthy_val (meta node (js "content")) then None else nodeSizeFromRatio s (num_of_Z w) (num_of_Z h)
    | _ => None
    end in
  match size with
  | Some size => if is_type TImage node || is_type TVideo node then resized size next else next
  | None => next
  end.

(** * The state of the page *)

Record Ref A := mkRef { ref : nat; val : A }.
Arguments mkRef {A}.
Arguments ref {A}.
Arguments val {A}.

(** [CanvasHistoryEntry]: the document *)
Record Entry := mkEntry {
  e_nodes : Ref (list CanvasNodeData);
  e_connections : Ref (list CanvasConnection);
  chatSessions : Ref jsval;
  activeChatId : option jstr;
  backgroundMode : jstr;
  showImageInfo : bool;
}.

(** The comparison of the effect, [===] on every part *)
Definition same_entry (a b : Entry) : bool :=
  (ref (e_nodes a) =? ref (e_nodes b))%nat && (ref (e_connections a) =? ref (e_connections b))%nat
  && (ref (chatSessions a) =? ref (chatSessions b))%nat && bool_decide (activeChatId a = activeChatId b)
  && bool_decide (backgroundMode a = backgroundMode b) && Bool.eqb (showImageInfo a) (showImageInfo b).

(** Identifiers of nodes that the interface holds *)
Inductive Mark := Hovered | Toolbar | Dialog | Info | Crop | MaskEdit | Angle | Preview | Running | ReferencePicker.

#[export] Instance mark_eq_dec : EqDecision Mark.
Proof. solve_decision. Defined.

Inductive Menu := NodeMenu (nodeId : jstr) | ConnectionMenu (connectionId : jstr).

(** [ConnectionHandle] *)
Record Handle := mkHandle { h_nodeId : jstr; h_type : handleType }.

Record Ui := mkUi {
  selectedNodeIds : list jstr;
  selectedConnectionId : option jstr;
  marks : Mark → option jstr;
  contextMenu : option Menu;
  expandedBatchNodeIds : list jstr;
  connectingParams : option Handle;
  pendingConnectionCreate : option (Handle * (num * num));
}.

(** [historyRef], [lastHistoryRef], the timers and flags around them; the last of
    [past] is the nearest, and so is the last of [future] *)
Record History := mkHistory {
  past : list Entry;
  future : list Entry;
  lastHistory : option Entry;
  commitTimer : bool;
  applyTimeouts : list Entry;
  applyingHistory : bool;
  historyPaused : bool;
  canUndo : bool;
  canRedo : bool;
}.

(** [dragRef] with the frame that is requested *)
Record Drag := mkDrag {
  hasMoved : bool;
  initialSelectedNodes : list (jstr * (num * num));
  frame : option (num * num);
}.

Record Request := mkRequest { originNodeId : jstr; runningNodeId : jstr; controller : nat }.

(** [saved]: what [updateProject] was called with last; [cleanups]: the values
    [cleanupImages] was called with *)
Record Page := mkPage {
  doc : Entry;
  ui : Ui;
  history : History;
  drag : option Drag;
  clipboard : option (list CanvasNodeData * list CanvasConnection);
  requests : list (jstr * Request);
  aborted : list nat;
  saved : Entry;
  cleanups : list jsval;
  next_ref : nat;
}.

Implicit Types (p : Page) (e : Entry).

Definition with_doc e (n : nat) p : Page :=
  mkPage e (ui p) (history p) (drag p) (clipboard p) (requests p) (aborted p) (saved p) (cleanups p) n.
Definition with_ui (u : Ui) p : Page :=
  mkPage (doc p) u (history p) (drag p) (clipboard p) (requests p) (aborted p) (saved p) (cleanups p) (next_ref p).
Definition with_history (h : History) p : Page :=
  mkPage (doc p) (ui p) h (drag p) (clipboard p) (requests p) (aborted p) (saved p) (cleanups p) (next_ref p).
Definition with_drag (d : option Drag) p : Page :=
  mkPage (doc p) (ui p) (history p) d (clipboard p) (requests p) (aborted p) (saved p) (cleanups p) (next_ref p).
Definition with_clipboard (c : list CanvasNodeData * list CanvasConnection) p : Page :=
  mkPage (doc p) (ui p) (history p) (drag p) (Some c) (requests p) (aborted p) (saved p) (cleanups p) (next_ref p).
Definition with_requests (r : list (jstr * Request)) (a : list nat) p : Page :=
  mkPage (doc p) (ui p) (history p) (drag p) (clipboard p) r a (saved p) (cleanups p) (next_ref p).
Definition with_saved e p : Page :=
  mkPage (doc p) (ui p) (history p) (drag p) (clipboard p) (requests p) (aborted p) e (cleanups p) (next_ref p).
Definition with_cleanup (v : jsval) p : Page :=
  mkPage (doc p) (ui p) (history p) (drag p) (clipboard p) (requests p) (aborted p) (saved p) (cleanups p ++ [v]) (next_ref p).

Definition p_nodes p : list CanvasNodeData := val (e_nodes (doc p)).
Definition p_connections p : list CanvasConnection := val (e_connections (doc p)).

(** [setNodes(f)], [setConnections(f)] *)
Definition setNodes (f : list CanvasNodeData → list CanvasNodeData) p : Page :=
  let e := doc p in
  with_doc (mkEntry (mkRef (next_ref p) (f (p_nodes p))) (e_connections e) (chatSessions e) (activeChatId e) (backgroundMode e) (showImageInfo e))
    (S (next_ref p)) p.
Definition setConnections (f : list CanvasConnection → list CanvasConnection) p : Page :=
  let e := doc p in
  with_doc (mkEntry (e_nodes e) (mkRef (next_ref p) (f (p_connections p))) (chatSessions e) (activeChatId e) (backgroundMode e) (showImageInfo e))
    (S (next_ref p)) p.

(** [setNodes((prev) => prev.map((node) => node.id === id ? f(node) : node))] *)
Definition update_node id (f : CanvasNodeData → CanvasNodeData) p : Page :=
  setNodes (λ nodes, (λ node, if bool_decide (n_id node = id) then f node else node) <$> nodes) p.

Definition setBackgroundMode (mode : jstr) p : Page :=
  let e := doc p in
  with_doc (mkEntry (e_nodes e) (e_connections e) (chatSessions e) (activeChatId e) mode (showImageInfo e)) (next_ref p) p.
Definition setShowImageInfo (b : bool) p : Page :=
  let e := doc p in
  with_doc (mkEntry (e_nodes e) (e_connections e) (chatSessions e) (activeChatId e) (backgroundMode e) b) (next_ref p) p.

Definition select (ids : list jstr) p : Page :=
  let u := ui p in
  with_ui (mkUi ids (selectedConnectionId u) (marks u) (contextMenu u) (expandedBatchNodeIds u) (connectingParams u) (pendingConnectionCreate u)) p.
Definition selectConnection (c : option jstr) p : Page :=
  let u := ui p in
  with_ui (mkUi (selectedNodeIds u) c (marks u) (contextMenu u) (expandedBatchNodeIds u) (connectingParams u) (pendingConnectionCreate u)) p.
Definition set_marks (f : (Mark → option jstr) → Mark → option jstr) p : Page :=
  let u := ui p in
  with_ui (mkUi (selectedNodeIds u) (selectedConnectionId u) (f (marks u)) (contextMenu u) (expandedBatchNodeIds u) (connectingParams u)
    (pendingConnectionCreate u)) p.
Definition set_menu (m : option Menu) p : Page :=
  let u := ui p in
  with_ui (mkUi (selectedNodeIds u) (selectedConnectionId u) (marks u) m (expandedBatchNodeIds u) (connectingParams u) (pendingConnectionCreate u)) p.
Definition set_expanded (l : list jstr) p : Page :=
  let u := ui p in
  with_ui (mkUi (selectedNodeIds u) (selectedConnectionId u) (marks u) (contextMenu u) l (connectingParams u) (pendingConnectionCreate u)) p.
Definition set_connecting (h : option Handle) (c : option (Handle * (num * num))) p : Page :=
  let u := ui p in
  with_ui (mkUi (selectedNodeIds u) (selectedConnectionId u) (marks u) (contextMenu u) (expandedBatchNodeIds u) h c) p.

Definition mark (m : Mark) (v : option jstr) (f : Mark → option jstr) : Mark → option jstr := λ m', if decide (m' = m) then v else f m'.

(** [setX((current) => (current && ids.has(current) ? null : current))] for the marks in
    [which] *)
Definition unmark (which : list Mark) (ids : list jstr) (f : Mark → option jstr) : Mark → option jstr :=
  λ m, if bool_decide (m ∈ which) then match f m with Some i => if has ids i then None else Some i | None => None end else f m.

(** * History *)

Definition with_past_future (past_ future_ : list Entry) (h : History) : History :=
  mkHistory past_ future_ (lastHistory h) (commitTimer h) (applyTimeouts h) (applyingHistory h) (historyPaused h) (canUndo h) (canRedo h).
Definition with_timer (b : bool) (h : History) : History :=
  mkHistory (past h) (future h) (lastHistory h) b (applyTimeouts h) (applyingHistory h) (historyPaused h) (canUndo h) (canRedo h).
Definition with_paused (b : bool) (h : History) : History :=
  mkHistory (past h) (future h) (lastHistory h) (commitTimer h) (applyTimeouts h) (applyingHistory h) b (canUndo h) (canRedo h).

(** [slice(-n)] *)
Definition last_n {A} (n : nat) (l : list A) : list A := drop (length l - n) l.

(** The timer of the history fires. *)
Definition commit p : Page :=
  let h := history p in
  if negb (commitTimer h) then p
  else
    match lastHistory h with
    | None => p
    | Some l =>
        with_history (mkHistory (last_n 49 (past h) ++ [l]) [] (Some (doc p)) false (applyTimeouts h) (applyingHistory h)
          (historyPaused h) true false) p
    end.

Definition applyHistory e p : Page :=
  let h := history p in
  let p := with_history (mkHistory (past h) (future h) (lastHistory h) false (applyTimeouts h ++ [e]) true (historyPaused h)
    (canUndo h) (canRedo h)) p in
  set_menu None (selectConnection None (select [] (with_doc e (next_ref p) p))).

(** The timeout that [applyHistory] sets *)
Definition applied p : Page :=
  let h := history p in
  match applyTimeouts h with
  | [] => p
  | e :: rest =>
      with_history (mkHistory (past h) (future h) (Some e) (commitTimer h) rest false (historyPaused h)
        (negb (bool_decide (past h = []))) (negb (bool_decide (future h = [])))) p
  end.

(** [past.pop()] *)
Definition pop {A} (l : list A) : option (list A * A) :=
  match reverse l with [] => None | x :: l => Some (reverse l, x) end.

Definition undoCanvas p : Page :=
  let h := history p in
  match pop (past h) with
  | None => p
  | Some (rest, previous) =>
      match lastHistory h with
      | None => with_history (with_past_future rest (future h) h) p
      | Some current => applyHistory previous (with_history (with_past_future rest (future h ++ [current]) h) p)
      end
  end.

Definition redoCanvas p : Page :=
  let h := history p in
  match pop (future h) with
  | None => p
  | Some (rest, next) =>
      match lastHistory h with
      | None => with_history (with_past_future (past h) rest h) p
      | Some current => applyHistory next (with_history (with_past_future (past h ++ [current]) rest h) p)
      end
  end.

(** The effects after an event that changed the document: the timer of the history is
    set anew, and the project is saved; not while nodes are dragged *)
Definition record_history p : Page :=
  let h := with_timer false (history p) in
  with_history
    (if applyingHistory h || historyPaused h then h
     else match lastHistory h with
          | Some l => if same_entry l (doc p) then h else with_timer true h
          | None => with_timer true h
          end) p.

Definition save p : Page := if historyPaused (history p) then p else with_saved (doc p) p.

Definition render (before after : Page) : Page :=
  if same_entry (doc before) (doc after) then after else save (record_history after).

(** * Values *)

Definition node_value node : jsval :=
  VObj [(js "id", VStr (n_id node)); (js "type", VStr (n_type node)); (js "title", VStr (n_title node));
        (js "position", VObj [(js "x", VNum (n_x node)); (js "y", VNum (n_y node))]); (js "width", VNum (n_width node));
        (js "height", VNum (n_height node)); (js "metadata", n_metadata node)].

Definition connection_value conn : jsval :=
  VObj [(js "id", VStr (k_id conn)); (js "fromNodeId", VStr (fromNodeId conn)); (js "toNodeId", VStr (toNodeId conn))].

Definition entry_value e : jsval :=
  VObj [(js "nodes", VArr (node_value <$> val (e_nodes e))); (js "connections", VArr (connection_value <$> val (e_connections e)));
        (js "chatSessions", val (chatSessions e)); (js "activeChatId", match activeChatId e with Some i => VStr i | None => VNull end);
        (js "backgroundMode", VStr (backgroundMode e)); (js "showImageInfo", VBool (showImageInfo e))].

(** [{ extra, history, lastHistory }] *)
Definition cleanup_data (extra : jsval) (h : History) : jsval :=
  VObj [(js "extra", extra);
        (js "history", VObj [(js "past", VArr (entry_value <$> past h)); (js "future", VArr (entry_value <$> future h))]);
        (js "lastHistory", match lastHistory h with Some l => entry_value l | None => VNull end)].

(** [cleanupCanvasFiles(extra)] *)
Definition cleanupCanvasFiles (extra : jsval) p : Page := with_cleanup (cleanup_data extra (history p)) p.

Definition used_extra (projectId : jstr) nodes (sessions : jsval) : jsval :=
  VObj [(js "projectId", VStr projectId); (js "nodes", VArr (node_value <$> nodes)); (js "chatSessions", sessions)].

(** * Handlers *)

Section handlers.
Context (type_title : jstr → jstr) (plugin_spec : jstr → Spec) (plugin_panel hides_panel : jstr → bool)
  (plugin_resource : CanvasNodeData → option Resource) (projectId : jstr).

(** ** Connections *)

Definition connectNodes (fresh : jstr) (current : Handle) (targetNodeId : jstr) p : Page :=
  if bool_decide (h_nodeId current = targetNodeId) then p
  else
    match normalizeConnection (h_nodeId current) targetNodeId (p_nodes p) (h_type current) with
    | None => p
    | Some (from, to) =>
        let exists_ := existsb (λ conn, bool_decide (fromNodeId conn = from) && bool_decide (toNodeId conn = to)) (p_connections p) in
        set_menu None (if exists_ then p else setConnections (λ cs, cs ++ [mkConnection fresh from to]) p)
    end.

(** [{ model, size, count }] for a configuration *)
Definition config_metadata (type : jstr) (effectiveConfig : jsval) : jsval :=
  let get k := prop effectiveConfig (js k) in
  if bool_decide (type = TConfig) then
    VObj [(js "model", or_else (get "imageModel"%string) (get "model"%string)); (js "size", get "size"%string);
          (js "count", VNum (getGenerationCount (string_of_val (or_else (get "canvasImageCount"%string) (get "count"%string)))))]
  else VUndef.

Definition createConnectedNode (fresh freshConnection type : jstr) (config : jsval) (pending : Handle * (num * num)) p : Page :=
  let '(handle, (x, y)) := pending in
  let newNode := createCanvasNode type_title plugin_spec fresh type x y (config_metadata type config) in
  match normalizeConnection (h_nodeId handle) (n_id newNode) (p_nodes p ++ [newNode]) (h_type handle) with
  | None => p
  | Some (from, to) =>
      let p := setConnections (λ cs, cs ++ [mkConnection freshConnection from to]) (setNodes (λ nodes, nodes ++ [newNode]) p) in
      let p := selectConnection None (select [n_id newNode] p) in
      let p := if bool_decide (type ∈ [TText; TAudio]) then p else set_marks (mark Dialog (Some (n_id newNode))) p in
      set_connecting None None p
  end.

Definition cancelPendingConnectionCreate p : Page := set_connecting None None p.

Definition handleConnectStart (nodeId : jstr) (h : handleType) p : Page :=
  selectConnection None (set_connecting (Some (mkHandle nodeId h)) (pendingConnectionCreate (ui p)) p).

(** The mouse is released over a node, near one, or at a place of the canvas. *)
Inductive Drop_target := OnNode (nodeId : jstr) | NearNode | OnCanvas (x y : num).

Definition release_connection (fresh : jstr) (target : Drop_target) p : Page :=
  match pendingConnectionCreate (ui p), connectingParams (ui p) with
  | None, Some current =>
      match target with
      | OnNode nodeId => let p := connectNodes fresh current nodeId p in set_connecting None (pendingConnectionCreate (ui p)) p
      | NearNode => set_connecting None None p
      | OnCanvas x y => set_connecting (Some current) (Some (current, (x, y))) p
      end
  | _, _ => p
  end.

Definition deleteConnection (connectionId : jstr) p : Page :=
  let p := setConnections (filter (λ conn, k_id conn ≠ connectionId)) p in
  let p := if bool_decide (selectedConnectionId (ui p) = Some connectionId) then selectConnection None p else p in
  match contextMenu (ui p) with
  | Some (ConnectionMenu c) => if bool_decide (c = connectionId) then set_menu None p else p
  | _ => p
  end.

Definition disconnectNodeReference (from to : jstr) p : Page :=
  setConnections (filter (λ conn, fromNodeId conn ≠ from ∨ toNodeId conn ≠ to)) p.

(** ** Picking a reference *)

Definition startNodeReferenceSelection (nodeId : jstr) p : Page :=
  set_marks (mark Dialog None) (selectConnection None (select [nodeId] (set_marks (mark ReferencePicker (Some nodeId)) p))).

Definition exitNodeReferenceSelection p : Page :=
  match marks (ui p) ReferencePicker with
  | None => p
  | Some i => set_marks (mark ReferencePicker None) (set_marks (mark Dialog (Some i)) (select [i] p))
  end.

(** The nodes that feed the picker's node already, with what is in their groups *)
Definition referenceConnectedNodeIds (picker : jstr) nodes connections : list jstr :=
  picker :: concat ((λ conn,
    if bool_decide (toNodeId conn = picker) then
      match find_node (fromNodeId conn) nodes with
      | Some node =>
          if is_type TGroup node then n_id node :: (n_id <$> getGroupResourceNodes plugin_resource (n_id node) nodes) else [n_id node]
      | None => []
      end
    else []) <$> connections).

Definition selectNodeReference (fresh from : jstr) p : Page :=
  match marks (ui p) ReferencePicker with
  | None => p
  | Some picker =>
      if has (referenceConnectedNodeIds picker (p_nodes p) (p_connections p)) from then p
      else
        match find_node from (p_nodes p) with
        | Some source =>
            if isCanvasReferenceNode plugin_resource source (p_nodes p)
            then setConnections (λ cs, cs ++ [mkConnection fresh from picker]) p else p
        | None => p
        end
  end.

(** ** Nodes *)

Definition wantsPanel (type : jstr) : bool :=
  if built_in type then negb (bool_decide (type ∈ [TText; TAudio; TGroup])) else plugin_panel type.

Definition createNode (fresh type : jstr) (x y : num) (config : jsval) p : Page :=
  let newNode := createCanvasNode type_title plugin_spec fresh type x y (config_metadata type config) in
  let p := selectConnection None (select [n_id newNode] (setNodes (λ nodes, nodes ++ [newNode]) p)) in
  if wantsPanel type then set_marks (mark Dialog (Some (n_id newNode))) p else p.

(** A node whose group is deleted has none. *)
Definition leave_group (ids : list jstr) node : CanvasNodeData :=
  match meta node (js "groupId") with
  | VStr g => if truthy g && has ids g then put_meta (js "groupId") VUndef node else node
  | _ => node
  end.

Definition remaining_nodes (ids : list jstr) nodes : list CanvasNodeData :=
  leave_group ids <$> filter (λ node, has ids (n_id node) = false) nodes.

Definition deleteNodes (ids : list jstr) p : Page :=
  if bool_decide (ids = []) then p
  else
    let kept := filter (λ node, has ids (n_id node) = false) (p_nodes p) in
    let p := setNodes (remaining_nodes ids) p in
    let p := setConnections (filter (λ conn, has ids (fromNodeId conn) || has ids (toNodeId conn) = false)) p in
    let p := selectConnection None (select [] p) in
    let p := set_marks (unmark [Hovered; Toolbar; Dialog; Info; Crop; MaskEdit; Angle; Preview; Running; ReferencePicker] ids) p in
    let p := set_expanded (filter (λ i, has ids i = false) (expandedBatchNodeIds (ui p))) p in
    let p := match contextMenu (ui p) with Some (NodeMenu i) => if has ids i then set_menu None p else p | _ => p end in
    cleanupCanvasFiles (used_extra projectId kept (val (chatSessions (doc p)))) p.

Definition deselectCanvas p : Page :=
  set_marks (λ f, mark Hovered None (mark Toolbar None (mark Dialog None f)))
    (set_menu None (selectConnection None (select [] (cancelPendingConnectionCreate p)))).

Definition clearCanvas p : Page :=
  let p := setConnections (λ _, []) (setNodes (λ _, []) p) in
  let p := set_marks (λ f, mark Info None (mark Crop None (mark MaskEdit None (mark Angle None (mark Preview None (mark Running None f)))))) p in
  cleanupCanvasFiles (used_extra projectId [] (VArr [])) (deselectCanvas p).

Definition thirty_six : num := num_of_Z 36.

Definition copy_of (fresh : jstr) node : CanvasNodeData :=
  mkNode fresh (n_type node) (n_title node ++ js " Copy") (num_add (n_x node) thirty_six) (num_add (n_y node) thirty_six)
    (n_width node) (n_height node) (n_metadata node).

Definition duplicateNode (fresh nodeId : jstr) p : Page :=
  match find_node nodeId (p_nodes p) with
  | None => p
  | Some source =>
      let p := selectConnection None (select [fresh] (setNodes (λ nodes, nodes ++ [copy_of fresh source]) p)) in
      if is_type TGroup source then p else set_marks (mark Dialog (Some fresh)) p
  end.

(** ** Copying *)

Definition copySelectedNodes p : Page :=
  let selected := selectedNodeIds (ui p) in
  if bool_decide (selected = []) then p
  else
    match filter (λ node, has selected (n_id node) = true) (p_nodes p) with
    | [] => p
    | copiedNodes =>
        with_clipboard (copiedNodes, filter (λ conn, has selected (fromNodeId conn) && has selected (toNodeId conn) = true) (p_connections p)) p
    end.

Definition copy_title (title : jstr) : jstr := if endsWith title (js " Copy") then title else title ++ js " Copy".

(** [idMap]: the new identifiers of the nodes, from the fresh ones *)
Definition idMap nodes (fresh : list jstr) : list (jstr * jstr) :=
  foldl (λ m x, omap.set m x.1 x.2) [] (zip (n_id <$> nodes) fresh).

Definition moved_copy (dx dy : num) (fresh : jstr) node : CanvasNodeData :=
  mkNode fresh (n_type node) (copy_title (n_title node)) (num_add (n_x node) dx) (num_add (n_y node) dy) (n_width node) (n_height node)
    (n_metadata node).

(** A copy is in the copy of its group. *)
Definition regroup (ids : list (jstr * jstr)) node : CanvasNodeData :=
  match meta node (js "groupId") with
  | VStr g =>
      if truthy g then put_meta (js "groupId") (match omap.get ids g with Some i => VStr i | None => VUndef end) node else node
  | _ => node
  end.

Definition copy_connection (ids : list (jstr * jstr)) (x : CanvasConnection * jstr) : option CanvasConnection :=
  match omap.get ids (fromNodeId x.1), omap.get ids (toNodeId x.1) with
  | Some from, Some to => if truthy from && truthy to then Some (mkConnection x.2 from to) else None
  | _, _ => None
  end.

Definition pasted_nodes nodes (fresh : list jstr) (cx cy : num) : list CanvasNodeData :=
  let b := nodeBounds nodes in
  let dx := num_sub cx (half (num_add (left b) (right b))) in
  let dy := num_sub cy (half (num_add (top b) (bottom b))) in
  regroup (idMap nodes fresh) <$> zip_with (moved_copy dx dy) fresh nodes.

Definition pasteCopiedNodes (fresh freshConnections : list jstr) (cx cy : num) p : Page :=
  match clipboard p with
  | Some ((_ :: _) as nodes, connections) =>
      let pastedNodes := pasted_nodes nodes fresh cx cy in
      let nextConnections := base.omap (copy_connection (idMap nodes fresh)) (zip connections freshConnections) in
      let p := setConnections (λ cs, cs ++ nextConnections) (setNodes (λ ns, ns ++ pastedNodes) p) in
      let p := set_menu None (selectConnection None (select (n_id <$> pastedNodes) p)) in
      set_marks (mark Dialog (match head pastedNodes with Some node => if is_type TGroup node then None else Some (n_id node) | None => None end)) p
  | _ => p
  end.

(** ** Selecting and dragging *)

(** [additive]: a modifier key is held *)
Definition next_selection (additive : bool) (nodeId : jstr) (selected : list jstr) : list jstr :=
  if additive then if has selected nodeId then filter (λ i, i ≠ nodeId) selected else selected ++ [nodeId]
  else if has selected nodeId then selected else [nodeId].

Definition selectNodeByEvent (additive : bool) (nodeId : jstr) p : Page :=
  let next := next_selection additive nodeId (selectedNodeIds (ui p)) in
  set_marks (mark Toolbar (if bool_decide (next = [nodeId]) then Some nodeId else None)) (select next p).

Definition handleNodeSelectCapture (additive : bool) (nodeId : jstr) p : Page :=
  selectNodeByEvent additive nodeId (selectConnection None (set_marks (mark Hovered None) (set_menu None p))).

(** What is selected, with what is in selected groups *)
Definition dragged (selected : list jstr) nodes node : bool :=
  has selected (n_id node)
  || existsb (λ group, has selected (n_id group) && is_type TGroup group && in_group (n_id group) node) nodes.

Definition handleNodeMouseDown p : Page :=
  let selected := selectedNodeIds (ui p) in
  let moved := filter (λ node, dragged selected (p_nodes p) node = true) (p_nodes p) in
  let initial := foldl (λ m node, omap.set m (n_id node) (n_x node, n_y node)) [] moved in
  with_history (with_paused true (history p)) (with_drag (Some (mkDrag false initial None)) p).

(** [{ ...node, position: { x: initial.x + dx, y: initial.y + dy } }] for what is dragged *)
Definition displace (initial : list (jstr * (num * num))) (dx dy : num) node : CanvasNodeData :=
  match omap.get initial (n_id node) with
  | Some (x, y) => with_position (num_add x dx) (num_add y dy) node
  | None => node
  end.

(** [far]: more than three pixels from the start *)
Definition handleDragMove (far : bool) (dx dy : num) p : Page :=
  match drag p with
  | None => p
  | Some d => with_drag (Some (mkDrag (hasMoved d || far) (initialSelectedNodes d) (Some (dx, dy)))) p
  end.

Definition dragFrame p : Page :=
  match drag p with
  | Some (mkDrag hm initial (Some (dx, dy))) => setNodes (λ nodes, displace initial dx dy <$> nodes) (with_drag (Some (mkDrag hm initial None)) p)
  | _ => p
  end.

(** The group of a node that was dropped outside of the group that takes them all *)
Definition regroup_dropped (movedIds : list jstr) nodes node : CanvasNodeData :=
  if moving movedIds node then
    let groupId := match findContainingGroupId node nodes with Some g => VStr g | None => VUndef end in
    if bool_decide (meta node (js "groupId") = groupId) then node else put_meta (js "groupId") groupId node
  else node.

Definition drop_nodes (initial : list (jstr * (num * num))) (dx dy : num) nodes : list CanvasNodeData :=
  let movedIds := initial.*1 in
  let moved := displace initial dx dy <$> nodes in
  match findGroupDropTarget movedIds moved with
  | Some targetGroup => snapNodesIntoGroup movedIds moved targetGroup
  | None => regroup_dropped movedIds moved <$> moved
  end.

(** [at_]: where the mouse is, [None] when the drag is cancelled *)
Definition finishNodeDrag (at_ : option (num * num)) p : Page :=
  match drag p with
  | None => p
  | Some d =>
      let initial := initialSelectedNodes d in
      let p := with_drag None (with_history (with_paused false (history p)) p) in
      let p :=
        match at_ with
        | Some (dx, dy) => if hasMoved d then setNodes (drop_nodes initial dx dy) p else p
        | None => p
        end in
      match initial with
      | [(clicked, _)] =>
          if hasMoved d || negb (truthy clicked) then p
          else
            match find_node clicked (p_nodes p) with
            | Some node =>
                if hides_panel (n_type node)
                then set_marks (λ f, mark Dialog (if bool_decide (f Dialog = Some clicked) then Some clicked else None) f) p
                else if is_type TGroup node then p else set_marks (mark Dialog (Some clicked)) p
            | None => set_marks (mark Dialog (Some clicked)) p
            end
      | _ => p
      end
  end.

(** ** Changing a node *)

Definition handleNodeResize (nodeId : jstr) (width height : num) (position : option (num * num)) p : Page :=
  update_node nodeId (λ node,
    let '(x, y) := default (n_x node, n_y node) position in
    mkNode (n_id node) (n_type node) (n_title node) x y width height (n_metadata node)) p.

(** [a || b] on numbers *)
Definition or_num (v : jsval) (n : num) : num := match v with VNum m => if num_truthy m then m else n | _ => n end.

Definition toggle_resize node : CanvasNodeData :=
  let freeResize := negb (truthy_val (meta node (js "freeResize"))) in
  let next := put_meta (js "freeResize") (VBool freeResize) node in
  if freeResize || negb (is_type TImage node) then next
  else
    let ratio := num_div (or_num (meta node (js "naturalWidth")) (n_width node))
      (or_num (meta node (js "naturalHeight")) (if num_truthy (n_height node) then n_height node else num_of_Z 1)) in
    let height := num_div (n_width node) ratio in
    mkNode (n_id next) (n_type next) (n_title next) (n_x node) (num_sub (num_add (n_y node) (half (n_height node))) (half height))
      (n_width next) height (n_metadata next).

Definition toggleNodeFreeResize (nodeId : jstr) p : Page := update_node nodeId toggle_resize p.

Definition change_content (content : jstr) node : CanvasNodeData :=
  let texts := map_items (λ text, if bool_decide (prop text (js "id") = meta node (js "primaryTextId"))
    then VObj (omap.set (fields text) (js "content") (VStr content)) else text) (meta node (js "texts")) in
  put_meta (js "texts") texts (put_meta (js "content") (VStr content) node).

Definition handleNodeContentChange (nodeId content : jstr) p : Page := update_node nodeId (change_content content) p.

Definition handleNodeTitleChange (nodeId title : jstr) p : Page :=
  update_node nodeId (λ node, mkNode (n_id node) (n_type node) title (n_x node) (n_y node) (n_width node) (n_height node) (n_metadata node)) p.

Definition handleNodePromptChange (nodeId prompt : jstr) p : Page := update_node nodeId (put_meta (js "prompt") (VStr prompt)) p.

Definition handleConfigNodeChange (nodeId : jstr) (patch : jsval) p : Page := update_node nodeId (applyNodeConfigPatch patch) p.

Definition handleFontSizeChange (nodeId : jstr) (fontSize : num) p : Page := update_node nodeId (put_meta (js "fontSize") (VNum fontSize)) p.

(** ** Variants *)

Definition toggleBatchExpanded (nodeId : jstr) p : Page :=
  let current := expandedBatchNodeIds (ui p) in
  set_expanded (if has current nodeId then filter (λ i, i ≠ nodeId) current else current ++ [nodeId]) p.

(** [items?.find((item) => item.id === id)] *)
Definition find_item (items : jsval) id : option jsval :=
  match items with VArr l => List.find (λ v, bool_decide (prop v (js "id") = VStr id)) l | _ => None end.

Definition num_of (v : jsval) : num := match v with VNum n => n | _ => NaN end.

Definition put_all (ks : list (jstr * jsval)) node : CanvasNodeData := foldl (λ node x, put_meta x.1 x.2 node) node ks.

Definition primary_image node (image : jsval) : CanvasNodeData :=
  let edge := num_max (n_width node) (n_height node) in
  let size := if truthy_val (meta node (js "freeResize")) then mkSize (n_width node) (n_height node)
    else fitNodeSize (num_of (prop image (js "naturalWidth"))) (num_of (prop image (js "naturalHeight"))) edge edge in
  resized size
    (put_all [(js "content", prop image (js "content")); (js "storageKey", prop image (js "storageKey"));
              (js "naturalWidth", prop image (js "naturalWidth")); (js "naturalHeight", prop image (js "naturalHeight"));
              (js "bytes", prop image (js "bytes")); (js "mimeType", prop image (js "mimeType"));
              (js "primaryImageId", prop image (js "id"))] node).

Definition set_primary (itemId : jstr) node : CanvasNodeData :=
  if is_type TText node then
    match find_item (meta node (js "texts")) itemId with
    | Some text =>
        if truthy_val (prop text (js "content"))
        then put_all [(js "content", prop text (js "content")); (js "primaryTextId", prop text (js "id"))] node else node
    | None => node
    end
  else
    match find_item (meta node (js "images")) itemId with
    | Some image => if truthy_val (prop image (js "content")) then primary_image node image else node
    | None => node
    end.

Definition setBatchPrimary (nodeId itemId : jstr) p : Page := update_node nodeId (set_primary itemId) p.

Definition image_copy (fresh : jstr) node (image : jsval) : CanvasNodeData :=
  let edge := num_max (n_width node) (n_height node) in
  let size := fitNodeSize (num_of (prop image (js "naturalWidth"))) (num_of (prop image (js "naturalHeight"))) edge edge in
  let from_image k := (js k, prop image (js k)) in
  let from_node k := (js k, meta node (js k)) in
  mkNode fresh TImage (n_title node) (num_add (num_add (n_x node) (num_mul (n_width node) two)) (num_of_Z 96))
    (num_sub (num_add (n_y node) (half (n_height node))) (half (z_height size))) (z_width size) (z_height size)
    (VObj ([from_image "content"%string; from_image "storageKey"%string; from_image "naturalWidth"%string; from_image "naturalHeight"%string;
            from_image "bytes"%string; from_image "mimeType"%string; (js "status", VStr (js "success")); from_node "prompt"%string;
            from_node "generationType"%string; from_node "model"%string; from_node "size"%string; from_node "quality"%string;
            from_node "background"%string; from_node "references"%string])).

Definition duplicateBatchImage (fresh imageId : jstr) node p : Page :=
  match find_item (meta node (js "images")) imageId with
  | Some image =>
      if truthy_val (prop image (js "content"))
      then set_marks (mark Dialog (Some fresh))
             (selectConnection None (select [fresh] (setNodes (λ nodes, nodes ++ [image_copy fresh node image]) p)))
      else p
  | None => p
  end.

Definition drop_image (imageId : jstr) node : CanvasNodeData :=
  let images := match meta node (js "images") with
    | VArr l => filter (λ v, prop v (js "id") ≠ VStr imageId) l | _ => [] end in
  let primary := if bool_decide (meta node (js "primaryImageId") = VStr imageId)
    then match images with v :: _ => prop v (js "id") | [] => VUndef end else meta node (js "primaryImageId") in
  put_all [(js "images", VArr images); (js "count", VNum (num_of_Z (Z.of_nat (length images)))); (js "primaryImageId", primary)] node.

Definition image_count node : nat := match meta node (js "images") with VArr l => length l | _ => 0 end.

Definition deleteBatchImage (nodeId imageId : jstr) p : Page :=
  let few := match find_node nodeId (p_nodes p) with Some node => (image_count node <=? 2)%nat | None => true end in
  let p := if few then set_expanded (filter (λ i, i ≠ nodeId) (expandedBatchNodeIds (ui p))) p else p in
  update_node nodeId (drop_image imageId) p.

(** ** Requests for generations *)

Definition startGenerationRequest (targetNodeId originId runningId : jstr) (controller_ : nat) p : Page :=
  let stopped := match omap.get (requests p) targetNodeId with
    | Some r => if (controller r =? controller_)%nat then [] else [controller r] | None => [] end in
  with_requests (omap.set (requests p) targetNodeId (mkRequest originId runningId controller_)) (aborted p ++ stopped) p.

Definition finishGenerationRequest (targetNodeId : jstr) (controller_ : nat) p : Page :=
  match omap.get (requests p) targetNodeId with
  | Some r => if (controller r =? controller_)%nat then with_requests (filter (λ x, x.1 ≠ targetNodeId) (requests p)) (aborted p) p else p
  | None => p
  end.

Definition runs (runningId : jstr) (x : jstr * Request) : bool := bool_decide (runningNodeId x.2 = runningId).

Definition stopGenerationByRunningId (canceled runningId : jstr) p : Page :=
  let stopped := filter (λ x, runs runningId x = true) (requests p) in
  let affected := concat ((λ x, [x.1; originNodeId x.2]) <$> stopped) in
  let p := with_requests (filter (λ x, runs runningId x = false) (requests p)) (aborted p ++ (controller <$> stopped.*2)) p in
  let p := set_marks (λ f, mark Running (if bool_decide (f Running = Some runningId) then None else f Running) f) p in
  match stopped with
  | [] => p
  | _ =>
      setNodes (λ nodes, (λ node, if has affected (n_id node) then interrupt (VStr (js "idle")) VUndef canceled node else node) <$> nodes) p
  end.
End handlers.

(** * Operations of plugins *)

Module AgentOps.

(** [Partial<CanvasNodeData>] *)
Record NodePatch := mkNodePatch {
  np_id : option jstr; np_type : option jstr; np_title : option jstr; np_position : option (num * num);
  np_width : option num; np_height : option num; np_metadata : jsval;
}.

(** [CanvasAgentOp]; an identifier that is left out is [[]] *)
Inductive Op :=
  | AddNode (id nodeType title : jstr) (position : option (num * num)) (x y width height : option num) (metadata : jsval)
  | UpdateNode (id : jstr) (patch : option NodePatch) (metadata : jsval)
  | DeleteNode (id : jstr) (ids : option (list jstr)) (nodeType : jstr)
  | DeleteConnections (id : jstr) (ids : option (list jstr)) (all : bool)
  | ConnectNodes (id from to : jstr)
  | SetViewport (viewport : jsval)
  | SelectNodes (ids : list jstr)
  | RunGeneration (nodeId : jstr).

Record Snapshot := mkSnapshot {
  s_nodes : list CanvasNodeData;
  s_connections : list CanvasConnection;
  s_selectedNodeIds : list jstr;
  s_viewport : jsval;
}.

Implicit Types (s : Snapshot) (op : Op) (ops : list Op).

Section ops.
(** What plugins register, and fresh identifiers for the operation at an index *)
Context (registered : jstr → bool) (spec : jstr → Spec) (fresh_node : jstr → nat → jstr) (fresh_connection : nat → jstr).

(** [index * 36] *)
Definition staggered (index : nat) : num := num_of_Z (36 * Z.of_nat index).

(** [a || b] *)
Definition or_text (a b : jstr) : jstr := if truthy a then a else b.
Definition or_number (a : option num) (b : num) : num := match a with Some n => if num_truthy n then n else b | None => b end.

Definition added_node (index : nat) (id nodeType title : jstr) (position : option (num * num)) (x y width height : option num)
    (metadata : jsval) : CanvasNodeData :=
  let type := if truthy nodeType && registered nodeType then nodeType else TText in
  let sp := spec type in
  let '(px, py) := default (default (staggered index) x, default (staggered index) y) position in
  mkNode (or_text id (fresh_node type index)) type (or_text title (p_title sp)) px py (or_number width (p_width sp))
    (or_number height (p_height sp)) (spread_fields (p_metadata sp) metadata).

Definition patched (patch : option NodePatch) (metadata : jsval) node : CanvasNodeData :=
  match patch with
  | None => with_metadata (spread_fields (n_metadata node) metadata) node
  | Some q =>
      let '(x, y) := default (n_x node, n_y node) (np_position q) in
      mkNode (default (n_id node) (np_id q)) (default (n_type node) (np_type q)) (default (n_title node) (np_title q)) x y
        (default (n_width node) (np_width q)) (default (n_height node) (np_height q))
        (spread_fields (spread_fields (n_metadata node) (np_metadata q)) metadata)
  end.

Definition deleted_ids (id : jstr) (ids : option (list jstr)) (nodeType : jstr) nodes : list jstr :=
  match ids with
  | Some l => l
  | None =>
      if truthy id then [id]
      else if truthy nodeType then n_id <$> filter (λ node, is_type nodeType node = true) nodes else []
  end.

Definition apply_op s (index : nat) op : Snapshot :=
  match op with
  | AddNode id nodeType title position x y width height metadata =>
      let node := added_node index id nodeType title position x y width height metadata in
      mkSnapshot (s_nodes s ++ [node]) (s_connections s) [n_id node] (s_viewport s)
  | UpdateNode id patch metadata =>
      if negb (truthy id) then s
      else mkSnapshot ((λ node, if bool_decide (n_id node = id) then patched patch metadata node else node) <$> s_nodes s)
             (s_connections s) (s_selectedNodeIds s) (s_viewport s)
  | DeleteNode id ids nodeType =>
      let gone := deleted_ids id ids nodeType (s_nodes s) in
      mkSnapshot (filter (λ node, has gone (n_id node) = false) (s_nodes s))
        (filter (λ conn, has gone (fromNodeId conn) || has gone (toNodeId conn) = false) (s_connections s))
        (filter (λ i, has gone i = false) (s_selectedNodeIds s)) (s_viewport s)
  | DeleteConnections id ids all =>
      let gone := match ids with Some l => l | None => if truthy id then [id] else [] end in
      mkSnapshot (s_nodes s) (if all then [] else filter (λ conn, has gone (k_id conn) = false) (s_connections s))
        (s_selectedNodeIds s) (s_viewport s)
  | ConnectNodes id from to =>
      if negb (truthy from) || negb (truthy to) then s
      else
        let exists_ := existsb (λ conn, bool_decide (fromNodeId conn = from) && bool_decide (toNodeId conn = to)) (s_connections s) in
        let hasNodes := has (n_id <$> s_nodes s) from && has (n_id <$> s_nodes s) to in
        if negb exists_ && hasNodes
        then mkSnapshot (s_nodes s) (s_connections s ++ [mkConnection (or_text id (fresh_connection index)) from to])
               (s_selectedNodeIds s) (s_viewport s)
        else s
  | SetViewport viewport =>
      if truthy_val viewport then mkSnapshot (s_nodes s) (s_connections s) (s_selectedNodeIds s) viewport else s
  | SelectNodes ids =>
      mkSnapshot (s_nodes s) (s_connections s) (filter (λ i, has (n_id <$> s_nodes s) i = true) ids) (s_viewport s)
  | RunGeneration _ => s
  end.

Fixpoint apply_from (index : nat) s ops : Snapshot :=
  match ops with [] => s | op :: ops => apply_from (S index) (apply_op s index op) ops end.

Definition applyCanvasAgentOps s ops : Snapshot := apply_from 0 s ops.
End ops.
End AgentOps.

(** * The page as a whole *)

(** The effect that loads a project: [restored] is what it read *)
Definition load (restored : Entry) : Page :=
  mkPage restored (mkUi [] None (λ _, None) None [] None None)
    (mkHistory [] [] (Some restored) false [] false false false false) None None [] [] restored []
    (S (Nat.max (ref (e_nodes restored)) (Nat.max (ref (e_connections restored)) (ref (chatSessions restored))))).

Inductive event :=
  | CreateNode (fresh type : jstr) (x y : num) (config : jsval)
  | DeleteNodes (ids : list jstr)
  | ClearCanvas
  | DuplicateNode (fresh nodeId : jstr)
  | Copy
  | Paste (fresh freshConnections : list jstr) (cx cy : num)
  | ConnectStart (nodeId : jstr) (h : handleType)
  | ConnectEnd (fresh : jstr) (target : Drop_target)
  | CreateConnected (fresh freshConnection type : jstr) (config : jsval)
  | DeleteConnection (connectionId : jstr)
  | Disconnect (from to : jstr)
  | StartPicking (nodeId : jstr)
  | ExitPicking
  | PickReference (fresh from : jstr)
  | Deselect
  | SelectAll
  | SelectNode (additive : bool) (nodeId : jstr)
  | StartDrag (additive : bool) (nodeId : jstr)
  | DragMove (far : bool) (dx dy : num)
  | DragFrame
  | FinishDrag (at_ : option (num * num))
  | Resize (nodeId : jstr) (width height : num) (position : option (num * num))
  | ToggleResize (nodeId : jstr)
  | ChangeContent (nodeId content : jstr)
  | ChangeTitle (nodeId title : jstr)
  | ChangePrompt (nodeId prompt : jstr)
  | ChangeConfig (nodeId : jstr) (patch : jsval)
  | ChangeFontSize (nodeId : jstr) (size : num)
  | ToggleExpanded (nodeId : jstr)
  | SetPrimary (nodeId itemId : jstr)
  | DuplicateImage (fresh nodeId imageId : jstr)
  | DeleteImage (nodeId imageId : jstr)
  | SetBackground (mode : jstr)
  | ShowInfo (b : bool)
  | StartRequest (target origin running : jstr) (controller_ : nat)
  | FinishRequest (target : jstr) (controller_ : nat)
  | StopRequests (canceled running : jstr)
  | Undo
  | Redo
  | CommitTimer
  | ApplyTimeout.

Section page.
Context (type_title : jstr → jstr) (plugin_spec : jstr → Spec) (plugin_panel hides_panel : jstr → bool)
  (plugin_resource : CanvasNodeData → option Resource) (projectId : jstr).

Definition handle (ev : event) p : Page :=
  match ev with
  | CreateNode fresh type x y config => createNode type_title plugin_spec plugin_panel fresh type x y config p
  | DeleteNodes ids => deleteNodes projectId ids p
  | ClearCanvas => clearCanvas projectId p
  | DuplicateNode fresh nodeId => duplicateNode fresh nodeId p
  | Copy => copySelectedNodes p
  | Paste fresh freshConnections cx cy => pasteCopiedNodes fresh freshConnections cx cy p
  | ConnectStart nodeId h => handleConnectStart nodeId h p
  | ConnectEnd fresh target => release_connection fresh target p
  | CreateConnected fresh freshConnection type config =>
      match pendingConnectionCreate (ui p) with
      | Some pending => createConnectedNode type_title plugin_spec fresh freshConnection type config pending p
      | None => p
      end
  | DeleteConnection c => deleteConnection c p
  | Disconnect from to => disconnectNodeReference from to p
  | StartPicking nodeId => startNodeReferenceSelection nodeId p
  | ExitPicking => exitNodeReferenceSelection p
  | PickReference fresh from => selectNodeReference plugin_resource fresh from p
  | Deselect => deselectCanvas p
  | SelectAll => set_menu None (selectConnection None (select (n_id <$> p_nodes p) p))
  | SelectNode additive nodeId => handleNodeSelectCapture additive nodeId p
  | StartDrag additive nodeId => handleNodeMouseDown (handleNodeSelectCapture additive nodeId p)
  | DragMove far dx dy => handleDragMove far dx dy p
  | DragFrame => dragFrame p
  | FinishDrag at_ => finishNodeDrag hides_panel at_ p
  | Resize nodeId width height position => handleNodeResize nodeId width height position p
  | ToggleResize nodeId => toggleNodeFreeResize nodeId p
  | ChangeContent nodeId content => handleNodeContentChange nodeId content p
  | ChangeTitle nodeId title => handleNodeTitleChange nodeId title p
  | ChangePrompt nodeId prompt => handleNodePromptChange nodeId prompt p
  | ChangeConfig nodeId patch => handleConfigNodeChange nodeId patch p
  | ChangeFontSize nodeId size => handleFontSizeChange nodeId size p
  | ToggleExpanded nodeId => toggleBatchExpanded nodeId p
  | SetPrimary nodeId itemId => setBatchPrimary nodeId itemId p
  | DuplicateImage fresh nodeId imageId =>
      match find_node nodeId (p_nodes p) with Some node => duplicateBatchImage fresh imageId node p | None => p end
  | DeleteImage nodeId imageId => deleteBatchImage nodeId imageId p
  | SetBackground mode => setBackgroundMode mode p
  | ShowInfo b => setShowImageInfo b p
  | StartRequest target origin running c => startGenerationRequest target origin running c p
  | FinishRequest target c => finishGenerationRequest target c p
  | StopRequests canceled running => stopGenerationByRunningId canceled running p
  | Undo => undoCanvas p
  | Redo => redoCanvas p
  | CommitTimer => commit p
  | ApplyTimeout => applied p
  end.

(** An event and the render after it *)
Definition step (ev : event) p : Page := render p (handle ev p).

Definition run (evs : list event) p : Page := foldl (λ p ev, step ev p) p evs.
End page.
