(* ===== verification/CanvasHistory.v ===== *)
(** The history of the page of a canvas refines a list with a place in it, as long as
    its timers run between the actions of the user. *)

From Stdlib Require Import ZArith NArith Lia.
From stdpp Require Import base list.
From S2P Require Import Prelude JsString JsNumber JsValue CanvasGraph CanvasEditor.

(** * The abstract history *)

Record Zipper := mkZipper { z_past : list Entry; z_now : Entry; z_future : list Entry }.

(** At most fifty steps are kept. *)
Definition z_edit (e : Entry) (z : Zipper) : Zipper := mkZipper (last_n 50 (z_past z ++ [z_now z])) e [].
Definition z_undo (z : Zipper) : Zipper :=
  match pop (z_past z) with Some (rest, e) => mkZipper rest e (z_future z ++ [z_now z]) | None => z end.
Definition z_redo (z : Zipper) : Zipper :=
  match pop (z_future z) with Some (rest, e) => mkZipper (z_past z ++ [z_now z]) e rest | None => z end.

Lemma pop_snoc {A} (l : list A) x : pop (l ++ [x]) = Some (l, x).
Proof. unfold pop. by rewrite reverse_snoc, reverse_involutive. Qed.

Lemma pop_Some {A} (l rest : list A) x : pop l = Some (rest, x) → l = rest ++ [x].
Proof.
  unfold pop. intros H. destruct (reverse l) as [|y l'] eqn:E; [done|]. injection H as <- <-.
  rewrite <- (reverse_involutive l), E. by rewrite reverse_cons.
Qed.

Lemma pop_None {A} (l : list A) : pop l = None → l = [].
Proof.
  unfold pop. destruct (reverse l) as [|y l'] eqn:E; [|done]. intros _. by rewrite <- (reverse_involutive l), E.
Qed.

Lemma last_n_snoc {A} (n : nat) (l : list A) x : last_n n l ++ [x] = last_n (S n) (l ++ [x]).
Proof.
  unfold last_n. rewrite length_app. cbn [length]. replace (length l + 1 - S n) with (length l - n) by lia.
  rewrite drop_app_le by lia. done.
Qed.

Lemma length_last_n {A} (n : nat) (l : list A) : length (last_n n l) ≤ n.
Proof. unfold last_n. rewrite length_drop. lia. Qed.

Lemma z_redo_undo z : z_past z ≠ [] → z_redo (z_undo z) = z.
Proof.
  intros Hz. unfold z_undo. destruct (pop (z_past z)) as [[rest e]|] eqn:E; [|by apply pop_None in E].
  apply pop_Some in E. unfold z_redo. cbn [z_past z_now z_future]. rewrite pop_snoc, <- E. by destruct z.
Qed.

(** * The page between actions *)

Section history.
Context (type_title : jstr → jstr) (plugin_spec : jstr → Spec) (plugin_panel hides_panel : jstr → bool)
  (plugin_resource : CanvasNodeData → option Resource) (projectId : jstr).
Implicit Types (p : Page) (e : Entry) (ev : event).

Abbreviation handle := (handle type_title plugin_spec plugin_panel hides_panel plugin_resource projectId).
Abbreviation step := (step type_title plugin_spec plugin_panel hides_panel plugin_resource projectId).
Abbreviation run := (run type_title plugin_spec plugin_panel hides_panel plugin_resource projectId).

(** Events that are neither steps in the history nor parts of a drag *)
Definition plain_event ev : bool :=
  match ev with
  | Undo | Redo | CommitTimer | ApplyTimeout | StartDrag _ _ | DragMove _ _ _ | DragFrame | FinishDrag _ => false
  | _ => true
  end.

(** What such an event does to the page, by the setters it calls *)
Inductive edits (p : Page) : Page → Prop :=
  | edits_refl : edits p p
  | edits_nodes f q : edits p q → edits p (setNodes f q)
  | edits_connections f q : edits p q → edits p (setConnections f q)
  | edits_background mode q : edits p q → edits p (setBackgroundMode mode q)
  | edits_info b q : edits p q → edits p (setShowImageInfo b q)
  | edits_ui u q : edits p q → edits p (with_ui u q)
  | edits_clipboard c q : edits p q → edits p (with_clipboard c q)
  | edits_requests r a q : edits p q → edits p (with_requests r a q)
  | edits_cleanup v q : edits p q → edits p (with_cleanup v q).

Ltac editing := cbv zeta; repeat match goal with
  | |- edits ?p ?p => apply edits_refl
  | H : edits ?p ?q |- edits ?p ?q => exact H
  | |- edits _ (setNodes _ _) => apply edits_nodes
  | |- edits _ (update_node _ _ _) => apply edits_nodes
  | |- edits _ (setConnections _ _) => apply edits_connections
  | |- edits _ (setBackgroundMode _ _) => apply edits_background
  | |- edits _ (setShowImageInfo _ _) => apply edits_info
  | |- edits _ (select _ _) => apply edits_ui
  | |- edits _ (selectConnection _ _) => apply edits_ui
  | |- edits _ (set_marks _ _) => apply edits_ui
  | |- edits _ (set_menu _ _) => apply edits_ui
  | |- edits _ (set_expanded _ _) => apply edits_ui
  | |- edits _ (set_connecting _ _ _) => apply edits_ui
  | |- edits _ (cleanupCanvasFiles _ _) => apply edits_cleanup
  | |- edits _ (with_clipboard _ _) => apply edits_clipboard
  | |- edits _ (with_requests _ _ _) => apply edits_requests
  | |- edits _ (match ?x with _ => _ end) => destruct x
  end.

Lemma connect_edits fresh h target p q : edits p q → edits p (connectNodes fresh h target q).
Proof. intros. unfold connectNodes. editing. Qed.

Lemma deselect_edits p q : edits p q → edits p (deselectCanvas q).
Proof. intros. unfold deselectCanvas, cancelPendingConnectionCreate. editing. Qed.

Lemma plain_edits ev p : plain_event ev = true → edits p (handle ev p).
Proof.
  destruct ev; intros H; try done; cbn [CanvasEditor.handle];
  unfold createNode, deleteNodes, clearCanvas, duplicateNode, copySelectedNodes, pasteCopiedNodes, handleConnectStart,
    createConnectedNode, deleteConnection, disconnectNodeReference, startNodeReferenceSelection, exitNodeReferenceSelection,
    selectNodeReference, handleNodeSelectCapture, selectNodeByEvent, handleNodeResize, toggleNodeFreeResize,
    handleNodeContentChange, handleNodeTitleChange, handleNodePromptChange, handleConfigNodeChange, handleFontSizeChange,
    toggleBatchExpanded, setBatchPrimary, duplicateBatchImage, deleteBatchImage, startGenerationRequest, finishGenerationRequest,
    stopGenerationByRunningId, release_connection;
  repeat first [progress editing | apply deselect_edits | apply connect_edits].
Qed.

(** Identities of a document that were given out before [n] *)
Definition below (n : nat) e : Prop := ref (e_nodes e) < n ∧ ref (e_connections e) < n ∧ ref (chatSessions e) < n.

Lemma below_le n m e : n ≤ m → below n e → below m e.
Proof. unfold below. lia. Qed.

(** A part of the document is as it was or is new. *)
Definition kept_or_new {A} (n : nat) (a b : Ref A) : Prop := b = a ∨ n ≤ ref b.

Record edited p q : Prop := {
  ed_history : history q = history p;
  ed_drag : drag q = drag p;
  ed_saved : saved q = saved p;
  ed_next : next_ref p ≤ next_ref q;
  ed_below : below (next_ref p) (doc p) → below (next_ref q) (doc q);
  ed_nodes : kept_or_new (next_ref p) (e_nodes (doc p)) (e_nodes (doc q));
  ed_connections : kept_or_new (next_ref p) (e_connections (doc p)) (e_connections (doc q));
  ed_chat : chatSessions (doc q) = chatSessions (doc p);
  ed_active : activeChatId (doc q) = activeChatId (doc p);
}.

Lemma edits_edited p q : edits p q → edited p q.
Proof.
  induction 1 as [|f q _ [? ? ? ? ? ? ? ? ?]|f q _ [? ? ? ? ? ? ? ? ?]|m q _ [? ? ? ? ? ? ? ? ?]|b q _ [? ? ? ? ? ? ? ? ?]|u q _ []
    |c q _ []|r a q _ []|v q _ []]; constructor; try done; try (by left); try (by right); cbn; try lia; unfold below in *; cbn in *; lia.
Qed.

Lemma same_entry_refl e : same_entry e e = true.
Proof. unfold same_entry. rewrite !Nat.eqb_refl, !bool_decide_eq_true_2 by done. by destruct (showImageInfo e). Qed.

Lemma same_entry_true a b : same_entry a b = true →
  ref (e_nodes a) = ref (e_nodes b) ∧ ref (e_connections a) = ref (e_connections b) ∧ ref (chatSessions a) = ref (chatSessions b)
  ∧ activeChatId a = activeChatId b ∧ backgroundMode a = backgroundMode b ∧ showImageInfo a = showImageInfo b.
Proof.
  unfold same_entry. rewrite !andb_true_iff, !Nat.eqb_eq, !bool_decide_eq_true, eqb_true_iff. tauto.
Qed.

(** What compares as unchanged is unchanged. *)
Lemma unchanged p q : edited p q → below (next_ref p) (doc p) → same_entry (doc p) (doc q) = true → doc q = doc p.
Proof.
  intros [_ _ _ _ _ Hn Hc Hch Ha] (B1 & B2 & B3) (E1 & E2 & E3 & E4 & E5 & E6)%same_entry_true.
  unfold kept_or_new in *. destruct (doc p), (doc q). cbn in *. f_equal; try congruence; [destruct Hn; [done|lia]|destruct Hc; [done|lia]].
Qed.

(** No timer runs and the history has seen the document. *)
Record calm p : Prop := {
  ca_timer : commitTimer (history p) = false;
  ca_timeouts : applyTimeouts (history p) = [];
  ca_applying : applyingHistory (history p) = false;
  ca_paused : historyPaused (history p) = false;
  ca_last : lastHistory (history p) = Some (doc p);
  ca_drag : drag p = None;
  ca_saved : same_entry (saved p) (doc p) = true;
  ca_refs : Forall (below (next_ref p)) (doc p :: past (history p) ++ future (history p));
}.

Definition zipper p : Zipper := mkZipper (past (history p)) (doc p) (future (history p)).

(** An action of the user, after which the timers run *)
Definition perform ev p : Page := run [ev; CommitTimer; ApplyTimeout] p.

Lemma quiet_step ev p : doc (handle ev p) = doc p → step ev p = handle ev p.
Proof. intros E. unfold CanvasEditor.step, render. by rewrite E, same_entry_refl. Qed.

Lemma commit_step p : step CommitTimer p = commit p.
Proof. apply quiet_step. cbn. unfold commit. destruct (negb _); [done|]. by destruct (lastHistory _). Qed.

Lemma applied_step p : step ApplyTimeout p = applied p.
Proof. apply quiet_step. cbn. unfold applied. by destruct (applyTimeouts _). Qed.

Lemma perform_eq ev p : perform ev p = applied (commit (step ev p)).
Proof. unfold perform, CanvasEditor.run. cbn [foldl]. by rewrite commit_step, applied_step. Qed.

Lemma calm_commit p : calm p → commit p = p.
Proof. intros [H _ _ _ _ _ _]. unfold commit. by rewrite H. Qed.

Lemma idle_timers p : commitTimer (history p) = false → applyTimeouts (history p) = [] → applied (commit p) = p.
Proof. intros H1 H2. unfold commit. rewrite H1. cbn. unfold applied. by rewrite H2. Qed.

(** ** Edits *)

Lemma perform_edit ev p :
  plain_event ev = true → calm p →
  calm (perform ev p)
  ∧ zipper (perform ev p) = (if same_entry (doc p) (doc (handle ev p)) then zipper p else z_edit (doc (handle ev p)) (zipper p)).
Proof.
  intros Hev Hc. pose proof (edits_edited _ _ (plain_edits ev p Hev)) as He. pose proof Hc as [Ht Hto Ha Hpa Hl Hd Hs Hr].
  destruct He as [Eh Ed Es En Eb] eqn:HE. clear HE. pose proof (Forall_inv Hr) as Hb. rewrite perform_eq. unfold CanvasEditor.step, render.
  destruct (same_entry (doc p) (doc (handle ev p))) eqn:E.
  - assert (doc (handle ev p) = doc p) as Edoc by (by apply unchanged).
    rewrite idle_timers by (by rewrite Eh). split.
    + constructor; rewrite ?Eh, ?Edoc, ?Ed, ?Es; try done. eapply Forall_impl; [exact Hr|]. intros e. by apply below_le.
    + unfold zipper. by rewrite Eh, Edoc.
  - unfold record_history. rewrite Eh. cbn [applyingHistory historyPaused with_timer lastHistory]. rewrite Ha, Hpa, Hl. cbn [orb].
    rewrite E. unfold save. cbn [history with_history historyPaused with_timer]. rewrite Hpa.
    unfold commit. cbn. rewrite Hl. cbn. unfold applied. cbn. rewrite Hto. split.
    + constructor; cbn; try done; [by rewrite Ed|apply same_entry_refl|]. apply Forall_cons. split; [by apply Eb|]. rewrite app_nil_r.
      apply Forall_app. split.
      * unfold last_n. apply Forall_drop. apply Forall_inv_tail in Hr. apply Forall_app in Hr as [Hr _]. eapply Forall_impl; [exact Hr|].
        intros e. by apply below_le.
      * apply Forall_singleton. by eapply below_le.
    + unfold zipper, z_edit. cbn. f_equal. apply (last_n_snoc 49).
Qed.

(** ** Steps in the history *)

(** The page after an entry was taken out of the history *)
Definition at_entry e (ps fs : list Entry) (sv : Entry) p : Page :=
  with_history (mkHistory ps fs (Some e) false [] false false (negb (bool_decide (ps = []))) (negb (bool_decide (fs = []))))
    (with_saved sv (set_menu None (selectConnection None (select [] (with_doc e (next_ref p) p))))).

Lemma apply_settles e ps fs p :
  calm p →
  applied (commit (render p (applyHistory e (with_history (with_past_future ps fs (history p)) p))))
  = at_entry e ps fs (if same_entry (doc p) e then saved p else e) p.
Proof.
  intros [Ht Hto Ha Hpa Hl Hd Hs Hr]. unfold applyHistory, render.
  cbn [doc set_menu with_ui selectConnection select with_doc history with_history with_past_future applyTimeouts]. rewrite Hto.
  destruct (same_entry (doc p) e); unfold commit, save, record_history, applied; cbn; rewrite ?Hpa; cbn; unfold at_entry; cbn; rewrite ?Hpa; done.
Qed.

Lemma same_entry_trans a b c : same_entry a b = true → same_entry b c = true → same_entry a c = true.
Proof.
  intros (E1 & E2 & E3 & E4 & E5 & E6)%same_entry_true (F1 & F2 & F3 & F4 & F5 & F6)%same_entry_true. unfold same_entry.
  rewrite !andb_true_iff, !Nat.eqb_eq, !bool_decide_eq_true, eqb_true_iff. repeat split; congruence.
Qed.

Lemma step_history e ps fs p :
  calm p → Forall (below (next_ref p)) (e :: ps ++ fs) →
  let q := applied (commit (render p (applyHistory e (with_history (with_past_future ps fs (history p)) p)))) in
  calm q ∧ zipper q = mkZipper ps e fs.
Proof.
  intros Hc Hb q. subst q. rewrite apply_settles by done. destruct Hc as [Ht Hto Ha Hpa Hl Hd Hs Hr]. split; [|done].
  constructor; try done. cbn. destruct (same_entry (doc p) e) eqn:E; [by eapply same_entry_trans|apply same_entry_refl].
Qed.

Lemma perform_undo p : calm p → calm (perform Undo p) ∧ zipper (perform Undo p) = z_undo (zipper p).
Proof.
  intros Hc. rewrite perform_eq. unfold CanvasEditor.step. cbn [CanvasEditor.handle]. unfold undoCanvas, z_undo. cbn [z_past zipper].
  destruct (pop (past (history p))) as [[rest e]|] eqn:E.
  - rewrite (ca_last _ Hc). apply step_history; [done|]. apply pop_Some in E. pose proof (ca_refs _ Hc) as Hr. rewrite E in Hr.
    rewrite !Forall_cons, !Forall_app, !Forall_singleton in *. tauto.
  - unfold render. rewrite same_entry_refl, idle_timers by apply Hc. done.
Qed.

Lemma perform_redo p : calm p → calm (perform Redo p) ∧ zipper (perform Redo p) = z_redo (zipper p).
Proof.
  intros Hc. rewrite perform_eq. unfold CanvasEditor.step. cbn [CanvasEditor.handle]. unfold redoCanvas, z_redo. cbn [z_future zipper].
  destruct (pop (future (history p))) as [[rest e]|] eqn:E.
  - rewrite (ca_last _ Hc). apply step_history; [done|]. apply pop_Some in E. pose proof (ca_refs _ Hc) as Hr. rewrite E in Hr.
    rewrite !Forall_cons, !Forall_app, !Forall_singleton in *. tauto.
  - unfold render. rewrite same_entry_refl, idle_timers by apply Hc. done.
Qed.

Lemma load_calm e : calm (load e).
Proof.
  constructor; try done; cbn; [apply same_entry_refl|]. apply Forall_singleton. unfold below. cbn. lia.
Qed.

(** ** Drags *)

(** What happens while a node is dragged *)
Definition drag_event ev : bool := match ev with DragMove _ _ _ | DragFrame => true | _ => false end.

(** The mouse was more than three pixels away from the start. *)
Definition far_move ev : bool := match ev with DragMove far _ _ => far | _ => false end.

Definition is_frame ev : bool := match ev with DragFrame => true | _ => false end.

(** A drag that ends with the mouse released at [at_], after which the timers run *)
Definition perform_drag (additive : bool) (nodeId : jstr) (moves : list event) (at_ : num * num) p : Page :=
  run (StartDrag additive nodeId :: moves ++ [FinishDrag (Some at_); CommitTimer; ApplyTimeout]) p.

(** A page on which a drag is under way that began on [p]; [far]: the mouse was far from
    the start; [drawn]: a frame has moved the nodes *)
Record dragging (far drawn : bool) p q : Prop := {
  dr_drag : ∃ d, drag q = Some d ∧ hasMoved d = far;
  dr_history : history q = with_paused true (history p);
  dr_saved : saved q = saved p;
  dr_next : next_ref p ≤ next_ref q;
  dr_below : below (next_ref q) (doc q);
  dr_still : drawn = false → doc q = doc p;
}.

(** New nodes have an identity of their own. *)
Lemma set_nodes_differ f e p : below (next_ref p) e → same_entry e (doc (setNodes f p)) = false.
Proof. intros (H & _). unfold same_entry. cbn. rewrite (proj2 (Nat.eqb_neq _ _)); [done|lia]. Qed.

Lemma start_dragging additive nodeId p : calm p → dragging false false p (step (StartDrag additive nodeId) p).
Proof.
  intros Hc. rewrite quiet_step by done. pose proof (Forall_inv (ca_refs _ Hc)) as Hb. constructor; try done. by eexists.
Qed.

Lemma paused_step ev p : historyPaused (history p) = true → commitTimer (history p) = false →
  history (handle ev p) = history p → step ev p = handle ev p.
Proof.
  intros Hp Ht E. unfold CanvasEditor.step, render. destruct (same_entry _ _); [done|]. unfold save, record_history. rewrite E.
  cbn [historyPaused with_timer applyingHistory history with_history]. rewrite Hp, orb_true_r. cbn [history with_history historyPaused with_timer].
  rewrite Hp. destruct (handle ev p) as [? ? h]. cbn in *. subst h. destruct (history p). cbn in *. by subst.
Qed.

Lemma dragging_on far drawn p q ev :
  calm p → drag_event ev = true → dragging far drawn p q → dragging (far || far_move ev) (drawn || is_frame ev) p (step ev q).
Proof.
  intros Hc Hev [([hm initial fr] & Hd & Hf) Hh Hs Hn Hb Hst]. cbn in Hf.
  rewrite paused_step; [|by rewrite Hh|rewrite Hh; apply (ca_timer _ Hc)|].
  2:{ destruct ev; try done; cbn [CanvasEditor.handle]; unfold handleDragMove, dragFrame; rewrite Hd; [done|]. by destruct fr as [[]|]. }
  destruct ev; try done;
    cbn [CanvasEditor.handle far_move is_frame]; unfold handleDragMove, dragFrame; rewrite Hd, ?orb_false_r, ?orb_true_r.
  - constructor; try done. eexists. split; [done|]. cbn. by rewrite Hf.
  - destruct fr as [[dx dy]|]; constructor; try done; [by eexists|cbn; lia|unfold below in *; cbn in *; lia|by eexists].
Qed.

Lemma dragging_all far drawn p q moves :
  calm p → forallb drag_event moves = true → dragging far drawn p q →
  dragging (far || existsb far_move moves) (drawn || existsb is_frame moves) p (run moves q).
Proof.
  intros Hc. revert far drawn q. induction moves as [|ev moves IH]; intros far drawn q Hm Hq; [by rewrite !orb_false_r|].
  cbn in Hm |- *. apply andb_true_iff in Hm as [Hev Hm]. rewrite !orb_assoc. by apply IH, dragging_on.
Qed.

(** How a drag ends: at most the nodes and the marks of the interface change. *)
Lemma finish_eq at_ p d :
  drag p = Some d →
  let q := with_drag None (with_history (with_paused false (history p)) p) in
  ∃ u, handle (FinishDrag (Some at_)) p
       = with_ui u (if hasMoved d then setNodes (drop_nodes (initialSelectedNodes d) at_.1 at_.2) q else q).
Proof.
  intros Hd q. cbn [CanvasEditor.handle]. unfold finishNodeDrag. rewrite Hd. destruct at_ as [dx dy]. cbn [fst snd]. fold q.
  set (r := if hasMoved d then _ else _).
  assert (∃ u, r = with_ui u r) as Hr by (exists (ui r); by destruct r).
  destruct (initialSelectedNodes d) as [|[clicked ?] [|]]; [done| |done].
  destruct (_ || _); [done|]. destruct (find_node clicked (p_nodes r)); [|by eexists].
  destruct (hides_panel _); [by eexists|]. destruct (is_type _ _); [done|by eexists].
Qed.

(** A drag over more than three pixels is one edit; a click is none. *)
Lemma drag_settles additive nodeId moves at_ p :
  calm p → forallb drag_event moves = true → existsb far_move moves = true ∨ existsb is_frame moves = false →
  let q := perform_drag additive nodeId moves at_ p in
  calm q ∧ zipper q = if existsb far_move moves then z_edit (doc q) (zipper p) else zipper p.
Proof.
  intros Hc Hm Hor. unfold perform_drag, CanvasEditor.run. cbn [foldl]. rewrite foldl_app. cbn [foldl]. rewrite commit_step, applied_step.
  pose proof (dragging_all _ _ _ _ moves Hc Hm (start_dragging additive nodeId p Hc)) as Hdr. unfold CanvasEditor.run in Hdr.
  set (q0 := foldl _ _ moves) in *. cbn [orb] in Hdr. destruct Hdr as [(d & Hd & Hfar) Hh Hs Hn Hb Hst].
  destruct Hc as [Ht Hto Ha Hpa Hl Hdn Hsv Hr]. destruct (finish_eq at_ q0 d Hd) as [u Hu]. unfold CanvasEditor.step. rewrite Hu, Hfar.
  pose proof (Forall_inv Hr) as Hbp. pose proof (below_le _ _ _ Hn Hbp) as Hbq.
  assert (with_paused false (history q0) = history p) as Hh' by (rewrite Hh; destruct (history p); cbn in *; by subst).
  destruct (existsb far_move moves).
  - unfold render. cbn [doc with_ui]. rewrite set_nodes_differ by exact Hb.
    unfold record_history. cbn [history with_ui setNodes with_doc with_drag with_history]. rewrite Hh'.
    cbn [applyingHistory historyPaused with_timer lastHistory]. rewrite Ha, Hpa, Hl. cbn [orb doc with_ui].
    rewrite set_nodes_differ by exact Hbq. unfold save. cbn [history with_history historyPaused with_timer]. rewrite Hpa.
    unfold commit. cbn. rewrite Hl. cbn. unfold applied. cbn. rewrite Hto. split.
    + constructor; cbn; try done; [apply same_entry_refl|]. apply Forall_cons. split; [unfold below in *; cbn; lia|]. rewrite app_nil_r.
      apply Forall_app. split.
      * unfold last_n. apply Forall_drop. apply Forall_inv_tail in Hr. apply Forall_app in Hr as [Hr _]. eapply Forall_impl; [exact Hr|].
        intros e. apply below_le. lia.
      * apply Forall_singleton. eapply below_le; [|exact Hbq]. lia.
    + unfold zipper, z_edit. cbn. f_equal. apply (last_n_snoc 49).
  - destruct Hor as [|Hor]; [done|]. specialize (Hst Hor). unfold render. cbn [doc with_ui with_drag with_history]. rewrite same_entry_refl.
    rewrite idle_timers; [|cbn [history with_ui with_drag with_history]; by rewrite Hh'..].
    split; [|unfold zipper; cbn [history doc with_ui with_drag with_history]; by rewrite Hh', Hst].
    constructor; cbn [history doc drag saved next_ref with_ui with_drag with_history]; rewrite ?Hh', ?Hst, ?Hs; try done.
    eapply Forall_impl; [exact Hr|]. intros e. by apply below_le.
Qed.

(** Pages that are reached by actions after each of which the timers ran; a drag is one
    action, which ends with the mouse released, and when it has moved nodes at all the
    mouse was more than three pixels from the start. *)
Inductive settled : Page → Prop :=
  | settled_load e : settled (load e)
  | settled_edit ev p : settled p → plain_event ev = true → settled (perform ev p)
  | settled_drag additive nodeId moves at_ p :
      settled p → forallb drag_event moves = true → existsb far_move moves = true ∨ existsb is_frame moves = false →
      settled (perform_drag additive nodeId moves at_ p)
  | settled_undo p : settled p → settled (perform Undo p)
  | settled_redo p : settled p → settled (perform Redo p).

Lemma settled_calm p : settled p → calm p.
Proof.
  induction 1 as [e|ev p _ IH Hev|additive nodeId moves at_ p _ IH Hm Hor|p _ IH|p _ IH];
    [apply load_calm|by apply perform_edit|by apply drag_settles|by apply perform_undo|by apply perform_redo].
Qed.

End history.

(** C16: Between actions, the history of the page is a list with a place in it: an action
    that changes the document puts the document before it last into the past, of which
    fifty are kept, and empties the future; undoing and redoing move the place by one, and
    what is shown is exactly what was recorded.  A drag over more than three pixels counts
    as one such action, a click as none.  On every such page the document that is shown is
    also the one that is saved.  An action here is one event of the user or one drag that
    ends with the mouse released, and the timers of the history run before the next one; a
    drag that is cancelled, one that moved the nodes by less, and actions that come before
    the timers are not covered, and there it fails. *)
Theorem history_refines_zipper (tt : jstr → jstr) (ps : jstr → Spec) (pp hp : jstr → bool) (pr : CanvasNodeData → option Resource)
    (pid : jstr) (p : Page) :
  settled tt ps pp hp pr pid p →
  same_entry (saved p) (doc p) = true
  ∧ zipper (perform tt ps pp hp pr pid Undo p) = z_undo (zipper p)
  ∧ zipper (perform tt ps pp hp pr pid Redo p) = z_redo (zipper p)
  ∧ (∀ ev, plain_event ev = true →
      let e := doc (handle tt ps pp hp pr pid ev p) in
      zipper (perform tt ps pp hp pr pid ev p) = if same_entry (doc p) e then zipper p else z_edit e (zipper p))
  ∧ ∀ additive nodeId moves at_, forallb drag_event moves = true →
      let q := perform_drag tt ps pp hp pr pid additive nodeId moves at_ p in
      (existsb far_move moves = true → zipper q = z_edit (doc q) (zipper p))
      ∧ (existsb far_move moves = false → existsb is_frame moves = false → zipper q = zipper p).
Proof.
  intros Hc%settled_calm. split; [apply Hc|]. split; [by apply perform_undo|]. split; [by apply perform_redo|]. split.
  - intros ev Hev. by apply perform_edit.
  - intros additive nodeId moves at_ Hm q. pose proof (drag_settles tt ps pp hp pr pid additive nodeId moves at_ p Hc Hm) as H. fold q in H.
    split; [intros Hf|intros Hf Hfr]; rewrite Hf in H; apply H; auto.
Qed.

Section interleavings.
Context (tt : jstr → jstr) (ps : jstr → Spec) (pp hp : jstr → bool) (pr : CanvasNodeData → option Resource) (pid : jstr).
Implicit Types (p : Page) (ev : event) (h : History).

Lemma undo_many n p : calm p → calm (Nat.iter n (perform tt ps pp hp pr pid Undo) p)
  ∧ zipper (Nat.iter n (perform tt ps pp hp pr pid Undo) p) = Nat.iter n z_undo (zipper p).
Proof.
  intros Hc. induction n as [|n [IH1 IH2]]; [done|]. rewrite !Nat.iter_succ. destruct (perform_undo tt ps pp hp pr pid _ IH1) as [H1 H2].
  split; [done|]. by rewrite H2, IH2.
Qed.

Lemma redo_many n p : calm p → zipper (Nat.iter n (perform tt ps pp hp pr pid Redo) p) = Nat.iter n z_redo (zipper p).
Proof.
  intros Hc. assert (calm (Nat.iter n (perform tt ps pp hp pr pid Redo) p)
    ∧ zipper (Nat.iter n (perform tt ps pp hp pr pid Redo) p) = Nat.iter n z_redo (zipper p)) as [_ H]; [|done].
  induction n as [|n [IH1 IH2]]; [done|]. rewrite !Nat.iter_succ. destruct (perform_redo tt ps pp hp pr pid _ IH1) as [H1 H2].
  split; [done|]. by rewrite H2, IH2.
Qed.

Lemma z_past_undo z : length (z_past (z_undo z)) = length (z_past z) - 1.
Proof.
  unfold z_undo. destruct (pop (z_past z)) as [[rest e]|] eqn:E.
  - apply pop_Some in E. rewrite E, length_app. cbn. lia.
  - apply pop_None in E. by rewrite E.
Qed.

Lemma z_undo_redo n z : n ≤ length (z_past z) → Nat.iter n z_redo (Nat.iter n z_undo z) = z.
Proof.
  revert z. induction n as [|n IH]; intros z Hn; [done|]. rewrite (Nat.iter_succ_r n z_undo), (Nat.iter_succ n z_redo).
  rewrite IH by (rewrite z_past_undo; lia). apply z_redo_undo. intros E. rewrite E in Hn. cbn in Hn. lia.
Qed.

(** ** Bounds *)

Definition history_length h : nat := length (past h) + length (future h).

Lemma with_history_render p q : history_length (history (render p q)) = history_length (history q).
Proof.
  unfold render. destruct (same_entry _ _); [done|]. unfold save, record_history. repeat case_match; done.
Qed.

Lemma pop_length {A} (l rest : list A) x : pop l = Some (rest, x) → length l = S (length rest).
Proof. intros ->%pop_Some. rewrite length_app. cbn. lia. Qed.

Lemma handle_length ev p :
  history_length (history p) ≤ 50 → history_length (history (handle tt ps pp hp pr pid ev p)) ≤ 50.
Proof.
  intros H. destruct (plain_event ev) eqn:E.
  { by rewrite (ed_history _ _ (edits_edited _ _ (plain_edits tt ps pp hp pr pid ev p E))). }
  unfold history_length in *. destruct ev; try done; cbn [CanvasEditor.handle].
  - unfold handleDragMove. by destruct (drag p).
  - unfold dragFrame. repeat case_match; done.
  - unfold finishNodeDrag. repeat case_match; done.
  - unfold undoCanvas. destruct (pop (past (history p))) as [[rest e]|] eqn:Ep; [|done]. apply pop_length in Ep.
    destruct (lastHistory _); cbn; rewrite ?length_app; cbn; lia.
  - unfold redoCanvas. destruct (pop (future (history p))) as [[rest e]|] eqn:Ep; [|done]. apply pop_length in Ep.
    destruct (lastHistory _); cbn; rewrite ?length_app; cbn; lia.
  - unfold commit. destruct (negb _); [done|]. destruct (lastHistory _); [|done]. cbn. rewrite length_app. cbn.
    pose proof (length_last_n 49 (past (history p))). lia.
  - unfold applied. by destruct (applyTimeouts _).
Qed.
End interleavings.

(** C22: In every order of events and timers the history holds at most fifty documents,
    past and future together. *)
Theorem history_bounded (tt : jstr → jstr) (ps : jstr → Spec) (pp hp : jstr → bool) (pr : CanvasNodeData → option Resource)
    (pid : jstr) (restored : Entry) (evs : list event) :
  let h := history (run tt ps pp hp pr pid evs (load restored)) in length (past h) + length (future h) ≤ 50.
Proof.
  intros h. subst h. change (history_length (history (run tt ps pp hp pr pid evs (load restored))) ≤ 50).
  assert (history_length (history (load restored)) ≤ 50) as H0 by (cbn; lia).
  revert H0. generalize (load restored). induction evs as [|ev evs IH]; intros p H; [done|]. cbn [run foldl].
  unfold run in IH. apply IH. unfold step. rewrite with_history_render. by apply handle_length.
Qed.

(** C21: On a page between actions (as above: drags end with the mouse released after more
    than three pixels, and the timers run after every action), undoing any number of
    recorded steps and redoing as many, with the timers running after each of them, gives
    back the document, the past and the future.  Without the timers in between it fails. *)
Theorem undo_redo_restores (tt : jstr → jstr) (ps : jstr → Spec) (pp hp : jstr → bool) (pr : CanvasNodeData → option Resource)
    (pid : jstr) (p : Page) (n : nat) :
  settled tt ps pp hp pr pid p → n ≤ length (past (history p)) →
  zipper (Nat.iter n (perform tt ps pp hp pr pid Redo) (Nat.iter n (perform tt ps pp hp pr pid Undo) p)) = zipper p.
Proof.
  intros Hc%settled_calm Hn. destruct (undo_many tt ps pp hp pr pid n p Hc) as [H1 H2].
  rewrite redo_many, H2 by done. by apply z_undo_redo.
Qed.

(** An edit that was not recorded yet, less than 180 ms ago, is lost when the user
    undoes: the page is as if the edit had not been made and the step before it had been
    undone, and redoing does not bring the edit back. *)
Theorem recent_edit_lost (tt : jstr → jstr) (ps : jstr → Spec) (pp hp : jstr → bool) (pr : CanvasNodeData → option Resource)
    (pid : jstr) (p : Page) (ev : event) :
  settled tt ps pp hp pr pid p → plain_event ev = true → past (history p) ≠ [] →
  zipper (run tt ps pp hp pr pid [ev; Undo; CommitTimer; ApplyTimeout] p) = z_undo (zipper p).
Proof.
  intros Hc%settled_calm Hev Hp. unfold run. cbn [foldl]. rewrite commit_step, applied_step.
  pose proof (edits_edited _ _ (plain_edits tt ps pp hp pr pid ev p Hev)) as He.
  destruct (pop (past (history p))) as [[rest e]|] eqn:E; [|by apply pop_None in E].
  assert (∃ b : bool, history (step tt ps pp hp pr pid ev p) = with_timer b (history p)) as [b Hb].
  { unfold step, render. destruct (same_entry _ _).
    - exists false. rewrite (ed_history _ _ He). destruct Hc as [Ht]. destruct (history p). cbn in *. by subst.
    - unfold save, record_history. rewrite (ed_history _ _ He). cbn [applyingHistory historyPaused with_timer lastHistory].
      rewrite (ca_applying _ Hc), (ca_paused _ Hc), (ca_last _ Hc). cbn [orb].
      destruct (same_entry _ _); cbn [history with_history historyPaused with_timer]; rewrite (ca_paused _ Hc); by eexists. }
  set (q := step tt ps pp hp pr pid ev p) in *. unfold step. cbn [handle]. unfold undoCanvas. rewrite Hb. cbn [past with_timer lastHistory].
  rewrite E, (ca_last _ Hc). set (h := with_past_future _ _ _).
  assert (applyTimeouts h = []) as Ht by apply (ca_timeouts _ Hc). assert (historyPaused h = false) as Hpa by apply (ca_paused _ Hc).
  unfold z_undo, zipper. cbn [z_past]. rewrite E. unfold applyHistory, render.
  cbn [doc set_menu with_ui selectConnection select with_doc history with_history applyTimeouts]. rewrite Ht.
  destruct (same_entry (doc q) e); unfold commit, save, record_history, applied;
    cbn [history with_history commitTimer negb applyTimeouts app doc with_ui with_doc applyingHistory historyPaused orb with_timer];
    rewrite ?Hpa; done.
Qed.

(** * Examples *)

(** A page without plugins *)
Module Demo.
Definition spec (_ : jstr) : Spec := mkSpec num_0 num_0 [] (VObj []).
Definition run : list event → Page → Page := CanvasEditor.run id spec (λ _, false) (λ _, false) (λ _, None) (js "p").
Definition perform : event → Page → Page := CanvasHistory.perform id spec (λ _, false) (λ _, false) (λ _, None) (js "p").
Definition empty : Entry := mkEntry (mkRef 0 []) (mkRef 1 []) (mkRef 2 (VArr [])) None (js "lines") false.
Definition add (i : jstr) : event := CreateNode i TText num_0 num_0 VUndef.
(** The nodes of a document, by their identifiers and titles *)
Definition view (e : Entry) : list (jstr * jstr) := (λ node, (n_id node, n_title node)) <$> val (e_nodes e).
End Demo.

(** Two nodes added one after the other *)
Definition two_nodes : Page := Demo.perform (Demo.add (js "b")) (Demo.perform (Demo.add (js "a")) (load Demo.empty)).

Lemma two_nodes_settled : settled id Demo.spec (λ _, false) (λ _, false) (λ _, None) (js "p") two_nodes.
Proof. apply settled_edit; [apply settled_edit; [apply settled_load|done]|done]. Qed.

Lemma two_nodes_past : length (past (history two_nodes)) = 2.
Proof. by vm_compute. Qed.

Lemma history_refines_zipper_witness :
  Demo.view (doc two_nodes) = [(js "a", TText); (js "b", TText)] ∧ zipper (Demo.perform Undo two_nodes) = z_undo (zipper two_nodes).
Proof.
  split; [vm_compute; reflexivity|].
  destruct (history_refines_zipper id Demo.spec (λ _, false) (λ _, false) (λ _, None) (js "p") two_nodes two_nodes_settled) as (_ & E & _).
  exact E.
Defined.

Lemma undo_redo_restores_witness :
  zipper (Nat.iter 2 (Demo.perform Redo) (Nat.iter 2 (Demo.perform Undo) two_nodes)) = zipper two_nodes.
Proof.
  apply (undo_redo_restores id Demo.spec (λ _, false) (λ _, false) (λ _, None) (js "p") two_nodes 2 two_nodes_settled).
  rewrite two_nodes_past. lia.
Defined.

Lemma recent_edit_lost_witness :
  zipper (Demo.run [Demo.add (js "c"); Undo; CommitTimer; ApplyTimeout] two_nodes) = z_undo (zipper two_nodes).
Proof.
  apply (recent_edit_lost id Demo.spec (λ _, false) (λ _, false) (λ _, None) (js "p") two_nodes (Demo.add (js "c")) two_nodes_settled eq_refl).
  intros E. pose proof two_nodes_past as Hl. by rewrite E in Hl.
Defined.

(** Undoing twice before the timeout of the first has run loses the document between. *)
Example quick_undo_loses_document :
  let p := Demo.perform (Demo.add (js "b")) (Demo.perform (Demo.add (js "a")) (load Demo.empty)) in
  let q := Demo.run [Undo; Undo; ApplyTimeout; ApplyTimeout] p in
  Demo.view (doc q) = [] ∧ Demo.view <$> future (history q) = [[(js "a", TText); (js "b", TText)]; [(js "a", TText); (js "b", TText)]].
Proof. by vm_compute. Qed.

(** A drag over at most three pixels moves the nodes without saving the project or
    recording a step. *)
Example short_drag_unsaved :
  let p := Demo.perform (Demo.add (js "a")) (load Demo.empty) in
  let q := Demo.run [StartDrag false (js "a"); DragMove false (num_of_Z 2) num_0; DragFrame; FinishDrag (Some (num_of_Z 2, num_0)); CommitTimer] p in
  (n_x <$> p_nodes p) ≠ (n_x <$> p_nodes q) ∧ saved q = saved p ∧ past (history q) = past (history p) ∧ drag q = None.
Proof. split; [vm_compute; congruence|]. by vm_compute. Qed.

(** A drag that is cancelled, as when the window loses the focus, moves the nodes without
    saving the project or recording a step. *)
Example cancelled_drag_unsaved :
  let p := Demo.perform (Demo.add (js "a")) (load Demo.empty) in
  let q := Demo.run [StartDrag false (js "a"); DragMove true (num_of_Z 50) num_0; DragFrame; FinishDrag None; CommitTimer] p in
  (n_x <$> p_nodes p) ≠ (n_x <$> p_nodes q) ∧ saved q = saved p ∧ past (history q) = past (history p) ∧ drag q = None.
Proof. split; [vm_compute; congruence|]. by vm_compute. Qed.
