(* ===== verification/CanvasSound.v ===== *)
(** The graph of a canvas stays sound under the events of its page: nodes have
    identifiers of their own, connections join two different nodes that are there, and
    the group of a node is a group that is there. *)

From Stdlib Require Import ZArith NArith Lia.
From stdpp Require Import base list.
From S2P Require Import Prelude JsString JsNumber JsValue CanvasGraph CanvasGraphProps CanvasEditor CanvasHistory.

Import Resources Helpers Geometry.

Implicit Types (node : CanvasNodeData) (nodes : list CanvasNodeData) (conn : CanvasConnection)
  (connections : list CanvasConnection) (p : Page) (e : Entry).

(** * Sound graphs *)

Definition groupId : jstr := js "groupId".

Definition heads nodes : list (jstr * jstr) := (λ node, (n_id node, n_type node)) <$> nodes.

(** The group of a node is among groups *)
Definition group_ok (hs : list (jstr * jstr)) node : Prop :=
  ∀ g, meta node groupId = VStr g → truthy g = true → (g, TGroup) ∈ hs.

Definition joins (ids : list jstr) conn : Prop := fromNodeId conn ∈ ids ∧ toNodeId conn ∈ ids ∧ fromNodeId conn ≠ toNodeId conn.

Record sound nodes connections : Prop := {
  so_ids : NoDup (n_id <$> nodes);
  so_ends : Forall (joins (n_id <$> nodes)) connections;
  so_groups : Forall (group_ok (heads nodes)) nodes;
}.

Lemma heads_ids nodes nodes' : heads nodes = heads nodes' → n_id <$> nodes = n_id <$> nodes'.
Proof.
  intros H. assert (∀ l, n_id <$> l = (heads l).*1) as E by (intros l; unfold heads; by rewrite <- list_fmap_compose). by rewrite !E, H.
Qed.

Lemma group_ok_mono hs hs' node : hs ⊆ hs' → group_ok hs node → group_ok hs' node.
Proof. intros H1 H2 g Hg Ht. by apply H1, (H2 g). Qed.

Lemma joins_mono ids ids' conn : ids ⊆ ids' → joins ids conn → joins ids' conn.
Proof. unfold joins. intros H (? & ? & ?). auto. Qed.

(** ** Changing nodes *)

Definition keeps_head (f : CanvasNodeData → CanvasNodeData) node : Prop := n_id (f node) = n_id node ∧ n_type (f node) = n_type node.

Lemma heads_map f nodes : Forall (keeps_head f) nodes → heads (f <$> nodes) = heads nodes.
Proof. unfold heads. induction 1 as [|node nodes [H1 H2] _ IH]; [done|]. cbn. by rewrite H1, H2, IH. Qed.

Lemma sound_changed f nodes connections :
  sound nodes connections → Forall (keeps_head f) nodes →
  Forall (λ node, group_ok (heads nodes) node → group_ok (heads nodes) (f node)) nodes → sound (f <$> nodes) connections.
Proof.
  intros [H1 H2 H3] Hk Hg. pose proof (heads_map f nodes Hk) as Eh. pose proof (heads_ids _ _ Eh) as Ei.
  constructor; rewrite ?Ei, ?Eh; [done..|]. apply Forall_fmap. rewrite Forall_forall in *. intros node Hn. cbn. auto.
Qed.

(** A change that leaves the identifier, the type and the group as they are *)
Definition inert (f : CanvasNodeData → CanvasNodeData) : Prop :=
  ∀ node, keeps_head f node ∧ meta (f node) groupId = meta node groupId.

Lemma sound_inert f nodes connections : inert f → sound nodes connections → sound (f <$> nodes) connections.
Proof.
  intros Hf Hs. apply sound_changed; [done|apply Forall_forall; intros; apply Hf|]. apply Forall_forall. intros node _ H g Hg.
  rewrite (proj2 (Hf node)) in Hg. by apply H.
Qed.

Lemma inert_if (b : CanvasNodeData → bool) f : inert f → inert (λ node, if b node then f node else node).
Proof. intros H node. unfold keeps_head. destruct (b node); [apply H|done]. Qed.

Lemma inert_compose f g : inert f → inert g → inert (λ node, f (g node)).
Proof.
  intros Hf Hg node. destruct (Hf (g node)) as [[H1 H2] H3], (Hg node) as [[G1 G2] G3]. split; [split|]; congruence.
Qed.

Lemma meta_put k v node k' : meta (put_meta k v node) k' = if decide (k' = k) then v else meta node k'.
Proof.
  unfold meta, put_meta. cbn [n_metadata with_metadata prop]. case_decide as E.
  - subst. by rewrite omap.get_set_eq.
  - rewrite omap.get_set_ne by done. unfold fields. by destruct (n_metadata node).
Qed.

Lemma inert_put k v : k ≠ groupId → inert (put_meta k v).
Proof. intros Hk node. split; [done|]. by rewrite meta_put, decide_False by done. Qed.

Lemma inert_put_of k (v : CanvasNodeData → jsval) : k ≠ groupId → inert (λ node, put_meta k (v node) node).
Proof. intros Hk node. by apply inert_put. Qed.

Lemma get_spread (l o : list (jstr * jsval)) k : omap.get l k = None → omap.get (foldl (λ o x, omap.set o x.1 x.2) o l) k = omap.get o k.
Proof.
  revert o. induction l as [|[k' v] l IH]; intros o H; [done|]. cbn in *. case_decide; [done|]. rewrite IH by done.
  by apply omap.get_set_ne.
Qed.

Lemma inert_spread b : omap.get (fields b) groupId = None → inert (λ node, with_metadata (spread_fields (n_metadata node) b) node).
Proof.
  intros Hb node. split; [done|]. unfold meta, spread_fields. cbn [n_metadata with_metadata prop]. rewrite get_spread by done.
  by destruct (n_metadata node).
Qed.

Lemma meta_put_all ks node : Forall (λ x, x.1 ≠ groupId) ks →
  keeps_head (put_all ks) node ∧ meta (put_all ks node) groupId = meta node groupId.
Proof.
  intros H. revert node. induction H as [|[k v] ks Hk _ IH]; intros node; [done|]. destruct (IH (put_meta k v node)) as [[H1 H2] H3].
  split; [by split|]. etrans; [exact H3|]. by rewrite meta_put, decide_False by (cbn in Hk; congruence).
Qed.

Ltac other_keys := repeat rewrite decide_False by (vm_compute; discriminate).

Lemma inert_resize width height position : inert (λ node,
  let '(x, y) := default (n_x node, n_y node) position in mkNode (n_id node) (n_type node) (n_title node) x y width height (n_metadata node)).
Proof. intros node. unfold keeps_head. destruct (default _ _) as [x y]. done. Qed.

Lemma inert_toggle : inert toggle_resize.
Proof.
  intros node. unfold keeps_head, toggle_resize. cbv zeta. destruct (_ || _); (split; [done|]).
  - rewrite meta_put. by other_keys.
  - unfold meta at 1. cbn [n_metadata]. fold (meta (put_meta (js "freeResize") (VBool (negb (truthy_val (meta node (js "freeResize"))))) node) groupId).
    rewrite meta_put. by other_keys.
Qed.

Lemma inert_content content : inert (change_content content).
Proof. intros node. split; [done|]. unfold change_content. cbv zeta. rewrite !meta_put. by other_keys. Qed.

Lemma inert_resized size : inert (resized size).
Proof. by intros node. Qed.

Lemma inert_config patch : omap.get (fields patch) groupId = None → inert (applyNodeConfigPatch patch).
Proof.
  intros Hp node. unfold keeps_head, applyNodeConfigPatch. cbv zeta. pose proof (inert_spread patch Hp node) as [_ H].
  repeat case_match; done.
Qed.

Lemma inert_primary itemId : inert (set_primary itemId).
Proof.
  intros node. unfold keeps_head, set_primary.
  assert (∀ ks, Forall (λ x, x.1 ≠ groupId) ks → (n_id (put_all ks node) = n_id node ∧ n_type (put_all ks node) = n_type node)
    ∧ meta (put_all ks node) groupId = meta node groupId) as H by (intros; by apply meta_put_all).
  destruct (is_type TText node).
  - destruct (find_item _ _); [|done]. destruct (truthy_val _); [|done]. apply H. repeat constructor; vm_compute; discriminate.
  - destruct (find_item _ _) as [image|]; [|done]. destruct (truthy_val _); [|done]. unfold primary_image. cbv zeta.
    apply H. repeat constructor; vm_compute; discriminate.
Qed.

Lemma inert_drop_image imageId : inert (drop_image imageId).
Proof.
  intros node. unfold keeps_head, drop_image. cbv zeta. apply meta_put_all. repeat constructor; vm_compute; discriminate.
Qed.

Lemma inert_interrupt status details canceled : inert (interrupt status details canceled).
Proof.
  intros node. unfold keeps_head, interrupt. destruct (is_loading node); [|done]. split; [done|]. rewrite !meta_put. by other_keys.
Qed.

(** ** Adding and removing *)

Lemma sound_add node nodes connections :
  sound nodes connections → n_id node ∉ n_id <$> nodes → group_ok (heads nodes) node → sound (nodes ++ [node]) connections.
Proof.
  intros [H1 H2 H3] Hi Hg. constructor.
  - rewrite fmap_app. apply NoDup_app. split; [done|]. split; [|apply NoDup_singleton]. cbn [fmap list_fmap].
    intros x Hx Hy%list_elem_of_singleton. by subst.
  - eapply Forall_impl; [exact H2|]. intros conn. apply joins_mono. rewrite fmap_app. set_solver.
  - assert (heads nodes ⊆ heads (nodes ++ [node])) as Hs by (unfold heads; rewrite fmap_app; set_solver).
    apply Forall_app. split; [|apply Forall_singleton; by eapply group_ok_mono]. eapply Forall_impl; [exact H3|]. intros x. by apply group_ok_mono.
Qed.

Lemma sound_connect conn nodes connections : sound nodes connections → joins (n_id <$> nodes) conn → sound nodes (connections ++ [conn]).
Proof. intros [H1 H2 H3] Hj. constructor; try done. apply Forall_app. split; [done|by apply Forall_singleton]. Qed.

Lemma sound_disconnect (P : CanvasConnection → Prop) `{!∀ c, Decision (P c)} nodes connections :
  sound nodes connections → sound nodes (filter P connections).
Proof. intros [H1 H2 H3]. constructor; try done. apply Forall_forall. intros c [_ Hc]%list_elem_of_filter. by eapply Forall_forall in H2. Qed.

Lemma elem_of_heads x nodes : x ∈ heads nodes ↔ ∃ node, node ∈ nodes ∧ x = (n_id node, n_type node).
Proof. unfold heads. rewrite list_elem_of_fmap. naive_solver. Qed.

Lemma has_false ids id : has ids id = false ↔ id ∉ ids.
Proof. unfold has. apply bool_decide_eq_false. Qed.

Lemma leave_group_head ids node : keeps_head (leave_group ids) node.
Proof. unfold keeps_head, leave_group. repeat case_match; done. Qed.

Lemma leave_group_ok ids hs node : group_ok hs node → group_ok (filter (λ x, has ids x.1 = false) hs) (leave_group ids node).
Proof.
  intros H g Hg Ht. unfold leave_group in Hg. destruct (meta node (js "groupId")) as [| | | |g0| |] eqn:E; try (unfold groupId in Hg; congruence).
  destruct (truthy g0 && has ids g0) eqn:Eb.
  - rewrite meta_put, decide_True in Hg by done. done.
  - unfold groupId in Hg. assert (g0 = g) as -> by congruence. apply list_elem_of_filter. rewrite Ht in Eb. cbn in *. split; [done|].
    apply H; [done|done].
Qed.

Lemma sound_delete ids nodes connections :
  sound nodes connections →
  sound (remaining_nodes ids nodes) (filter (λ conn, has ids (fromNodeId conn) || has ids (toNodeId conn) = false) connections).
Proof.
  intros [H1 H2 H3]. unfold remaining_nodes. set (kept := filter (λ node, has ids (n_id node) = false) nodes).
  assert (heads (leave_group ids <$> kept) = heads kept) as Eh by (apply heads_map, Forall_forall; intros; apply leave_group_head).
  pose proof (heads_ids _ _ Eh) as Ei. constructor; rewrite ?Ei, ?Eh.
  - unfold kept. eapply sublist_NoDup; [exact H1|]. apply fmap_sublist, sublist_filter.
  - apply Forall_forall. intros conn [Hf Hc]%list_elem_of_filter. apply orb_false_iff in Hf as [Hf Ht].
    rewrite Forall_forall in H2. destruct (H2 conn Hc) as (J1 & J2 & J3).
    assert (∀ id, id ∈ n_id <$> nodes → has ids id = false → id ∈ n_id <$> kept) as Hk.
    { intros id (node & -> & Hn)%list_elem_of_fmap Hi. apply list_elem_of_fmap_2. by apply list_elem_of_filter. }
    split_and!; auto.
  - apply Forall_fmap, Forall_forall. intros node [_ Hn]%list_elem_of_filter. cbn. rewrite Forall_forall in H3.
    eapply group_ok_mono; [|by apply leave_group_ok, H3]. intros x [Hx (m & Hm & ->)%elem_of_heads]%list_elem_of_filter.
    apply elem_of_heads. exists m. split; [|done]. by apply list_elem_of_filter.
Qed.

(** ** Dragging *)

Lemma inert_displace initial dx dy : inert (displace initial dx dy).
Proof. intros node. unfold displace, keeps_head. destruct (omap.get _ _) as [[x y]|]; done. Qed.

Lemma find_group (P : CanvasNodeData → bool) nodes group :
  List.find (λ g, is_type TGroup g && P g) (reverse nodes) = Some group → (n_id group, TGroup) ∈ heads nodes.
Proof.
  intros [Hin Hp]%List.find_some. apply andb_true_iff in Hp as [Ht _]. unfold is_type in Ht. apply bool_decide_eq_true in Ht.
  apply elem_of_heads. exists group. split; [|by rewrite Ht]. apply list_elem_of_In in Hin. by apply elem_of_reverse.
Qed.

Lemma put_group_ok hs g node : (g, TGroup) ∈ hs → group_ok hs (put_meta groupId (VStr g) node).
Proof. intros Hg g' E Ht. rewrite meta_put, decide_True in E by done. by injection E as <-. Qed.

Lemma put_no_group_ok hs node : group_ok hs (put_meta groupId VUndef node).
Proof. intros g' E Ht. by rewrite meta_put, decide_True in E by done. Qed.

Lemma drop_target moved nodes group : findGroupDropTarget moved nodes = Some group → (n_id group, TGroup) ∈ heads nodes.
Proof.
  unfold findGroupDropTarget. destruct (existsb _ _); [done|]. destruct (filter _ nodes) as [|m ms]; [done|]. intros H.
  apply (find_group (λ g, negb (has moved (n_id g)) && existsb (containsCenter g) (m :: ms))). rewrite <- H. clear H.
  induction (reverse nodes) as [|x l IH]; [done|]. cbn [List.find]. rewrite andb_assoc. by rewrite IH.
Qed.

Lemma containing_group node nodes g : findContainingGroupId node nodes = Some g → (g, TGroup) ∈ heads nodes.
Proof.
  unfold findContainingGroupId. destruct (List.find _ _) as [group|] eqn:E; [|done]. intros [= <-].
  apply (find_group (λ x, negb (bool_decide (n_id x = n_id node)) && containsCenter x node)). rewrite <- E. clear E.
  induction (reverse nodes) as [|x l IH]; [done|]. cbn [List.find]. rewrite andb_assoc. by rewrite IH.
Qed.

Lemma sound_drop initial dx dy nodes connections : sound nodes connections → sound (drop_nodes initial dx dy nodes) connections.
Proof.
  intros H. apply (sound_inert _ _ _ (inert_displace initial dx dy)) in H. unfold drop_nodes. set (moved := displace initial dx dy <$> nodes) in *.
  destruct (findGroupDropTarget initial.*1 moved) as [group|] eqn:E.
  - apply drop_target in E. unfold snapNodesIntoGroup. destruct (filter _ moved) as [|m ms]; [done|]. cbv zeta. apply sound_changed; [done|..].
    + apply Forall_forall. intros node _. unfold keeps_head. by destruct (moving _ _).
    + apply Forall_forall. intros node _ Hg. destruct (moving _ _); [|done]. by apply put_group_ok.
  - apply sound_changed; [done|..].
    + apply Forall_forall. intros node _. unfold keeps_head, regroup_dropped. destruct (moving _ _); [|done]. cbv zeta.
      by case_bool_decide.
    + apply Forall_forall. intros node _ Hg. unfold regroup_dropped. destruct (moving _ _); [|done]. cbv zeta.
      case_bool_decide; [done|]. destruct (findContainingGroupId node moved) as [g|] eqn:Eg; [|apply put_no_group_ok].
      apply put_group_ok. by eapply containing_group.
Qed.

(** ** Pasting *)

Lemma sound_append new nodes connections :
  sound nodes connections → NoDup (n_id <$> new) → (∀ x, x ∈ n_id <$> nodes → x ∉ n_id <$> new) →
  Forall (group_ok (heads (nodes ++ new))) new → sound (nodes ++ new) connections.
Proof.
  intros [H1 H2 H3] Hnd Hd Hg. constructor.
  - rewrite fmap_app. apply NoDup_app. auto.
  - eapply Forall_impl; [exact H2|]. intros conn. apply joins_mono. rewrite fmap_app. set_solver.
  - apply Forall_app. split; [|done]. eapply Forall_impl; [exact H3|]. intros x. apply group_ok_mono. unfold heads. rewrite fmap_app. set_solver.
Qed.

Record clip_ok (c : list CanvasNodeData * list CanvasConnection) : Prop := {
  cl_ids : NoDup (n_id <$> c.1);
  cl_ends : Forall (joins (n_id <$> c.1)) c.2;
  cl_groups : ∀ node group g, node ∈ c.1 → group ∈ c.1 → meta node groupId = VStr g → truthy g = true → n_id group = g → n_type group = TGroup;
}.

Lemma fold_set_fresh (l m : list (jstr * jstr)) : NoDup (m ++ l).*1 → foldl (λ m x, omap.set m x.1 x.2) m l = m ++ l.
Proof.
  revert m. induction l as [|[k v] l IH]; intros m Hnd; [by rewrite app_nil_r|]. cbn [foldl].
  rewrite omap.set_fresh. 2:{ apply omap.get_None. rewrite fmap_app in Hnd. apply NoDup_app in Hnd as (_ & Hnd & _). intros Hk.
    apply (Hnd _ Hk). apply list_elem_of_here. }
  rewrite IH; rewrite <- app_assoc; done.
Qed.

Section paste.
Context (C : list CanvasNodeData) (fresh : list jstr) (Hnd : NoDup (n_id <$> C)) (Hlen : length fresh = length C) (Hf : NoDup fresh).

Lemma idMap_zip : idMap C fresh = zip (n_id <$> C) fresh.
Proof. unfold idMap. rewrite fold_set_fresh; [done|]. cbn. rewrite fst_zip; [done|]. rewrite length_fmap. lia. Qed.

(** The copy of the node at a place *)
Lemma idMap_at i node new : C !! i = Some node → fresh !! i = Some new → omap.get (idMap C fresh) (n_id node) = Some new.
Proof.
  intros Hi Hn. rewrite idMap_zip.
  assert ((n_id node, new) ∈ zip (n_id <$> C) fresh) as Hin.
  { apply list_elem_of_lookup. exists i. rewrite lookup_zip_with, list_lookup_fmap, Hi. cbn. by rewrite Hn. }
  assert (NoDup (zip (n_id <$> C) fresh).*1) as Hk by (rewrite fst_zip; [done|rewrite length_fmap; lia]).
  destruct (omap.get (zip (n_id <$> C) fresh) (n_id node)) as [x|] eqn:E.
  - apply omap.get_Some_elem in E. f_equal. apply list_elem_of_lookup in Hin as [a Ha]. apply list_elem_of_lookup in E as [b Hb].
    assert (a = b) as ->. { eapply (NoDup_lookup _ a b (n_id node)); [exact Hk|rewrite list_lookup_fmap, Ha; done|rewrite list_lookup_fmap, Hb; done]. }
    congruence.
  - apply omap.get_None in E. destruct E. by apply (list_elem_of_fmap_2 fst) in Hin.
Qed.

Lemma idMap_inv x new : omap.get (idMap C fresh) x = Some new → ∃ i node, C !! i = Some node ∧ fresh !! i = Some new ∧ n_id node = x.
Proof.
  rewrite idMap_zip. intros (i & Hi)%omap.get_Some_elem%list_elem_of_lookup. apply lookup_zip_with_Some in Hi as (a & b & E & Ha & Hb).
  injection E as -> ->. apply list_lookup_fmap_Some in Ha as (node & -> & Hi). by exists i, node.
Qed.
End paste.

Lemma regroup_head m node : keeps_head (regroup m) node.
Proof. unfold keeps_head, regroup. repeat case_match; done. Qed.

Lemma pasted_at C fresh cx cy i new :
  pasted_nodes C fresh cx cy !! i = Some new ↔
  ∃ node f, C !! i = Some node ∧ fresh !! i = Some f
    ∧ new = regroup (idMap C fresh) (moved_copy
        (num_sub cx (half (num_add (left (nodeBounds C)) (right (nodeBounds C)))))
        (num_sub cy (half (num_add (top (nodeBounds C)) (bottom (nodeBounds C))))) f node).
Proof.
  unfold pasted_nodes. rewrite list_lookup_fmap_Some. setoid_rewrite lookup_zip_with_Some. naive_solver.
Qed.

Lemma copied_heads dx dy C fresh : length fresh = length C → heads (zip_with (moved_copy dx dy) fresh C) = zip fresh (n_type <$> C).
Proof.
  revert fresh. induction C as [|node C IH]; intros [|f fresh] Hl; try done. injection Hl as Hl. cbn. f_equal. by apply IH.
Qed.

Lemma pasted_heads C fresh cx cy : length fresh = length C → heads (pasted_nodes C fresh cx cy) = zip fresh (n_type <$> C).
Proof.
  intros Hl. unfold pasted_nodes. rewrite heads_map by (apply Forall_forall; intros; apply regroup_head). by apply copied_heads.
Qed.

Lemma pasted_ids C fresh cx cy : length fresh = length C → n_id <$> pasted_nodes C fresh cx cy = fresh.
Proof.
  intros Hl. assert (n_id <$> pasted_nodes C fresh cx cy = (heads (pasted_nodes C fresh cx cy)).*1) as ->
    by (unfold heads; by rewrite <- list_fmap_compose). rewrite pasted_heads by done. apply fst_zip. rewrite length_fmap. lia.
Qed.

Lemma sound_paste C connections' fresh freshConnections cx cy nodes connections :
  sound nodes connections → clip_ok (C, connections') → length fresh = length C → NoDup fresh →
  Forall (λ f, f ∉ n_id <$> nodes) fresh →
  sound (nodes ++ pasted_nodes C fresh cx cy)
    (connections ++ base.omap (copy_connection (idMap C fresh)) (zip connections' freshConnections)).
Proof.
  intros Hs [Hnd He Hg] Hl Hf Hd. cbn [fst snd] in *. pose proof (pasted_ids C fresh cx cy Hl) as Ei.
  assert (sound (nodes ++ pasted_nodes C fresh cx cy) connections) as Hs'.
  { apply sound_append; [done|by rewrite Ei|rewrite Ei|].
    - intros x Hx Hxf. rewrite Forall_forall in Hd. by apply (Hd x).
    - apply Forall_forall. intros new [i Hi]%list_elem_of_lookup. apply pasted_at in Hi as (node & f & Hi & Hfi & ->).
      unfold regroup. cbn [n_metadata moved_copy meta]. change (meta (moved_copy _ _ _ node) (js "groupId")) with (meta node groupId).
      destruct (meta node groupId) as [| | | |g| |] eqn:Eg; try (intros g' Hg'; unfold meta in *; cbn in Hg'; congruence).
      destruct (truthy g) eqn:Et; [|intros g' Hg' Ht'; unfold meta in *; cbn in Hg'; congruence].
      destruct (omap.get (idMap C fresh) g) as [new|] eqn:En; [|apply put_no_group_ok]. apply put_group_ok.
      apply idMap_inv in En as (j & group & Hj & Hfj & Hgj); [|done..].
      assert (n_type group = TGroup) as Htg by (apply (Hg node group g); [by eapply list_elem_of_lookup_2|by eapply list_elem_of_lookup_2|done..]).
      unfold heads. rewrite fmap_app. apply elem_of_app. right. fold (heads (pasted_nodes C fresh cx cy)). rewrite pasted_heads by done.
      apply list_elem_of_lookup. exists j. rewrite lookup_zip_with, Hfj. cbn. rewrite list_lookup_fmap, Hj. cbn. by rewrite Htg. }
  destruct Hs' as [S1 S2 S3]. constructor; [done| |done]. apply Forall_app. split; [done|]. apply Forall_forall. intros conn Hc.
  apply list_elem_of_omap in Hc as ([c f] & Hin & Ec). apply list_elem_of_lookup in Hin as [i Hi].
  apply lookup_zip_with_Some in Hi as (c' & f' & [= <- <-] & Hc & _). apply list_elem_of_lookup_2 in Hc. rewrite Forall_forall in He.
  destruct (He c Hc) as (_ & _ & Hne). unfold copy_connection in Ec. cbn [fst snd] in Ec.
  destruct (omap.get _ (fromNodeId c)) as [from|] eqn:E1; [|done]. destruct (omap.get _ (toNodeId c)) as [to|] eqn:E2; [|done].
  destruct (truthy from && truthy to); [|done]. injection Ec as <-.
  apply idMap_inv in E1 as (a & na & Ha & Hfa & Hia); [|done..]. apply idMap_inv in E2 as (b & nb & Hb & Hfb & Hib); [|done..].
  unfold joins. cbn [fromNodeId toNodeId]. rewrite fmap_app, Ei, !elem_of_app. split; [right; by eapply list_elem_of_lookup_2|].
  split; [right; by eapply list_elem_of_lookup_2|]. intros ->. assert (a = b) as -> by (exact (NoDup_lookup fresh a b to Hf Hfa Hfb)). congruence.
Qed.

(** * The page *)

Section page.
Context (tt : jstr → jstr) (ps : jstr → Spec) (pp hp : jstr → bool) (pr : CanvasNodeData → option Resource) (pid : jstr).
Context (Hps : ∀ type, prop (p_metadata (ps type)) groupId = VUndef).
Implicit Types (ev : event).

Lemma created_group fresh type x y config : meta (createCanvasNode tt ps fresh type x y (config_metadata type config)) groupId = VUndef.
Proof.
  unfold meta, createCanvasNode. cbn [n_metadata spread_fields prop]. rewrite get_spread.
  - unfold getNodeSpec. destruct (built_in type).
    + unfold NODE_SPECS. repeat case_bool_decide; reflexivity.
    + specialize (Hps type). unfold fields. destruct (p_metadata (ps type)); done.
  - unfold config_metadata. case_bool_decide; reflexivity.
Qed.

Lemma no_group_ok hs node : meta node groupId = VUndef → group_ok hs node.
Proof. intros H g Hg. congruence. Qed.

(** What has to hold when an event happens: fresh identifiers are fresh, a patch of a
    configuration does not touch the group, and the node that picks a reference is
    there *)
Definition possible ev p : Prop :=
  match ev with
  | CreateNode fresh _ _ _ _ | DuplicateNode fresh _ | CreateConnected fresh _ _ _ | DuplicateImage fresh _ _ => fresh ∉ n_id <$> p_nodes p
  | Paste fresh _ _ _ =>
      match clipboard p with Some c => length fresh = length c.1 | None => True end ∧ NoDup fresh ∧ Forall (λ f, f ∉ n_id <$> p_nodes p) fresh
  | PickReference _ _ => match marks (ui p) ReferencePicker with Some t => t ∈ n_id <$> p_nodes p | None => True end
  | ChangeConfig _ patch => omap.get (fields patch) groupId = None
  | _ => True
  end.

#[export] Instance possible_dec ev p : Decision (possible ev p).
Proof. destruct ev; cbn [possible]; repeat case_match; apply _. Defined.

Record graph_ok p : Prop := {
  gr_sound : sound (p_nodes p) (p_connections p);
  gr_clip : ∀ c, clipboard p = Some c → clip_ok c;
}.

Lemma graph_nodes f p : graph_ok p → sound (f (p_nodes p)) (p_connections p) → graph_ok (setNodes f p).
Proof. intros [H1 H2] H. by constructor. Qed.

Lemma graph_connections f p : graph_ok p → sound (p_nodes p) (f (p_connections p)) → graph_ok (setConnections f p).
Proof. intros [H1 H2] H. by constructor. Qed.

Lemma graph_inert id f p : graph_ok p → inert f → graph_ok (update_node id f p).
Proof. intros H Hf. apply graph_nodes; [done|]. apply sound_inert; [by apply inert_if|apply H]. Qed.

(** What does not touch the graph *)
Lemma graph_same p q : doc q = doc p → clipboard q = clipboard p → graph_ok p → graph_ok q.
Proof. intros E1 E2 [H1 H2]. constructor; unfold p_nodes, p_connections; rewrite ?E1, ?E2; done. Qed.

Lemma graph_ui u p : graph_ok p → graph_ok (with_ui u p).
Proof. by apply graph_same. Qed.
Lemma graph_cleanup v p : graph_ok p → graph_ok (with_cleanup v p).
Proof. by apply graph_same. Qed.
Lemma graph_requests r a p : graph_ok p → graph_ok (with_requests r a p).
Proof. by apply graph_same. Qed.

(** Strip what does not touch the graph. *)
Ltac graph := cbv zeta; repeat match goal with
  | H : graph_ok ?p |- graph_ok ?p => exact H
  | |- graph_ok (select _ _) => apply graph_ui
  | |- graph_ok (selectConnection _ _) => apply graph_ui
  | |- graph_ok (set_marks _ _) => apply graph_ui
  | |- graph_ok (set_menu _ _) => apply graph_ui
  | |- graph_ok (set_expanded _ _) => apply graph_ui
  | |- graph_ok (set_connecting _ _ _) => apply graph_ui
  | |- graph_ok (cleanupCanvasFiles _ _) => apply graph_cleanup
  | |- graph_ok (with_requests _ _ _) => apply graph_requests
  | |- graph_ok (match ?x with _ => _ end) => destruct x
  end.

Lemma joins_made fresh a b nodes : a ∈ nodes → b ∈ nodes → n_id a ≠ n_id b → joins (n_id <$> nodes) (mkConnection fresh (n_id a) (n_id b)).
Proof. intros Ha Hb Hne. unfold joins. cbn. split; [by apply list_elem_of_fmap_2|]. split; [by apply list_elem_of_fmap_2|done]. Qed.

Lemma connect_graph fresh h target p : graph_ok p → graph_ok (connectNodes fresh h target p).
Proof.
  intros H. unfold connectNodes. case_bool_decide; [done|]. destruct (normalizeConnection _ _ _ _) as [[from to]|] eqn:E; [|done].
  graph. apply graph_connections; [done|].
  apply sound_connect; [apply H|]. apply normalized_ends in E as (a & b & Ha & Hb & <- & <- & Hne & _).
  by apply joins_made.
Qed.

Lemma add_graph node p : graph_ok p → n_id node ∉ n_id <$> p_nodes p → group_ok (heads (p_nodes p)) node →
  graph_ok (setNodes (λ nodes, nodes ++ [node]) p).
Proof. intros H Hi Hg. apply graph_nodes; [done|]. apply sound_add; [apply H|done|done]. Qed.

Lemma create_connected_graph fresh freshConnection type config pending p :
  graph_ok p → fresh ∉ n_id <$> p_nodes p → graph_ok (createConnectedNode tt ps fresh freshConnection type config pending p).
Proof.
  intros H Hf. unfold createConnectedNode. destruct pending as [h [x y]]. set (node := createCanvasNode _ _ _ _ _ _ _).
  destruct (normalizeConnection _ _ _ _) as [[from to]|] eqn:E; [|done].
  assert (graph_ok (setConnections (λ cs, cs ++ [mkConnection freshConnection from to]) (setNodes (λ nodes, nodes ++ [node]) p))) as Hg.
  { assert (graph_ok (setNodes (λ nodes, nodes ++ [node]) p)) as H1 by (apply add_graph; [done|done|apply no_group_ok, created_group]).
    apply graph_connections; [done|]. apply sound_connect; [apply H1|]. apply normalized_ends in E as (a & b & Ha & Hb & <- & <- & Hne & _).
    by apply joins_made. }
  graph.
Qed.

Lemma pick_graph fresh from p : graph_ok p → possible (PickReference fresh from) p → graph_ok (selectNodeReference pr fresh from p).
Proof.
  intros H Hp. unfold selectNodeReference. cbn in Hp. destruct (marks (ui p) ReferencePicker) as [t|] eqn:Et; [|done].
  destruct (has (referenceConnectedNodeIds pr t (p_nodes p) (p_connections p)) from) eqn:Eh; [done|].
  destruct (find_node from (p_nodes p)) as [source|] eqn:Es; [|done]. destruct (isCanvasReferenceNode _ _ _); [|done].
  apply graph_connections; [done|]. apply sound_connect; [apply H|]. apply find_node_Some in Es as [Hin <-].
  unfold joins. cbn. split; [by apply list_elem_of_fmap_2|]. split; [done|]. intros Ei. rewrite Ei in Eh. apply has_false in Eh. destruct Eh. apply list_elem_of_here.
Qed.

Lemma delete_graph ids p : graph_ok p → graph_ok (deleteNodes pid ids p).
Proof.
  intros H. unfold deleteNodes. case_bool_decide; [done|]. cbv zeta.
  set (q := setConnections _ (setNodes _ p)).
  assert (graph_ok q) as Hq. { destruct H as [H1 H2]. constructor; [|done]. by apply sound_delete. }
  clearbody q. graph.
Qed.

Lemma clear_graph p : graph_ok p → graph_ok (clearCanvas pid p).
Proof. intros [H1 H2]. constructor; [|done]. constructor; constructor. Qed.

Lemma duplicate_graph fresh nodeId p : graph_ok p → fresh ∉ n_id <$> p_nodes p → graph_ok (duplicateNode fresh nodeId p).
Proof.
  intros H Hf. unfold duplicateNode. destruct (find_node nodeId (p_nodes p)) as [source|] eqn:E; [|done].
  assert (graph_ok (setNodes (λ nodes, nodes ++ [copy_of fresh source]) p)) as Hg.
  { apply add_graph; [done|done|]. apply find_node_Some in E as [Hin _]. pose proof (so_groups _ _ (gr_sound _ H)) as Hgr.
    rewrite Forall_forall in Hgr. intros g Hg. by apply (Hgr source Hin). }
  graph.
Qed.

Lemma copy_graph p : graph_ok p → graph_ok (copySelectedNodes p).
Proof.
  intros H. unfold copySelectedNodes. case_bool_decide; [done|]. set (sel := selectedNodeIds (ui p)).
  destruct (filter (λ node, has sel (n_id node) = true) (p_nodes p)) as [|n ns] eqn:E; [done|]. rewrite <- E. clear E n ns.
  destruct H as [[H1 H2 H3] H4]. constructor; [by constructor|]. cbn [clipboard with_clipboard]. intros c [= <-].
  assert (∀ node, node ∈ filter (λ node, has sel (n_id node) = true) (p_nodes p) → node ∈ p_nodes p) as Hin
    by (by intros node [_ ?]%list_elem_of_filter). constructor; cbn [fst snd].
  - eapply sublist_NoDup; [exact H1|]. apply fmap_sublist, sublist_filter.
  - apply Forall_forall. intros conn [Hs Hc]%list_elem_of_filter. apply andb_true_iff in Hs as [Hs1 Hs2]. rewrite Forall_forall in H2.
    destruct (H2 conn Hc) as (J1 & J2 & J3).
    assert (∀ id, id ∈ n_id <$> p_nodes p → has sel id = true → id ∈ n_id <$> filter (λ node, has sel (n_id node) = true) (p_nodes p)) as Hk.
    { intros id (node & -> & Hn)%list_elem_of_fmap Hi. apply list_elem_of_fmap_2. by apply list_elem_of_filter. }
    split_and!; auto.
  - intros node group g Hn Hg Hm Ht Hid. rewrite Forall_forall in H3. specialize (H3 node (Hin _ Hn) g Hm Ht).
    apply elem_of_heads in H3 as (x & Hx & E). injection E as Ex Et. rewrite Et. apply Hin in Hg.
    pose proof (find_node_NoDup _ _ H1 Hg) as F1. pose proof (find_node_NoDup _ _ H1 Hx) as F2. rewrite Hid, Ex in F1. congruence.
Qed.

Lemma paste_graph fresh freshConnections cx cy p :
  graph_ok p → possible (Paste fresh freshConnections cx cy) p → graph_ok (pasteCopiedNodes fresh freshConnections cx cy p).
Proof.
  intros H (Hl & Hnd & Hd). cbn in Hl. unfold pasteCopiedNodes. destruct (clipboard p) as [[[|n ns] cs]|] eqn:E; [done| |done]. cbv zeta.
  cbn [fst] in Hl. set (q := setConnections _ (setNodes _ p)).
  assert (graph_ok q) as Hq.
  { destruct H as [H1 H2]. constructor; [|intros c Hc; by apply H2]. apply sound_paste; auto. }
  clearbody q. graph.
Qed.

Lemma drag_graph at_ p : graph_ok p → graph_ok (finishNodeDrag hp at_ p).
Proof.
  intros H. unfold finishNodeDrag. destruct (drag p) as [d|]; [|done]. cbv zeta.
  set (q := match at_ with Some _ => _ | None => _ end).
  assert (graph_ok q) as Hq.
  { assert (graph_ok (with_drag None (with_history (with_paused false (history p)) p))) as H0 by (by apply (graph_same p)).
    subst q. destruct at_ as [[dx dy]|]; [|done]. destruct (hasMoved d); [|done]. apply graph_nodes; [done|]. by apply sound_drop, H0. }
  clearbody q. graph.
Qed.

Lemma frame_graph p : graph_ok p → graph_ok (dragFrame p).
Proof.
  intros H. unfold dragFrame. destruct (drag p) as [[hm initial [[dx dy]|]]|]; [|done|done]. apply graph_nodes; [by apply (graph_same p)|].
  apply sound_inert; [apply inert_displace|apply H].
Qed.

Lemma stop_graph canceled running p : graph_ok p → graph_ok (stopGenerationByRunningId canceled running p).
Proof.
  intros H. unfold stopGenerationByRunningId. graph. apply graph_nodes; [by apply (graph_same p)|].
  apply sound_inert; [|apply H]. apply (inert_if (λ node, has _ (n_id node))), inert_interrupt.
Qed.

Lemma handle_graph ev p :
  graph_ok p → possible ev p → ev ≠ Undo → ev ≠ Redo → graph_ok (handle tt ps pp hp pr pid ev p).
Proof.
  intros H Hp Hu Hr. destruct ev; cbn [handle]; try done.
  - unfold createNode. cbv zeta. set (q := setNodes _ p).
    assert (graph_ok q) as Hq by (apply add_graph; [done|done|apply no_group_ok, created_group]). clearbody q. graph.
  - by apply delete_graph.
  - by apply clear_graph.
  - by apply duplicate_graph.
  - by apply copy_graph.
  - by apply paste_graph.
  - unfold handleConnectStart. graph.
  - unfold release_connection. pose proof (λ f h t, connect_graph f h t p H). graph. apply connect_graph. done.
  - destruct (pendingConnectionCreate (ui p)); [|done]. by apply create_connected_graph.
  - unfold deleteConnection. cbv zeta. set (q := setConnections _ p).
    assert (graph_ok q) as Hq by (apply graph_connections; [done|apply sound_disconnect, H]). clearbody q. graph.
  - unfold disconnectNodeReference. apply graph_connections; [done|]. apply sound_disconnect, H.
  - unfold startNodeReferenceSelection. graph.
  - unfold exitNodeReferenceSelection. graph.
  - by apply pick_graph.
  - unfold deselectCanvas, cancelPendingConnectionCreate. graph.
  - graph.
  - unfold handleNodeSelectCapture, selectNodeByEvent. graph.
  - by apply (graph_same p).
  - unfold handleDragMove. destruct (drag p); [by apply (graph_same p)|done].
  - by apply frame_graph.
  - by apply drag_graph.
  - apply graph_inert; [done|]. apply inert_resize.
  - apply graph_inert; [done|]. apply inert_toggle.
  - apply graph_inert; [done|]. apply inert_content.
  - by apply graph_inert.
  - apply graph_inert; [done|]. apply inert_put. vm_compute. discriminate.
  - apply graph_inert; [done|]. by apply inert_config.
  - apply graph_inert; [done|]. apply inert_put. vm_compute. discriminate.
  - unfold toggleBatchExpanded. graph.
  - apply graph_inert; [done|]. apply inert_primary.
  - destruct (find_node nodeId (p_nodes p)) as [node|]; [|done]. unfold duplicateBatchImage. destruct (find_item _ _) as [image|]; [|done].
    destruct (truthy_val _); [|done]. set (q := setNodes _ p).
    assert (graph_ok q) as Hq by (apply add_graph; [done|done|by apply no_group_ok]). clearbody q. graph.
  - unfold deleteBatchImage. cbv zeta. apply graph_inert; [|apply inert_drop_image]. graph.
  - destruct H. by constructor.
  - destruct H. by constructor.
  - by apply (graph_same p).
  - unfold finishGenerationRequest. destruct (omap.get _ _); [|done]. destruct (_ =? _)%nat; [by apply (graph_same p)|done].
  - by apply stop_graph.
  - unfold commit. destruct (negb _); [done|]. destruct (lastHistory _); [by apply (graph_same p)|done].
  - unfold applied. destruct (applyTimeouts _); [done|by apply (graph_same p)].
Qed.

(** ** Documents of the history *)

Definition sound_entry e : Prop := sound (val (e_nodes e)) (val (e_connections e)).

(** The documents that the page holds besides the one it shows *)
Definition kept_documents p : list Entry :=
  let h := history p in past h ++ future h ++ option_list (lastHistory h) ++ applyTimeouts h ++ [saved p].

Record page_ok p : Prop := {
  ok_graph : graph_ok p;
  ok_kept : Forall sound_entry (kept_documents p);
}.

Lemma sound_doc p : graph_ok p → sound_entry (doc p).
Proof. by intros []. Qed.

(** The history as far as it holds documents *)
Definition documents (h : History) : list Entry := past h ++ future h ++ option_list (lastHistory h) ++ applyTimeouts h.

(** Events that take nothing out of the history and put nothing into it *)
Lemma handle_documents ev p :
  ev ≠ Undo → ev ≠ Redo → ev ≠ CommitTimer → ev ≠ ApplyTimeout →
  documents (history (handle tt ps pp hp pr pid ev p)) = documents (history p) ∧ saved (handle tt ps pp hp pr pid ev p) = saved p.
Proof.
  intros H1 H2 H3 H4. destruct (plain_event ev) eqn:E.
  - destruct (edits_edited _ _ (plain_edits tt ps pp hp pr pid ev p E)) as [Eh _ Es _ _ _ _ _ _]. by rewrite Eh, Es.
  - destruct ev; try done; cbn [handle].
    + unfold handleDragMove. by destruct (drag p).
    + unfold dragFrame. by destruct (drag p) as [[? ? [[? ?]|]]|].
    + unfold finishNodeDrag. destruct (drag p) as [d|]; [|done]. cbv zeta. repeat case_match; done.
Qed.

Lemma kept_documents_eq p : kept_documents p = documents (history p) ++ [saved p].
Proof. unfold kept_documents, documents. by rewrite <- !app_assoc. Qed.

Lemma applyHistory_ok e p : sound_entry e → page_ok p → page_ok (applyHistory e p).
Proof.
  intros He [[Hs Hc] Hk]. constructor; [by constructor|]. rewrite kept_documents_eq in *. unfold documents in *. cbn.
  rewrite !Forall_app, !Forall_singleton in *. tauto.
Qed.

Lemma moved_ok (ps_ fs_ : list Entry) p :
  Forall sound_entry (ps_ ++ fs_) → page_ok p → page_ok (with_history (with_past_future ps_ fs_ (history p)) p).
Proof.
  intros Hf [[Hs Hc] Hk]. constructor; [by constructor|]. rewrite kept_documents_eq in *. unfold documents in *. cbn.
  rewrite !Forall_app in *. tauto.
Qed.

(** Taking a step in the history *)
Lemma travel_ok ev p : ev = Undo ∨ ev = Redo → page_ok p → page_ok (handle tt ps pp hp pr pid ev p).
Proof.
  intros Hev Hp. pose proof (ok_kept _ Hp) as Hk. rewrite kept_documents_eq in Hk. unfold documents in Hk.
  destruct Hev as [-> | ->]; cbn [handle]; unfold undoCanvas, redoCanvas; destruct (pop _) as [[rest e]|] eqn:E; try done;
    apply pop_Some in E; rewrite E in Hk; destruct (lastHistory (history p)) as [l|]; try (apply applyHistory_ok);
    try (apply moved_ok; [|done]); try change (option_list (Some l)) with [l] in Hk; rewrite ?Forall_app, ?Forall_singleton in *; tauto.
Qed.

Lemma commit_ok p : page_ok p → page_ok (commit p).
Proof.
  intros Hp. pose proof (ok_kept _ Hp) as Hk. unfold commit. destruct (negb _); [done|].
  destruct (lastHistory (history p)) as [l|] eqn:E; [|done]. destruct Hp as [Hg _]. constructor; [by apply (graph_same p)|].
  rewrite kept_documents_eq in *. unfold documents in *. rewrite E in Hk. cbn in *.
  rewrite !Forall_app, !Forall_cons, ?Forall_nil in *. pose proof (sound_doc p Hg). unfold last_n. split_and!; try tauto. apply Forall_drop. tauto.
Qed.

Lemma applied_ok p : page_ok p → page_ok (applied p).
Proof.
  intros [Hg Hk]. unfold applied. destruct (applyTimeouts (history p)) as [|e rest] eqn:E; [done|].
  constructor; [by apply (graph_same p)|]. rewrite kept_documents_eq in *. unfold documents in *. rewrite E in Hk. cbn in *.
  rewrite !Forall_app, ?Forall_cons in *. tauto.
Qed.

Lemma handle_ok ev p : page_ok p → possible ev p → page_ok (handle tt ps pp hp pr pid ev p).
Proof.
  intros Hp Hev. assert (ev = Undo ∨ ev = Redo ∨ ev = CommitTimer ∨ ev = ApplyTimeout
    ∨ (ev ≠ Undo ∧ ev ≠ Redo ∧ ev ≠ CommitTimer ∧ ev ≠ ApplyTimeout)) as Hcases by (destruct ev; naive_solver).
  destruct Hcases as [->|[->|[->|[->|(H1 & H2 & H3 & H4)]]]].
  - apply travel_ok; auto.
  - apply travel_ok; auto.
  - by apply commit_ok.
  - by apply applied_ok.
  - destruct Hp as [Hg Hk]. constructor; [by apply handle_graph|]. destruct (handle_documents ev p H1 H2 H3 H4) as [E1 E2].
    rewrite kept_documents_eq in *. by rewrite E1, E2.
Qed.

Lemma render_ok p q : page_ok q → page_ok (render p q).
Proof.
  intros [Hg Hk]. unfold render. destruct (same_entry _ _); [done|].
  assert (page_ok (record_history q)) as [Hg' Hk'].
  { constructor; [by apply (graph_same q)|]. rewrite kept_documents_eq in *.
    assert (documents (history (record_history q)) = documents (history q)) as ->; [|done].
    unfold record_history. cbv zeta. repeat case_match; done. }
  unfold save. destruct (historyPaused _); [by constructor|]. constructor; [by apply (graph_same (record_history q))|].
  rewrite kept_documents_eq in *. rewrite Forall_app in *. split; [apply Hk'|]. apply Forall_singleton. apply Hg'.
Qed.

(** ** Pages that come about *)

Inductive reachable : Page → Prop :=
  | reach_load restored : sound_entry restored → reachable (load restored)
  | reach_step ev p : reachable p → possible ev p → reachable (step tt ps pp hp pr pid ev p).

Lemma reachable_ok p : reachable p → page_ok p.
Proof.
  induction 1 as [restored Hr|ev p _ IH Hev].
  - constructor; [by constructor|]. unfold kept_documents. cbn. by repeat (apply Forall_cons; split).
  - unfold step. by apply render_ok, handle_ok.
Qed.

(** A sequence of events that is possible from a page *)
Fixpoint possible_all (evs : list event) p : Prop :=
  match evs with [] => True | ev :: evs => possible ev p ∧ possible_all evs (step tt ps pp hp pr pid ev p) end.

#[export] Instance possible_all_dec evs p : Decision (possible_all evs p).
Proof. revert p. induction evs; cbn [possible_all]; apply _. Defined.

Lemma reachable_run evs p : reachable p → possible_all evs p → reachable (run tt ps pp hp pr pid evs p).
Proof.
  revert p. induction evs as [|ev evs IH]; intros p Hp; [done|]. intros [H1 H2]. apply (IH (step tt ps pp hp pr pid ev p)); [|done].
  by apply reach_step.
Qed.
End page.


(** * Examples *)

Module Session.

Definition at_ (i type : jstr) (x y : Z) : event := CreateNode i type (num_of_Z x) (num_of_Z y) VUndef.

(** A group and two nodes; one is dragged into the group and connected to the other, the
    group with it is copied and pasted, and the group is deleted. *)
Definition events : list event :=
  [at_ (js "g") TGroup 0 0; at_ (js "a") TText 1000 0; at_ (js "b") TText 2000 0;
   StartDrag false (js "a"); DragMove true (num_of_Z (-1000)) num_0; DragFrame; FinishDrag (Some (num_of_Z (-1000), num_0)); CommitTimer;
   ConnectStart (js "a") Source; ConnectEnd (js "c1") (OnNode (js "b")); CommitTimer;
   SelectAll; Copy; Paste [js "g2"; js "a2"; js "b2"] [js "c2"] num_0 num_0; CommitTimer; DeleteNodes [js "g"]; CommitTimer].

Definition page (evs : list event) : Page := Demo.run evs (load Demo.empty).

(** Nodes with their groups, and the connections *)
Definition outline (p : Page) : list (jstr * jsval) * list (jstr * jstr) :=
  ((λ node, (n_id node, meta node groupId)) <$> p_nodes p, (λ conn, (fromNodeId conn, toNodeId conn)) <$> p_connections p).
End Session.

Example session_outline :
  Session.outline (Session.page Session.events)
  = ([(js "a", VUndef); (js "b", VUndef); (js "g2", VUndef); (js "a2", VStr (js "g2")); (js "b2", VUndef)],
     [(js "a", js "b"); (js "a2", js "b2")]).
Proof. by vm_compute. Qed.


(** The reference that is picked after the node that picks was undone goes nowhere. *)
Example picked_reference_dangles :
  let evs := [Session.at_ (js "a") TText 0 0; ChangeContent (js "a") (js "text"); CommitTimer; Session.at_ (js "b") TConfig 900 0; CommitTimer;
              StartPicking (js "b"); Undo; ApplyTimeout; PickReference (js "c") (js "a")] in
  let p := Session.page evs in
  Session.outline p = ([(js "a", VUndef)], [(js "a", js "b")]) ∧ marks (ui p) ReferencePicker = Some (js "b").
Proof. by vm_compute. Qed.

(** A plugin that deletes a group leaves the nodes of the group in it. *)
Example plugin_leaves_group :
  let member := mkNode (js "a") TText [] num_0 num_0 num_0 num_0 (VObj [(groupId, VStr (js "g"))]) in
  let group := mkNode (js "g") TGroup [] num_0 num_0 num_0 num_0 (VObj []) in
  let s := AgentOps.applyCanvasAgentOps (λ _, false) Demo.spec (λ _ _, js "n") (λ _, js "k")
    (AgentOps.mkSnapshot [group; member] [] [] VUndef) [AgentOps.DeleteNode (js "g") None []] in
  AgentOps.s_nodes s = [member] ∧ (λ node, meta node groupId) <$> remaining_nodes [js "g"] [group; member] = [VUndef].
Proof. by vm_compute. Qed.
