(* ===== verification/CanvasFiles.v ===== *)
(** The page of a canvas and the files of its media: what a deletion on the page makes
    the store of assets clean up, and what it keeps. *)

From Stdlib Require Import ZArith NArith Lia.
From stdpp Require Import gmap.
From S2P Require Import Prelude JsString JsNumber JsValue CanvasSync CanvasStore CanvasStoreProps CanvasGraph CanvasEditor CanvasHistory.

Implicit Types (node : CanvasNodeData) (nodes : list CanvasNodeData) (p : Page) (e : Entry) (k : jstr).

(** * What a value refers to *)

Lemma refers_obj (o : list (jstr * jsval)) k :
  omap.get o (js "storageKey") = None → refers (VObj o) k ↔ Exists (λ x, refers x.2 k) o.
Proof.
  intros Ho. rewrite Exists_exists. split.
  - intros H. inversion H as [? ? E|? f v ? Hin Hr|]; subst; [congruence|]. by exists (f, v).
  - intros ([f v] & Hin & Hr). by eapply refers_prop.
Qed.

Lemma refers_arr (l : list jsval) k : refers (VArr l) k ↔ ∃ v, v ∈ l ∧ refers v k.
Proof. split; [intros H; inversion H; eauto|intros (v & ? & ?); by eapply refers_item]. Qed.

Lemma refers_str (s : jstr) k : ¬ refers (VStr s) k.
Proof. intros H. inversion H. Qed.
Lemma refers_num (n : num) k : ¬ refers (VNum n) k.
Proof. intros H. inversion H. Qed.
Lemma refers_bool (b : bool) k : ¬ refers (VBool b) k.
Proof. intros H. inversion H. Qed.
Lemma refers_null k : ¬ refers VNull k.
Proof. intros H. inversion H. Qed.

(** The properties of an object that refer to something *)
Ltac properties := rewrite refers_obj by (by vm_compute); rewrite ?Exists_cons, ?Exists_nil; cbn [snd].

Lemma refers_node node k : refers (node_value node) k ↔ refers (n_metadata node) k.
Proof.
  assert (¬ refers (VObj [(js "x", VNum (n_x node)); (js "y", VNum (n_y node))]) k) as Hp
    by (properties; pose proof (refers_num (n_x node) k); pose proof (refers_num (n_y node) k); tauto).
  unfold node_value. properties. pose proof (refers_str (n_id node) k). pose proof (refers_str (n_type node) k).
  pose proof (refers_str (n_title node) k). pose proof (refers_num (n_width node) k). pose proof (refers_num (n_height node) k). tauto.
Qed.

Lemma refers_connection conn k : ¬ refers (connection_value conn) k.
Proof.
  unfold connection_value. properties. pose proof (refers_str (k_id conn) k). pose proof (refers_str (fromNodeId conn) k).
  pose proof (refers_str (toNodeId conn) k). tauto.
Qed.

(** A document refers to files by the metadata of its nodes and by its chats. *)
Definition uses e k : Prop := (∃ node, node ∈ val (e_nodes e) ∧ refers (n_metadata node) k) ∨ refers (val (chatSessions e)) k.

Lemma refers_nodes nodes k : refers (VArr (node_value <$> nodes)) k ↔ ∃ node, node ∈ nodes ∧ refers (n_metadata node) k.
Proof.
  rewrite refers_arr. setoid_rewrite list_elem_of_fmap. split.
  - intros (v & (node & -> & Hn) & Hr). exists node. split; [done|]. by apply refers_node.
  - intros (node & Hn & Hr). exists (node_value node). split; [by exists node|]. by apply refers_node.
Qed.

Lemma refers_connections connections k : ¬ refers (VArr (connection_value <$> connections)) k.
Proof. rewrite refers_arr. intros (v & (conn & -> & _)%list_elem_of_fmap & Hr). by apply refers_connection in Hr. Qed.

Lemma refers_entry e k : refers (entry_value e) k ↔ uses e k.
Proof.
  unfold entry_value, uses. properties. rewrite refers_nodes. pose proof (refers_connections (val (e_connections e)) k).
  pose proof (refers_str (backgroundMode e) k). pose proof (refers_bool (showImageInfo e) k).
  assert (¬ refers match activeChatId e with Some i => VStr i | None => VNull end k)
    by (destruct (activeChatId e); [apply refers_str|apply refers_null]). tauto.
Qed.

Lemma refers_entries (l : list Entry) k : refers (VArr (entry_value <$> l)) k ↔ Exists (λ e, uses e k) l.
Proof.
  rewrite refers_arr, Exists_exists. split.
  - intros (v & (e & -> & He)%list_elem_of_fmap & Hr). exists e. split; [done|]. by apply refers_entry.
  - intros (e & He & Hu). exists (entry_value e). split; [by apply list_elem_of_fmap_2|]. by apply refers_entry.
Qed.

(** The documents that the history holds *)
Definition recorded (h : History) : list Entry := past h ++ future h ++ option_list (lastHistory h).

Lemma refers_cleanup extra (h : History) k : refers (cleanup_data extra h) k ↔ refers extra k ∨ Exists (λ e, uses e k) (recorded h).
Proof.
  assert (refers match lastHistory h with Some l => entry_value l | None => VNull end k ↔ Exists (λ e, uses e k) (option_list (lastHistory h))) as Hl.
  { destruct (lastHistory h) as [l|]; cbn.
    - rewrite refers_entry, Exists_cons, Exists_nil. tauto.
    - rewrite Exists_nil. split; [apply refers_null|done]. }
  unfold cleanup_data, recorded. properties. rewrite Hl, !Exists_app.
  rewrite refers_obj by (by vm_compute). rewrite !Exists_cons, Exists_nil. cbn [snd]. rewrite !refers_entries. tauto.
Qed.

Lemma refers_extra (pid : jstr) nodes sessions k :
  refers (used_extra pid nodes sessions) k ↔ (∃ node, node ∈ nodes ∧ refers (n_metadata node) k) ∨ refers sessions k.
Proof. unfold used_extra. properties. rewrite refers_nodes. pose proof (refers_str pid k). tauto. Qed.

(** ** Nodes that stay *)

Lemma elem_of_field (o : list (jstr * jsval)) f v x : x ∈ omap.set o f v → x ∈ o ∨ x = (f, v).
Proof.
  induction o as [|[f' v'] o IH]; cbn; [set_solver|]. case_decide as Hd; rewrite !elem_of_cons; [naive_solver|]. intros [->|H]; [auto|].
  destruct (IH H); auto.
Qed.

Lemma leave_group_refers ids node k : refers (n_metadata (leave_group ids node)) k → refers (n_metadata node) k.
Proof.
  unfold leave_group. destruct (meta node (js "groupId")) as [| | | |g| |] eqn:E; try done. destruct (truthy g && has ids g); [|done].
  unfold put_meta. cbn [n_metadata with_metadata]. destruct (n_metadata node) as [| | | | | |o] eqn:Em; try (unfold meta in E; by rewrite Em in E).
  cbn [fields]. intros H. inversion H as [? ? Hg|? f v ? Hin Hr|]; subst.
  - apply refers_own. by rewrite omap.get_set_ne in Hg by (vm_compute; discriminate).
  - destruct (elem_of_field _ _ _ _ Hin) as [Hin'|[= -> ->]]; [by eapply refers_prop|inversion Hr].
Qed.

Lemma remaining_uses ids nodes k :
  (∃ node, node ∈ remaining_nodes ids nodes ∧ refers (n_metadata node) k) → ∃ node, node ∈ nodes ∧ refers (n_metadata node) k.
Proof.
  intros (node & (m & -> & [_ Hm]%list_elem_of_filter)%list_elem_of_fmap & Hr). exists m. split; [done|]. by eapply leave_group_refers.
Qed.

(** * The clean-up after a deletion *)

Import Storage.

(** Files in use stay. *)
Lemma cleanup_keeps (assets projects : list jsval) (extra : jsval) (s : Disk) k :
  refers extra k →
  let s' := cleanupImages assets projects extra s in
  (startsWith k (js "image:") = true → image_files s' !! k = image_files s !! k)
  ∧ (includes k (js ":") = true → media_files s' !! k = media_files s !! k).
Proof.
  intros Hr s'. subst s'. unfold cleanupImages. set (data := used_data assets projects extra).
  assert (refers data k) as Hd by (unfold data, used_data; properties; tauto).
  destruct (cleanup_images data s) as (Hf & _ & Em & _). set (s1 := cleanupUnusedImages data s) in *.
  destruct (cleanup_media data s1) as (Hm & Ef & _). rewrite Ef, <- Em. split; intros Hk.
  - apply Hf. apply used_images_spec. split; [done|by left].
  - by apply Hm.
Qed.

Section files.
Context (tt : jstr → jstr) (ps : jstr → Spec) (pp hp : jstr → bool) (pr : CanvasNodeData → option Resource) (pid : jstr).

Definition removal (ev : event) : bool := match ev with DeleteNodes ids => negb (bool_decide (ids = [])) | ClearCanvas => true | _ => false end.

Lemma step_doc ev p :
  doc (step tt ps pp hp pr pid ev p) = doc (handle tt ps pp hp pr pid ev p)
  ∧ cleanups (step tt ps pp hp pr pid ev p) = cleanups (handle tt ps pp hp pr pid ev p).
Proof. unfold step, render, save, record_history. repeat case_match; done. Qed.

Lemma deleteNodes_effect ids p :
  ids ≠ [] →
  p_nodes (deleteNodes pid ids p) = remaining_nodes ids (p_nodes p) ∧ chatSessions (doc (deleteNodes pid ids p)) = chatSessions (doc p)
  ∧ cleanups (deleteNodes pid ids p)
    = cleanups p ++ [cleanup_data (used_extra pid (filter (λ node, has ids (n_id node) = false) (p_nodes p)) (val (chatSessions (doc p)))) (history p)].
Proof.
  intros Hi. unfold deleteNodes. rewrite bool_decide_eq_false_2 by done. cbv zeta. unfold cleanupCanvasFiles.
  set (q := set_expanded _ _). change (contextMenu (ui q)) with (contextMenu (ui p)). destruct (contextMenu (ui p)) as [[i|c]|]; [|done|done].
  by destruct (has ids i).
Qed.

(** What a deletion hands to the clean-up, and the document after it *)
Lemma removal_cleanup ev p :
  removal ev = true →
  ∃ extra, cleanups (step tt ps pp hp pr pid ev p) = cleanups p ++ [cleanup_data extra (history p)]
  ∧ (∀ k, refers extra k → uses (doc p) k) ∧ (∀ k, uses (doc (step tt ps pp hp pr pid ev p)) k → uses (doc p) k).
Proof.
  destruct (step_doc ev p) as [-> ->]. destruct ev; intros He; try done; cbn [handle].
  - destruct (deleteNodes_effect ids p) as (En & Ec & Eu); [by apply negb_true_iff, bool_decide_eq_false in He|]. rewrite Eu.
    eexists. split; [reflexivity|]. split.
    + intros k [H|H]%refers_extra; [left|by right]. destruct H as (node & [_ Hn]%list_elem_of_filter & Hr). by exists node.
    + intros k. unfold uses. rewrite Ec. fold (p_nodes (deleteNodes pid ids p)). rewrite En. intros [H|H]; [left|by right].
      by eapply remaining_uses.
  - eexists. split; [reflexivity|]. split.
    + intros k [(node & Hn & _)|H]%refers_extra; [by apply elem_of_nil in Hn|]. apply refers_arr in H as (v & Hv & _). by apply elem_of_nil in Hv.
    + intros k [(node & Hn & _)|H]; [by apply elem_of_nil in Hn|]. by right.
Qed.
End files.


(** * Examples *)

Module Gallery.
Definition key : jstr := js "image:1".
Definition picture : CanvasNodeData :=
  mkNode (js "a") TImage (js "Picture") num_0 num_0 (num_of_Z 100) (num_of_Z 100) (VObj [(js "storageKey", VStr key)]).
Definition note : CanvasNodeData := mkNode (js "b") TText (js "Note") num_0 num_0 (num_of_Z 100) (num_of_Z 100) (VObj []).
Definition document : Entry := mkEntry (mkRef 0 [picture; note]) (mkRef 1 []) (mkRef 2 (VArr [])) None (js "lines") false.
Definition blob : Blob := mkBlob (js "image/png") (mkContent 9 (js "pixels")).
Definition disk : Disk := mkDisk {[key := blob]} ∅ ∅ [] [] ∅ ∅ ∅ 0 [].
Definition keys (p : Page) : list jsval := (λ node, meta node (js "storageKey")) <$> p_nodes p.
(** The clean-up that the page started last *)
Definition cleaned (p : Page) : Disk := cleanupImages [] [] (default VUndef (last (cleanups p))) disk.
End Gallery.


(** The clean-up does not know of what is copied: after fifty more changes the file of a
    copied picture that was deleted is removed, and pasting shows a picture without it. *)
Example copied_file_lost :
  let p := Demo.run [SelectNode false (js "a"); Copy] (load Gallery.document) in
  let p := Demo.perform (DeleteNodes [js "a"]) p in
  let p := Nat.iter 50 (Demo.perform (ChangeTitle (js "b") (js "Note"))) p in
  let p := Demo.perform (DeleteNodes [js "b"]) p in
  image_files (Gallery.cleaned p) !! Gallery.key = None
  ∧ Gallery.keys (Demo.run [Paste [js "c"] [] num_0 num_0] p) = [VStr Gallery.key].
Proof. split; by vm_compute. Qed.
