(* ===== verification/CanvasGenerate.v ===== *)
(** Generations on the page of a canvas: [handleGenerateNode] of
    [pages/canvas/project.tsx] with the metadata of
    [lib/canvas/canvas-node-factory.ts] and the configuration of
    [lib/canvas/canvas-generation-helpers.ts].

    A generation is a flight: what the asynchronous function holds between two awaits.
    It starts, waits for its media to be read, changes the document, and then takes the
    answers of the services as they arrive, while the user and other flights go on.
    What the services answer, fresh identifiers, texts in the language of the interface
    and the parts of plugins are arguments. *)

From Stdlib Require Import ZArith NArith Lia.
From stdpp Require Import base list.
From S2P Require Import Prelude JsString JsNumber JsValue CanvasGraph CanvasPrompt CanvasEditor.

Import Resources Helpers Geometry.

Inductive Mode := MText | MImage | MVideo | MAudio.

#[export] Instance mode_eq_dec : EqDecision Mode.
Proof. solve_decision. Defined.

Implicit Types (node : CanvasNodeData) (nodes : list CanvasNodeData) (p : Page) (config : jsval) (nodeId rootId : jstr).

(** * Configurations and metadata *)

Definition idle : jsval := VStr (js "idle").
Definition loading : jsval := VStr (js "loading").
Definition success : jsval := VStr (js "success").
Definition failed : jsval := VStr (js "error").

Definition status : jstr := js "status".
Definition errorDetails : jstr := js "errorDetails".

(** [a ?? b] *)
Definition or_null (a b : jsval) : jsval := match a with VUndef | VNull => b | _ => a end.

Section metadata.
(** [resolveModelForCapability] *)
Context (resolve_model : jsval → jsval → Mode → jsval).

(** The defaults that [buildGenerationConfig] uses *)
Definition defaultConfig : list (jstr * jsval) :=
  [(js "reasoningEffort", VStr (js "auto")); (js "quality", VStr (js "auto")); (js "size", VStr (js "1:1")); (js "background", VStr []);
   (js "videoSeconds", VStr (js "6")); (js "vquality", VStr (js "720")); (js "videoGenerateAudio", VStr (js "true"));
   (js "videoWatermark", VStr (js "false")); (js "audioVoice", VStr (js "alloy")); (js "audioFormat", VStr (js "mp3"));
   (js "audioSpeed", VStr (js "1")); (js "audioInstructions", VStr []); (js "count", VStr (js "1"))].

Definition buildGenerationConfig config (source : option CanvasNodeData) (mode : Mode) : jsval :=
  let own k := match source with Some node => meta node (js k) | None => VUndef end in
  let get k := prop config (js k) in
  let default_ k := prop (VObj defaultConfig) (js k) in
  let pick k own_k := (js k, or_else (own own_k) (or_else (get k) (default_ k))) in
  let count := or_else (own "count"%string)
    (or_else (if bool_decide (mode = MImage) then or_else (get "canvasImageCount"%string) (get "count"%string) else get "count"%string)
       (default_ "count"%string)) in
  spread_fields config (VObj
    [(js "model", resolve_model config (own "model"%string) mode); pick "reasoningEffort" "reasoningEffort"; pick "quality" "quality";
     pick "size" "size"; (js "background", or_null (own "background"%string) (or_null (get "background"%string) (default_ "background"%string)));
     pick "videoSeconds" "seconds"; pick "vquality" "vquality"; pick "videoGenerateAudio" "generateAudio"; pick "videoWatermark" "watermark";
     pick "audioVoice" "audioVoice"; pick "audioFormat" "audioFormat"; pick "audioSpeed" "audioSpeed";
     pick "audioInstructions" "audioInstructions"; (js "count", VStr (string_of_val count))])%string.
End metadata.

Definition imageMetadata (image : jsval) : list (jstr * jsval) :=
  [(js "content", prop image (js "url")); (js "storageKey", prop image (js "storageKey")); (status, success);
   (js "naturalWidth", prop image (js "width")); (js "naturalHeight", prop image (js "height")); (js "bytes", prop image (js "bytes"));
   (js "mimeType", prop image (js "mimeType"))].

Definition videoMetadata (video : jsval) : list (jstr * jsval) :=
  [(js "content", prop video (js "url")); (js "storageKey", prop video (js "storageKey")); (status, success);
   (js "naturalWidth", prop video (js "width")); (js "naturalHeight", prop video (js "height")); (js "bytes", prop video (js "bytes"));
   (js "mimeType", or_else (prop video (js "mimeType")) (VStr (js "video/mp4"))); (js "durationMs", prop video (js "durationMs"))].

Definition audioMetadata (audio : jsval) : list (jstr * jsval) :=
  [(js "content", prop audio (js "url")); (js "storageKey", prop audio (js "storageKey")); (status, success);
   (js "bytes", prop audio (js "bytes")); (js "mimeType", or_else (prop audio (js "mimeType")) (VStr (js "audio/mpeg")));
   (js "durationMs", prop audio (js "durationMs"))].

Definition is_data (v : jsval) : bool := match v with VStr s => startsWith s (js "data:") | _ => false end.

Definition referenceUrl (image : jsval) : jsval :=
  or_else (prop image (js "storageKey"))
    (or_else (prop image (js "url")) (if is_data (prop image (js "dataUrl")) then VUndef else prop image (js "dataUrl"))).

Definition urls (l : list jsval) : list jsval := filter (λ v, truthy_val v = true) l.

Definition buildImageGenerationMetadata (type : jstr) config (count : num) (references : list jsval) : list (jstr * jsval) :=
  let get k := (js k, prop config (js k)) in
  [(js "generationType", VStr type); get "model"%string; get "size"%string; get "quality"%string]
  ++ (if truthy_val (prop config (js "background")) then [get "background"%string] else [])
  ++ [(js "count", VNum count); (js "references", VArr (urls (referenceUrl <$> references)))].

Definition buildAudioGenerationMetadata config : list (jstr * jsval) :=
  (λ k, (k, prop config k)) <$> [js "model"; js "audioVoice"; js "audioFormat"; js "audioSpeed"; js "audioInstructions"].

Definition generationReferenceUrls (c : GenerationContext) : list jsval :=
  let stored v := or_else (prop v (js "storageKey")) (prop v (js "url")) in
  urls (referenceUrl <$> referenceImages c) ++ urls (stored <$> referenceVideos c) ++ urls (stored <$> referenceAudios c).

(** * Flights *)

(** What is known of one text *)
Inductive Reply := Waiting (streamed : jstr) | Written (content : jstr) | Broken (details : jstr) | Dropped.

(** Where a flight is: reading the media of its context; writing back into the node of a
    plugin; waiting for images, for a video or an audio, or for texts.  The identifiers
    are those of the node that shows the result and of the items that are awaited. *)
Inductive Phase :=
  | Hydrating (context : GenerationContext)
  | WritingBack (scene : jstr)
  | Drawing (rootId : jstr) (pending : list jstr) (hasSuccess : bool)
  | Recording (childId : jstr) (metadata : list (jstr * jsval)) (size : Size)
  | Answering (rootId : jstr) (replies : list (jstr * Reply)).

(** What the function holds: the node it was called for as it was then, and its
    [AbortController] *)
Record Flight := mkFlight {
  f_controller : nat;
  f_nodeId : jstr;
  f_mode : Mode;
  f_prompt : jstr;
  f_source : option CanvasNodeData;
  f_config : jsval;
  f_phase : Phase;
}.

Implicit Types (f : Flight).

Definition with_phase (ph : Phase) f : Flight :=
  mkFlight (f_controller f) (f_nodeId f) (f_mode f) (f_prompt f) (f_source f) (f_config f) ph.

(** What a service answered: a result, an error, or that the request was cancelled *)
Inductive Outcome := Delivered (v : jsval) | Refused (details : jstr) | Canceled.

Definition source_is (t : jstr) f : bool := match f_source f with Some node => is_type t node | None => false end.
Definition source_content f : jsval := match f_source f with Some node => meta node (js "content") | None => VUndef end.
Definition source_position f : num * num := match f_source f with Some node => (n_x node, n_y node) | None => (num_0, num_0) end.

(** [sourceTextContent] *)
Definition sourceTextContent f : jstr :=
  if source_is TText f then match source_content f with VStr s => trim s | _ => [] end else [].

Definition editingTextNode f : bool := bool_decide (f_mode f = MText) && truthy (sourceTextContent f).
Definition markSourceStatus f : bool := negb (source_is TImage f) && negb (editingTextNode f).

(** The node of the result is the node itself when it is empty. *)
Definition isEmptyNode (t : jstr) f : bool := source_is t f && negb (truthy_val (source_content f)).

Definition NODE_DEFAULT_SIZE (type : jstr) : Size :=
  if bool_decide (type = TVideo) then mkSize (num_of_Z 420) (num_of_Z 236)
  else if bool_decide (type = TAudio) then mkSize (num_of_Z 340) (num_of_Z 120)
  else if bool_decide (type = TGroup) then mkSize (num_of_Z 760) (num_of_Z 480)
  else mkSize (num_of_Z 340) (num_of_Z 240).

Definition or_number (n d : num) : num := if num_truthy n then n else d.
Definition or_text (a b : jstr) : jstr := if truthy a then a else b.
Definition title_of (prompt default_ : jstr) : jstr := or_text (slice prompt 0 32) default_.

Definition ninety_six : num := num_of_Z 96.

Definition is_aborted f p : bool := bool_decide (f_controller f ∈ aborted p).

(** [setNodes((prev) => prev.map((node) => node.id === id ? { ...node, metadata: { ...node.metadata, ...ks } } : node))] *)
Definition patch_node id (ks : list (jstr * jsval)) p : Page := update_node id (put_all ks) p.

Definition end_flight f p : Page :=
  set_marks (mark Running None) (finishGenerationRequest (f_nodeId f) (f_controller f) p).

(** ** Starting *)

Section start.
Context (label : Kind → nat → jstr) (plugin_resource : CanvasNodeData → option Resource).
(** The types of plugins whose results are written back, and the prompt for editing a
    text *)
Context (write_back : jstr → bool) (edit_prompt : jstr → jstr → jstr).

(** Up to the first await; [config] is [buildGenerationConfig] of the node *)
Definition begin_flight (controller_ : nat) nodeId (mode : Mode) (prompt : jstr) config (ready : bool) p : Page * option Flight :=
  let source := find_node nodeId (p_nodes p) in
  let flight := mkFlight controller_ nodeId mode prompt source config in
  let running p := startGenerationRequest nodeId nodeId nodeId controller_ (set_marks (mark Running (Some nodeId)) p) in
  if negb ready then (p, None)
  else
    let scene := trim prompt in
    let writing := flight (WritingBack scene) in
    if match source with Some node => write_back (n_type node) | None => false end
    then
      if truthy scene
      then (patch_node nodeId [(js "prompt", VStr scene); (status, loading); (errorDetails, VUndef)] (running p), Some writing)
      else (p, None)
    else
      let prompt := if editingTextNode writing then edit_prompt (sourceTextContent writing) prompt else prompt in
      (running p,
       Some (flight (Hydrating (buildNodeGenerationContext label plugin_resource nodeId (p_nodes p) (p_connections p) prompt)))).
End start.

(** ** The document while a flight waits *)

Definition connect_result (fresh : jstr) nodeId rootId p : Page := setConnections (λ cs, cs ++ [mkConnection fresh nodeId rootId]) p.

Definition show_source nodeId p : Page :=
  set_marks (mark Dialog (Some nodeId)) (selectConnection None (select [nodeId] p)).

(** [controller]: the request of the result, unless it is that of the node *)
Definition register_result f rootId p : Page :=
  if bool_decide (rootId = f_nodeId f) then p else startGenerationRequest rootId (f_nodeId f) (f_nodeId f) (f_controller f) p.

Definition waiting_image (id : jstr) : jsval :=
  VObj [(js "id", VStr id); (status, loading); (js "content", VStr []); (js "naturalWidth", VNum num_0); (js "naturalHeight", VNum num_0);
        (js "bytes", VNum num_0); (js "mimeType", VStr [])].

(** The images sent along: that of the node itself first *)
Definition drawing_references f (context : GenerationContext) : list jsval :=
  let own := match f_source f with
    | Some node => if with_content TImage node then [reference_image node (meta node (js "content"))] else []
    | None => [] end in
  by_id (λ image, string_of_val (prop image (js "id"))) (own ++ referenceImages context).

Definition drawing_root f rootId (itemIds : list jstr) (effectivePrompt : jstr) (context : GenerationContext) : CanvasNodeData :=
  let references := drawing_references f context in
  let empty := isEmptyNode TImage f in
  let parent := NODE_DEFAULT_SIZE (if source_is TConfig f then TConfig else if source_is TImage f then TImage else TText) in
  let image := NODE_DEFAULT_SIZE TImage in
  let '(x, y) := source_position f in
  let size_of (get : CanvasNodeData → num) d := match f_source f with
    | Some node => if empty then or_number (get node) d else d | None => d end in
  mkNode rootId TImage (title_of effectivePrompt (js "Generated Image"))
    (if empty then x else num_add (num_add x (z_width parent)) ninety_six)
    (num_sub (num_add y (half (z_height parent))) (half (z_height image)))
    (size_of n_width (z_width image)) (size_of n_height (z_height image))
    (VObj (foldl (λ o e, omap.set o e.1 e.2)
       [(js "prompt", VStr effectivePrompt); (status, loading); (js "images", VArr (waiting_image <$> itemIds))]
       (buildImageGenerationMetadata (if bool_decide (references = []) then js "generation" else js "edit") (f_config f)
          (getGenerationCount (string_of_val (prop (f_config f) (js "count")))) references))).

(** What becomes of the node that images are generated for *)
Definition drawing_source f (root : CanvasNodeData) node : CanvasNodeData :=
  if source_is TConfig f then put_all [(status, loading); (errorDetails, VUndef)] node
  else if isEmptyNode TImage f then
    mkNode (n_id node) (n_type node) (n_title root) (n_x root) (n_y root) (n_width root) (n_height root)
      (n_metadata (put_all (fields (n_metadata root) ++ [(errorDetails, VUndef)]) node))
  else if source_is TImage f then put_all [(status, success); (errorDetails, VUndef)] node
  else
    let parent := NODE_DEFAULT_SIZE TText in
    mkNode (n_id node) TText (title_of (f_prompt f) (js "Prompt")) (n_x node) (n_y node) (z_width parent) (z_height parent)
      (n_metadata (put_all [(js "content", VStr (f_prompt f)); (js "prompt", VStr (f_prompt f)); (status, success);
         (js "fontSize", VNum (num_of_Z 14)); (errorDetails, VUndef)] node)).

Definition start_drawing f (fresh freshConnection : jstr) (itemIds : list jstr) (effectivePrompt : jstr) (context : GenerationContext)
    p : Page * option Flight :=
  let nodeId := f_nodeId f in
  let empty := isEmptyNode TImage f in
  let rootId := if empty then nodeId else fresh in
  let root := drawing_root f rootId itemIds effectivePrompt context in
  let p := setNodes (λ nodes,
    ((λ node, if bool_decide (n_id node = nodeId) then drawing_source f root node else node) <$> nodes) ++ (if empty then [] else [root])) p in
  let p := if empty then p else connect_result freshConnection nodeId rootId p in
  (register_result f rootId (show_source nodeId p), Some (with_phase (Drawing rootId itemIds false) f)).

(** A video or an audio: the node of the result, what it gets at the end, and the size
    that a video without one has *)
Definition recording_spec f : Size :=
  match f_mode f with
  | MVideo => default (NODE_DEFAULT_SIZE TVideo)
      (match prop (f_config f) (js "size") with VStr s => nodeSizeFromRatio s (num_of_Z 420) (num_of_Z 236) | _ => None end)
  | _ => NODE_DEFAULT_SIZE TAudio
  end.

Definition recording_type f : jstr := match f_mode f with MVideo => TVideo | _ => TAudio end.

Definition recording_metadata f (effectivePrompt : jstr) (context : GenerationContext) : list (jstr * jsval) :=
  let get k k' := (js k, prop (f_config f) (js k')) in
  (js "prompt", VStr effectivePrompt) ::
  match f_mode f with
  | MVideo =>
      [get "model" "model"; get "size" "size"; get "seconds" "videoSeconds"; get "vquality" "vquality";
       get "generateAudio" "videoGenerateAudio"; get "watermark" "videoWatermark"; (js "references", VArr (generationReferenceUrls context))]%string
  | _ => buildAudioGenerationMetadata (f_config f)
  end.

Definition recording_node f childId (effectivePrompt : jstr) (context : GenerationContext) : CanvasNodeData :=
  let spec := recording_spec f in
  let type := recording_type f in
  let metadata := VObj (recording_metadata f effectivePrompt context ++ [(status, loading)]) in
  let title := title_of effectivePrompt (match f_mode f with MVideo => js "Generated Video" | _ => js "Generated Audio" end) in
  match f_source f, isEmptyNode type f with
  | Some node, true => mkNode childId type title (n_x node) (n_y node) (n_width node) (n_height node) metadata
  | source, _ =>
      let '(x, y) := source_position f in
      let w := match source with Some node => or_number (n_width node) (z_width spec) | None => z_width spec end in
      let h := match source with Some node => or_number (n_height node) (z_height spec) | None => z_height spec end in
      mkNode childId type title (num_add (num_add x w) ninety_six)
        (match f_mode f with MVideo => y | _ => num_add y (half (num_sub h (z_height spec))) end)
        (z_width spec) (z_height spec) metadata
  end.

Definition start_recording f (fresh freshConnection : jstr) (effectivePrompt : jstr) (context : GenerationContext) p : Page * option Flight :=
  let nodeId := f_nodeId f in
  let empty := isEmptyNode (recording_type f) f in
  let childId := if empty then nodeId else fresh in
  let child := recording_node f childId effectivePrompt context in
  let p :=
    if empty then update_node nodeId (λ _, child) p
    else connect_result freshConnection nodeId childId (setNodes (λ nodes,
      ((λ node, if bool_decide (n_id node = nodeId) then put_meta status success node else node) <$> nodes) ++ [child]) p) in
  (startGenerationRequest childId nodeId nodeId (f_controller f) p,
   Some (with_phase (Recording childId (recording_metadata f effectivePrompt context) (recording_spec f)) f)).

Definition waiting_text (id : jstr) : jsval := VObj [(js "id", VStr id); (status, loading); (js "content", VStr [])].

Definition isEmptyTextNode f : bool := source_is TText f && negb (truthy (sourceTextContent f)).

Definition text_count f : num :=
  getGenerationCount (string_of_val (or_else (match f_source f with Some node => meta node (js "textCount") | None => VUndef end) (VNum (num_of_Z 1)))).

Definition answering_root f rootId (itemIds : list jstr) (effectivePrompt : jstr) : CanvasNodeData :=
  let parent := NODE_DEFAULT_SIZE (if source_is TConfig f then TConfig else TText) in
  let text := NODE_DEFAULT_SIZE TText in
  let get k := (js k, prop (f_config f) (js k)) in
  let metadata := VObj
    [(js "prompt", VStr effectivePrompt); (status, loading); (js "fontSize", VNum (num_of_Z 14)); get "model"%string; get "reasoningEffort"%string;
     (js "textCount", VNum (text_count f)); (js "texts", VArr (waiting_text <$> itemIds));
     (js "primaryTextId", match itemIds with i :: _ => VStr i | [] => VUndef end)] in
  let title := title_of effectivePrompt (js "Generated Text") in
  match f_source f, isEmptyTextNode f with
  | Some node, true => mkNode rootId TText title (n_x node) (n_y node) (n_width node) (n_height node) metadata
  | _, _ =>
      let '(x, y) := source_position f in
      mkNode rootId TText title (num_add (num_add x (z_width parent)) ninety_six)
        (num_sub (num_add y (half (z_height parent))) (half (z_height text))) (z_width text) (z_height text) metadata
  end.

Definition start_answering f (fresh freshConnection : jstr) (itemIds : list jstr) (effectivePrompt : jstr) p : Page * option Flight :=
  let nodeId := f_nodeId f in
  let empty := isEmptyTextNode f in
  let rootId := if empty then nodeId else fresh in
  let root := answering_root f rootId itemIds effectivePrompt in
  let p :=
    if empty then update_node nodeId (λ _, root) p
    else connect_result freshConnection nodeId rootId (setNodes (λ nodes,
      ((λ node, if bool_decide (n_id node = nodeId) && source_is TConfig f
                then put_all [(status, loading); (errorDetails, VUndef)] node else node) <$> nodes) ++ [root]) p) in
  (register_result f rootId (show_source nodeId p), Some (with_phase (Answering rootId ((λ i, (i, Waiting [])) <$> itemIds)) f)).

(** The media of the context have been read: [images] are those of the context with their
    data *)
Definition with_images (images : list jsval) (c : GenerationContext) : GenerationContext :=
  mkContext (g_prompt c) images (referenceVideos c) (referenceAudios c) (textCount c) (imageCount c) (videoCount c) (audioCount c).

Definition prepared f (context : GenerationContext) (images : list jsval) (fresh freshConnection : jstr) (itemIds : list jstr) p
    : Page * option Flight :=
  let context := with_images images context in
  let effectivePrompt := trim (g_prompt context) in
  if is_aborted f p || negb (truthy effectivePrompt) && bool_decide (f_mode f = MText ∨ f_mode f = MAudio) then (end_flight f p, None)
  else
    let mine node := (if is_type TConfig node then [] else [(js "prompt", VStr (f_prompt f))]) ++ [(status, loading); (errorDetails, VUndef)] in
    let p := if markSourceStatus f then update_node (f_nodeId f) (λ node, put_all (mine node) node) p else p in
    match f_mode f with
    | MImage => start_drawing f fresh freshConnection itemIds effectivePrompt context p
    | MVideo | MAudio => start_recording f fresh freshConnection effectivePrompt context p
    | MText => start_answering f fresh freshConnection itemIds effectivePrompt p
    end.

(** ** Answers *)

Section answers.
(** [t("canvas.projectPage.generationFailed")] and [t("canvas.projectPage.allFailed")] *)
Context (generation_failed all_failed : jstr).

(** [items?.map((item) => item.id === id ? f(item) : item)] *)
Definition map_item id (f : jsval → jsval) (v : jsval) : jsval :=
  map_items (λ item, if bool_decide (prop item (js "id") = VStr id) then f item else item) v.

Definition set_fields (ks : list (jstr * jsval)) (v : jsval) : jsval := spread_fields v (VObj ks).

(** An image has arrived. *)
Definition drawn_item (imageId : jstr) (u : jsval) : jsval :=
  VObj [(js "id", VStr imageId); (status, success); (js "content", prop u (js "url")); (js "storageKey", prop u (js "storageKey"));
        (js "naturalWidth", prop u (js "width")); (js "naturalHeight", prop u (js "height")); (js "bytes", prop u (js "bytes"));
        (js "mimeType", prop u (js "mimeType"))].

Definition drawn_node (imageId : jstr) (u : jsval) node : CanvasNodeData :=
  let images := match meta node (js "images") with VArr _ => map_item imageId (λ _, drawn_item imageId u) (meta node (js "images")) | _ => VArr [] end in
  if truthy_val (meta node (js "primaryImageId")) then put_meta (js "images") images node
  else
    let image := NODE_DEFAULT_SIZE TImage in
    resized (fitNodeSize (num_of (prop u (js "width"))) (num_of (prop u (js "height"))) (z_width image) (z_height image))
      (put_all [(js "content", prop u (js "url")); (js "storageKey", prop u (js "storageKey")); (js "naturalWidth", prop u (js "width"));
                (js "naturalHeight", prop u (js "height")); (js "bytes", prop u (js "bytes")); (js "mimeType", prop u (js "mimeType"));
                (js "images", images); (js "primaryImageId", VStr imageId)] node).

Definition draw f rootId (imageId : jstr) (o : Outcome) p : Page :=
  match o with
  | Delivered u =>
      let p := update_node rootId (drawn_node imageId u) p in
      if source_is TConfig f then patch_node (f_nodeId f) [(status, success); (errorDetails, VUndef)] p else p
  | Refused details =>
      update_node rootId (λ node,
        put_meta (js "images") (map_item imageId (set_fields [(status, failed); (errorDetails, VStr details)]) (meta node (js "images"))) node) p
  | Canceled => p
  end.

(** All images have been answered. *)
Definition stop_config f node : CanvasNodeData :=
  if bool_decide (n_id node = f_nodeId f) && source_is TConfig f && is_loading node then put_all [(status, idle); (errorDetails, VUndef)] node else node.

Definition outcome_of (hasSuccess : bool) (details : jstr) : list (jstr * jsval) :=
  [(status, if hasSuccess then success else failed); (errorDetails, if hasSuccess then VUndef else VStr details)].

Definition settle_drawing f rootId (hasSuccess : bool) node : CanvasNodeData :=
  if bool_decide (n_id node = f_nodeId f) && source_is TConfig f then put_all (outcome_of hasSuccess generation_failed) node
  else if bool_decide (n_id node = rootId) then put_all (outcome_of hasSuccess all_failed) node
  else node.

Definition unregister_result f rootId p : Page :=
  if bool_decide (rootId = f_nodeId f) then p else finishGenerationRequest rootId (f_controller f) p.

Definition end_drawing f rootId (hasSuccess : bool) p : Page :=
  let p := unregister_result f rootId p in
  end_flight f (setNodes (λ nodes, (if is_aborted f p then stop_config f else settle_drawing f rootId hasSuccess) <$> nodes) p).

(** A video or an audio has arrived, or the request has failed. *)
Definition recorded_node f (metadata : list (jstr * jsval)) (spec : Size) (v : jsval) node : CanvasNodeData :=
  match f_mode f with
  | MVideo =>
      let wide k d := or_number (match prop v (js k) with VNum n => n | _ => num_0 end) d in
      resized (fitNodeSize (wide "width"%string (z_width spec)) (wide "height"%string (z_height spec)) (num_of_Z 420) (num_of_Z 420))
        (put_all (videoMetadata v ++ metadata) node)
  | _ => put_all (audioMetadata v ++ metadata) node
  end.

Definition broken_node f childId (details : jstr) node : CanvasNodeData :=
  if bool_decide (n_id node = f_nodeId f) && negb (markSourceStatus f) then node
  else if bool_decide (n_id node = f_nodeId f ∨ n_id node = childId) then put_all [(status, failed); (errorDetails, VStr details)] node
  else node.

Definition record f childId (metadata : list (jstr * jsval)) (spec : Size) (o : Outcome) p : Page :=
  match o with
  | Delivered v => end_flight f (finishGenerationRequest childId (f_controller f) (update_node childId (recorded_node f metadata spec v) p))
  | Refused details =>
      end_flight f (setNodes (λ nodes, broken_node f childId details <$> nodes) (finishGenerationRequest childId (f_controller f) p))
  | Canceled => end_flight f (finishGenerationRequest childId (f_controller f) p)
  end.

(** A text, or a part of it, has arrived. *)
Definition text_arrived (textId content : jstr) (ks : list (jstr * jsval)) node : CanvasNodeData :=
  let node' := if bool_decide (meta node (js "primaryTextId") = VStr textId) then put_meta (js "content") (VStr content) node else node in
  put_meta (js "texts") (map_item textId (set_fields ((js "content", VStr content) :: ks)) (meta node (js "texts"))) node'.

Definition answer rootId (textId : jstr) (streamed : jstr) (o : Outcome) p : Page * Reply :=
  match o with
  | Delivered v =>
      let content := or_text (string_of_val v) streamed in
      (update_node rootId (text_arrived textId content [(status, success)]) p, Written content)
  | Refused details =>
      (update_node rootId (λ node,
         put_meta (js "texts") (map_item textId (set_fields [(status, failed); (errorDetails, VStr details)]) (meta node (js "texts"))) node) p,
       Broken details)
  | Canceled => (p, Dropped)
  end.

Definition completedTexts (replies : list (jstr * Reply)) : list (jstr * jstr) :=
  base.omap (λ x, match x.2 with Written content => Some (x.1, content) | _ => None end) replies.

Definition text_value (x : jstr * jstr) : jsval := VObj [(js "id", VStr x.1); (status, success); (js "content", VStr x.2)].

Definition settle_answering f rootId (completed : list (jstr * jstr)) node : CanvasNodeData :=
  if bool_decide (n_id node = rootId) then
    let primary := match List.find (λ x, bool_decide (VStr x.1 = meta node (js "primaryTextId"))) completed with
      | Some x => Some x | None => head completed end in
    put_all ([(js "content", match primary with Some x => VStr x.2 | None => VStr [] end); (js "texts", VArr (text_value <$> completed));
              (js "primaryTextId", match primary with Some x => VStr x.1 | None => VUndef end)]
             ++ outcome_of (bool_decide (is_Some primary)) generation_failed) node
  else if bool_decide (n_id node = f_nodeId f) && source_is TConfig f
  then put_all (outcome_of (negb (bool_decide (completed = []))) generation_failed) node
  else node.

Definition end_answering f rootId (replies : list (jstr * Reply)) p : Page :=
  let p := unregister_result f rootId p in
  if is_aborted f p then end_flight f p
  else
    let completed := completedTexts replies in
    let p := if (length completed <=? 1)%nat then set_expanded (filter (λ i, i ≠ rootId) (expandedBatchNodeIds (ui p))) p else p in
    end_flight f (setNodes (λ nodes, settle_answering f rootId completed <$> nodes) p).

(** The result that is written back into the node of a plugin *)
Definition written_back f (scene : jstr) (o : Outcome) p : Page :=
  let id := f_nodeId f in
  finishGenerationRequest id (f_controller f)
    match o with
    | Delivered u =>
        set_marks (mark Dialog None)
          (patch_node id (imageMetadata u ++ [(js "prompt", VStr scene); (js "model", prop (f_config f) (js "model")); (status, success); (errorDetails, VUndef)]) p)
    | Refused details => patch_node id [(status, failed); (errorDetails, VStr details)] p
    | Canceled => p
    end.

Definition replace_reply (id : jstr) (r : Reply) (replies : list (jstr * Reply)) : list (jstr * Reply) :=
  (λ x, if bool_decide (x.1 = id) then (x.1, r) else x) <$> replies.

Definition waiting (r : Reply) : bool := match r with Waiting _ => true | _ => false end.

(** An answer for an item that the flight awaits; when it was the last the flight ends. *)
Definition arrived f (item : jstr) (o : Outcome) p : Page * option Flight :=
  match f_phase f with
  | Hydrating _ => (p, Some f)
  | WritingBack scene => (written_back f scene o p, None)
  | Drawing rootId pending hasSuccess =>
      if has pending item then
        let p := draw f rootId item o p in
        let hasSuccess := hasSuccess || match o with Delivered _ => true | _ => false end in
        match filter (λ i, i ≠ item) pending with
        | [] => (end_drawing f rootId hasSuccess p, None)
        | pending => (p, Some (with_phase (Drawing rootId pending hasSuccess) f))
        end
      else (p, Some f)
  | Recording childId metadata spec => (record f childId metadata spec o p, None)
  | Answering rootId replies =>
      match omap.get replies item with
      | Some (Waiting streamed) =>
          let '(p, r) := answer rootId item streamed o p in
          let replies := replace_reply item r replies in
          if existsb (λ x, waiting x.2) replies then (p, Some (with_phase (Answering rootId replies) f))
          else (end_answering f rootId replies p, None)
      | _ => (p, Some f)
      end
  end.

Definition streamed f (item text : jstr) p : Page * option Flight :=
  match f_phase f with
  | Answering rootId replies =>
      match omap.get replies item with
      | Some (Waiting _) =>
          (update_node rootId (text_arrived item text []) p, Some (with_phase (Answering rootId (replace_reply item (Waiting text) replies)) f))
      | _ => (p, Some f)
      end
  | _ => (p, Some f)
  end.
End answers.

(** * The page with its flights *)

Record Studio := mkStudio { page : Page; flights : list Flight }.

Implicit Types (st : Studio).

(** What happens: an event of the page, or a step of a flight *)
Inductive happening :=
  | OnPage (ev : event)
  | Begin (controller_ : nat) (nodeId : jstr) (mode : Mode) (prompt : jstr) (config : jsval) (ready : bool)
  | Prepared (controller_ : nat) (images : list jsval) (fresh freshConnection : jstr) (itemIds : list jstr)
  | HydrationFails (controller_ : nat)
  | Streams (controller_ : nat) (item text : jstr)
  | Arrives (controller_ : nat) (item : jstr) (o : Outcome).

Definition find_flight (c : nat) (fs : list Flight) : option Flight := List.find (λ f, (f_controller f =? c)%nat) fs.

(** A flight goes on or ends. *)
Definition replace_flight (c : nat) (next : option Flight) (fs : list Flight) : list Flight :=
  match next with
  | Some f' => (λ f, if (f_controller f =? c)%nat then f' else f) <$> fs
  | None => filter (λ f, f_controller f ≠ c) fs
  end.

(** A step of the flight with controller [c] *)
Definition fly (c : nat) (move : Flight → Page → Page * option Flight) st : Studio :=
  match find_flight c (flights st) with
  | None => st
  | Some f =>
      let '(p, next) := move f (page st) in
      mkStudio (render (page st) p) (replace_flight c next (flights st))
  end.

Section studio.
Context (type_title : jstr → jstr) (plugin_spec : jstr → Spec) (plugin_panel hides_panel : jstr → bool)
  (plugin_resource : CanvasNodeData → option Resource) (projectId : jstr).
Context (label : Kind → nat → jstr) (write_back : jstr → bool) (edit_prompt : jstr → jstr → jstr) (generation_failed all_failed : jstr).

(** The await of the media throws outside of the [try]. *)
Definition advance (h : happening) st : Studio :=
  match h with
  | OnPage ev => mkStudio (step type_title plugin_spec plugin_panel hides_panel plugin_resource projectId ev (page st)) (flights st)
  | Begin c nodeId mode prompt config ready =>
      let '(p, f) := begin_flight label plugin_resource write_back edit_prompt c nodeId mode prompt config ready (page st) in
      mkStudio (render (page st) p) (flights st ++ option_list f)
  | Prepared c images fresh freshConnection itemIds =>
      fly c (λ f p, match f_phase f with
        | Hydrating context => prepared f context images fresh freshConnection itemIds p
        | _ => (p, Some f) end) st
  | HydrationFails c =>
      fly c (λ f p, match f_phase f with Hydrating _ => (p, None) | _ => (p, Some f) end) st
  | Streams c item text => fly c (λ f p, streamed f item text p) st
  | Arrives c item o => fly c (λ f p, arrived generation_failed all_failed f item o p) st
  end.

Definition advance_all (hs : list happening) st : Studio := foldl (λ st h, advance h st) st hs.
End studio.
