(* ===== verification/CanvasLoading.v ===== *)
(** Nodes of a canvas that show that they are loading, and what the events of the page do
    to them. *)

From Stdlib Require Import ZArith NArith Lia.
From stdpp Require Import base list.
From S2P Require Import Prelude JsString JsNumber JsValue CanvasGraph CanvasGraphProps CanvasPrompt CanvasEditor CanvasHistory CanvasSound CanvasGenerate.

Import Resources Helpers Geometry.

Implicit Types (node : CanvasNodeData) (nodes : list CanvasNodeData) (p q : Page) (f g : Flight) (st : Studio) (id nodeId : jstr).

(** * Nodes that are loading *)

Definition loads p : list jstr := n_id <$> filter (λ node, is_loading node = true) (p_nodes p).

Lemma elem_of_loads id p : id ∈ loads p ↔ ∃ node, node ∈ p_nodes p ∧ n_id node = id ∧ is_loading node = true.
Proof. unfold loads. rewrite list_elem_of_fmap. setoid_rewrite list_elem_of_filter. naive_solver. Qed.

(** ** What a change does to the status *)

Lemma meta_put_all_get (ks : list (jstr * jsval)) node k : meta (put_all ks node) k = default (meta node k) (omap.get (reverse ks) k).
Proof.
  unfold put_all. induction ks as [|[k' v] ks IH] using rev_ind; [done|]. rewrite foldl_app, reverse_snoc. cbn [foldl fst snd omap.get].
  rewrite meta_put, IH. by repeat case_decide.
Qed.

Lemma put_all_head ks node : n_id (put_all ks node) = n_id node ∧ n_type (put_all ks node) = n_type node.
Proof. unfold put_all. revert node. induction ks as [|x ks IH]; intros node; [done|]. by apply (IH (put_meta x.1 x.2 node)). Qed.

Lemma put_all_id ks node : n_id (put_all ks node) = n_id node.
Proof. apply put_all_head. Qed.

Lemma status_set ks v node : omap.get (reverse ks) status = Some v → is_loading (put_all ks node) = bool_decide (v = loading).
Proof. intros E. unfold is_loading. change (js "status") with status. by rewrite meta_put_all_get, E. Qed.

Lemma status_kept ks node : omap.get (reverse ks) status = None → is_loading (put_all ks node) = is_loading node.
Proof. intros E. unfold is_loading. change (js "status") with status. by rewrite meta_put_all_get, E. Qed.

Lemma status_put k v node : k ≠ status → is_loading (put_meta k v node) = is_loading node.
Proof. intros Hk. apply (status_kept [(k, v)]). cbn. by rewrite decide_False by congruence. Qed.

(** Only the identifier and the metadata matter. *)
Lemma is_loading_meta a b : n_metadata a = n_metadata b → is_loading a = is_loading b.
Proof. unfold is_loading, meta. by intros ->. Qed.

(** A change that makes no node load *)
Definition quiet (h : CanvasNodeData → CanvasNodeData) : Prop := ∀ node, n_id (h node) = n_id node ∧ (is_loading (h node) = true → is_loading node = true).

Lemma quiet_if (b : CanvasNodeData → bool) h : quiet h → quiet (λ node, if b node then h node else node).
Proof. intros H node. destruct (b node); [apply H|done]. Qed.

Lemma quiet_put_all ks : omap.get (reverse ks) status ≠ Some loading → quiet (put_all ks).
Proof.
  intros H node. split; [apply put_all_id|]. destruct (omap.get (reverse ks) status) as [v|] eqn:E.
  - rewrite (status_set _ v) by done. rewrite bool_decide_eq_true. congruence.
  - by rewrite status_kept.
Qed.

Lemma quiet_put k v : (k = status → v ≠ loading) → quiet (put_meta k v).
Proof. intros H. apply (quiet_put_all [(k, v)]). cbn. case_decide; [|done]. intros [= ->]. by apply H. Qed.

Lemma loads_map h p : quiet h → ∀ id, id ∈ loads (setNodes (λ nodes, h <$> nodes) p) → id ∈ loads p.
Proof.
  intros H id (node & (m & -> & Hm)%list_elem_of_fmap & Hid & Hl)%elem_of_loads. destruct (H m) as [H1 H2].
  apply elem_of_loads. exists m. split; [done|]. split; [congruence|auto].
Qed.

Lemma loads_same p q : doc q = doc p → loads q = loads p.
Proof. unfold loads, p_nodes. by intros ->. Qed.

Lemma loads_update id h p : quiet h → ∀ x, x ∈ loads (update_node id h p) → x ∈ loads p.
Proof. intros H. apply loads_map. by apply (quiet_if (λ node, bool_decide (n_id node = id))). Qed.

(** A node that is changed to one that is not loading does not load. *)
Lemma loads_cured id h p :
  (∀ node, n_id (h node) = n_id node ∧ is_loading (h node) = false) → ∀ x, x ∈ loads (update_node id h p) → x ∈ loads p ∧ x ≠ id.
Proof.
  intros H x (node & (m & -> & Hm)%list_elem_of_fmap & Hid & Hl)%elem_of_loads. case_bool_decide as E.
  - destruct (H m) as [_ H2]. congruence.
  - split; [apply elem_of_loads; by exists m|congruence].
Qed.

Lemma loads_others id h p :
  (∀ node, n_id node = id → n_id (h node) = id) → ∀ x, x ∈ loads (update_node id h p) → x = id ∨ x ∈ loads p.
Proof.
  intros H x (node & (m & -> & Hm)%list_elem_of_fmap & Hid & Hl)%elem_of_loads. case_bool_decide as E.
  - left. rewrite H in Hid; done.
  - right. apply elem_of_loads. by exists m.
Qed.

Lemma loads_add (node : CanvasNodeData) p : ∀ x, x ∈ loads (setNodes (λ nodes, nodes ++ [node]) p) → x ∈ loads p ∨ (x = n_id node ∧ is_loading node = true).
Proof.
  intros x (m & [Hm|Hm]%elem_of_app & Hid & Hl)%elem_of_loads.
  - left. apply elem_of_loads. by exists m.
  - apply list_elem_of_singleton in Hm as ->. by right.
Qed.

(** * Events of the page *)

Section events.
Context (tt : jstr → jstr) (ps : jstr → Spec) (pp hp : jstr → bool) (pr : CanvasNodeData → option Resource) (pid : jstr).
Context (Hps : ∀ type, prop (p_metadata (ps type)) status ≠ loading).
Implicit Types (ev : event).

(** No node of a document is loading that is not loading on the page. *)
Definition quiet_entry (e : Entry) p : Prop :=
  Forall (λ node, is_loading node = false ∨ n_id node ∈ loads p) (val (e_nodes e)).

(** Events that bring back no node that is loading in the document undone to, copy no node
    that loads, and do not write a status.  Requests are registered by the flights. *)
Definition tame ev p : Prop :=
  match ev with
  | StartRequest _ _ _ _ | FinishRequest _ _ => False
  | Undo => match pop (past (history p)) with Some (_, e) => quiet_entry e p | None => True end
  | Redo => match pop (future (history p)) with Some (_, e) => quiet_entry e p | None => True end
  | DuplicateNode _ nodeId => match find_node nodeId (p_nodes p) with Some node => is_loading node = false | None => True end
  | Paste _ _ _ _ => match clipboard p with Some c => Forall (λ node, is_loading node = false) c.1 | None => True end
  | ChangeConfig _ patch => omap.get (fields patch) status = None
  | _ => True
  end.

#[export] Instance tame_dec ev p : Decision (tame ev p).
Proof. destruct ev; cbn [tame]; unfold quiet_entry; repeat case_match; apply _. Defined.

Lemma quiet_entry_loads e n p q : quiet_entry e p → ∀ x, x ∈ loads (with_doc e n q) → x ∈ loads p.
Proof.
  intros He x (node & Hn & <- & Hl)%elem_of_loads. unfold quiet_entry in He. rewrite Forall_forall in He.
  destruct (He node Hn); [congruence|done].
Qed.

Definition stops ev : bool := match ev with StopRequests _ _ => true | _ => false end.

Lemma created_quiet fresh type x y config : is_loading (createCanvasNode tt ps fresh type x y (config_metadata type config)) = false.
Proof.
  unfold is_loading. apply bool_decide_eq_false. change (js "status") with status. unfold meta, createCanvasNode.
  cbn [n_metadata spread_fields prop]. rewrite get_spread.
  - unfold getNodeSpec. destruct (built_in type).
    + unfold NODE_SPECS. repeat case_bool_decide; vm_compute; discriminate.
    + specialize (Hps type). unfold fields. destruct (p_metadata (ps type)); try (vm_compute; discriminate). exact Hps.
  - unfold config_metadata. case_bool_decide; reflexivity.
Qed.

Lemma loads_created node p : is_loading node = false → ∀ x, x ∈ loads (setNodes (λ nodes, nodes ++ [node]) p) → x ∈ loads p.
Proof. intros H x [Hx|[_ Hl]]%loads_add; [done|congruence]. Qed.

Lemma loads_deleted ids p : ∀ x, x ∈ loads (setNodes (remaining_nodes ids) p) → x ∈ loads p.
Proof.
  intros x (node & (m & -> & [_ Hm]%list_elem_of_filter)%list_elem_of_fmap & Hid & Hl)%elem_of_loads.
  apply elem_of_loads. exists m. split; [done|]. split; [rewrite <- Hid; symmetry; apply leave_group_head|].
  revert Hl. unfold leave_group. repeat case_match; try done. by rewrite status_put by (vm_compute; discriminate).
Qed.

Lemma quiet_displace initial dx dy : quiet (displace initial dx dy).
Proof. intros node. unfold displace. destruct (omap.get _ _) as [[x y]|]; done. Qed.

Lemma quiet_config patch : omap.get (fields patch) status = None → quiet (applyNodeConfigPatch patch).
Proof.
  intros Hp node. assert (is_loading (with_metadata (spread_fields (n_metadata node) patch) node) = is_loading node) as H.
  { unfold is_loading, meta, spread_fields. cbn [n_metadata with_metadata prop]. change (js "status") with status. rewrite get_spread by done.
    by destruct (n_metadata node). }
  unfold applyNodeConfigPatch. cbv zeta. rewrite <- H. repeat case_match; done.
Qed.

Lemma quiet_primary itemId : quiet (set_primary itemId).
Proof.
  intros node. unfold set_primary. assert (∀ ks, omap.get (reverse ks) status ≠ Some loading → n_id (put_all ks node) = n_id node
    ∧ (is_loading (put_all ks node) = true → is_loading node = true)) as H by (intros; by apply quiet_put_all).
  destruct (is_type TText node).
  - destruct (find_item _ _); [|done]. destruct (truthy_val _); [|done]. apply H. vm_compute. discriminate.
  - destruct (find_item _ _) as [image|]; [|done]. destruct (truthy_val _); [|done]. unfold primary_image. cbv zeta.
    apply H. vm_compute. discriminate.
Qed.

Lemma quiet_toggle : quiet toggle_resize.
Proof.
  intros node. unfold toggle_resize. cbv zeta. set (v := VBool _).
  destruct (quiet_put (js "freeResize") v) with (node := node) as [H1 H2]; [by vm_compute|]. destruct (_ || _); [done|].
  by split.
Qed.

Lemma loads_dropped initial dx dy p : ∀ x, x ∈ loads (setNodes (drop_nodes initial dx dy) p) → x ∈ loads p.
Proof.
  intros x (node & Hn & Hid & Hl)%elem_of_loads. cbn in Hn. unfold drop_nodes in Hn. cbv zeta in Hn.
  assert (quiet (displace initial dx dy)) as Hq by apply quiet_displace.
  assert (∀ m, m ∈ displace initial dx dy <$> p_nodes p → is_loading m = true → n_id m ∈ loads p) as Hm.
  { intros m (m0 & -> & H0)%list_elem_of_fmap Hm. destruct (Hq m0) as [H1 H2]. rewrite H1. apply elem_of_loads. exists m0. auto. }
  set (moved := displace initial dx dy <$> p_nodes p) in *. rewrite <- Hid. destruct (findGroupDropTarget initial.*1 moved) as [group|].
  - unfold snapNodesIntoGroup in Hn. destruct (filter _ moved); [by apply Hm|]. cbv zeta in Hn.
    apply list_elem_of_fmap in Hn as (m & -> & Hin). destruct (moving _ m); [|by apply Hm]. apply (Hm m); [done|].
    by rewrite status_put in Hl by (vm_compute; discriminate).
  - apply list_elem_of_fmap in Hn as (m & -> & Hin). unfold regroup_dropped in *. destruct (moving _ m); [|by apply Hm]. cbv zeta in *.
    case_bool_decide; [by apply Hm|]. apply (Hm m); [done|]. by rewrite status_put in Hl by (vm_compute; discriminate).
Qed.

(** No node starts to load. *)
Definition settles p q : Prop := ∀ x, x ∈ loads q → x ∈ loads p.

Lemma settles_refl p : settles p p.
Proof. by intros x. Qed.
Lemma settles_same p q q' : doc q' = doc q → settles p q → settles p q'.
Proof. intros E H x. rewrite (loads_same _ _ E). apply H. Qed.
Lemma settles_trans p q r : settles p q → settles q r → settles p r.
Proof. intros H1 H2 x Hx. by apply H1, H2. Qed.
Lemma settles_connections h p q : settles p q → settles p (setConnections h q).
Proof. intros H x Hx. by apply H. Qed.

Lemma settles_deleted ids p q : settles p q → settles p (setNodes (remaining_nodes ids) q).
Proof. intros H x Hx. by eapply H, loads_deleted. Qed.
Lemma settles_dropped initial dx dy p q : settles p q → settles p (setNodes (drop_nodes initial dx dy) q).
Proof. intros H x Hx. by eapply H, loads_dropped. Qed.
Lemma settles_map h p q : quiet h → settles p q → settles p (setNodes (λ nodes, h <$> nodes) q).
Proof. intros Hh H x Hx. by eapply H, loads_map. Qed.
Lemma settles_update id h p q : quiet h → settles p q → settles p (update_node id h q).
Proof. intros Hh H x Hx. by eapply H, loads_update. Qed.

(** Strip what does not touch the nodes. *)
Ltac settling := cbv zeta; repeat match goal with
  | |- settles ?p ?p => apply settles_refl
  | H : settles ?p ?q |- settles ?p ?q => exact H
  | |- settles _ (setConnections _ _) => apply settles_connections
  | |- settles _ (select _ ?q) => apply (settles_same _ q); [done|]
  | |- settles _ (selectConnection _ ?q) => apply (settles_same _ q); [done|]
  | |- settles _ (set_marks _ ?q) => apply (settles_same _ q); [done|]
  | |- settles _ (set_menu _ ?q) => apply (settles_same _ q); [done|]
  | |- settles _ (set_expanded _ ?q) => apply (settles_same _ q); [done|]
  | |- settles _ (set_connecting _ _ ?q) => apply (settles_same _ q); [done|]
  | |- settles _ (cleanupCanvasFiles _ ?q) => apply (settles_same _ q); [done|]
  | |- settles _ (with_requests _ _ ?q) => apply (settles_same _ q); [done|]
  | |- settles _ (with_clipboard _ ?q) => apply (settles_same _ q); [done|]
  | |- settles _ (with_drag _ ?q) => apply (settles_same _ q); [done|]
  | |- settles _ (with_history _ ?q) => apply (settles_same _ q); [done|]
  | |- settles _ (setNodes (remaining_nodes _) _) => apply settles_deleted
  | |- settles _ (setNodes (drop_nodes _ _ _) _) => apply settles_dropped
  | |- settles _ (match ?x with _ => _ end) => destruct x
  end.

Lemma settles_created node p : is_loading node = false → settles p (setNodes (λ nodes, nodes ++ [node]) p).
Proof. intros H x. by apply loads_created. Qed.

Lemma settles_pasted nodes fresh cx cy p :
  Forall (λ node, is_loading node = false) nodes → settles p (setNodes (λ ns, ns ++ pasted_nodes nodes fresh cx cy) p).
Proof.
  intros Hq x (m & [Hm|Hm]%elem_of_app & Hid & Hl)%elem_of_loads; [apply elem_of_loads; by exists m|exfalso].
  apply list_elem_of_fmap in Hm as (c & -> & Hc). apply list_elem_of_lookup in Hc as [i Hc].
  apply lookup_zip_with_Some in Hc as (fr & node & -> & _ & Hn%list_elem_of_lookup_2). rewrite Forall_forall in Hq. specialize (Hq node Hn).
  revert Hl. unfold regroup. repeat case_match; rewrite ?status_put by (vm_compute; discriminate);
    rewrite (is_loading_meta _ node) by done; congruence.
Qed.

Lemma tame_loads ev p : tame ev p → settles p (handle tt ps pp hp pr pid ev p).
Proof.
  destruct ev; intros Ht; try done; cbn [handle]; cbn [tame] in Ht.
  - unfold createNode. settling; apply settles_created, created_quiet.
  - unfold deleteNodes. settling.
  - unfold clearCanvas, deselectCanvas, cancelPendingConnectionCreate. settling. by intros x (node & Hn%elem_of_nil & _)%elem_of_loads.
  - unfold duplicateNode. destruct (find_node _ _) as [node|]; settling; by apply settles_created.
  - unfold copySelectedNodes. settling.
  - unfold pasteCopiedNodes. destruct (clipboard p) as [[[|node nodes] connections]|]; settling. by apply settles_pasted.
  - unfold handleConnectStart. settling.
  - unfold release_connection, connectNodes. settling.
  - unfold createConnectedNode. settling; apply settles_created, created_quiet.
  - unfold deleteConnection. settling.
  - unfold disconnectNodeReference. settling.
  - unfold startNodeReferenceSelection. settling.
  - unfold exitNodeReferenceSelection. settling.
  - unfold selectNodeReference. settling.
  - unfold deselectCanvas, cancelPendingConnectionCreate. settling.
  - settling.
  - unfold handleNodeSelectCapture, selectNodeByEvent. settling.
  - unfold handleNodeMouseDown, handleNodeSelectCapture, selectNodeByEvent. settling.
  - unfold handleDragMove. settling.
  - unfold dragFrame. settling. apply settles_map; [apply quiet_displace|settling].
  - unfold finishNodeDrag. settling.
  - apply settles_update; [|settling]. intros node. by destruct (default _ _).
  - apply settles_update; [apply quiet_toggle|settling].
  - apply settles_update; [|settling]. intros node. unfold change_content. cbv zeta. split; [done|]. by rewrite !status_put by (vm_compute; discriminate).
  - apply settles_update; [done|settling].
  - apply settles_update; [by apply quiet_put|settling].
  - apply settles_update; [by apply quiet_config|settling].
  - apply settles_update; [by apply quiet_put|settling].
  - unfold toggleBatchExpanded. settling.
  - apply settles_update; [apply quiet_primary|settling].
  - unfold duplicateBatchImage. settling; by apply settles_created.
  - unfold deleteBatchImage. cbv zeta. apply settles_update; [|settling]. intros node. unfold drop_image. cbv zeta. apply quiet_put_all. vm_compute. discriminate.
  - by intros x.
  - by intros x.
  - unfold stopGenerationByRunningId. settling. apply settles_map; [|settling].
    apply (quiet_if (λ node, has _ (n_id node))). intros node. unfold interrupt. destruct (is_loading node) eqn:E; [done|]. by rewrite E.
  - unfold undoCanvas. destruct (pop _) as [[rest e]|]; [|settling]. unfold applyHistory. settling. intros x. by apply quiet_entry_loads.
  - unfold redoCanvas. destruct (pop _) as [[rest e]|]; [|settling]. unfold applyHistory. settling. intros x. by apply quiet_entry_loads.
  - unfold commit. settling.
  - unfold applied. settling.
Qed.

(** The requests of the page *)
Lemma tame_requests ev p :
  tame ev p → stops ev = false →
  requests (handle tt ps pp hp pr pid ev p) = requests p ∧ aborted (handle tt ps pp hp pr pid ev p) = aborted p.
Proof.
  destruct ev; intros Ht Hs; try done; cbn [handle];
  unfold createNode, deleteNodes, clearCanvas, duplicateNode, copySelectedNodes, pasteCopiedNodes, undoCanvas, redoCanvas, handleConnectStart, createConnectedNode, deleteConnection,
    disconnectNodeReference, startNodeReferenceSelection, exitNodeReferenceSelection, selectNodeReference, handleNodeMouseDown,
    handleNodeSelectCapture, selectNodeByEvent, toggleBatchExpanded, duplicateBatchImage, deleteBatchImage, release_connection,
    connectNodes, handleDragMove, dragFrame, finishNodeDrag, commit, applied; cbv zeta; repeat case_match; done.
Qed.
End events.

Lemma render_keeps p q : requests (render p q) = requests q ∧ aborted (render p q) = aborted q ∧ p_nodes (render p q) = p_nodes q.
Proof. unfold render, save, record_history. repeat case_match; done. Qed.
