(* ===== verification/CanvasFlights.v ===== *)
(** Generations on a canvas: the invariant that ties nodes that are loading to flights and
    flights to the requests that are registered, and that every step of the page and of
    a flight keeps it. *)

From Stdlib Require Import ZArith NArith Lia.
From stdpp Require Import base list.
From S2P Require Import Prelude JsString JsNumber JsValue CanvasGraph CanvasGraphProps CanvasPrompt CanvasEditor CanvasHistory CanvasSound CanvasGenerate CanvasLoading.

Import Resources Helpers Geometry.

Implicit Types (node : CanvasNodeData) (nodes : list CanvasNodeData) (p q : Page) (f g : Flight) (st : Studio) (id nodeId : jstr).

(** * Flights and their requests *)

(** The nodes that a flight has requests for, and those it leaves loading meanwhile *)
Definition result_of f : list jstr :=
  match f_phase f with Drawing i _ _ | Recording i _ _ | Answering i _ => [i] | _ => [] end.
Definition targets f : list jstr := f_nodeId f :: result_of f.
Definition owes f : list jstr :=
  match f_phase f with
  | Hydrating _ => []
  | WritingBack _ => [f_nodeId f]
  | Recording i _ _ => [i]
  | Drawing i _ _ | Answering i _ => i :: if source_is TConfig f then [f_nodeId f] else []
  end.

Definition live f p : Prop := f_controller f ∉ aborted p.

Definition request_of f : Request := mkRequest (f_nodeId f) (f_nodeId f) (f_controller f).

(** The metadata of a result have no status, and a text is generated for a configuration or
    an empty text, or for a node whose status stays. *)
Definition flight_ok f : Prop :=
  (∀ i m z, f_phase f = Recording i m z → omap.get (reverse m) status = None ∧ (i = f_nodeId f → markSourceStatus f = true))
  ∧ (f_mode f = MText → markSourceStatus f = true → source_is TConfig f = true ∨ isEmptyTextNode f = true).

(** Every node that loads is owed by a flight that was not stopped, and such a flight has
    its requests registered. *)
Record studio_ok st : Prop := {
  so_controllers : NoDup (f_controller <$> flights st);
  so_loading : ∀ id, id ∈ loads (page st) → ∃ f, f ∈ flights st ∧ live f (page st) ∧ id ∈ owes f;
  so_requests : ∀ f, f ∈ flights st → live f (page st) → ∀ id, id ∈ targets f → omap.get (requests (page st)) id = Some (request_of f);
  so_entries : ∀ id r, omap.get (requests (page st)) id = Some r → ∀ f, f ∈ flights st → f_controller f = controller r →
    id ∈ targets f ∧ runningNodeId r = f_nodeId f;
  so_keys : NoDup (requests (page st)).*1;
  so_flights : ∀ f, f ∈ flights st → flight_ok f;
}.

Lemma owes_targets f id : id ∈ owes f → id ∈ targets f.
Proof. unfold owes, targets, result_of. destruct (f_phase f), (source_is TConfig f); set_solver. Qed.

Lemma same_flight (fs : list Flight) f g : NoDup (f_controller <$> fs) → f ∈ fs → g ∈ fs → f_controller f = f_controller g → f = g.
Proof.
  intros Hn (i & Hi)%list_elem_of_lookup (j & Hj)%list_elem_of_lookup E.
  assert (i = j) as <- by (eapply (NoDup_lookup (f_controller <$> fs)); [done|by rewrite list_lookup_fmap, Hi|by rewrite list_lookup_fmap, Hj, E]).
  congruence.
Qed.

(** Flights that were not stopped have no node in common. *)
Lemma disjoint_flights st f g id :
  studio_ok st → f ∈ flights st → g ∈ flights st → live f (page st) → live g (page st) → id ∈ targets f → id ∈ targets g → f = g.
Proof.
  intros H Hf Hg Lf Lg If Ig. apply (same_flight (flights st)); [apply H|done|done|].
  pose proof (so_requests _ H f Hf Lf id If) as E1. pose proof (so_requests _ H g Hg Lg id Ig) as E2. rewrite E1 in E2. by injection E2.
Qed.

(** ** Maps of requests *)

Lemma get_without (l : list (jstr * Request)) t k : omap.get (filter (λ x, x.1 ≠ t) l) k = if decide (k = t) then None else omap.get l k.
Proof.
  induction l as [|[k' r] l IH]; [by case_decide|]. rewrite filter_cons. cbn [fst omap.get].
  repeat case_decide; cbn [omap.get fst]; subst; rewrite ?IH; repeat case_decide; try done.
Qed.

Lemma get_filter (P : jstr * Request → Prop) `{!∀ x, Decision (P x)} (l : list (jstr * Request)) k r :
  NoDup l.*1 → omap.get l k = Some r → P (k, r) → omap.get (filter P l) k = Some r.
Proof.
  induction l as [|[k' r'] l IH]; [done|]. cbn [fmap list_fmap fst omap.get]. intros [Hn1 Hn2]%NoDup_cons E HP. rewrite filter_cons.
  case_decide as Hk.
  - subst. injection E as ->. rewrite decide_True by done. cbn. by rewrite decide_True.
  - case_decide; cbn; [rewrite decide_False by done|]; by apply IH.
Qed.

Lemma get_filter_inv (P : jstr * Request → Prop) `{!∀ x, Decision (P x)} (l : list (jstr * Request)) k r :
  NoDup l.*1 → omap.get (filter P l) k = Some r → omap.get l k = Some r.
Proof.
  intros Hn E. apply omap.get_Some_elem in E. apply list_elem_of_filter in E as [_ E]. by apply omap.elem_get.
Qed.

Lemma filter_keys (P : jstr * Request → Prop) `{!∀ x, Decision (P x)} (l : list (jstr * Request)) : NoDup l.*1 → NoDup (filter P l).*1.
Proof. intros Hn. eapply sublist_NoDup; [exact Hn|]. apply fmap_sublist, sublist_filter. Qed.

(** ** Events *)

Lemma studio_same st q :
  requests q = requests (page st) → aborted q = aborted (page st) → settles (page st) q → studio_ok st → studio_ok (mkStudio q (flights st)).
Proof.
  intros Er Ea Hl [H1 H2 H3 H4 H5 H6]. constructor; cbn [page flights]; unfold live; rewrite ?Er, ?Ea; try done.
  intros id Hid. by apply H2, Hl.
Qed.

Lemma studio_render p st : studio_ok st → studio_ok (mkStudio (render p (page st)) (flights st)).
Proof.
  intros H. destruct (render_keeps p (page st)) as (E1 & E2 & E3). apply studio_same; [done|done| |done]. intros x. unfold loads. by rewrite E3.
Qed.

Lemma stop_effect canceled running p :
  let stopped := filter (λ x, runs running x = true) (requests p) in
  let q := stopGenerationByRunningId canceled running p in
  requests q = filter (λ x, runs running x = false) (requests p) ∧ aborted q = aborted p ++ (controller <$> stopped.*2)
  ∧ ∀ id, id ∈ loads q → id ∈ loads p ∧ id ∉ stopped.*1.
Proof.
  intros stopped q. subst q. unfold stopGenerationByRunningId. fold stopped. destruct stopped as [|x l] eqn:Es; [split_and!; try done; set_solver|].
  rewrite <- Es. set (affected := concat _). split; [done|]. split; [done|]. intros id (node & (m & -> & Hm)%list_elem_of_fmap & Hid & Hl)%elem_of_loads.
  destruct (has affected (n_id m)) eqn:Eh.
  - unfold interrupt in Hl. destruct (is_loading m) eqn:Em; [|congruence]. revert Hl.
    rewrite !status_put by (vm_compute; discriminate). unfold is_loading. rewrite bool_decide_eq_true. change (js "status") with status.
    rewrite meta_put, decide_True by done. intros [=].
  - split; [apply elem_of_loads; by exists m|]. subst id. apply has_false in Eh. intros Hin. apply Eh. unfold affected.
    apply list_elem_of_fmap in Hin as ([k r] & -> & Hin). apply list_elem_of_In, in_concat. exists [k; originNodeId r].
    rewrite <- !list_elem_of_In. split; [|apply list_elem_of_here]. apply list_elem_of_fmap. by exists (k, r).
Qed.

Lemma stop_ok canceled running st : studio_ok st → studio_ok (mkStudio (stopGenerationByRunningId canceled running (page st)) (flights st)).
Proof.
  intros [H1 H2 H3 H4 H5 H6]. destruct (stop_effect canceled running (page st)) as (Er & Ea & Hl).
  set (stopped := filter (λ x, runs running x = true) (requests (page st))) in *.
  assert (∀ f, f ∈ flights st → live f (page st) → f_nodeId f ≠ running → f_controller f ∉ aborted (page st) ++ (controller <$> stopped.*2)) as Hlive.
  { intros f Hf Lf Hne [Hin|Hin]%elem_of_app; [done|]. apply list_elem_of_fmap in Hin as (r & Ec & (x & -> & Hx)%list_elem_of_fmap).
    apply list_elem_of_filter in Hx as [Hr Hx]. destruct x as [k r]. unfold runs in Hr. apply bool_decide_eq_true in Hr. cbn [snd] in *.
    destruct (H4 k r (omap.elem_get _ _ _ H5 Hx) f Hf Ec) as [_ E]. congruence. }
  assert (∀ f id, f ∈ flights st → live f (page st) → id ∈ targets f → f_nodeId f = running → id ∈ stopped.*1) as Hstopped.
  { intros f id Hf Lf Hid E. apply list_elem_of_fmap. exists (id, request_of f). split; [done|]. apply list_elem_of_filter.
    split; [by apply bool_decide_eq_true|]. by apply omap.get_Some_elem, H3. }
  constructor; cbn [page flights]; unfold live; rewrite ?Er, ?Ea; try done.
  - intros id [Hid Hn]%Hl. destruct (H2 id Hid) as (f & Hf & Lf & Ho). exists f. split; [done|]. split; [|done]. apply Hlive; [done|done|].
    intros E. apply Hn. eapply Hstopped; [done|done|by apply owes_targets|done].
  - intros f Hf Lf id Hid. assert (live f (page st)) as L0 by (intros ?; apply Lf; apply elem_of_app; by left).
    apply get_filter; [done|by apply H3|]. unfold runs. apply bool_decide_eq_false. cbn. intros E. apply Lf. apply elem_of_app. right.
    pose proof (Hstopped f id Hf L0 Hid E) as Hs. apply list_elem_of_fmap in Hs as ([k r] & -> & Hs). cbn [fst] in *.
    apply list_elem_of_fmap. exists r. split; [|by apply (list_elem_of_fmap_2 snd _ (k, r))].
    apply list_elem_of_filter in Hs as [_ Hs]. apply omap.elem_get in Hs; [|done]. rewrite (H3 f Hf L0 k Hid) in Hs. by injection Hs as <-.
  - intros id r E. apply get_filter_inv in E; [|done]. by apply H4.
  - by apply filter_keys.
Qed.

(** ** Flights that end *)

(** Some requests of one controller are gone. *)
Definition drops (c : nat) p q : Prop :=
  aborted q = aborted p ∧ (NoDup (requests p).*1 → NoDup (requests q).*1)
  ∧ (∀ id r, omap.get (requests q) id = Some r → omap.get (requests p) id = Some r)
  ∧ (∀ id r, omap.get (requests p) id = Some r → controller r ≠ c → omap.get (requests q) id = Some r).

Lemma drops_same c p q : requests q = requests p → aborted q = aborted p → drops c p q.
Proof. unfold drops. by intros -> ->. Qed.

Lemma drops_trans c p q r : drops c p q → drops c q r → drops c p r.
Proof. intros (A1 & A2 & A3 & A4) (B1 & B2 & B3 & B4). split_and!; [congruence|auto|auto|auto]. Qed.

Lemma drops_finish c id p : drops c p (finishGenerationRequest id c p).
Proof.
  unfold finishGenerationRequest. destruct (omap.get (requests p) id) as [r|] eqn:E; [|by apply drops_same].
  destruct (controller r =? c)%nat eqn:Ec; [|by apply drops_same]. apply Nat.eqb_eq in Ec. split_and!; cbn [requests with_requests].
  - done.
  - apply filter_keys.
  - intros k r'. rewrite get_without. by case_decide.
  - intros k r' Hk Hr. rewrite get_without. rewrite decide_False; [done|]. intros ->. congruence.
Qed.

Lemma drops_end f p : drops (f_controller f) p (end_flight f p).
Proof. unfold end_flight. eapply drops_trans; [apply drops_finish|by apply drops_same]. Qed.

Lemma drops_unregister f i p : drops (f_controller f) p (unregister_result f i p).
Proof. unfold unregister_result. case_bool_decide; [by apply drops_same|apply drops_finish]. Qed.

Lemma doc_finish id c p : doc (finishGenerationRequest id c p) = doc p.
Proof. unfold finishGenerationRequest. repeat case_match; done. Qed.

Lemma doc_unregister f i p : doc (unregister_result f i p) = doc p.
Proof. unfold unregister_result. case_bool_decide; [done|apply doc_finish]. Qed.

Lemma doc_end f p : doc (end_flight f p) = doc p.
Proof. unfold end_flight. cbn. apply doc_finish. Qed.

(** A flight ends when what it owes no longer loads, unless it was stopped. *)
Lemma landed f q st :
  studio_ok st → f ∈ flights st → drops (f_controller f) (page st) q →
  (∀ id, id ∈ loads q → id ∈ loads (page st) ∧ (live f (page st) → id ∉ owes f)) →
  studio_ok (mkStudio q (filter (λ g, f_controller g ≠ f_controller f) (flights st))).
Proof.
  intros [H1 H2 H3 H4 H5 H6] Hf (D1 & D2 & D3 & D4) Hl. constructor; cbn [page flights]; unfold live; rewrite ?D1.
  - eapply sublist_NoDup; [exact H1|]. apply fmap_sublist, sublist_filter.
  - intros id [Hid Ho]%Hl. destruct (H2 id Hid) as (g & Hg & Lg & Og). exists g. split; [|done]. apply list_elem_of_filter. split; [|done].
    intros E. assert (g = f) as -> by (by apply (same_flight (flights st))). by apply Ho.
  - intros g [Hne Hg]%list_elem_of_filter Lg id Hid. apply D4; [by apply H3|]. done.
  - intros id r E g [Hne Hg]%list_elem_of_filter. apply (H4 id r); [by apply D3|done].
  - auto.
  - intros g [_ Hg]%list_elem_of_filter. by apply H6.
Qed.

(** ** Flights that go on *)

Lemma elem_of_replaced c f' (fs : list Flight) g :
  g ∈ ((λ f, if (f_controller f =? c)%nat then f' else f) <$> fs) →
  (g = f' ∧ ∃ f, f ∈ fs ∧ f_controller f = c) ∨ (g ∈ fs ∧ f_controller g ≠ c).
Proof.
  intros (f & -> & Hf)%list_elem_of_fmap. destruct (f_controller f =? c)%nat eqn:E.
  - left. split; [done|]. exists f. split; [done|]. by apply Nat.eqb_eq.
  - right. split; [done|]. by apply Nat.eqb_neq.
Qed.

Lemma replaced_controllers f' (fs : list Flight) :
  f_controller <$> ((λ f, if (f_controller f =? f_controller f')%nat then f' else f) <$> fs) = f_controller <$> fs.
Proof.
  induction fs as [|f fs IH]; [done|]. rewrite !fmap_cons. f_equal; [|exact IH].
  destruct (_ =? _)%nat eqn:E; [|done]. symmetry. by apply Nat.eqb_eq.
Qed.

Lemma replaced_other c f' (fs : list Flight) g : g ∈ fs → f_controller g ≠ c → g ∈ ((λ f, if (f_controller f =? c)%nat then f' else f) <$> fs).
Proof. intros Hg Hc. apply list_elem_of_fmap. exists g. split; [|done]. by rewrite (proj2 (Nat.eqb_neq _ _) Hc). Qed.

Lemma replaced_self f f' (fs : list Flight) :
  f ∈ fs → f' ∈ ((λ g, if (f_controller g =? f_controller f)%nat then f' else g) <$> fs).
Proof. intros Hf. apply list_elem_of_fmap. exists f. split; [|done]. by rewrite Nat.eqb_refl. Qed.

(** A flight goes on waiting. *)
Lemma continues f f' q st :
  studio_ok st → f ∈ flights st → f_controller f' = f_controller f → f_nodeId f' = f_nodeId f → result_of f' = result_of f → owes f' = owes f →
  flight_ok f' →
  requests q = requests (page st) → aborted q = aborted (page st) → settles (page st) q →
  studio_ok (mkStudio q ((λ g, if (f_controller g =? f_controller f)%nat then f' else g) <$> flights st)).
Proof.
  intros H Hf Ec En Et Eo Hm Er Ea Hs. destruct (studio_same st q Er Ea Hs H) as [H1 H2 H3 H4 H5 H6]. cbn [page flights] in *.
  assert (targets f' = targets f) as Etf by (unfold targets; by rewrite En, Et). constructor; cbn [page flights].
  - rewrite <- Ec, replaced_controllers. done.
  - intros id Hid. destruct (H2 id Hid) as (g & Hg & Lg & Og). destruct (decide (f_controller g = f_controller f)) as [E|E].
    + assert (g = f) as -> by (by apply (same_flight (flights st))). exists f'. split; [by apply replaced_self|]. unfold live in *. by rewrite Ec, Eo.
    + exists g. split; [by apply replaced_other|done].
  - intros g [[-> _]|[Hg Hne]]%elem_of_replaced Lg id Hid; [|by apply H3].
    assert (request_of f' = request_of f) as -> by (unfold request_of; by rewrite Ec, En). unfold live in Lg. rewrite Ec in Lg. rewrite Etf in Hid. by apply H3.
  - intros id r E g [[-> _]|[Hg Hne]]%elem_of_replaced Hc; [|by apply (H4 id r)]. rewrite Etf, En. rewrite Ec in Hc. by apply (H4 id r).
  - done.
  - intros g [[-> _]|[Hg _]]%elem_of_replaced; [done|by apply H6].
Qed.

(** A flight that has read its media and was not stopped changes the document and registers
    the node of its result. *)
Lemma departs f f' i q st :
  studio_ok st → f ∈ flights st → live f (page st) → targets f = [f_nodeId f] → owes f = [] →
  f_controller f' = f_controller f → f_nodeId f' = f_nodeId f → result_of f' = [i] → i = f_nodeId f ∨ (∀ g, g ∈ flights st → i ∉ targets g) →
  flight_ok f' →
  aborted q = aborted (page st) → NoDup (requests q).*1 →
  (∀ k, omap.get (requests q) k = if decide (k = i) then Some (request_of f) else omap.get (requests (page st)) k) →
  (∀ id, id ∈ loads q → id ∈ owes f' ∨ id ∈ loads (page st)) →
  studio_ok (mkStudio q ((λ g, if (f_controller g =? f_controller f)%nat then f' else g) <$> flights st)).
Proof.
  intros [H1 H2 H3 H4 H5 H6] Hf Lf Ht Ho Ec En Er Hi Hm Ra Rk Rr Hl. constructor; cbn [page flights]; unfold live; rewrite ?Ra.
  - rewrite <- Ec, replaced_controllers. done.
  - intros id [Hid|Hid]%Hl.
    + exists f'. split; [by apply replaced_self|]. by rewrite Ec.
    + destruct (H2 id Hid) as (g & Hg & Lg & Og). exists g. split; [|done]. apply replaced_other; [done|].
      intros E. assert (g = f) as -> by (by apply (same_flight (flights st))). rewrite Ho in Og. by apply elem_of_nil in Og.
  - intros g [[-> _]|[Hg Hne]]%elem_of_replaced Lg id Hid; rewrite Rr.
    + assert (request_of f' = request_of f) as -> by (unfold request_of; by rewrite Ec, En). case_decide as E; [done|].
      unfold targets in Hid. rewrite Er, En in Hid. apply H3; [done|done|]. rewrite Ht. set_solver.
    + rewrite decide_False; [by apply H3|]. intros ->. destruct Hi as [->|Hi]; [|by apply (Hi g)].
      assert (f_nodeId f ∈ targets f) as Hn by apply list_elem_of_here. pose proof (H3 f Hf Lf _ Hn) as E1. pose proof (H3 g Hg Lg _ Hid) as E2.
      rewrite E1 in E2. injection E2 as _ _ E. by apply Hne.
  - intros id r E g [[-> _]|[Hg Hne]]%elem_of_replaced Hc; rewrite Rr in E; case_decide as Ei.
    + injection E as <-. unfold targets. rewrite Er, En. cbn. split; [set_solver|done].
    + rewrite Ec in Hc. destruct (H4 id r E f Hf Hc) as [Hin Hr]. rewrite Ht in Hin. unfold targets. rewrite En. set_solver.
    + injection E as <-. by destruct Hne.
    + by apply (H4 id r).
  - done.
  - intros g [[-> _]|[Hg _]]%elem_of_replaced; [done|by apply H6].
Qed.

(** ** Flights that start *)

Lemma takes_off f q st :
  studio_ok st → flight_ok f → result_of f = [] → f_controller f ∉ f_controller <$> flights st → f_controller f ∉ aborted q →
  (∀ r, r ∈ (requests (page st)).*2 → controller r ≠ f_controller f) →
  (∀ g, g ∈ flights st → live g (page st) → f_nodeId f ∉ targets g) →
  requests q = omap.set (requests (page st)) (f_nodeId f) (request_of f) →
  aborted q = aborted (page st) ++ (match omap.get (requests (page st)) (f_nodeId f) with Some r => if (controller r =? f_controller f)%nat then [] else [controller r] | None => [] end) →
  (∀ id, id ∈ loads q → id ∈ owes f ∨ id ∈ loads (page st)) →
  studio_ok (mkStudio q (flights st ++ [f])).
Proof.
  intros [H1 H2 H3 H4 H5 H6] Hok Er Hc Ha Hrc Hfree Rr Ra Hl.
  assert (∀ g, g ∈ flights st → live g (page st) → live g q) as Hlive.
  { intros g Hg Lg. unfold live. rewrite Ra. intros [Hin|Hin]%elem_of_app; [done|].
    destruct (omap.get (requests (page st)) (f_nodeId f)) as [r|] eqn:E; [|by apply elem_of_nil in Hin].
    destruct (_ =? _)%nat; [by apply elem_of_nil in Hin|]. apply list_elem_of_singleton in Hin.
    apply (Hfree g Hg Lg). by apply (H4 _ r E). }
  assert (∀ g, live g q → live g (page st)) as Hback by (intros g Lg Hin; apply Lg; rewrite Ra; apply elem_of_app; by left).
  assert (targets f = [f_nodeId f]) as Ht by (unfold targets; by rewrite Er).
  constructor; cbn [page flights].
  - rewrite fmap_app. apply NoDup_app. split; [done|]. split; [|apply NoDup_singleton]. intros c Hin Hc'. apply list_elem_of_singleton in Hc' as ->. done.
  - intros id [Hid|Hid]%Hl.
    + exists f. split; [apply elem_of_app; right; by apply list_elem_of_singleton|]. done.
    + destruct (H2 id Hid) as (g & Hg & Lg & Og). exists g. split; [apply elem_of_app; by left|]. auto.
  - intros g [Hg| ->%list_elem_of_singleton]%elem_of_app Lg id Hid; rewrite Rr.
    + rewrite omap.get_set_ne; [by apply H3; auto|]. intros <-. apply (Hfree g Hg); auto.
    + rewrite Ht in Hid. apply list_elem_of_singleton in Hid as ->. by rewrite omap.get_set_eq.
  - intros id r E g Hg Hcg. rewrite Rr in E. destruct (decide (f_nodeId f = id)) as [<-|Hne].
    + rewrite omap.get_set_eq in E. injection E as <-. apply elem_of_app in Hg as [Hg|Hg].
      * destruct Hc. change (f_controller f) with (controller (request_of f)). rewrite <- Hcg. by apply list_elem_of_fmap_2.
      * apply list_elem_of_singleton in Hg as ->. rewrite Ht. split; [by apply list_elem_of_singleton|done].
    + rewrite omap.get_set_ne in E by done. apply elem_of_app in Hg as [Hg|Hg]; [by apply (H4 id r)|].
      apply list_elem_of_singleton in Hg as ->. apply omap.get_Some_elem in E. apply (list_elem_of_fmap_2 snd) in E. by destruct (Hrc r E).
  - rewrite Rr. by apply omap.NoDup_set.
  - intros g [Hg| ->%list_elem_of_singleton]%elem_of_app; [by apply H6|done].
Qed.

(** * The machine *)

Section machine.
Context (tt : jstr → jstr) (ps : jstr → Spec) (pp hp : jstr → bool) (pr : CanvasNodeData → option Resource) (pid : jstr).
Context (label : Kind → nat → jstr) (write_back : jstr → bool) (edit_prompt : jstr → jstr → jstr) (generation_failed all_failed : jstr).
Context (Hps : ∀ type, prop (p_metadata (ps type)) status ≠ loading).

(** What has to hold when something happens: identifiers and controllers are fresh, a
    generation starts for a node that no other one is working on, a text is generated for
    a text, a configuration or an image, and a request is cancelled by stopping *)
Definition orderly (h : happening) st : Prop :=
  match h with
  | OnPage ev => tame ev (page st)
  | Begin c nodeId mode _ _ _ =>
      (c ∉ f_controller <$> flights st) ∧ (c ∉ aborted (page st)) ∧ (c ∉ controller <$> (requests (page st)).*2)
      ∧ Forall (λ g, f_controller g ∈ aborted (page st) ∨ nodeId ∉ targets g) (flights st)
      ∧ (mode ≠ MText ∨ match find_node nodeId (p_nodes (page st)) with Some node => n_type node ∈ [TText; TConfig; TImage] | None => False end)
  | Prepared _ _ fresh _ _ => (fresh ∉ (requests (page st)).*1) ∧ Forall (λ g, fresh ∉ targets g) (flights st)
  | Arrives c _ Canceled => c ∈ aborted (page st)
  | _ => True
  end.

#[export] Instance orderly_dec h st : Decision (orderly h st).
Proof. destruct h as [| | | | |? ? []]; cbn [orderly]; repeat case_match; apply _. Defined.

Lemma page_ok' ev st : studio_ok st → tame ev (page st) → studio_ok (mkStudio (step tt ps pp hp pr pid ev (page st)) (flights st)).
Proof.
  intros H Ht. unfold step. set (q := handle _ _ _ _ _ _ _ _). apply (studio_render (page st) (mkStudio q (flights st))). subst q.
  destruct (stops ev) eqn:Es; [destruct ev; try done; by apply stop_ok|].
  destruct (tame_requests tt ps pp hp pr pid ev (page st) Ht Es) as [E1 E2]. apply studio_same; [done|done|by apply tame_loads|done].
Qed.

Lemma begin_ok c nodeId mode prompt config ready st :
  studio_ok st → orderly (Begin c nodeId mode prompt config ready) st →
  let '(q, f) := begin_flight label pr write_back edit_prompt c nodeId mode prompt config ready (page st) in
  studio_ok (mkStudio q (flights st ++ option_list f)).
Proof.
  intros H (Hc & Ha & Hr & Hfree & Hmode). unfold begin_flight. destruct (negb ready); [by rewrite app_nil_r; destruct st|].
  set (source := find_node nodeId (p_nodes (page st))) in *.
  assert (∀ ph, (∀ i m z, ph ≠ Recording i m z) → flight_ok (mkFlight c nodeId mode prompt source config ph)) as Hok.
  { intros ph Hph. split; [intros i m z E; by destruct (Hph i m z)|]. cbn [f_mode]. intros ->. destruct Hmode as [?|Hmode]; [done|].
    unfold markSourceStatus, editingTextNode, isEmptyTextNode, sourceTextContent, source_is. cbn [f_source f_mode]. destruct source as [node|]; [|done].
    unfold is_type. rewrite !elem_of_cons, elem_of_nil in Hmode. destruct Hmode as [->|[->|[->|[]]]]; cbn; [|by left|done].
    destruct (truthy _); [done|by right]. }
  assert (∀ r, r ∈ (requests (page st)).*2 → controller r ≠ c) as Hrc by (intros r Hin E; apply Hr; rewrite <- E; by apply list_elem_of_fmap_2).
  assert (∀ g, g ∈ flights st → live g (page st) → nodeId ∉ targets g) as Hfr.
  { intros g Hg Lg. rewrite Forall_forall in Hfree. by destruct (Hfree g Hg). }
  assert (c ∉ aborted (page st) ++ (match omap.get (requests (page st)) nodeId with Some r => if (controller r =? c)%nat then [] else [controller r] | None => [] end)) as Hca.
  { intros [?|Hin]%elem_of_app; [done|]. destruct (omap.get (requests (page st)) nodeId) as [r|] eqn:E; [|by apply elem_of_nil in Hin].
    destruct (controller r =? c)%nat eqn:Ec; [by apply elem_of_nil in Hin|]. apply list_elem_of_singleton in Hin. apply Nat.eqb_neq in Ec. congruence. }
  cbv zeta. destruct (match source with Some node => write_back (n_type node) | None => false end).
  - destruct (truthy (trim prompt)); [|by rewrite app_nil_r; destruct st]. cbn [option_list from_option].
    apply takes_off; try done; [by apply Hok|]. intros x. intros Hx. apply loads_others in Hx as [->|Hx]; [left|right; exact Hx|intros node <-; apply put_all_id].
    apply list_elem_of_here.
  - apply takes_off; try done; [by apply Hok|]. intros x Hx. by right.
Qed.

(** ** The document is prepared *)

Lemma request_registered f i q st :
  studio_ok st → f ∈ flights st → live f (page st) → requests q = requests (page st) → aborted q = aborted (page st) →
  i = f_nodeId f ∨ i ∉ (requests (page st)).*1 →
  let q' := startGenerationRequest i (f_nodeId f) (f_nodeId f) (f_controller f) q in
  aborted q' = aborted (page st) ∧ NoDup (requests q').*1
  ∧ (∀ k, omap.get (requests q') k = if decide (k = i) then Some (request_of f) else omap.get (requests (page st)) k).
Proof.
  intros H Hf Lf Er Ea Hi q'. subst q'. unfold startGenerationRequest. cbn [aborted requests with_requests]. rewrite Er, Ea. split; [|split].
  - destruct Hi as [->|Hi%omap.get_None]; [|by rewrite Hi, app_nil_r].
    rewrite (so_requests _ H f Hf Lf) by apply list_elem_of_here. cbn. by rewrite Nat.eqb_refl, app_nil_r.
  - apply omap.NoDup_set, H.
  - intros k. case_decide as E; [subst; apply omap.get_set_eq|]. by apply omap.get_set_ne.
Qed.

Lemma result_registered f i q st :
  studio_ok st → f ∈ flights st → live f (page st) → requests q = requests (page st) → aborted q = aborted (page st) →
  i = f_nodeId f ∨ i ∉ (requests (page st)).*1 →
  let q' := register_result f i q in
  aborted q' = aborted (page st) ∧ NoDup (requests q').*1
  ∧ (∀ k, omap.get (requests q') k = if decide (k = i) then Some (request_of f) else omap.get (requests (page st)) k).
Proof.
  intros H Hf Lf Er Ea Hi q'. subst q'. unfold register_result. case_bool_decide as E; [|by apply request_registered]. rewrite Er, Ea.
  split; [done|]. split; [apply H|]. intros k. case_decide as Ek; [|done]. subst. apply (so_requests _ H f Hf Lf), list_elem_of_here.
Qed.

Lemma doc_register f i q : doc (register_result f i q) = doc q.
Proof. unfold register_result. by case_bool_decide. Qed.

(** Nodes are changed and one is added. *)
Lemma loads_changed (h : CanvasNodeData → CanvasNodeData) (more : list CanvasNodeData) p x :
  x ∈ loads (setNodes (λ nodes, (h <$> nodes) ++ more) p) →
  (∃ m, m ∈ p_nodes p ∧ n_id (h m) = x ∧ is_loading (h m) = true) ∨ (∃ m, m ∈ more ∧ n_id m = x).
Proof.
  intros (m & [Hm|Hm]%elem_of_app & Hid & Hl)%elem_of_loads; [left|right; by exists m].
  apply list_elem_of_fmap in Hm as (m0 & -> & Hm). by exists m0.
Qed.

Lemma drawing_source_loads f root m :
  n_id (drawing_source f root m) = n_id m
  ∧ (is_loading (drawing_source f root m) = true → source_is TConfig f = true ∨ isEmptyNode TImage f = true).
Proof.
  unfold drawing_source. destruct (source_is TConfig f); [split; [apply put_all_id|by left]|].
  destruct (isEmptyNode TImage f); [split; [done|by right]|]. destruct (source_is TImage f).
  - split; [apply put_all_id|]. by rewrite (status_set _ success).
  - split; [done|]. unfold is_loading, meta. cbn [n_metadata]. set (ks := [_; _; _; _; _]). fold (meta (put_all ks m) (js "status")).
    change (bool_decide (meta (put_all ks m) (js "status") = VStr (js "loading"))) with (is_loading (put_all ks m)).
    by rewrite (status_set _ success).
Qed.

Lemma loads_nodes p q : p_nodes q = p_nodes p → loads q = loads p.
Proof. unfold loads. by intros ->. Qed.

Lemma drawing_loads f fresh freshConnection itemIds effectivePrompt context p :
  let '(q, f') := start_drawing f fresh freshConnection itemIds effectivePrompt context p in
  ∀ x, x ∈ loads q → (∀ g, f' = Some g → x ∈ owes g) ∨ (x ∈ loads p ∧ x ≠ f_nodeId f).
Proof.
  unfold start_drawing. cbv zeta. set (empty := isEmptyNode TImage f). set (i := if empty then f_nodeId f else fresh).
  set (root := drawing_root _ _ _ _ _). set (h := λ node, if bool_decide _ then _ else _). intros x Hx.
  rewrite (loads_nodes (setNodes (λ nodes, (h <$> nodes) ++ (if empty then [] else [root])) p)) in Hx.
  2: { unfold p_nodes. rewrite doc_register. by destruct empty. }
  apply loads_changed in Hx as [(m & Hm & Hid & Hl)|(m & Hm & Hid)].
  - unfold h in Hid, Hl. case_bool_decide as E.
    + left. intros g [= <-]. unfold owes. cbn [f_phase with_phase]. destruct (drawing_source_loads f root m) as [E1 E2].
      rewrite E1, E in Hid. subst x. destruct (E2 Hl) as [Hc|He]; [change (source_is TConfig (with_phase _ f)) with (source_is TConfig f); rewrite Hc; set_solver|].
      subst i empty. rewrite He. apply list_elem_of_here.
    + right. split; [apply elem_of_loads; by exists m|congruence].
  - left. intros g [= <-]. unfold owes. cbn [f_phase with_phase]. destruct empty; [by apply elem_of_nil in Hm|].
    apply list_elem_of_singleton in Hm as ->. unfold root in Hid. rewrite <- Hid. unfold drawing_root. destruct (source_position f). apply list_elem_of_here.
Qed.

Lemma recording_node_id f i effectivePrompt context : n_id (recording_node f i effectivePrompt context) = i.
Proof. unfold recording_node. destruct (f_source f), (isEmptyNode (recording_type f) f), (source_position f); done. Qed.

Lemma recording_loads f fresh freshConnection effectivePrompt context p :
  let '(q, f') := start_recording f fresh freshConnection effectivePrompt context p in
  ∀ x, x ∈ loads q → (∀ g, f' = Some g → x ∈ owes g) ∨ (x ∈ loads p ∧ x ≠ f_nodeId f).
Proof.
  unfold start_recording. cbv zeta. set (empty := isEmptyNode _ f). set (i := if empty then f_nodeId f else fresh).
  set (child := recording_node _ _ _ _). intros x Hx.
  assert ((∃ m, m ∈ p_nodes p ∧ n_id m ≠ f_nodeId f ∧ n_id m = x ∧ is_loading m = true) ∨ x = i) as [(m & Hm & Hn & Hid & Hl)|E].
  { destruct empty.
    - apply elem_of_loads in Hx as (m & (m0 & -> & Hm)%list_elem_of_fmap & Hid & Hl). case_bool_decide; [|left; by exists m0].
      right. rewrite <- Hid. unfold child. apply recording_node_id.
    - apply loads_changed in Hx as [(m & Hm & Hid & Hl)|(m & Hm & Hid)].
      + case_bool_decide; [|left; by exists m]. change (is_loading (put_all [(status, success)] m) = true) in Hl. by rewrite (status_set _ success) in Hl.
      + right. apply list_elem_of_singleton in Hm as ->. rewrite <- Hid. unfold child. apply recording_node_id. }
  - right. split; [apply elem_of_loads; by exists m|congruence].
  - left. intros g [= <-]. subst x. apply list_elem_of_here.
Qed.

Lemma answering_root_id f i itemIds effectivePrompt : n_id (answering_root f i itemIds effectivePrompt) = i.
Proof. unfold answering_root. destruct (f_source f), (isEmptyTextNode f), (source_position f); done. Qed.

Lemma answering_loads f fresh freshConnection itemIds effectivePrompt p :
  let '(q, f') := start_answering f fresh freshConnection itemIds effectivePrompt p in
  ∀ x, x ∈ loads q → (∀ g, f' = Some g → x ∈ owes g)
    ∨ (x ∈ loads p ∧ (x = f_nodeId f → source_is TConfig f = false ∧ isEmptyTextNode f = false)).
Proof.
  unfold start_answering. cbv zeta. set (empty := isEmptyTextNode f). set (i := if empty then f_nodeId f else fresh).
  set (root := answering_root _ _ _ _). intros x Hx. unfold owes. cbn [f_phase with_phase].
  assert (∀ l, x ∈ i :: (if source_is TConfig f then [f_nodeId f] else []) → ∀ g, Some (with_phase (Answering i l) f) = Some g → x ∈ owes g) as Ho
    by (intros l Hin g [= <-]; exact Hin).
  destruct empty eqn:Ee.
  - rewrite (loads_nodes (update_node (f_nodeId f) (λ _, root) p)) in Hx by (unfold p_nodes; by rewrite doc_register).
    apply elem_of_loads in Hx as (m & (m0 & -> & Hm)%list_elem_of_fmap & Hid & Hl). case_bool_decide as E.
    + left. apply Ho. unfold root in Hid. rewrite answering_root_id in Hid. subst. apply list_elem_of_here.
    + right. split; [apply elem_of_loads; by exists m0|]. congruence.
  - set (h := λ node, if bool_decide _ && _ then _ else _) in *.
    rewrite (loads_nodes (setNodes (λ nodes, (h <$> nodes) ++ [root]) p)) in Hx by (unfold p_nodes; by rewrite doc_register).
    apply loads_changed in Hx as [(m & Hm & Hid & Hl)|(m & Hm & Hid)].
    + unfold h in Hid, Hl. destruct (bool_decide (n_id m = f_nodeId f)) eqn:E; cbn [andb] in Hid, Hl.
      * apply bool_decide_eq_true in E. destruct (source_is TConfig f) eqn:Ec.
        -- left. apply Ho. rewrite put_all_id in Hid. subst. rewrite E. set_solver.
        -- right. split; [apply elem_of_loads; by exists m|done].
      * apply bool_decide_eq_false in E. right. split; [apply elem_of_loads; by exists m|congruence].
    + left. apply Ho. apply list_elem_of_singleton in Hm as ->. unfold root in Hid. rewrite answering_root_id in Hid. subst. apply list_elem_of_here.
Qed.

(** The source is marked. *)
Definition marked f p : Page :=
  if markSourceStatus f
  then update_node (f_nodeId f) (λ node,
    put_all ((if is_type TConfig node then [] else [(js "prompt", VStr (f_prompt f))]) ++ [(status, loading); (errorDetails, VUndef)]) node) p
  else p.

Lemma marked_effect f p :
  requests (marked f p) = requests p ∧ aborted (marked f p) = aborted p ∧ (markSourceStatus f = false → marked f p = p)
  ∧ ∀ x, x ∈ loads (marked f p) → x = f_nodeId f ∨ x ∈ loads p.
Proof.
  unfold marked. destruct (markSourceStatus f); [|split_and!; auto]. split_and!; [done|done|done|].
  apply loads_others. intros node <-. apply put_all_id.
Qed.

(** The flight after a phase is known *)
Lemma departure f ph i q st :
  studio_ok st → f ∈ flights st → live f (page st) → (∃ context, f_phase f = Hydrating context) →
  result_of (with_phase ph f) = [i] → i = f_nodeId f ∨ (∀ g, g ∈ flights st → i ∉ targets g) → flight_ok (with_phase ph f) →
  (aborted q = aborted (page st) ∧ NoDup (requests q).*1
   ∧ ∀ k, omap.get (requests q) k = if decide (k = i) then Some (request_of f) else omap.get (requests (page st)) k) →
  (∀ id, id ∈ loads q → id ∈ owes (with_phase ph f) ∨ id ∈ loads (page st)) →
  studio_ok (mkStudio q (replace_flight (f_controller f) (Some (with_phase ph f)) (flights st))).
Proof.
  intros H Hf Lf [context Eph] Er Hi Hok (Ra & Rk & Rr) Hl. apply (departs f (with_phase ph f) i); try done.
  - unfold targets, result_of. by rewrite Eph.
  - unfold owes. by rewrite Eph.
Qed.

Lemma recording_phase_ok f fresh effectivePrompt context :
  f_mode f ≠ MText → fresh ≠ f_nodeId f → ∀ i m z,
  Recording (if isEmptyNode (recording_type f) f then f_nodeId f else fresh) (recording_metadata f effectivePrompt context) (recording_spec f)
  = Recording i m z → omap.get (reverse m) status = None ∧ (i = f_nodeId f → markSourceStatus f = true).
Proof.
  intros Hm Hf i m z [= <- <- _]. split; [unfold recording_metadata; by destruct (f_mode f)|].
  destruct (isEmptyNode (recording_type f) f) eqn:E; [|done]. intros _. unfold isEmptyNode in E. apply andb_true_iff in E as [E _].
  unfold markSourceStatus, editingTextNode. rewrite (bool_decide_eq_false_2 (f_mode f = MText)) by done. cbn [andb negb]. rewrite andb_true_r.
  unfold source_is in *. destruct (f_source f) as [node|]; [|done]. unfold is_type in *. apply bool_decide_eq_true in E.
  apply negb_true_iff, bool_decide_eq_false. rewrite E. unfold recording_type. by destruct (f_mode f).
Qed.

Lemma prepared_ok context images fresh freshConnection itemIds f st :
  studio_ok st → f ∈ flights st → f_phase f = Hydrating context →
  fresh ∉ (requests (page st)).*1 → (∀ g, g ∈ flights st → fresh ∉ targets g) →
  let '(q, next) := prepared f context images fresh freshConnection itemIds (page st) in
  studio_ok (mkStudio q (replace_flight (f_controller f) next (flights st))).
Proof.
  intros H Hf Eph Hk Ht. unfold prepared. cbv zeta. destruct (is_aborted f (page st) || _) eqn:Ea.
  { apply landed; [done|done|apply drops_end|]. intros id Hid. rewrite (loads_same (page st)) in Hid by apply doc_end. split; [done|].
    intros _. unfold owes. rewrite Eph. apply not_elem_of_nil. }
  apply orb_false_iff in Ea as [Ea _]. unfold is_aborted in Ea. apply bool_decide_eq_false in Ea. fold (marked f (page st)).
  destruct (marked_effect f (page st)) as (M1 & M2 & M3 & M4). set (p1 := marked f (page st)) in *.
  set (e := trim _). set (ctx := with_images _ _). pose proof (so_flights _ H f Hf) as [_ Htext].
  assert (∀ b : bool, (if b then f_nodeId f else fresh) = f_nodeId f ∨ (if b then f_nodeId f else fresh) ∉ (requests (page st)).*1) as Hi1
    by (intros []; auto).
  assert (∀ b : bool, (if b then f_nodeId f else fresh) = f_nodeId f ∨ (∀ g, g ∈ flights st → (if b then f_nodeId f else fresh) ∉ targets g)) as Hi2
    by (intros []; auto).
  assert (∀ ph, (∀ i m z, ph = Recording i m z → omap.get (reverse m) status = None ∧ (i = f_nodeId f → markSourceStatus f = true))
    → flight_ok (with_phase ph f)) as Hok by (intros ph Hph; by split).
  assert (fresh ≠ f_nodeId f) as Hfn by (intros ->; apply (Ht f Hf), list_elem_of_here).
  destruct (f_mode f) eqn:Em.
  - pose proof (answering_loads f fresh freshConnection itemIds e p1) as Hl. unfold start_answering in *. cbv zeta in *.
    eapply departure; [done|done|done|by eexists|reflexivity|apply Hi2|by apply Hok|..].
    + apply result_registered; try done; by destruct (isEmptyTextNode f).
    + intros id Hid. destruct (Hl id Hid) as [Ho|[Hp Hn]]; [left; by apply Ho|right]. destruct (M4 id Hp) as [->|?]; [|done].
      destruct (Hn eq_refl) as [N1 N2]. destruct (markSourceStatus f) eqn:Ems; [|by rewrite (M3 eq_refl) in Hp].
      destruct (Htext eq_refl eq_refl); congruence.
  - pose proof (drawing_loads f fresh freshConnection itemIds e ctx p1) as Hl. unfold start_drawing in *. cbv zeta in *.
    eapply departure; [done|done|done|by eexists|reflexivity|apply Hi2|by apply Hok|..].
    + apply result_registered; try done; by destruct (isEmptyNode TImage f).
    + intros id Hid. destruct (Hl id Hid) as [Ho|[Hp Hn]]; [left; by apply Ho|right]. by destruct (M4 id Hp).
  - pose proof (recording_loads f fresh freshConnection e ctx p1) as Hl. unfold start_recording in *. cbv zeta in *.
    eapply departure; [done|done|done|by eexists|reflexivity|apply Hi2|by apply Hok, recording_phase_ok; [rewrite Em|]|..].
    + apply request_registered; try done; by destruct (isEmptyNode _ f).
    + intros id Hid. destruct (Hl id Hid) as [Ho|[Hp Hn]]; [left; by apply Ho|right]. by destruct (M4 id Hp).
  - pose proof (recording_loads f fresh freshConnection e ctx p1) as Hl. unfold start_recording in *. cbv zeta in *.
    eapply departure; [done|done|done|by eexists|reflexivity|apply Hi2|by apply Hok, recording_phase_ok; [rewrite Em|]|..].
    + apply request_registered; try done; by destruct (isEmptyNode _ f).
    + intros id Hid. destruct (Hl id Hid) as [Ho|[Hp Hn]]; [left; by apply Ho|right]. by destruct (M4 id Hp).
Qed.

(** ** Answers *)

(** A flight goes on with another phase of the same kind. *)
Lemma waits ph f q st :
  studio_ok st → f ∈ flights st → result_of (with_phase ph f) = result_of f → owes (with_phase ph f) = owes f → flight_ok (with_phase ph f) →
  requests q = requests (page st) → aborted q = aborted (page st) → settles (page st) q →
  studio_ok (mkStudio q (replace_flight (f_controller f) (Some (with_phase ph f)) (flights st))).
Proof. intros. by apply (continues f (with_phase ph f)). Qed.

Lemma same_phase f : with_phase (f_phase f) f = f.
Proof. by destruct f. Qed.

Lemma waits_same f st : studio_ok st → f ∈ flights st → studio_ok (mkStudio (page st) (replace_flight (f_controller f) (Some f) (flights st))).
Proof.
  intros H Hf. rewrite <- (same_phase f) at 2. apply waits; rewrite ?same_phase; try done; [by apply H|apply settles_refl].
Qed.

Lemma quiet_drawn imageId u : quiet (drawn_node imageId u).
Proof.
  intros node. unfold drawn_node. cbv zeta. destruct (truthy_val _); [by apply quiet_put|].
  set (ks := [_; _; _; _; _; _; _; _]). destruct (quiet_put_all ks) with (node := node) as [H1 H2]; [vm_compute; discriminate|].
  by split.
Qed.

Lemma draw_effect f i item o p :
  requests (draw f i item o p) = requests p ∧ aborted (draw f i item o p) = aborted p ∧ settles p (draw f i item o p).
Proof.
  unfold draw. destruct o as [u|details|]; [|split_and!; [done|done|]|by split_and!; [done|done|apply settles_refl]].
  - destruct (source_is TConfig f); (split_and!; [done|done|]).
    + apply settles_update; [apply quiet_put_all; vm_compute; discriminate|]. apply settles_update; [apply quiet_drawn|apply settles_refl].
    + apply settles_update; [apply quiet_drawn|apply settles_refl].
  - apply settles_update; [|apply settles_refl]. intros node. by apply quiet_put.
Qed.

Lemma quiet_text item content ks : quiet (text_arrived item content ks).
Proof.
  intros node. unfold text_arrived. cbv zeta. split; [by case_bool_decide|]. rewrite status_put by (vm_compute; discriminate).
  case_bool_decide; [|done]. by rewrite status_put by (vm_compute; discriminate).
Qed.

Lemma answer_effect i item streamed_ o p :
  let q := (answer i item streamed_ o p).1 in requests q = requests p ∧ aborted q = aborted p ∧ settles p q.
Proof.
  unfold answer. destruct o as [v|details|]; cbn [fst]; (split_and!; [done|done|]).
  - apply settles_update; [apply quiet_text|apply settles_refl].
  - apply settles_update; [|apply settles_refl]. intros node. by apply quiet_put.
  - apply settles_refl.
Qed.

Lemma outcome_status b details node : is_loading (put_all (outcome_of b details) node) = false.
Proof. rewrite (status_set _ (if b then success else failed)) by reflexivity. by destruct b. Qed.

(** A change of the nodes after which what the flight owes does not load *)
Lemma loads_settled (h : CanvasNodeData → CanvasNodeData) (owed : list jstr) p :
  (∀ node, n_id (h node) = n_id node ∧ (is_loading (h node) = true → is_loading node = true ∧ n_id node ∉ owed)) →
  ∀ x, x ∈ loads (setNodes (λ nodes, h <$> nodes) p) → x ∈ loads p ∧ x ∉ owed.
Proof.
  intros H x (node & (m & -> & Hm)%list_elem_of_fmap & Hid & Hl)%elem_of_loads. destruct (H m) as [H1 H2]. destruct (H2 Hl) as [H3 H4].
  rewrite <- Hid, H1. split; [apply elem_of_loads; by exists m|done].
Qed.

Lemma settle_drawing_spec f i b node : (∃ l b', f_phase f = Drawing i l b') →
  let h := settle_drawing generation_failed all_failed f i b in
  n_id (h node) = n_id node ∧ (is_loading (h node) = true → is_loading node = true ∧ n_id node ∉ owes f).
Proof.
  intros (l & b' & Hph) h. subst h. assert (owes f = i :: if source_is TConfig f then [f_nodeId f] else []) as -> by (unfold owes; by rewrite Hph).
  unfold settle_drawing. destruct (bool_decide (n_id node = f_nodeId f) && source_is TConfig f) eqn:E.
  - split; [apply put_all_id|]. by rewrite outcome_status.
  - destruct (bool_decide (n_id node = i)) eqn:Ei; [split; [apply put_all_id|]; by rewrite outcome_status|]. apply bool_decide_eq_false in Ei.
    split; [done|]. intros Hl. split; [done|]. destruct (source_is TConfig f); [|set_solver]. rewrite andb_true_r in E. apply bool_decide_eq_false in E. set_solver.
Qed.

Lemma settle_answering_spec f i completed node : (∃ l, f_phase f = Answering i l) →
  let h := settle_answering generation_failed f i completed in
  n_id (h node) = n_id node ∧ (is_loading (h node) = true → is_loading node = true ∧ n_id node ∉ owes f).
Proof.
  intros [l Hph] h. subst h. assert (owes f = i :: if source_is TConfig f then [f_nodeId f] else []) as -> by (unfold owes; by rewrite Hph).
  unfold settle_answering. case_bool_decide as Ei.
  - cbv zeta. split; [apply put_all_id|]. set (primary := match List.find _ _ with Some _ => _ | None => _ end).
    rewrite (status_set _ (if bool_decide (is_Some primary) then success else failed)) by reflexivity. by destruct (bool_decide (is_Some primary)).
  - destruct (bool_decide (n_id node = f_nodeId f) && source_is TConfig f) eqn:E.
    + split; [apply put_all_id|]. by rewrite outcome_status.
    + split; [done|]. intros Hl. split; [done|]. destruct (source_is TConfig f); [|set_solver]. rewrite andb_true_r in E.
      apply bool_decide_eq_false in E. set_solver.
Qed.

(** A stopped flight ends without more. *)
Lemma landed_stopped f q st :
  studio_ok st → f ∈ flights st → f_controller f ∈ aborted (page st) → drops (f_controller f) (page st) q → settles (page st) q →
  studio_ok (mkStudio q (replace_flight (f_controller f) None (flights st))).
Proof. intros H Hf Ha Hd Hs. apply landed; [done|done|done|]. intros id Hid. split; [by apply Hs|]. intros Lf. by destruct Lf. Qed.

Lemma written_back_ok scene o f st :
  studio_ok st → f ∈ flights st → f_phase f = WritingBack scene → (o = Canceled → f_controller f ∈ aborted (page st)) →
  studio_ok (mkStudio (written_back f scene o (page st)) (replace_flight (f_controller f) None (flights st))).
Proof.
  intros H Hf Eph Hc. unfold written_back. cbv zeta.
  assert (∀ q, requests q = requests (page st) → aborted q = aborted (page st) → drops (f_controller f) (page st) (finishGenerationRequest (f_nodeId f) (f_controller f) q)) as Hd.
  { intros q E1 E2. eapply drops_trans; [by apply (drops_same _ _ q)|apply drops_finish]. }
  assert (∀ ks v, omap.get (reverse ks) status = Some v → v ≠ loading →
    ∀ id, id ∈ loads (patch_node (f_nodeId f) ks (page st)) → id ∈ loads (page st) ∧ (live f (page st) → id ∉ owes f)) as Hl.
  { intros ks v E Hv id Hid. apply loads_cured in Hid as [Hid Hne].
    - split; [done|]. intros _. unfold owes. rewrite Eph. set_solver.
    - intros node. split; [apply put_all_id|]. rewrite (status_set _ v) by done. by apply bool_decide_eq_false. }
  destruct o as [u|details|].
  - apply landed; [done|done|by apply Hd|]. intros id Hid. rewrite (loads_same (patch_node (f_nodeId f) _ (page st))) in Hid by (by rewrite doc_finish).
    by apply (Hl _ success) in Hid.
  - apply landed; [done|done|by apply Hd|]. intros id Hid. rewrite (loads_same (patch_node (f_nodeId f) _ (page st))) in Hid by (by rewrite doc_finish).
    by apply (Hl _ failed) in Hid.
  - apply landed_stopped; [done|done|by apply Hc|by apply Hd|]. intros x. by rewrite (loads_same (page st)) by apply doc_finish.
Qed.

Lemma end_drawing_ok i b q f st :
  studio_ok st → f ∈ flights st → (∃ l b', f_phase f = Drawing i l b') →
  requests q = requests (page st) → aborted q = aborted (page st) → settles (page st) q →
  studio_ok (mkStudio (end_drawing generation_failed all_failed f i b q) (replace_flight (f_controller f) None (flights st))).
Proof.
  intros H Hf Hph E1 E2 Hs. unfold end_drawing. cbv zeta. set (q1 := unregister_result f i q).
  destruct (drops_unregister f i q) as (D1 & _). fold q1 in D1.
  assert (∀ h, drops (f_controller f) (page st) (end_flight f (setNodes h q1))) as Hd.
  { intros h. eapply drops_trans; [by apply (drops_same _ _ q)|]. eapply drops_trans; [apply drops_unregister|]. fold q1.
    eapply drops_trans; [by apply (drops_same _ _ (setNodes h q1))|apply drops_end]. }
  assert (∀ h, loads (end_flight f (setNodes h q1)) = loads (setNodes h q)) as Hl.
  { intros h. apply loads_nodes. unfold p_nodes. rewrite doc_end. cbn. unfold p_nodes. by rewrite (doc_unregister f i q : doc q1 = doc q). }
  destruct (is_aborted f q1) eqn:Ea.
  - unfold is_aborted in Ea. apply bool_decide_eq_true in Ea. rewrite D1, E2 in Ea. apply landed_stopped; [done|done|done|apply Hd|].
    intros x. rewrite Hl. apply settles_map; [|done]. intros node. unfold stop_config. destruct (_ && _); [|done].
    apply quiet_put_all. vm_compute. discriminate.
  - apply landed; [done|done|apply Hd|]. intros id. rewrite Hl. intros Hid. apply (loads_settled _ (owes f)) in Hid as [Hid Ho].
    + split; [by apply Hs|done].
    + intros node. by apply settle_drawing_spec.
Qed.

Lemma end_answering_ok i replies q f st :
  studio_ok st → f ∈ flights st → (∃ l, f_phase f = Answering i l) →
  requests q = requests (page st) → aborted q = aborted (page st) → settles (page st) q →
  studio_ok (mkStudio (end_answering generation_failed f i replies q) (replace_flight (f_controller f) None (flights st))).
Proof.
  intros H Hf Hph E1 E2 Hs. unfold end_answering. cbv zeta. set (q1 := unregister_result f i q).
  destruct (drops_unregister f i q) as (D1 & D2 & D3 & D4). fold q1 in D1, D2, D3, D4.
  assert (drops (f_controller f) (page st) q1) as Hd1 by (eapply drops_trans; [by apply (drops_same _ _ q)|apply drops_unregister]).
  assert (p_nodes q1 = p_nodes q) as Hn by (unfold p_nodes; by rewrite (doc_unregister f i q : doc q1 = doc q)).
  destruct (is_aborted f q1) eqn:Ea.
  - unfold is_aborted in Ea. apply bool_decide_eq_true in Ea. rewrite D1, E2 in Ea. apply landed_stopped; [done|done|done|..].
    + eapply drops_trans; [exact Hd1|apply drops_end].
    + intros x. rewrite (loads_nodes q) by (unfold p_nodes; by rewrite doc_end). apply Hs.
  - set (q2 := if (_ <=? _)%nat then _ else q1). assert (requests q2 = requests q1 ∧ aborted q2 = aborted q1 ∧ doc q2 = doc q1) as (F1 & F2 & F3)
      by (unfold q2; by destruct (_ <=? _)%nat).
    apply landed; [done|done|..].
    + eapply drops_trans; [exact Hd1|]. set (h := λ nodes, _). eapply drops_trans; [by apply (drops_same _ _ (setNodes h q2))|apply drops_end].
    + intros id Hid. rewrite (loads_same _ _ (doc_end _ _)) in Hid. apply (loads_settled _ (owes f)) in Hid as [Hid Ho].
      * split; [|done]. apply Hs. by rewrite (loads_nodes q q2) in Hid by (unfold p_nodes; rewrite F3; exact Hn).
      * intros node. by apply settle_answering_spec.
Qed.

Lemma recorded_cured f m z v node :
  omap.get (reverse m) status = None → n_id (recorded_node f m z v node) = n_id node ∧ is_loading (recorded_node f m z v node) = false.
Proof.
  intros Hm. assert (∀ l, omap.get (reverse l) status = Some success →
    n_id (put_all (l ++ m) node) = n_id node ∧ is_loading (put_all (l ++ m) node) = false) as H.
  { intros l Hl. split; [apply put_all_id|]. rewrite (status_set _ success); [done|]. rewrite reverse_app. clear - Hm Hl.
    induction (reverse m) as [|[k w] l' IH]; [done|]. cbn in *. case_decide; [done|]. by apply IH. }
  unfold recorded_node. destruct (f_mode f); by apply H.
Qed.

Lemma record_ok i m z o f st :
  studio_ok st → f ∈ flights st → f_phase f = Recording i m z → (o = Canceled → f_controller f ∈ aborted (page st)) →
  studio_ok (mkStudio (record f i m z o (page st)) (replace_flight (f_controller f) None (flights st))).
Proof.
  intros H Hf Eph Hc. unfold record.
  destruct (proj1 (so_flights _ H f Hf) _ _ _ Eph) as [Hm Hms]. assert (owes f = [i]) as Eo by (unfold owes; by rewrite Eph).
  assert (∀ q, requests q = requests (page st) → aborted q = aborted (page st) → drops (f_controller f) (page st) (finishGenerationRequest i (f_controller f) q)) as Hd
    by (intros q E1 E2; eapply drops_trans; [by apply (drops_same _ _ q)|apply drops_finish]).
  destruct o as [v|details|].
  - apply landed; [done|done|eapply drops_trans; [by apply (Hd (update_node i (recorded_node f m z v) (page st)))|apply drops_end]|]. intros id Hid.
    rewrite (loads_same (update_node i (recorded_node f m z v) (page st))) in Hid by (by rewrite doc_end, doc_finish).
    apply loads_cured in Hid as [Hid Hne]; [|intros node; by apply recorded_cured]. split; [done|]. intros _. rewrite Eo. set_solver.
  - apply landed; [done|done|..].
    + eapply drops_trans; [by apply (Hd (page st))|]. set (h := λ nodes, _). set (q := finishGenerationRequest _ _ _).
      eapply drops_trans; [by apply (drops_same _ _ (setNodes h q))|apply drops_end].
    + intros id Hid. rewrite (loads_same _ _ (doc_end _ _)) in Hid.
      rewrite (loads_nodes (setNodes (λ nodes, broken_node f i details <$> nodes) (page st))) in Hid by (cbn; unfold p_nodes; by rewrite doc_finish).
      apply (loads_settled _ (owes f)) in Hid as [Hid Hn]; [by split|]. intros node. rewrite Eo. unfold broken_node.
      destruct (bool_decide (n_id node = f_nodeId f) && negb (markSourceStatus f)) eqn:E1.
      * apply andb_true_iff in E1 as [E1 E2]. apply bool_decide_eq_true in E1. apply negb_true_iff in E2. split; [done|]. intros Hl. split; [done|].
        intros Hin. apply list_elem_of_singleton in Hin. rewrite E1 in Hin. rewrite Hms in E2; done.
      * destruct (bool_decide (n_id node = f_nodeId f ∨ n_id node = i)) eqn:E2.
        -- split; [apply put_all_id|]. by rewrite (status_set _ failed).
        -- apply bool_decide_eq_false in E2. split; [done|]. intros Hl. split; [done|]. set_solver.
  - apply landed_stopped; [done|done|by apply Hc|eapply drops_trans; [by apply (Hd (page st))|apply drops_end]|].
    intros x. by rewrite (loads_same (page st)) by (by rewrite doc_end, doc_finish).
Qed.

Lemma drawing_phase_ok f i l b : flight_ok f → flight_ok (with_phase (Drawing i l b) f).
Proof. intros [_ H]. by split. Qed.
Lemma answering_phase_ok f i l : flight_ok f → flight_ok (with_phase (Answering i l) f).
Proof. intros [_ H]. by split. Qed.

Lemma arrived_ok item o f st :
  studio_ok st → f ∈ flights st → (o = Canceled → f_controller f ∈ aborted (page st)) →
  let '(q, next) := arrived generation_failed all_failed f item o (page st) in
  studio_ok (mkStudio q (replace_flight (f_controller f) next (flights st))).
Proof.
  intros H Hf Hc. pose proof (so_flights _ H f Hf) as Hok. unfold arrived. destruct (f_phase f) as [context|scene|i pending b|i m z|i replies] eqn:Eph.
  - by apply waits_same.
  - by apply written_back_ok.
  - destruct (has pending item); [|by apply waits_same]. destruct (draw_effect f i item o (page st)) as (E1 & E2 & E3).
    destruct (filter _ pending) as [|x l]; [by apply end_drawing_ok; [..|by eexists _, _| | |]|].
    apply waits; try done; [unfold result_of; by rewrite Eph|unfold owes; by rewrite Eph|by apply drawing_phase_ok].
  - by apply record_ok.
  - destruct (omap.get replies item) as [[s| | |]|]; try (by apply waits_same). pose proof (answer_effect i item s o (page st)) as (E1 & E2 & E3).
    destruct (answer i item s o (page st)) as [q r]. cbn [fst] in *. cbv zeta. destruct (existsb _ _).
    + apply waits; try done; [unfold result_of; by rewrite Eph|unfold owes; by rewrite Eph|by apply answering_phase_ok].
    + by apply end_answering_ok; [..|by eexists| | |].
Qed.

Lemma streamed_ok item text f st :
  studio_ok st → f ∈ flights st →
  let '(q, next) := streamed f item text (page st) in studio_ok (mkStudio q (replace_flight (f_controller f) next (flights st))).
Proof.
  intros H Hf. unfold streamed. destruct (f_phase f) as [context|scene|i pending b|i m z|i replies] eqn:Eph; try (by apply waits_same).
  destruct (omap.get replies item) as [[s| | |]|]; try (by apply waits_same).
  apply waits; try done; [unfold result_of; by rewrite Eph|unfold owes; by rewrite Eph|apply answering_phase_ok, H; done|].
  apply settles_update; [apply quiet_text|apply settles_refl].
Qed.

(** ** All together *)

Lemma fly_ok c (move : Flight → Page → Page * option Flight) st :
  studio_ok st →
  (∀ f, f ∈ flights st → f_controller f = c →
    let '(q, next) := move f (page st) in studio_ok (mkStudio q (replace_flight c next (flights st)))) →
  studio_ok (fly c move st).
Proof.
  intros H Hm. unfold fly. destruct (find_flight c (flights st)) as [f|] eqn:E; [|done]. apply List.find_some in E as [Hf Hc].
  apply list_elem_of_In in Hf. apply Nat.eqb_eq in Hc. specialize (Hm f Hf Hc). destruct (move f (page st)) as [q next].
  by apply (studio_render (page st) (mkStudio q (replace_flight c next (flights st)))).
Qed.

Lemma flight_advance_ok h st :
  studio_ok st → orderly h st → studio_ok (advance tt ps pp hp pr pid label write_back edit_prompt generation_failed all_failed h st).
Proof.
  intros H Ho. destruct h as [ev|c nodeId mode prompt config ready|c images fresh freshConnection itemIds|c|c item text|c item o]; cbn [advance].
  - by apply page_ok'.
  - pose proof (begin_ok c nodeId mode prompt config ready st H Ho) as Hb. destruct (begin_flight _ _ _ _ _ _ _ _ _ _ _) as [q f].
    by apply (studio_render (page st) (mkStudio q (flights st ++ option_list f))).
  - destruct Ho as [Ho1 Ho2]. rewrite Forall_forall in Ho2. apply fly_ok; [done|]. intros f Hf <-.
    destruct (f_phase f) eqn:Eph; try (by apply waits_same). by apply prepared_ok.
  - apply fly_ok; [done|]. intros f Hf <-. destruct (f_phase f) eqn:Eph; try (by apply waits_same).
    apply landed; [done|done|by apply drops_same|]. intros id Hid. split; [done|]. intros _. unfold owes. rewrite Eph. apply not_elem_of_nil.
  - apply fly_ok; [done|]. intros f Hf <-. by apply streamed_ok.
  - apply fly_ok; [done|]. intros f Hf <-. apply arrived_ok; [done|done|]. by intros ->.
Qed.

Inductive in_order : Studio → Prop :=
  | order_load restored : Forall (λ node, is_loading node = false) (val (e_nodes restored)) → in_order (mkStudio (load restored) [])
  | order_step h st : in_order st → orderly h st →
      in_order (advance tt ps pp hp pr pid label write_back edit_prompt generation_failed all_failed h st).

Lemma in_order_ok st : in_order st → studio_ok st.
Proof.
  induction 1 as [restored Hr|h st _ IH Ho]; [|by apply flight_advance_ok]. constructor; cbn; try done; try (intros f Hf; by apply elem_of_nil in Hf); try by constructor.
  intros id (node & Hn & _ & Hl)%elem_of_loads. rewrite Forall_forall in Hr. rewrite (Hr node Hn) in Hl. done.
Qed.
End machine.
