(* ===== verification/CanvasGenerateProps.v ===== *)
(** What generations on a canvas guarantee: no node is left loading, and the result of
    images that are answered in any order. *)

From Stdlib Require Import ZArith NArith Lia.
From stdpp Require Import base list.
From S2P Require Import Prelude JsString JsNumber JsValue CanvasGraph CanvasGraphProps CanvasPrompt CanvasEditor CanvasHistory CanvasSound CanvasGenerate CanvasLoading CanvasFlights.

Import Resources Helpers Geometry.

Implicit Types (node : CanvasNodeData) (nodes : list CanvasNodeData) (p q : Page) (f g : Flight) (st : Studio) (id nodeId : jstr).


(** * Images *)

Section images.
Implicit Types (answers : list (jstr * Outcome)) (items : list jstr).

Definition delivered (o : Outcome) : bool := match o with Delivered _ => true | _ => false end.

(** What an image is after some answers *)
Definition final_item answers id : jsval :=
  match omap.get answers id with
  | Some (Delivered u) => drawn_item id u
  | Some (Refused details) => set_fields [(status, failed); (errorDetails, VStr details)] (waiting_image id)
  | _ => waiting_image id
  end.

(** The first that was delivered *)
Definition first_drawn answers : option (jstr * jsval) :=
  head (base.omap (λ x, match x.2 with Delivered u => Some (x.1, u) | _ => None end) answers).

(** The images are generated into [old], an image node that is empty, or into a new node. *)
Context (old : option CanvasNodeData).

Definition old_meta (k : jstr) : jsval := match old with Some node => meta node k | None => VUndef end.

(** What the node shows: the first image that was delivered, unless it has the mark of a
    primary image already *)
Definition shown answers (k : jstr) (v : jstr * jsval → jsval) : jsval :=
  if truthy_val (old_meta (js "primaryImageId")) then old_meta k
  else match first_drawn answers with Some x => v x | None => old_meta k end.

(** The node of the result after some answers *)
Record root_state rootId answers items node : Prop := {
  rs_id : n_id node = rootId;
  rs_type : n_type node = TImage;
  rs_images : meta node (js "images") = VArr (final_item answers <$> items);
  rs_primary : meta node (js "primaryImageId") = shown answers (js "primaryImageId") (λ x, VStr x.1);
  rs_content : meta node (js "content") = shown answers (js "content") (λ x, prop x.2 (js "url"));
}.

Lemma get_snoc {A} (l : list (jstr * A)) k v x :
  k ∉ l.*1 → omap.get (l ++ [(k, v)]) x = if decide (x = k) then Some v else omap.get l x.
Proof.
  induction l as [|[k' v'] l IH]; cbn [app omap.get fmap list_fmap fst]; intros Hk.
  - by case_decide.
  - rewrite IH by set_solver. repeat case_decide; subst; set_solver.
Qed.

Lemma final_item_id answers id : prop (final_item answers id) (js "id") = VStr id.
Proof. unfold final_item. repeat case_match; done. Qed.

Lemma final_item_other answers id o x : id ∉ answers.*1 → x ≠ id → final_item (answers ++ [(id, o)]) x = final_item answers x.
Proof. intros Hid Hx. unfold final_item. by rewrite get_snoc, decide_False by done. Qed.

(** One item of the list is replaced. *)
Lemma map_final answers id o (h : jsval → jsval) items :
  id ∉ answers.*1 → h (final_item answers id) = final_item (answers ++ [(id, o)]) id →
  map_item id h (VArr (final_item answers <$> items)) = VArr (final_item (answers ++ [(id, o)]) <$> items).
Proof.
  intros Hid Hh. unfold map_item, map_items. f_equal. rewrite <- list_fmap_compose. apply list_fmap_ext. intros _ x _. cbn.
  rewrite final_item_id. case_bool_decide as E; [injection E as ->; done|]. by rewrite final_item_other by congruence.
Qed.

Lemma first_drawn_snoc answers id o :
  first_drawn (answers ++ [(id, o)])
  = match first_drawn answers, o with Some x, _ => Some x | None, Delivered u => Some (id, u) | None, _ => None end.
Proof.
  unfold first_drawn. rewrite omap_app. destruct (base.omap _ answers); [|done]. by destruct o.
Qed.

Lemma meta_images ks node : meta (put_all ks node) (js "images") = default (meta node (js "images")) (omap.get (reverse ks) (js "images")).
Proof. apply meta_put_all_get. Qed.

Lemma drawn_state rootId answers items id u node :
  root_state rootId answers items node → [] ∉ answers.*1 → id ∉ answers.*1 →
  root_state rootId (answers ++ [(id, Delivered u)]) items (drawn_node id u node).
Proof.
  intros [H1 H2 H3 H4 H5] Hne Hid. unfold drawn_node. cbv zeta. rewrite H3, H4.
  rewrite (map_final answers id (Delivered u)); [|done|unfold final_item; by rewrite get_snoc, decide_True by done].
  unfold shown in *. destruct (truthy_val (old_meta (js "primaryImageId"))) eqn:Eold.
  { rewrite Eold. constructor; try done; unfold shown; rewrite ?meta_put, ?Eold; try (rewrite decide_False by (vm_compute; discriminate)); done. }
  destruct (first_drawn answers) as [[i v]|] eqn:Ef.
  - assert (truthy_val (VStr i) = true) as Hi.
    { cbn. destruct i; [|done]. exfalso. apply Hne. unfold first_drawn in Ef. apply head_Some_elem_of in Ef.
      apply list_elem_of_omap in Ef as ([j o] & Hin & Eo). cbn in Eo. destruct o; [|done..]. injection Eo as -> _. by apply (list_elem_of_fmap_2 fst) in Hin. }
    cbn [fst]. rewrite Hi. constructor; try done; unfold shown; rewrite ?meta_put, ?Eold, ?first_drawn_snoc, ?Ef;
      try (rewrite decide_False by (vm_compute; discriminate)); try done.
  - rewrite Eold. set (ks := [_; _; _; _; _; _; _; _]). constructor; unfold shown; rewrite ?Eold, ?first_drawn_snoc, ?Ef.
    + etrans; [|exact H1]. apply put_all_id.
    + etrans; [|exact H2]. apply put_all_head.
    + change (meta (put_all ks node) (js "images") = VArr (final_item (answers ++ [(id, Delivered u)]) <$> items)). by rewrite meta_put_all_get.
    + change (meta (put_all ks node) (js "primaryImageId") = VStr id). by rewrite meta_put_all_get.
    + change (meta (put_all ks node) (js "content") = prop u (js "url")). by rewrite meta_put_all_get.
Qed.

(** What an answer does to the node of the result *)
Definition answered id (o : Outcome) node : CanvasNodeData :=
  match o with
  | Delivered u => drawn_node id u node
  | Refused details =>
      put_meta (js "images") (map_item id (set_fields [(status, failed); (errorDetails, VStr details)]) (meta node (js "images"))) node
  | Canceled => node
  end.

Lemma answered_state rootId answers items id o node :
  root_state rootId answers items node → [] ∉ answers.*1 → id ∉ answers.*1 →
  root_state rootId (answers ++ [(id, o)]) items (answered id o node).
Proof.
  intros H Hne Hid. assert (omap.get answers id = None) as Eg by (by apply omap.get_None). destruct o as [u|details|]; [by apply drawn_state|..]; destruct H as [H1 H2 H3 H4 H5].
  - assert (∀ k v, shown (answers ++ [(id, Refused details)]) k v = shown answers k v) as Esh.
    { intros k v. unfold shown. rewrite first_drawn_snoc. by destruct (first_drawn answers) as [[]|]. }
    constructor; try done; cbn [answered]; rewrite ?Esh.
    + rewrite meta_put, decide_True, H3 by done. apply map_final; [done|]. unfold final_item. by rewrite get_snoc, decide_True, Eg by done.
    + by rewrite meta_put, decide_False by (vm_compute; discriminate).
    + by rewrite meta_put, decide_False by (vm_compute; discriminate).
  - assert (∀ k v, shown (answers ++ [(id, Canceled)]) k v = shown answers k v) as Esh.
    { intros k v. unfold shown. rewrite first_drawn_snoc. by destruct (first_drawn answers) as [[]|]. }
    constructor; try done; cbn [answered]; rewrite ?Esh; try done.
    rewrite H3. f_equal. apply list_fmap_ext. intros _ x _. unfold final_item. rewrite get_snoc by done. case_decide; [|done]. subst. by rewrite Eg.
Qed.
End images.

(** ** The flight *)

Lemma find_node_update id j h nodes :
  (∀ node, n_id (h node) = n_id node) →
  find_node id ((λ node, if bool_decide (n_id node = j) then h node else node) <$> nodes)
  = (if decide (id = j) then h <$> find_node id nodes else find_node id nodes).
Proof.
  intros Hh. unfold find_node. induction nodes as [|node nodes IH]; [by case_decide|]. rewrite fmap_cons. cbn [List.find].
  assert (n_id (if bool_decide (n_id node = j) then h node else node) = n_id node) as -> by (by case_bool_decide).
  destruct (bool_decide (n_id node = id)) eqn:E; [|exact IH]. apply bool_decide_eq_true in E. subst id.
  case_decide as Ej; [by rewrite bool_decide_eq_true_2|by rewrite bool_decide_eq_false_2].
Qed.

Lemma find_node_map id h nodes : (∀ node, n_id (h node) = n_id node) → find_node id (h <$> nodes) = h <$> find_node id nodes.
Proof.
  intros Hh. unfold find_node. induction nodes as [|node nodes IH]; [done|]. rewrite fmap_cons. cbn [List.find]. rewrite Hh. by case_bool_decide.
Qed.

Lemma find_flight_replaced c f f' (fs : list Flight) :
  find_flight c fs = Some f → f_controller f' = c → find_flight c (replace_flight c (Some f') fs) = Some f'.
Proof.
  intros H Hc. unfold find_flight in *. cbn [replace_flight]. induction fs as [|g fs IH]; [done|]. rewrite fmap_cons. cbn [List.find] in *.
  destruct (f_controller g =? c)%nat eqn:E; [by rewrite Hc, Nat.eqb_refl|]. rewrite E. by apply IH.
Qed.

Lemma replace_twice c f' (next : option Flight) (fs : list Flight) :
  f_controller f' = c → replace_flight c next (replace_flight c (Some f') fs) = replace_flight c next fs.
Proof.
  intros Hc. destruct next as [f2|]; cbn [replace_flight].
  - rewrite <- list_fmap_compose. apply list_fmap_ext. intros _ g _. cbn. destruct (f_controller g =? c)%nat eqn:E; [by rewrite Hc, Nat.eqb_refl|by rewrite E].
  - induction fs as [|g fs IH]; [done|]. rewrite fmap_cons, !filter_cons, IH. destruct (f_controller g =? c)%nat eqn:E.
    + apply Nat.eqb_eq in E. rewrite decide_False by congruence. by rewrite decide_False by congruence.
    + done.
Qed.

Section flight.
Context (tt : jstr → jstr) (ps : jstr → Spec) (pp hp : jstr → bool) (pr : CanvasNodeData → option Resource) (pid : jstr).
Context (label : Kind → nat → jstr) (write_back : jstr → bool) (edit_prompt : jstr → jstr → jstr) (generation_failed all_failed : jstr).
Context (old : option CanvasNodeData).

Abbreviation root_state := (root_state old).
Abbreviation advance := (advance tt ps pp hp pr pid label write_back edit_prompt generation_failed all_failed).
Abbreviation advance_all := (advance_all tt ps pp hp pr pid label write_back edit_prompt generation_failed all_failed).

Lemma drawn_node_id id u node : n_id (drawn_node id u node) = n_id node.
Proof. apply quiet_drawn. Qed.

Lemma answered_id id o node : n_id (answered id o node) = n_id node.
Proof. destruct o; [apply drawn_node_id|done|done]. Qed.

Lemma nodes_update id h p : p_nodes (update_node id h p) = (λ node, if bool_decide (n_id node = id) then h node else node) <$> p_nodes p.
Proof. done. Qed.

(** The node of the result is not a configuration that images are generated for. *)
Definition apart f rootId : Prop := source_is TConfig f = true → rootId ≠ f_nodeId f.

Lemma draw_finds f rootId id o p :
  apart f rootId → find_node rootId (p_nodes (draw f rootId id o p)) = answered id o <$> find_node rootId (p_nodes p).
Proof.
  intros Hr. unfold draw. destruct o as [u|details|]; cbn [answered].
  - assert (find_node rootId (p_nodes (update_node rootId (drawn_node id u) p)) = drawn_node id u <$> find_node rootId (p_nodes p)) as E
      by (rewrite nodes_update, find_node_update by apply drawn_node_id; by rewrite decide_True).
    destruct (source_is TConfig f) eqn:Ec; [|exact E]. unfold patch_node. rewrite nodes_update, find_node_update by apply put_all_id.
    by rewrite decide_False, E by auto.
  - rewrite nodes_update, find_node_update by done. by rewrite decide_True.
  - by destruct (find_node _ _).
Qed.

(** One of the images is answered. *)
Lemma arrives_step c f rootId pending b id o st :
  find_flight c (flights st) = Some f → f_phase f = Drawing rootId pending b → id ∈ pending →
  let b' := b || delivered o in
  let q := draw f rootId id o (page st) in
  advance (Arrives c id o) st
  = match filter (λ i, i ≠ id) pending with
    | [] => mkStudio (render (page st) (end_drawing generation_failed all_failed f rootId b' q)) (replace_flight c None (flights st))
    | rest => mkStudio (render (page st) q) (replace_flight c (Some (with_phase (Drawing rootId rest b') f)) (flights st))
    end.
Proof.
  intros Hf Hph Hid b' q. cbn [CanvasGenerate.advance]. unfold fly. rewrite Hf. unfold arrived. rewrite Hph.
  unfold has. rewrite bool_decide_eq_true_2 by done. cbv zeta. destruct (filter _ pending); done.
Qed.

Lemma page_render p q : p_nodes (render p q) = p_nodes q ∧ aborted (render p q) = aborted q ∧ doc (render p q) = doc q.
Proof. unfold render, save, record_history. repeat case_match; done. Qed.

(** The end of a flight that was not stopped *)
Definition result_status (b : bool) : jsval := if b then success else failed.

Lemma ended_state rootId answers items b details node :
  root_state rootId answers items node →
  root_state rootId answers items (put_all (outcome_of b details) node) ∧ meta (put_all (outcome_of b details) node) status = result_status b.
Proof.
  intros [H1 H2 H3 H4 H5]. split; [|by rewrite meta_put_all_get]. by constructor; rewrite ?meta_put_all_get.
Qed.

Lemma end_drawing_finds f rootId answers items b node q :
  apart f rootId → f_controller f ∉ aborted q → find_node rootId (p_nodes q) = Some node → root_state rootId answers items node →
  ∃ root, find_node rootId (p_nodes (end_drawing generation_failed all_failed f rootId b q)) = Some root
    ∧ root_state rootId answers items root ∧ meta root status = result_status b.
Proof.
  intros Hr Ha Hn Hs. unfold end_drawing. cbv zeta. set (q1 := unregister_result f rootId q).
  destruct (drops_unregister f rootId q) as (D1 & _). fold q1 in D1. unfold is_aborted. rewrite D1, bool_decide_eq_false_2 by done.
  set (h := settle_drawing generation_failed all_failed f rootId b). exists (put_all (outcome_of b all_failed) node).
  split; [|by apply ended_state]. assert (p_nodes (end_flight f (setNodes (λ nodes, h <$> nodes) q1)) = h <$> p_nodes q) as ->.
  { unfold p_nodes at 1. rewrite doc_end. change (h <$> p_nodes q1 = h <$> p_nodes q). unfold p_nodes. by rewrite (doc_unregister f rootId q : doc q1 = doc q). }
  rewrite find_node_map.
  - rewrite Hn. cbn [fmap option_fmap option_map]. f_equal. unfold h, settle_drawing. rewrite (rs_id _ _ _ _ _ Hs), (bool_decide_eq_true_2 (rootId = rootId)) by done.
    destruct (source_is TConfig f) eqn:Ec; [rewrite bool_decide_eq_false_2 by auto; done|by rewrite andb_false_r].
  - intros m. unfold h, settle_drawing. repeat case_match; try apply put_all_id; done.
Qed.

Lemma filter_answered (id : jstr) (l pending : list jstr) : NoDup (id :: l) → pending ≡ₚ id :: l → filter (λ i, i ≠ id) pending ≡ₚ l.
Proof.
  intros [Hid _]%NoDup_cons Hp. rewrite Hp, filter_cons, decide_False by auto. rewrite filter_id; [done|]. apply Forall_forall. intros x Hx ->. done.
Qed.

(** Answers in any order *)
Lemma all_answered c rootId items todo : ∀ done_ f pending st node,
  find_flight c (flights st) = Some f → f_controller f = c → f_phase f = Drawing rootId pending (existsb (λ x, delivered x.2) done_) →
  apart f rootId → c ∉ aborted (page st) → NoDup (done_ ++ todo).*1 → [] ∉ (done_ ++ todo).*1 → pending ≡ₚ todo.*1 → todo ≠ [] →
  find_node rootId (p_nodes (page st)) = Some node → root_state rootId done_ items node →
  let st' := advance_all ((λ x, Arrives c x.1 x.2) <$> todo) st in
  flights st' = filter (λ g, f_controller g ≠ c) (flights st)
  ∧ ∃ root, find_node rootId (p_nodes (page st')) = Some root ∧ root_state rootId (done_ ++ todo) items root
    ∧ meta root status = result_status (existsb (λ x, delivered x.2) (done_ ++ todo)).
Proof.
  induction todo as [|[id o] todo IH]; intros done_ f pending st node Hf Hc Hph Hr Ha Hnd Hne Hp Ht Hn Hs; [done|]. clear Ht.
  rewrite fmap_app in Hnd, Hne. cbn [fmap list_fmap fst] in *. pose proof Hnd as (Hnd1 & Hdis & Hnd2)%NoDup_app.
  assert (id ∉ done_.*1) as Hid by (intros Hin; apply (Hdis id Hin), list_elem_of_here).
  assert ([] ∉ done_.*1) as Hne1 by (intros ?; apply Hne, elem_of_app; by left).
  assert (id ∈ pending) as Hin by (rewrite Hp; apply list_elem_of_here).
  pose proof (filter_answered id todo.*1 pending Hnd2 Hp) as Hrest.
  pose proof (arrives_step c f rootId pending (existsb (λ x, delivered x.2) done_) id o st Hf Hph Hin) as Hstep. cbv zeta in Hstep.
  pose proof (draw_finds f rootId id o (page st) Hr) as Hdraw. rewrite Hn in Hdraw. cbn [fmap option_fmap option_map] in Hdraw.
  pose proof (answered_state old rootId done_ items id o node Hs Hne1 Hid) as Hs'.
  destruct (draw_effect f rootId id o (page st)) as (_ & Eab & _). set (q := draw f rootId id o (page st)) in *.
  assert (existsb (λ x, delivered x.2) (done_ ++ [(id, o)]) = existsb (λ x, delivered x.2) done_ || delivered o) as Eb
    by (rewrite existsb_app; cbn; by rewrite orb_false_r).
  cbn [CanvasGenerate.advance_all foldl]. cbn [fst snd]. rewrite Hstep. destruct todo as [|y todo].
  - apply Permutation_nil_r in Hrest. rewrite Hrest. cbn [fmap list_fmap foldl page flights]. split; [done|].
    destruct (page_render (page st) (end_drawing generation_failed all_failed f rootId (existsb (λ x, delivered x.2) done_ || delivered o) q)) as (-> & _ & _).
    rewrite Eb. apply (end_drawing_finds _ _ _ _ _ (answered id o node)); [done|by rewrite Eab, Hc|done|done].
  - destruct (filter (λ i, i ≠ id) pending) as [|r rest] eqn:Ef; [apply Permutation_nil_l in Hrest; done|].
    set (f' := with_phase (Drawing rootId (r :: rest) (existsb (λ x, delivered x.2) done_ || delivered o)) f).
    set (st1 := mkStudio (render (page st) q) (replace_flight c (Some f') (flights st))).
    destruct (page_render (page st) q) as (En & Ea & _).
    destruct (IH (done_ ++ [(id, o)]) f' (r :: rest) st1 (answered id o node)) as [IH1 IH2].
    + by apply (find_flight_replaced c f).
    + done.
    + unfold f'. cbn [f_phase with_phase]. by rewrite Eb.
    + done.
    + cbn [page st1]. by rewrite Ea, Eab.
    + rewrite <- app_assoc. cbn [app]. rewrite fmap_app. exact Hnd.
    + rewrite <- app_assoc. cbn [app]. rewrite fmap_app. exact Hne.
    + exact Hrest.
    + done.
    + cbn [page st1]. by rewrite En.
    + done.
    + rewrite <- app_assoc in IH2. split; [|exact IH2]. etrans; [exact IH1|]. cbn [flights st1]. by apply (replace_twice c f' None).
Qed.

(** ** From the start *)

Lemma drawing_root_state f rootId items effectivePrompt context :
  old = None → root_state rootId [] items (drawing_root f rootId items effectivePrompt context).
Proof.
  intros ->. unfold drawing_root. cbv zeta. destruct (source_position f) as [x y]. set (more := buildImageGenerationMetadata _ _ _ _).
  assert (∀ k, k ∈ [js "images"; js "primaryImageId"; js "content"] → omap.get more k = None) as Hm.
  { intros k Hk. unfold more, buildImageGenerationMetadata. rewrite !elem_of_cons, elem_of_nil in Hk.
    destruct Hk as [->|[->|[->|[]]]]; destruct (truthy_val _); reflexivity. }
  constructor; try done; unfold meta; cbn [n_metadata prop]; rewrite get_spread by (apply Hm; set_solver); done.
Qed.

Lemma find_node_snoc id node nodes : id ∉ n_id <$> nodes → n_id node = id → find_node id (nodes ++ [node]) = Some node.
Proof.
  intros Hid Hn. unfold find_node. induction nodes as [|m nodes IH]; cbn [app List.find]; [by rewrite bool_decide_eq_true_2|].
  rewrite fmap_cons in Hid. rewrite bool_decide_eq_false_2 by set_solver. apply IH. set_solver.
Qed.

(** Into an empty image: the node itself becomes the node of the result. *)
Lemma drawing_source_state f items effectivePrompt context node :
  old = Some node → n_id node = f_nodeId f → n_type node = TImage → isEmptyNode TImage f = true →
  root_state (f_nodeId f) [] items (drawing_source f (drawing_root f (f_nodeId f) items effectivePrompt context) node).
Proof.
  intros -> Hid Hty He. assert (source_is TConfig f = false) as Hc.
  { unfold isEmptyNode, source_is in *. destruct (f_source f) as [m|]; [|done]. unfold is_type in *. apply andb_true_iff in He as [He _].
    apply bool_decide_eq_true in He. apply bool_decide_eq_false. rewrite He. by vm_compute. }
  unfold drawing_source. rewrite Hc, He. set (root := drawing_root _ _ _ _ _). set (ks := fields (n_metadata root) ++ [(errorDetails, VUndef)]).
  assert (omap.get (reverse ks) (js "images") = Some (VArr (waiting_image <$> items)) ∧ omap.get (reverse ks) (js "primaryImageId") = None
    ∧ omap.get (reverse ks) (js "content") = None) as (E1 & E2 & E3).
  { subst ks root. unfold drawing_root. destruct (source_position f) as [x y]. cbn [n_metadata]. unfold buildImageGenerationMetadata.
    destruct (truthy_val _); split_and!; reflexivity. }
  constructor; [done|done|..]; unfold shown, old_meta.
  - change (meta (put_all ks node) (js "images") = VArr (final_item [] <$> items)). by rewrite meta_put_all_get, E1.
  - change (meta (put_all ks node) (js "primaryImageId") = if truthy_val (meta node (js "primaryImageId")) then meta node (js "primaryImageId") else meta node (js "primaryImageId")).
    rewrite meta_put_all_get, E2. by destruct (truthy_val _).
  - change (meta (put_all ks node) (js "content") = if truthy_val (meta node (js "primaryImageId")) then meta node (js "content") else meta node (js "content")).
    rewrite meta_put_all_get, E3. by destruct (truthy_val _).
Qed.

(** Where the images go: into the node itself, which is then on the page and an image, or
    into a new node *)
Definition result_id f fresh : jstr := if isEmptyNode TImage f then f_nodeId f else fresh.

Definition result_ready f fresh p : Prop :=
  if isEmptyNode TImage f
  then ∃ node, old = Some node ∧ find_node (f_nodeId f) (p_nodes p) = Some node ∧ n_type node = TImage
  else old = None ∧ fresh ∉ n_id <$> p_nodes p ∧ fresh ∉ (requests p).*1 ∧ fresh ≠ f_nodeId f.

(** The document when the images are awaited *)
Lemma prepared_drawing c f context images fresh freshConnection items st :
  find_flight c (flights st) = Some f → f_phase f = Hydrating context → f_mode f = MImage → c ∉ aborted (page st) → result_ready f fresh (page st) →
  let st1 := advance (Prepared c images fresh freshConnection items) st in
  let rootId := result_id f fresh in
  flights st1 = replace_flight c (Some (with_phase (Drawing rootId items false) f)) (flights st) ∧ c ∉ aborted (page st1) ∧ apart f rootId
  ∧ ∃ root, find_node rootId (p_nodes (page st1)) = Some root ∧ root_state rootId [] items root.
Proof.
  intros Hf Hph Hm Ha Hready. cbn [CanvasGenerate.advance]. unfold fly. rewrite Hf, Hph. unfold prepared. cbv zeta.
  assert (f_controller f = c) as Hc by (apply List.find_some in Hf as [_ Hf]; by apply Nat.eqb_eq).
  unfold is_aborted. rewrite Hc, bool_decide_eq_false_2, Hm by done. cbn [orb]. rewrite (bool_decide_eq_false_2 (MImage = MText ∨ MImage = MAudio)) by naive_solver.
  rewrite andb_false_r. set (e := trim _). fold (marked f (page st)). destruct (marked_effect f (page st)) as (M1 & M2 & M4 & _).
  unfold result_ready in Hready. unfold result_id, start_drawing. destruct (isEmptyNode TImage f) eqn:He; cbv zeta; cbn [page flights].
  - destruct Hready as (node & Hold & Hfind & Hty).
    assert (source_is TImage f = true) as Hi by (unfold isEmptyNode in He; by apply andb_true_iff in He as [? _]).
    rewrite M4 by (unfold markSourceStatus; by rewrite Hi).
    split; [done|]. set (root := drawing_root _ _ _ _ _). set (h := λ nodes, _ ++ []). set (q := setNodes h (page st)).
    destruct (page_render (page st) (register_result f (f_nodeId f) (show_source (f_nodeId f) q))) as (-> & -> & _).
    unfold register_result. rewrite bool_decide_eq_true_2 by done. split; [done|]. split.
    { intros Hcfg. unfold source_is, is_type in *. destruct (f_source f); [|done]. apply bool_decide_eq_true in Hi, Hcfg. rewrite Hi in Hcfg. by vm_compute in Hcfg. }
    exists (drawing_source f root node). split.
    + change (find_node (f_nodeId f) (h (p_nodes (page st))) = Some (drawing_source f root node)). unfold h. rewrite app_nil_r.
      rewrite find_node_update by (intros; apply drawing_source_loads). by rewrite decide_True, Hfind.
    + apply drawing_source_state; [done| |done|done]. unfold find_node in Hfind. apply List.find_some in Hfind as [_ E]. by apply bool_decide_eq_true in E.
  - destruct Hready as (Hold & Hn & Hk & Hne).
    assert (n_id <$> p_nodes (marked f (page st)) = n_id <$> p_nodes (page st)) as M3.
    { unfold marked. destruct (markSourceStatus f); [|done]. rewrite nodes_update, <- list_fmap_compose. apply list_fmap_ext. intros _ m _. cbn.
      case_bool_decide; [apply put_all_id|done]. }
    set (p1 := marked f (page st)) in *. split; [done|].
    set (root := drawing_root _ _ _ _ _). set (h := λ node, if bool_decide (n_id node = f_nodeId f) then drawing_source f root node else node). set (q := setNodes _ p1).
    destruct (page_render (page st) (register_result f fresh (show_source (f_nodeId f) (connect_result freshConnection (f_nodeId f) fresh q)))) as (-> & -> & _).
    split; [|split; [by intros _|]].
    + unfold register_result. rewrite bool_decide_eq_false_2 by done. unfold startGenerationRequest. cbn [aborted with_requests requests].
      change (requests (show_source _ _)) with (requests p1). change (aborted (show_source _ _)) with (aborted p1). rewrite M1, M2.
      by rewrite (proj2 (omap.get_None _ _) Hk), app_nil_r.
    + exists root. split; [|by apply drawing_root_state]. unfold p_nodes. rewrite doc_register. change (find_node fresh ((h <$> p_nodes p1) ++ [root]) = Some root).
      apply find_node_snoc; [|by apply (rs_id old fresh [] items), drawing_root_state]. rewrite <- list_fmap_compose.
      erewrite list_fmap_ext; [by rewrite M3|]. intros _ m _. cbn. unfold h. case_bool_decide; [|done]. apply drawing_source_loads.
Qed.
End flight.

(** C20: Images that are generated, and answered in any order while nothing else happens to the
    page, end as follows, when they go into a new node and also when they go into the empty
    image node itself: the flight is over; the node of the result has succeeded when one
    image was delivered and failed otherwise; every image is what its own request was
    answered with; and the node shows the first image that was delivered.  A node that is
    generated into and already has the mark of a primary image keeps that mark and what it
    showed. *)
Theorem images_settled (tt : jstr → jstr) (ps : jstr → Spec) (pp hp : jstr → bool) (pr : CanvasNodeData → option Resource)
    (pid : jstr) (label : Kind → nat → jstr) (write_back : jstr → bool) (edit_prompt : jstr → jstr → jstr) (generation_failed all_failed : jstr)
    old c f context images fresh freshConnection items answers st :
  find_flight c (flights st) = Some f → f_phase f = Hydrating context → f_mode f = MImage →
  c ∉ aborted (page st) → result_ready old f fresh (page st) →
  NoDup items → [] ∉ items → items ≠ [] → answers.*1 ≡ₚ items →
  let st' := advance_all tt ps pp hp pr pid label write_back edit_prompt generation_failed all_failed
    (Prepared c images fresh freshConnection items :: ((λ x, Arrives c x.1 x.2) <$> answers)) st in
  flights st' = filter (λ g, f_controller g ≠ c) (flights st)
  ∧ ∃ root, find_node (result_id f fresh) (p_nodes (page st')) = Some root ∧ n_type root = TImage
    ∧ meta root status = (if existsb (λ x, delivered x.2) answers then success else failed)
    ∧ meta root (js "images") = VArr (final_item answers <$> items)
    ∧ meta root (js "primaryImageId") = shown old answers (js "primaryImageId") (λ x, VStr x.1)
    ∧ meta root (js "content") = shown old answers (js "content") (λ x, prop x.2 (js "url")).
Proof.
  intros Hf Hph Hm Ha Hready Hnd Hem Hit Hp. cbn [advance_all foldl].
  destruct (prepared_drawing tt ps pp hp pr pid label write_back edit_prompt generation_failed all_failed old c f context images fresh freshConnection items st
    Hf Hph Hm Ha Hready) as (E1 & E2 & Hap & node & E3 & E4). set (st1 := advance _ _ _ _ _ _ _ _ _ _ _ _ st) in *.
  assert (f_controller f = c) as Hc by (apply List.find_some in Hf as [_ Hf]; by apply Nat.eqb_eq).
  set (f' := with_phase (Drawing (result_id f fresh) items false) f) in *.
  destruct (all_answered tt ps pp hp pr pid label write_back edit_prompt generation_failed all_failed old c (result_id f fresh) items answers [] f' items st1 node)
    as (F1 & root & F2 & [R1 R2 R3 R4 R5] & F3); try done.
  - rewrite E1. by apply (find_flight_replaced c f).
  - by rewrite app_nil_l, Hp.
  - rewrite app_nil_l, Hp. done.
  - intros ->. by apply Permutation_nil_l in Hp.
  - split; [|by exists root]. etrans; [exact F1|]. rewrite E1. by apply (replace_twice c f' None).
Qed.

(** * Examples *)

Module Atelier.

Definition advance : happening → Studio → Studio :=
  advance id Demo.spec (λ _, false) (λ _, false) (λ _, None) (js "p") (λ _ n, digits (N.of_nat n)) (λ _, false) (λ s t, s ++ t) (js "failed") (js "all failed").
Definition all : list happening → Studio → Studio :=
  advance_all id Demo.spec (λ _, false) (λ _, false) (λ _, None) (js "p") (λ _ n, digits (N.of_nat n)) (λ _, false) (λ s t, s ++ t) (js "failed") (js "all failed").

Definition node (i type : jstr) (metadata : list (jstr * jsval)) : CanvasNodeData :=
  mkNode i type i num_0 num_0 (num_of_Z 340) (num_of_Z 240) (VObj metadata).
(** Two configurations and, in a group, an empty text *)
Definition document : Entry :=
  mkEntry (mkRef 0 [node (js "k") TConfig []; node (js "l") TConfig []; node (js "g") TGroup []; node (js "t") TText [(groupId, VStr (js "g"))]])
    (mkRef 1 []) (mkRef 2 (VArr [])) None (js "lines") false.
Definition start : Studio := mkStudio (load document) [].

Definition config : jsval := VObj [(js "model", VStr (js "m")); (js "count", VStr (js "2")); (js "size", VStr (js "1:1"))].
Definition generate (c : nat) (i : jstr) (mode : Mode) : happening := Begin c i mode (js "a cat") config true.
Definition picture (url : jstr) : Outcome :=
  Delivered (VObj [(js "url", VStr url); (js "storageKey", VStr (js "image:" ++ url)); (js "width", VNum (num_of_Z 10)); (js "height", VNum (num_of_Z 10))]).

Definition statuses (st : Studio) : list (jstr * jsval) := (λ m, (n_id m, meta m status)) <$> p_nodes (page st).

(** Two generations at once: one is stopped, and the first image of the other fails. *)
Definition session : list happening :=
  [generate 1 (js "k") MImage; Prepared 1 [] (js "r1") (js "c1") [js "i1"; js "i2"]; generate 2 (js "l") MText; OnPage (ChangeTitle (js "k") (js "K"));
   Prepared 2 [] (js "r2") (js "c2") [js "t1"]; Streams 2 (js "t1") (js "a c"); Arrives 1 (js "i2") (Refused (js "no")); OnPage CommitTimer;
   OnPage (StopRequests (js "canceled") (js "l")); Arrives 2 (js "t1") Canceled; Arrives 1 (js "i1") (picture (js "u"))].
End Atelier.

Section order.
Context (tt : jstr → jstr) (ps : jstr → Spec) (pp hp : jstr → bool) (pr : CanvasNodeData → option Resource) (pid : jstr).
Context (label : Kind → nat → jstr) (write_back : jstr → bool) (edit_prompt : jstr → jstr → jstr) (generation_failed all_failed : jstr).

Abbreviation advance := (advance tt ps pp hp pr pid label write_back edit_prompt generation_failed all_failed).

Fixpoint orderly_all (hs : list happening) st : Prop :=
  match hs with [] => True | h :: hs => orderly h st ∧ orderly_all hs (advance h st) end.

#[export] Instance orderly_all_dec hs st : Decision (orderly_all hs st).
Proof. revert st. induction hs; cbn [orderly_all]; apply _. Defined.

Lemma in_order_all hs st :
  in_order tt ps pp hp pr pid label write_back edit_prompt generation_failed all_failed st → orderly_all hs st →
  in_order tt ps pp hp pr pid label write_back edit_prompt generation_failed all_failed
    (advance_all tt ps pp hp pr pid label write_back edit_prompt generation_failed all_failed hs st).
Proof.
  revert st. induction hs as [|h hs IH]; intros st H; [done|]. intros [H1 H2]. apply (IH (advance h st)); [|done]. by apply order_step.
Qed.
End order.

Example session_statuses :
  Atelier.statuses (Atelier.all Atelier.session Atelier.start)
  = [(js "k", success); (js "l", idle); (js "g", VUndef); (js "t", VUndef); (js "r1", success); (js "r2", idle)].
Proof. by vm_compute. Qed.


(** Of two images the second is delivered and the first refused. *)
Lemma images_settled_witness :
  let st := Atelier.advance (Atelier.generate 1 (js "k") MImage) Atelier.start in
  let answers := [(js "i2", Atelier.picture (js "u")); (js "i1", Refused (js "no"))] in
  let st' := Atelier.all (Prepared 1 [] (js "r") (js "c") [js "i1"; js "i2"] :: ((λ x, Arrives 1 x.1 x.2) <$> answers)) st in
  flights st' = [] ∧ ∃ root, find_node (js "r") (p_nodes (page st')) = Some root ∧ meta root status = success
  ∧ meta root (js "content") = VStr (js "u") ∧ meta root (js "primaryImageId") = VStr (js "i2").
Proof.
  set (st := Atelier.advance (Atelier.generate 1 (js "k") MImage) Atelier.start).
  set (answers := [(js "i2", Atelier.picture (js "u")); (js "i1", Refused (js "no"))]). cbv zeta.
  destruct (find_flight 1 (flights st)) as [f|] eqn:Ef; [|exfalso; revert Ef; vm_compute; discriminate].
  destruct (f_phase f) as [context| | | |] eqn:Eph; try (exfalso; revert Ef Eph; vm_compute; intros [= <-]; discriminate).
  destruct (images_settled id Demo.spec (λ _, false) (λ _, false) (λ _, None) (js "p") (λ _ n, digits (N.of_nat n)) (λ _, false) (λ s t, s ++ t)
    (js "failed") (js "all failed") None 1 f context [] (js "r") (js "c") [js "i1"; js "i2"] answers st) as (H1 & root & H2 & _ & H3 & _ & H4 & H5).
  - exact Ef.
  - exact Eph.
  - revert Ef. vm_compute. by intros [= <-].
  - apply (bool_decide_unpack _). by vm_compute.
  - assert (isEmptyNode TImage f = false ∧ f_nodeId f = js "k") as [He Hk] by (revert Ef; vm_compute; by intros [= <-]).
    unfold result_ready. rewrite He, Hk. split_and!; [done|apply (bool_decide_unpack _); by vm_compute..|by vm_compute].
  - apply (bool_decide_unpack _). by vm_compute.
  - apply (bool_decide_unpack _). by vm_compute.
  - done.
  - apply perm_swap.
  - split; [etrans; [exact H1|]; by vm_compute|]. assert (result_id f (js "r") = js "r") as Er by (revert Ef; vm_compute; by intros [= <-]).
    rewrite Er in H2. exists root. split; [exact H2|]. split; [exact H3|]. split; [exact H5|exact H4].
Defined.

(** Generating into an empty image: the node itself gets the images, and no node is added. *)
Example images_into_empty_node :
  let p := Atelier.advance (OnPage (CreateNode (js "e") TImage num_0 num_0 VUndef)) Atelier.start in
  let st := Atelier.all
    [Atelier.generate 1 (js "e") MImage; Prepared 1 [] (js "r") (js "c") [js "i1"; js "i2"]; Arrives 1 (js "i2") (Refused (js "no"));
     Arrives 1 (js "i1") (Atelier.picture (js "u"))] p in
  flights st = [] ∧ (n_id <$> p_nodes (page st)) = (n_id <$> p_nodes (page p))
  ∧ (λ node, (meta node status, meta node (js "content"), meta node (js "primaryImageId"))) <$> find_node (js "e") (p_nodes (page st))
    = Some (success, VStr (js "u"), VStr (js "i1")).
Proof. by vm_compute. Qed.

(** Undoing after a generation brings back the document that was recorded while the node of
    the result was loading; nothing will settle it. *)
Example undo_shows_loading :
  let st := Atelier.all
    [Atelier.generate 1 (js "k") MImage; Prepared 1 [] (js "r") (js "c") [js "i"]; OnPage CommitTimer; Arrives 1 (js "i") (Atelier.picture (js "u"));
     OnPage CommitTimer; OnPage Undo; OnPage ApplyTimeout] Atelier.start in
  flights st = [] ∧ requests (page st) = [] ∧ (js "r", loading) ∈ Atelier.statuses st.
Proof. split_and!; [by vm_compute|by vm_compute|]. apply (bool_decide_unpack _). by vm_compute. Qed.

(** A copy of a node that is loading is never settled. *)
Example copy_left_loading :
  let st := Atelier.all
    [Atelier.generate 1 (js "k") MImage; Prepared 1 [] (js "r") (js "c") [js "i"]; OnPage (DuplicateNode (js "d") (js "r"));
     Arrives 1 (js "i") (Atelier.picture (js "u"))] Atelier.start in
  flights st = [] ∧ (js "r", success) ∈ Atelier.statuses st ∧ (js "d", loading) ∈ Atelier.statuses st.
Proof. split; [by vm_compute|]. split; apply (bool_decide_unpack _); by vm_compute. Qed.

(** Starting a second generation elsewhere offers to start one for the first node again,
    which cancels its requests and leaves its result loading. *)
Example second_run_leaves_loading :
  let st := Atelier.all
    [Atelier.generate 1 (js "k") MImage; Prepared 1 [] (js "r1") (js "c1") [js "i1"]; Atelier.generate 2 (js "l") MImage;
     Atelier.generate 3 (js "k") MImage; Arrives 1 (js "i1") Canceled; Prepared 3 [] (js "r3") (js "c3") [js "i3"];
     Prepared 2 [] (js "r2") (js "c2") [js "i2"]; Arrives 2 (js "i2") (Atelier.picture (js "u")); Arrives 3 (js "i3") (Atelier.picture (js "v"))] Atelier.start in
  flights st = [] ∧ (js "r1", loading) ∈ Atelier.statuses st ∧ (js "r3", success) ∈ Atelier.statuses st.
Proof. split; [by vm_compute|]. split; apply (bool_decide_unpack _); by vm_compute. Qed.

(** The end of one generation hides that another is running. *)
Example running_mark_lost :
  let st := Atelier.all
    [Atelier.generate 1 (js "k") MImage; Prepared 1 [] (js "r1") (js "c1") [js "i1"]; Atelier.generate 2 (js "l") MImage;
     Prepared 2 [] (js "r2") (js "c2") [js "i2"]; Arrives 1 (js "i1") (Atelier.picture (js "u"))] Atelier.start in
  marks (ui (page st)) Running = None ∧ f_nodeId <$> flights st = [js "l"].
Proof. by vm_compute. Qed.

(** When the media of a prompt cannot be read, the generation is over but its request and
    the mark of the running node stay. *)
Example unreadable_media_stay_running :
  let st := Atelier.all [Atelier.generate 1 (js "k") MImage; HydrationFails 1] Atelier.start in
  flights st = [] ∧ (requests (page st)).*1 = [js "k"] ∧ marks (ui (page st)) Running = Some (js "k").
Proof. by vm_compute. Qed.

(** A node that is deleted while its media are read gets a result connected to it. *)
Example result_of_deleted_node :
  let st := Atelier.all
    [Atelier.generate 1 (js "k") MImage; OnPage (DeleteNodes [js "k"]); Prepared 1 [] (js "r") (js "c") [js "i"]] Atelier.start in
  find_node (js "k") (p_nodes (page st)) = None ∧ (λ conn, (fromNodeId conn, toNodeId conn)) <$> p_connections (page st) = [(js "k", js "r")].
Proof. by vm_compute. Qed.

(** Generating into an empty text takes it out of its group. *)
Example generated_text_leaves_group :
  let st := Atelier.all [Atelier.generate 1 (js "t") MText; Prepared 1 [] (js "r") (js "c") [js "i"]] Atelier.start in
  (λ node, meta node groupId) <$> find_node (js "t") (p_nodes (page Atelier.start)) = Some (VStr (js "g"))
  ∧ (λ node, meta node groupId) <$> find_node (js "t") (p_nodes (page st)) = Some VUndef.
Proof. by vm_compute. Qed.
